(* ===== verification/_CoqProject ===== *)
-Q . S2P
Prelude.v
GoHeap.v
GoStd.v
Queue.v
QueueFacts.v
SchedulerSpec.v
QueueProps.v
JobTable.v
GoJson.v
GoJsonFacts.v
GoTime.v
Fairshare.v
CircuitBreaker.v
Tracker.v
GoRegexp.v
Messaging.v
Matchmaker.v
Store.v
Config.v
World.v
Server.v
Dispatch.v
Master.v
Hoare.v
Demo.v
Panics.v
Restart.v
MasterProps.v
Gang.v
Persist.v
Stall.v
GoText.v
GoFloat.v
Discovery.v
Worker.v
WorkerProps.v
Cluster.v
Profiler.v
ProfilerProps.v
Cli.v
Submission.v
Setup.v
Process.v
ProcessProps.v
Threads.v
Goroutines.v
Alone.v
Interleave.v
Quiesce.v
Safety.v
Catchup.v
Races.v
Commands.v
CommandProps.v
Lasting.v
