(* ===== verification/Prelude.v ===== *)
(** * Tasch: a verification development

    Tasch (deziss/tasch) is a distributed job scheduler in one Go binary.  A
    master keeps a priority queue of jobs, matches their CEL requirements with
    the class ads that workers gossip, reserves GPUs, cores and memory, and sends
    start messages over ZeroMQ; workers acknowledge, run the command and report
    over gRPC; job records go to a bbolt database from which a master restores
    its queue.  This library is a shallow embedding of that program: a struct is
    a record, a method a function on the state, a handler or a turn of a loop a
    computation of the state monad [M] (None is a Go panic), a running process a
    list of events.  The master is modelled twice: one event after the other
    ([Master.step]), and as goroutines whose calls interleave ([Interleave.fire]);
    without interference the second does what the first does (Alone.v).

    ** The code and its model

    pkg/scheduler/queue.go: Queue.v, method by method, on GoHeap.v, which is
    container/heap.  Pointers are locations of an object store, so that the heap
    and the job table share objects; the hooks append to [dbWriteChan].
    QueueFacts.v has the heap order and the pointer invariants; SchedulerSpec.v
    the abstract scheduler (a table and a set of pending IDs) with one simulation
    lemma for each method; QueueProps.v the theorems; JobTable.v what a method
    does to the table without the protocol of the specification.

    pkg/scheduler/fairshare.go and internal/daemon/master.go (circuit breaker,
    resource tracker, CEL hints): Fairshare.v (binary64 through SpecFloat),
    CircuitBreaker.v, Tracker.v, GoRegexp.v.

    pkg/messaging: Messaging.v.  pkg/matchmaker: Matchmaker.v; cel-go is the class
    [CEL].  internal/store: Store.v (Open in Process.v); bbolt is the class [Bolt]
    with its laws [BoltLaws].  encoding/json, times as JSON and the UTF-8 it needs: GoJson.v,
    GoJsonFacts.v, GoTime.v.  internal/config: Config.v (SaveConfig in Process.v).

    internal/daemon/master.go: World.v (the server's state), Server.v (every gRPC
    handler and the retry timer), Dispatch.v (matching, gang scheduling,
    backfill, the enforcers, the HTTP endpoints), Master.v (restoring, the other
    goroutines, and [step], the master as a transition system), Process.v
    ([start_master]: what StartMaster opens and closes, and in which order).

    The goroutines of that file: Threads.v has threads as trees of atomic actions
    (a call under a mutex, a send to [dbWriteChan] after it, the Lock and Unlock
    around Backfill's callback), [run] for a thread on its own, and the logic
    ([safe], a rely-guarantee judgement; [shape], how a thread uses the mutex).
    Goroutines.v writes every handler and loop as a thread, call by call; Alone.v
    shows that a thread without interference is the handler of Server.v,
    Dispatch.v and Master.v; Interleave.v is the machine: the shared state, the
    holder of the mutex, the write in the database goroutine's hands, the closed
    channel and the threads, with [fire] for one action of one of them.  An action
    ends the process ([Crash]) when the code panics, when it sends on the closed
    channel or closes it again, and when it writes the map [UserUsage] while a
    thread is in the middle of ranging over it ([access]: SaveFairshare encodes
    the live map without the calculator's mutex).

    internal/daemon/worker.go, exec_*.go and pkg/discovery: Worker.v (the
    subscriber, the consumer, every task from its acknowledgement to its report,
    StartWorker) and Discovery.v.  pkg/profiler: Profiler.v, for every platform.
    internal/cli: Cli.v (requests and printed text) and Commands.v (the command
    tree).  internal/setup: Setup.v.  cmd/tasch/main.go and
    internal/daemon/stop.go: Process.v.  GoStd.v, GoText.v and GoFloat.v have
    what is used of Go's standard library.

    ** The theorems

    The scheduler (QueueProps): every history that respects the protocol is one
    of the abstract scheduler, results included; pending jobs are queued, indexed
    and unique; draining gives priority order; a job's life cycle; changes are
    notified; and what a second Requeue breaks.

    The master (Hoare gives the logic, Panics, Restart, MasterProps, Gang,
    Submission): no event panics in any reachable state; a turn serves the first
    job in priority order, on a member that fits and satisfies it; a gang starts
    on distinct members or not at all; every answer of a submission; what a
    restart restores.

    The goroutines: every interleaving keeps the scheduler's invariant, and none
    ends the process but in the two ways above, the closed channel and the usage
    map (Safety); none loses a tracked
    job or changes what was asked for it (Lasting); every goroutine
    returns, with no deadlock between the mutex and the bounded channel
    (Quiesce); once all is quiet the
    database has every job as the scheduler has it (Catchup); and what can come
    between two calls of a loop (Races): a submission between the match and
    Dequeue, a cancellation between Dequeue and MarkRunning, a report between the
    walltime enforcer's list and its Cancel, the closing of the channel, and a
    report while the usage is saved, which does end the process.

    The database (Persist): in every reachable state the last write pending for a
    job is of its own record, and without one the database has the record; so a
    clean shutdown saves every tracked job, and a clean restart gives back every
    pending one.  The disk is taken to accept every write bbolt accepts: a key
    that is not empty nor too long, a value that is not too large ([put_ok],
    [puttable]).  Stall: a restored rank at the head of the queue stops dispatch.

    The worker (WorkerProps): each message is acted on once and in order; reports
    say how a command ended, are sent until answered, once for each run; the table
    of cancel functions is that of the commands that run; waits double from one
    second; cancellation, and the window in which it is lost.

    Together (Cluster): dispatch, acknowledgement, execution and report bring a job
    to COMPLETED with its resources free again; the handshake enforcer requeues
    exactly the jobs whose start was lost; a cancelled job comes back.  From a
    user's seat (Submission, CommandProps): what submitting, asking for the status
    and cancelling print.

    Start and stop (ProcessProps, Setup): what a start opens is closed; when the
    pid file refuses a start and when it does not; `tasch stop` ends and clears the
    way; the drain ends, but not always before it is killed; when the setup wizard
    ends.

    Formats (Store, ProfilerProps, GoRegexp, Messaging): jobs read back from the
    database as saved, class ads as measured, nvidia-smi listings as printed,
    requirement hints as documented.

    ** Conventions and bounds

    Go's int and int64 are integers in Z with wrap-around written out ([+ᵢ],
    [-ᵢ], [*ᵢ]).  A clock, a source of UUIDs and the order of map iteration are
    parameters; an answer of the outside (socket, operating system, remote call)
    is an argument or an event.  Loops that are not structural carry fuel: the
    sift loops of the heap ([Len] turns, shown enough in GoHeap), the JSON parser
    (the length of its input, shown enough for printed values), splitting text
    (its length), the drain ([drain_turns], shown enough), the wizard's question
    (one turn for each byte left, shown exact).

    ** What is not modelled

    Generated protobuf and gRPC code; TLS and the wire protocols of ZeroMQ, gRPC
    and memberlist; YAML (a parameter); how cobra finds a command and parses its
    flags; console output other than the command line's; Prometheus beyond the
    list of metric updates.  In the interleaved machine some things are one
    action that Go does not make atomic: a new job is created and queued in one
    (nothing else can reach it in between), the evaluator's and the log's own
    short critical sections are one each, a read of a record without a mutex (the
    database goroutine encoding a job, the copy Cancel returns) sees one state of
    the record (no map in it is written once the job is queued, since Copy is
    deep), and cleanDB's Close waits for the gRPC
    calls GracefulStop waits for.  The retry goroutine's select is one action.
    The command line prints times in UTC, and Sscanf skips ASCII blanks only. *)

From stdpp Require Export prelude gmap strings pretty list fin_maps sorting.
From Stdlib Require Export ZArith Lia ZifyNat.

#[global] Set Default Goal Selector "!".
Ltac Zify.zify_post_hook ::= Z.div_mod_to_equations.

#[global] Arguments String.append : simpl nomatch.
#[global] Arguments Nat.div : simpl never.
#[global] Arguments Nat.modulo : simpl never.

Declare Scope tasch_scope.
Delimit Scope tasch_scope with tasch.
Open Scope tasch_scope.

(** ** Machine integers

    Go's [int] and [int64] are 64 bits wide on every supported platform
    (README: "64-bit only"); [int32] appears in the protobuf messages.  Values
    are kept as [Z] and every arithmetic operation of the code wraps. *)

Definition wrap (w : Z) (z : Z) : Z := ((z + 2 ^ (w - 1)) mod 2 ^ w - 2 ^ (w - 1))%Z.
Definition int64 (z : Z) : Z := wrap 64 z.
Definition int32 (z : Z) : Z := wrap 32 z.
Definition int_add (a b : Z) : Z := int64 (a + b).
Definition int_sub (a b : Z) : Z := int64 (a - b).
Definition int_mul (a b : Z) : Z := int64 (a * b).
Definition in_int64 (z : Z) : Prop := (- 2 ^ 63 ≤ z < 2 ^ 63)%Z.
Definition in_int32 (z : Z) : Prop := (- 2 ^ 31 ≤ z < 2 ^ 31)%Z.

Notation "a +ᵢ b" := (int_add a b) (at level 50, left associativity) : tasch_scope.
Notation "a -ᵢ b" := (int_sub a b) (at level 50, left associativity) : tasch_scope.
Notation "a *ᵢ b" := (int_mul a b) (at level 40, left associativity) : tasch_scope.

(** ** Record update

    [r <| f := v |>] is Go's field assignment [r.f = v] on a value; [::=]
    applies a function to the field.  A record takes part by declaring its
    eta-expansion as an instance of [Eta]. *)

Class Eta (R : Type) := eta : R → R.
Class Setter {R T : Type} (proj : R → T) := set_with : (T → T) → R → R.
Arguments set_with {R T} proj {_} f r / : assert.

Ltac derive_setter :=
  lazymatch goal with
  | |- @Setter ?R ?T ?proj =>
      let i := constr:(_ : Eta R) in
      let b := eval red in i in
      exact (fun (f : T → T) (r : R) =>
        ltac:(let body := eval cbv beta in (b r) in
              lazymatch eval pattern (proj r) in body with
              | ?g _ => exact (g (f (proj r)))
              end))
  end.
#[export] Hint Extern 1 (Setter _) => derive_setter : typeclass_instances.

Notation "r <| p := v |>" := (set_with p (λ _, v) r)
  (at level 1, p at level 0, left associativity,
   format "r  <| p  :=  v |>") : tasch_scope.
Notation "r <| p ::= f |>" := (set_with p f r)
  (at level 1, p at level 0, left associativity,
   format "r  <| p  ::=  f |>") : tasch_scope.

(** ** Stateful code that may panic

    [M W A] is a computation over a state [W]; [None] is a Go panic (nil-map
    write, index out of range), which ends the process. *)

Definition M (W A : Type) : Type := W → option (A * W).
#[export] Instance M_ret W : MRet (M W) := λ A a w, Some (a, w).
#[export] Instance M_bind W : MBind (M W) := λ A B f m w,
  match m w with
  | Some (a, w') => f a w'
  | None => None
  end.

Definition gets {W A} (f : W → A) : M W A := λ w, Some (f w, w).
Definition modify {W} (f : W → W) : M W () := λ w, Some (tt, f w).
Definition panic {W A} : M W A := λ _, None.
Definition when {W} (b : bool) (m : M W ()) : M W () := if b then m else mret tt.

(** [for _, x := range l { body }] *)
Fixpoint for_each {W A} (l : list A) (body : A → M W ()) : M W () :=
  match l with
  | [] => mret tt
  | x :: l' => body x ;; for_each l' body
  end.

(** The same loop with the index of the element. *)
Fixpoint for_range {W A} (i : nat) (l : list A) (body : nat → A → M W ()) : M W () :=
  match l with
  | [] => mret tt
  | x :: l' => body i x ;; for_range (S i) l' body
  end.

(** Running a computation known not to panic, for examples and witnesses. *)
Definition exec {W A} (m : M W A) (w : W) : option W := snd <$> m w.
Definition result {W A} (m : M W A) (w : W) : option A := fst <$> m w.

(** ** Tactics *)

(** Unfold the monad and the record updates in the goal. *)
Ltac msimpl :=
  unfold mbind, M_bind, mret, M_ret, gets, modify, when, exec, result in *; simpl in *.

(** Case analysis on every boolean test and [match] of the goal, keeping the
    equations. *)
Ltac split_matches :=
  repeat match goal with
  | |- context [match ?x with _ => _ end] => let E := fresh "E" in destruct x eqn:E
  end.

Ltac deex :=
  repeat match goal with
  | H : ∃ _, _ |- _ => destruct H as [? H]
  | H : _ ∧ _ |- _ => destruct H
  end.

(** Turn boolean comparisons of hypotheses and goal into propositions. *)
Ltac to_prop :=
  repeat match goal with
  | H : (_ && _) = true |- _ => apply andb_true_iff in H as [? ?]
  | H : (_ || _) = false |- _ => apply orb_false_iff in H as [? ?]
  | H : negb _ = true |- _ => apply negb_true_iff in H
  | H : negb _ = false |- _ => apply negb_false_iff in H
  | H : Z.ltb _ _ = true |- _ => apply Z.ltb_lt in H
  | H : Z.ltb _ _ = false |- _ => apply Z.ltb_ge in H
  | H : Z.leb _ _ = true |- _ => apply Z.leb_le in H
  | H : Z.leb _ _ = false |- _ => apply Z.leb_gt in H
  | H : Z.eqb _ _ = true |- _ => apply Z.eqb_eq in H
  | H : Z.eqb _ _ = false |- _ => apply Z.eqb_neq in H
  | H : Nat.ltb _ _ = true |- _ => apply Nat.ltb_lt in H
  | H : Nat.ltb _ _ = false |- _ => apply Nat.ltb_ge in H
  | H : Nat.leb _ _ = true |- _ => apply Nat.leb_le in H
  | H : Nat.leb _ _ = false |- _ => apply Nat.leb_gt in H
  | H : Nat.eqb _ _ = true |- _ => apply Nat.eqb_eq in H
  | H : Nat.eqb _ _ = false |- _ => apply Nat.eqb_neq in H
  | H : String.eqb _ _ = true |- _ => apply String.eqb_eq in H
  | H : String.eqb _ _ = false |- _ => apply String.eqb_neq in H
  end.

(** ** Lemmas on the monad *)

Lemma M_bind_Some {W A B} (m : M W A) (f : A → M W B) w a w' :
  m w = Some (a, w') → (m ≫= f) w = f a w'.
Proof. intros H. unfold mbind, M_bind. by rewrite H. Qed.

(** ** Lemmas on machine integers *)

Lemma wrap_small w z : (0 < w → - 2 ^ (w - 1) ≤ z < 2 ^ (w - 1) → wrap w z = z)%Z.
Proof.
  intros Hw Hz. unfold wrap.
  assert (E : (2 ^ w = 2 * 2 ^ (w - 1))%Z).
  { rewrite <- Z.pow_succ_r by lia. f_equal. lia. }
  rewrite Z.mod_small by lia. lia.
Qed.

Lemma wrap_range w z : (0 < w → - 2 ^ (w - 1) ≤ wrap w z < 2 ^ (w - 1))%Z.
Proof.
  intros Hw. unfold wrap.
  assert (E : (2 ^ w = 2 * 2 ^ (w - 1))%Z).
  { rewrite <- Z.pow_succ_r by lia. f_equal. lia. }
  pose proof (Z.mod_pos_bound (z + 2 ^ (w - 1)) (2 ^ w)). lia.
Qed.

Lemma int64_small z : in_int64 z → int64 z = z.
Proof. intros H. apply wrap_small; [lia|]. exact H. Qed.

Lemma int64_range z : in_int64 (int64 z).
Proof. apply (wrap_range 64). lia. Qed.

Lemma int_add_small a b : in_int64 (a + b)%Z → a +ᵢ b = (a + b)%Z.
Proof. apply int64_small. Qed.

Lemma int_sub_small a b : in_int64 (a - b)%Z → a -ᵢ b = (a - b)%Z.
Proof. apply int64_small. Qed.

Lemma int_mul_small a b : in_int64 (a * b)%Z → a *ᵢ b = (a * b)%Z.
Proof. apply int64_small. Qed.

Lemma in_int64_0 : in_int64 0.
Proof. unfold in_int64. lia. Qed.

(** ** Lemmas on strings *)

Lemma str_app_assoc (a b c : string) : (a +:+ b) +:+ c = a +:+ b +:+ c.
Proof. induction a as [|x a IH]; simpl; [done|]. by rewrite IH. Qed.

Lemma str_app_nil (a : string) : a +:+ EmptyString = a.
Proof. induction a as [|x a IH]; simpl; [done|]. by rewrite IH. Qed.

Lemma str_app_length (a b : string) :
  String.length (a +:+ b) = String.length a + String.length b.
Proof. induction a as [|x a IH]; simpl; [done|]. by rewrite IH. Qed.

Create HintDb tasch.
Create Rewrite HintDb tasch_rw.
#[export] Hint Rewrite str_app_assoc str_app_nil : tasch_rw.
#[export] Hint Resolve int64_range in_int64_0 : tasch.
