(* ===== verification/GoHeap.v ===== *)
(** * Go's container/heap

    The algorithms of the standard library package [container/heap] that
    pkg/scheduler/queue.go calls, over an interface [HeapInterface] that is Go's
    [heap.Interface].  [HeapLaws] states what an implementation promises to the
    algorithms (its [view] as a list and how Less, Swap, Push and Pop act on
    it); every theorem of this file is proved against those laws, and
    Queue.v discharges them for [JobQueue].

    The loops of [up] and [down] carry fuel: [up] moves to a strictly smaller
    index and [down] to a strictly larger one below [n], so [S j] and [n]
    rounds are enough ([up_loop_fuel], [down_loop_fuel]). *)

From S2P Require Import Prelude.

(** ** Exchanging two elements of a list *)

Definition exchange {E} (i j : nat) (l : list E) : list E :=
  match l !! i, l !! j with
  | Some a, Some b => <[i:=b]> (<[j:=a]> l)
  | _, _ => l
  end.

(** ** heap.Interface *)

Class HeapInterface (S X : Type) := {
  Len : S → nat;
  Less : S → nat → nat → bool;
  Swap : nat → nat → S → S;
  Push : X → S → S;
  Pop : S → option (X * S)
}.
Arguments Pop {S X _} s.
Arguments Len {S X _} s.
Arguments Less {S X _} s i j.
Arguments Swap {S X _} i j s.

(** ** The algorithms *)

Module heap.
Section Algorithms.
Context {T X : Type} `{HI : !HeapInterface T X}.

Fixpoint up_loop (fuel j : nat) (s : T) : T :=
  match fuel with
  | O => s
  | S fuel' =>
      let i := (j - 1) / 2 in
      if (i =? j) || negb (Less s j i) then s
      else up_loop fuel' i (Swap i j s)
  end.
Definition up (j : nat) (s : T) : T := up_loop (S j) j s.

Fixpoint down_loop (fuel i n : nat) (s : T) : nat * T :=
  match fuel with
  | O => (i, s)
  | S fuel' =>
      let j1 := 2 * i + 1 in
      if n <=? j1 then (i, s)
      else
        let j := if (j1 + 1 <? n) && Less s (j1 + 1) j1 then j1 + 1 else j1 in
        if negb (Less s j i) then (i, s)
        else down_loop fuel' j n (Swap i j s)
  end.
(** [down] reports whether the element moved. *)
Definition down (i0 n : nat) (s : T) : bool * T :=
  let '(i, s') := down_loop n i0 n s in (i0 <? i, s').

Fixpoint Init_loop (i n : nat) (s : T) : T :=
  match i with
  | O => s
  | S i' => Init_loop i' n (down i' n s).2
  end.
Definition Init (s : T) : T := Init_loop (Len s / 2) (Len s) s.

Definition Push (x : X) (s : T) : T :=
  let s := GoHeap.Push x s in
  up (Len s - 1) s.

Definition Pop (s : T) : option (X * T) :=
  if Len s =? 0 then None
  else
    let n := Len s - 1 in
    GoHeap.Pop (down 0 n (Swap 0 n s)).2.

Definition Remove (i : nat) (s : T) : option (X * T) :=
  if Len s <=? i then None
  else
    let n := Len s - 1 in
    if n =? i then GoHeap.Pop s
    else
      let '(moved, s) := down i n (Swap i n s) in
      GoHeap.Pop (if moved then s else up i s).
End Algorithms.
End heap.

(** ** The laws of an implementation *)

Class StrictWeak {E} (lt : E → E → bool) : Prop := {
  lt_asym a b : lt a b = true → lt b a = false;
  lt_ntrans a b c : lt a b = false → lt b c = false → lt a c = false
}.

Class HeapLaws {T X : Type} (HI : HeapInterface T X) {E : Type}
    (view : T → list E) (elt : T → X → E) (lt : E → E → bool) : Prop := {
  hl_weak : StrictWeak lt;
  hl_len s : Len s = length (view s);
  hl_less s i j a b : view s !! i = Some a → view s !! j = Some b →
    Less s i j = lt a b;
  hl_swap s i j : i < length (view s) → j < length (view s) →
    view (Swap i j s) = exchange i j (view s);
  hl_push s x : view (Push x s) = view s ++ [elt s x];
  hl_pop s l e : view s = l ++ [e] →
    ∃ x s', Pop s = Some (x, s') ∧ view s' = l ∧ elt s x = e
}.

(** ** Heap order on a list *)

Definition parent (k : nat) : nat := (k - 1) / 2.

Section HeapOrder.
Context {E : Type} (lt : E → E → bool) `{SW : !StrictWeak lt}.
Implicit Types l : list E.

Definition ok_at l (k : nat) : Prop := ∀ a b,
  l !! k = Some a → l !! parent k = Some b → lt a b = false.

(** No element of the first [n] is smaller than its parent. *)
Definition heap_ordered l (n : nat) : Prop := ∀ k, 0 < k < n → ok_at l k.

(** The children of [i] are not smaller than the parent of [i]: what keeps the
    order when the element at [i] is the one out of place. *)
Definition grand_ok l (n i : nat) : Prop := ∀ k a b,
  0 < i → 0 < k < n → parent k = i →
  l !! k = Some a → l !! parent i = Some b → lt a b = false.

Definition children_ok l (n i : nat) : Prop := ∀ k,
  0 < k < n → parent k = i → ok_at l k.

(** Every pair is in order but those between [i] and its children, and when
    [b = false] also the pair between [i] and its parent. *)
Definition down_inv l (n i : nat) (b : bool) : Prop :=
  (∀ k, 0 < k < n → parent k ≠ i → b = true ∨ k ≠ i → ok_at l k) ∧
  grand_ok l n i.

Definition up_inv l (n j : nat) : Prop :=
  (∀ k, 0 < k < n → k ≠ j → ok_at l k) ∧ grand_ok l n j.

Lemma lt_irrefl a : lt a a = false.
Proof using SW. destruct (lt a a) eqn:H; [|done]. pose proof (lt_asym _ _ H). congruence. Qed.

Lemma heap_ordered_nil n : heap_ordered [] n.
Proof. by intros k _ a b ?. Qed.

Lemma heap_ordered_le l n m : m ≤ n → heap_ordered l n → heap_ordered l m.
Proof. intros ? H k ?. apply H. lia. Qed.

Lemma heap_ordered_prefix l l' n :
  n ≤ length l → heap_ordered (l ++ l') n → heap_ordered l n.
Proof.
  intros Hn H k Hk a b Ha Hb. eapply (H k Hk); by apply lookup_app_l_Some.
Qed.

(** The root is a minimum. *)
Lemma heap_root_min l n r k a :
  heap_ordered l n → k < n → l !! 0 = Some r → l !! k = Some a → lt a r = false.
Proof using SW.
  intros HO Hk Hr. revert a. induction k as [k IH] using lt_wf_ind. intros a Ha.
  destruct (decide (k = 0)) as [->|Hne]; [assert (a = r) as -> by congruence; apply lt_irrefl|].
  assert (Hp : parent k < k) by (unfold parent; lia).
  assert (parent k < length l) as [b Hb]%lookup_lt_is_Some_2.
  { apply lookup_lt_Some in Ha. lia. }
  apply lt_ntrans with b; [eapply (HO k); eauto; lia|].
  apply (IH (parent k)); [done|lia|done].
Qed.

(** *** Exchange *)

Lemma length_exchange i j l : length (exchange i j l) = length l.
Proof. unfold exchange. repeat case_match; by rewrite ?length_insert. Qed.

Lemma lookup_exchange_ne i j k l : k ≠ i → k ≠ j → exchange i j l !! k = l !! k.
Proof.
  intros. unfold exchange. repeat case_match; [|done..].
  by rewrite !list_lookup_insert_ne.
Qed.

Lemma lookup_exchange_l i j l : i < length l → j < length l →
  exchange i j l !! i = l !! j.
Proof.
  intros [a Ha]%lookup_lt_is_Some_2 [b Hb]%lookup_lt_is_Some_2.
  unfold exchange. rewrite Ha, Hb. rewrite list_lookup_insert_eq; [done|].
  rewrite length_insert. by eapply lookup_lt_Some.
Qed.

Lemma lookup_exchange_r i j l : i < length l → j < length l →
  exchange i j l !! j = l !! i.
Proof.
  intros Hi Hj. destruct (decide (i = j)) as [->|Hne]; [by apply lookup_exchange_l|].
  apply lookup_lt_is_Some_2 in Hi as [a Ha]. pose proof Hj as Hj'.
  apply lookup_lt_is_Some_2 in Hj as [b Hb].
  unfold exchange. rewrite Ha, Hb. rewrite list_lookup_insert_ne by done.
  by rewrite list_lookup_insert_eq.
Qed.

Lemma exchange_Permutation i j l : exchange i j l ≡ₚ l.
Proof.
  unfold exchange. repeat case_match; [|done..]. by apply Permutation_insert_swap.
Qed.

(** One round of [down]: the smaller child moves up. *)
Lemma down_inv_step l n i j b :
  n ≤ length l → 0 < j < n → parent j = i → down_inv l n i b →
  (∀ a c, l !! j = Some a → l !! i = Some c → lt a c = true) →
  (∀ k a c, 0 < k < n → parent k = i → l !! k = Some a → l !! j = Some c → lt a c = false) →
  down_inv (exchange i j l) n j true.
Proof using SW.
  intros Hn Hj Hp [Hok Hgr] Hlt Hmin.
  assert (Hij : i < j) by (unfold parent in Hp; lia).
  assert (Hi : i < length l) by lia. assert (Hjl : j < length l) by lia.
  assert (Hpl : ∀ k, 0 < k → parent k < k) by (unfold parent; lia).
  split.
  - intros k Hk Hkj _ a c. destruct (decide (k = i)) as [->|Hki].
    + rewrite lookup_exchange_l, lookup_exchange_ne by (specialize (Hpl i); lia).
      intros Ha Hc. apply (Hgr j a c); [lia|done..].
    + destruct (decide (parent k = i)) as [E1|E1].
      * rewrite E1, lookup_exchange_l by lia.
        destruct (decide (k = j)) as [->|?].
        -- rewrite lookup_exchange_r by lia. intros. by apply lt_asym, Hlt.
        -- rewrite lookup_exchange_ne by done. intros. by eapply Hmin.
      * rewrite lookup_exchange_ne, lookup_exchange_ne by congruence.
        apply Hok; auto.
  - intros k a c _ Hk Ekj. rewrite Hp, lookup_exchange_l by lia.
    rewrite lookup_exchange_ne by (specialize (Hpl k); lia).
    intros Ha Hc. eapply (Hok k Hk); [lia|right; specialize (Hpl k); lia|done|by rewrite Ekj].
Qed.

(** The end of [down]: no child is smaller. *)
Lemma down_inv_stop l n i :
  down_inv l n i true → children_ok l n i → heap_ordered l n.
Proof.
  intros [Hok _] Hch k Hk. destruct (decide (parent k = i)); [by apply Hch|].
  apply Hok; auto.
Qed.

Lemma down_up_inv l n i :
  down_inv l n i false → children_ok l n i → up_inv l n i.
Proof.
  intros [Hok Hgr] Hch. split; [|done]. intros k Hk Hne.
  destruct (decide (parent k = i)); [by apply Hch|]. apply Hok; auto.
Qed.

(** One round of [up]: the parent moves down. *)
Lemma up_inv_step l n j :
  n ≤ length l → 0 < j < n → up_inv l n j →
  (∀ a b, l !! j = Some a → l !! parent j = Some b → lt a b = true) →
  up_inv (exchange (parent j) j l) n (parent j).
Proof using SW.
  intros Hn Hj [Hok Hgr] Hlt. set (i := parent j).
  assert (Hpl : ∀ k, 0 < k → parent k < k) by (unfold parent; lia).
  assert (Hij : i < j) by (apply Hpl; lia).
  split.
  - intros k Hk Hki a c. destruct (decide (k = j)) as [->|Hkj].
    + fold i. rewrite lookup_exchange_r, lookup_exchange_l by lia.
      intros. by apply lt_asym, Hlt.
    + rewrite lookup_exchange_ne by done.
      destruct (decide (parent k = i)) as [E1|E1].
      * rewrite E1, lookup_exchange_l by lia. intros Ha Hc.
        destruct (l !! i) as [b|] eqn:Hb; [|apply lookup_ge_None in Hb; lia].
        apply lt_ntrans with b; [eapply (Hok k); eauto; by rewrite E1|].
        apply lt_asym. by eapply Hlt.
      * destruct (decide (parent k = j)) as [E2|E2].
        -- rewrite E2, lookup_exchange_r by lia. intros. eapply (Hgr k); eauto. lia.
        -- rewrite lookup_exchange_ne by done. by apply Hok.
  - intros k a c Hi0 Hk Eki. rewrite (lookup_exchange_ne _ _ (parent i))
      by (specialize (Hpl i); lia). intros Ha Hc.
    destruct (l !! i) as [b|] eqn:Hb; [|apply lookup_ge_None in Hb; lia].
    assert (Hbc : lt b c = false).
    { eapply (Hok i); eauto; lia. }
    destruct (decide (k = j)) as [->|Hkj].
    + rewrite lookup_exchange_r in Ha by lia. congruence.
    + rewrite lookup_exchange_ne in Ha by (specialize (Hpl k); lia).
      apply lt_ntrans with b; [|done]. eapply (Hok k); eauto. by rewrite Eki.
Qed.

Lemma up_inv_stop l n j :
  up_inv l n j → (j = 0 ∨ ok_at l j) → heap_ordered l n.
Proof.
  intros [Hok _] Hj k Hk. destruct (decide (k = j)) as [->|]; [|by apply Hok].
  destruct Hj; [lia|done].
Qed.

(** Replacing the element at [i] of an ordered list leaves only [i] out of place. *)
Lemma heap_ordered_replace l l' n i :
  heap_ordered l n → n ≤ length l → (∀ k, k ≠ i → k < n → l' !! k = l !! k) → i < n →
  down_inv l' n i false.
Proof using SW.
  intros HO Hn Heq Hi.
  assert (Hpl : ∀ k, 0 < k → parent k < k) by (unfold parent; lia).
  split.
  - intros k Hk Hpk Hc a b. destruct Hc as [|Hc]; [done|].
    rewrite !Heq by (try done; specialize (Hpl k); lia). by apply HO.
  - intros k a b Hi0 Hk Ek.
    assert (Hki : k ≠ i) by (specialize (Hpl k); lia).
    rewrite !Heq by (try done; specialize (Hpl i); lia). intros Ha Hb.
    destruct (l !! i) as [c|] eqn:Hc; [|apply lookup_ge_None in Hc; lia].
    apply lt_ntrans with c; [|eapply (HO i); eauto; lia].
    eapply (HO k Hk); eauto. by rewrite Ek.
Qed.

Lemma down_inv_root l n : down_inv l n 0 false → down_inv l n 0 true.
Proof. intros [H ?]. split; [|done]. intros k Hk Hp _. apply H; [done..|]. right. lia. Qed.
End HeapOrder.

(** ** The algorithms meet their specification *)

Section Correct.
Context {T X E : Type} {HI : HeapInterface T X} {view : T → list E} {elt : T → X → E}
  {lt : E → E → bool} `{HL : !HeapLaws HI view elt lt}.
Implicit Types s : T.

#[local] Instance laws_weak : StrictWeak lt := hl_weak.

(** [s'] is [s] after some exchanges of positions in range. *)
Definition swaps : relation T :=
  rtc (λ s s', ∃ i j, i < Len s ∧ j < Len s ∧ s' = Swap i j s).

Lemma Len_Swap i j s : i < Len s → j < Len s → Len (Swap i j s) = Len s.
Proof using HL. rewrite !hl_len. intros. rewrite hl_swap, length_exchange; [done|lia|lia]. Qed.

Lemma swaps_one i j s : i < Len s → j < Len s → swaps s (Swap i j s).
Proof using HL. intros. apply rtc_once. eauto. Qed.

Lemma swaps_Len s s' : swaps s s' → Len s' = Len s.
Proof using HL.
  induction 1 as [|s1 s2 s3 (i & j & ? & ? & ->) _ IH]; [done|].
  by rewrite IH, Len_Swap.
Qed.

Lemma swaps_view s s' : swaps s s' → view s' ≡ₚ view s.
Proof using HL.
  induction 1 as [|s1 s2 s3 (i & j & Hi & Hj & ->) _ IH]; [done|].
  rewrite hl_len in Hi, Hj. rewrite IH, hl_swap by done. apply exchange_Permutation.
Qed.

Lemma swaps_preserve (P : T → Prop) s s' :
  (∀ s i j, P s → i < Len s → j < Len s → P (Swap i j s)) →
  swaps s s' → P s → P s'.
Proof.
  intros HP. induction 1 as [|s1 s2 s3 (i & j & ? & ? & ->) _ IH]; [done|]. eauto.
Qed.

Lemma up_loop_swaps fuel j s : j < Len s → swaps s (heap.up_loop fuel j s).
Proof using HL.
  revert j s. induction fuel as [|f IH]; intros j s Hj; cbn [heap.up_loop]; [apply rtc_refl|].
  case_match; [apply rtc_refl|].
  etrans; [apply (swaps_one ((j - 1) / 2) j); lia|].
  apply IH. rewrite Len_Swap; lia.
Qed.

Lemma up_swaps j s : j < Len s → swaps s (heap.up j s).
Proof using HL. apply up_loop_swaps. Qed.

Lemma down_loop_swaps fuel i n s :
  n ≤ Len s → swaps s (heap.down_loop fuel i n s).2.
Proof using HL.
  revert i s. induction fuel as [|f IH]; intros i s Hn; cbn [heap.down_loop]; [apply rtc_refl|].
  destruct (Nat.leb_spec n (2 * i + 1)); [apply rtc_refl|].
  set (j := if _ && _ then _ else _).
  assert (i < j < n) by (subst j; case_match; to_prop; lia).
  case_match; [apply rtc_refl|].
  etrans; [apply (swaps_one i j); lia|].
  apply IH. rewrite Len_Swap; lia.
Qed.

Lemma down_swaps i n s : n ≤ Len s → swaps s (heap.down i n s).2.
Proof using HL.
  intros Hn. unfold heap.down. pose proof (down_loop_swaps n i n s Hn) as H.
  by destruct (heap.down_loop n i n s).
Qed.

(** Enough fuel: more of it changes nothing. *)
Lemma up_loop_fuel f f' j s : j < f → j < f' → heap.up_loop f j s = heap.up_loop f' j s.
Proof.
  revert f' j s. induction f as [|f IH]; intros f' j s ? ?; [lia|].
  destruct f' as [|f']; [lia|]. cbn [heap.up_loop].
  destruct (Nat.eqb_spec ((j - 1) / 2) j); simpl; [done|].
  case_match; [done|]. apply IH; lia.
Qed.

Lemma down_loop_fuel f f' i n s :
  n ≤ i + f → n ≤ i + f' → heap.down_loop f i n s = heap.down_loop f' i n s.
Proof.
  revert f' i s. induction f as [|f IH]; intros f' i s ? ?.
  { destruct f' as [|f']; cbn [heap.down_loop]; [done|].
    by destruct (Nat.leb_spec n (2 * i + 1)); [|lia]. }
  destruct f' as [|f']; cbn [heap.down_loop].
  { by destruct (Nat.leb_spec n (2 * i + 1)); [|lia]. }
  destruct (Nat.leb_spec n (2 * i + 1)); [done|].
  case_match; [done|]. apply IH; case_match; to_prop; lia.
Qed.

(** [down] never moves up; neither loop touches positions past its range. *)
Lemma down_loop_index f i n s : i ≤ (heap.down_loop f i n s).1.
Proof.
  revert i s. induction f as [|f IH]; intros i s; cbn [heap.down_loop]; [done|].
  case_match; [done|]. set (j := if _ && _ then _ else _). case_match; [done|].
  transitivity j; [|apply IH]. subst j. case_match; lia.
Qed.

Lemma down_above f i n s k : n ≤ Len s → n ≤ k →
  view (heap.down_loop f i n s).2 !! k = view s !! k.
Proof using HL.
  revert i s. induction f as [|f IH]; intros i s Hn Hk; cbn [heap.down_loop]; [done|].
  destruct (Nat.leb_spec n (2 * i + 1)); [done|].
  set (j := if _ && _ then _ else _).
  assert (i < j < n) by (subst j; case_match; to_prop; lia).
  case_match; [done|]. rewrite IH; [|rewrite Len_Swap; lia|done].
  rewrite hl_len in Hn. rewrite hl_swap by lia. apply lookup_exchange_ne; lia.
Qed.

Lemma up_above j s k : j < Len s → j < k → view (heap.up j s) !! k = view s !! k.
Proof using HL.
  unfold heap.up. generalize (S j) at 1. intros f. revert j s.
  induction f as [|f IH]; intros j s Hj Hk; cbn [heap.up_loop]; [done|].
  destruct (Nat.eqb_spec ((j - 1) / 2) j); simpl; [done|]. case_match; [done|].
  rewrite IH; [|rewrite Len_Swap; lia|lia].
  rewrite hl_len in Hj. rewrite hl_swap by lia. apply lookup_exchange_ne; lia.
Qed.

(** [up] restores the order when only [j] may be smaller than its parent. *)
Lemma up_ordered j s n :
  j < n → n ≤ Len s → up_inv lt (view s) n j → heap_ordered lt (view (heap.up j s)) n.
Proof using HL.
  unfold heap.up. assert (Hf : j < S j) by lia. revert Hf. generalize (S j) at 1 2.
  intros f. revert j s. induction f as [|f IH]; intros j s Hf Hj Hn Hinv; [lia|]. cbn [heap.up_loop].
  rewrite hl_len in Hn.
  destruct (Nat.eqb_spec ((j - 1) / 2) j) as [E0|E0]; simpl.
  { eapply up_inv_stop; [done|]. left. lia. }
  assert (j < length (view s)) as [a Ha]%lookup_lt_is_Some_2 by lia.
  assert (parent j < length (view s)) as [b Hb]%lookup_lt_is_Some_2
    by (unfold parent; lia).
  rewrite (hl_less (elt := elt) s j _ a b) by done.
  destruct (lt a b) eqn:Hlt; simpl.
  - apply IH; [lia|lia|rewrite Len_Swap, hl_len; rewrite ?hl_len; lia|].
    rewrite hl_swap by lia. apply (up_inv_step lt);
      [done|unfold parent in *; lia|done|intros; congruence].
  - eapply up_inv_stop; [done|]. right. intros a' b' Ha' Hb'. congruence.
Qed.

(** What [down] establishes: order everywhere, or, when it did not move and
    the element may still be smaller than its parent, the premise of [up]. *)
Lemma down_ordered i n s b :
  n ≤ Len s → down_inv lt (view s) n i b →
  let '(moved, s') := heap.down i n s in
  (moved = true ∨ b = true → heap_ordered lt (view s') n) ∧
  (moved = false → s' = s ∧ children_ok lt (view s) n i).
Proof using HL.
  unfold heap.down. assert (Hf : n ≤ i + n) by lia. revert Hf. generalize n at 2 5.
  intros f. revert i s b.
  induction f as [|f IH]; intros i s b Hf Hn Hinv; cbn [heap.down_loop].
  { assert (Hch : children_ok lt (view s) n i).
    { intros k Hk Ek. unfold parent in Ek. lia. }
    rewrite Nat.ltb_irrefl. split; [|done]. intros [? | ->]; [done|].
    by eapply down_inv_stop. }
  rewrite hl_len in Hn.
  destruct (Nat.leb_spec n (2 * i + 1)) as [Hle|Hlt].
  { assert (Hch : children_ok lt (view s) n i).
    { intros k Hk Ek. unfold parent in Ek. lia. }
    rewrite Nat.ltb_irrefl. split; [|done]. intros [? | ->]; [done|].
    by eapply down_inv_stop. }
  set (j1 := 2 * i + 1) in *.
  set (j := if _ && _ then _ else _).
  assert (Hj : j < n ∧ parent j = i ∧ 0 < j) by (subst j j1; unfold parent; case_match; to_prop; lia).
  assert (Hmin : ∀ k a c, 0 < k < n → parent k = i →
    view s !! k = Some a → view s !! j = Some c → lt a c = false).
  { intros k a c Hk Ek Ha Hc. assert (k = j1 ∨ k = j1 + 1) as Hk2
      by (subst j1; unfold parent in Ek; lia).
    subst j. destruct (Nat.ltb_spec (j1 + 1) n) as [H2|H2]; simpl in *.
    - destruct (Less s (j1 + 1) j1) eqn:Hl; destruct Hk2 as [->| ->].
      + erewrite hl_less in Hl by done. by apply (lt_asym (lt:=lt)).
      + assert (a = c) as -> by congruence. apply (lt_irrefl lt).
      + assert (a = c) as -> by congruence. apply (lt_irrefl lt).
      + by erewrite hl_less in Hl by done.
    - assert (k = j1) as -> by lia. assert (a = c) as -> by congruence.
      apply (lt_irrefl lt). }
  destruct Hj as (Hj & Hpj & Hj0).
  assert (j < length (view s)) as [a Ha]%lookup_lt_is_Some_2 by lia.
  assert (Hij : i < j) by (unfold parent in Hpj; lia).
  assert (i < length (view s)) as [c Hc]%lookup_lt_is_Some_2 by lia.
  rewrite (hl_less (elt := elt) s j i a c) by done.
  destruct (lt a c) eqn:Hac; simpl.
  - specialize (IH j (Swap i j s) true). rewrite Len_Swap in IH by (rewrite hl_len; lia).
    pose proof (down_loop_index f j n (Swap i j s)) as Hidx.
    destruct (heap.down_loop f j n (Swap i j s)) as [i' s'] eqn:Eloop; simpl in *.
    destruct (Nat.ltb_spec i i'); [|lia]. split; [|done]. intros _.
    apply IH; [lia|rewrite hl_len; lia| |by right].
    rewrite hl_swap by lia. eapply (down_inv_step lt); [done|lia|done|done| |].
    + intros. congruence.
    + done.
  - assert (Hch : children_ok lt (view s) n i).
    { intros k Hk Ek a' c' Ha' Hc'. rewrite Ek in Hc'.
      apply (lt_ntrans (lt:=lt)) with a; [by eapply Hmin|]. congruence. }
    rewrite Nat.ltb_irrefl. split; [|done]. intros [? | ->]; [done|].
    by eapply down_inv_stop.
Qed.

(** heap.Push: the new element is in, the order holds. *)
Lemma Push_spec x s :
  heap_ordered lt (view s) (Len s) →
  let s' := heap.Push x s in
  heap_ordered lt (view s') (Len s') ∧ view s' ≡ₚ elt s x :: view s ∧
  swaps (Push x s) s'.
Proof using HL.
  intros HO s'. unfold s', heap.Push.
  assert (Hlen : Len (Push x s) = S (Len s)).
  { rewrite !hl_len, hl_push, length_app. simpl. lia. }
  assert (Hsw : swaps (Push x s) (heap.up (Len (Push x s) - 1) (Push x s)))
    by (apply up_swaps; lia).
  split; [|split; [|done]].
  - rewrite (swaps_Len _ _ Hsw). apply up_ordered; [lia|lia|].
    rewrite Hlen, hl_push in *. simpl. rewrite Nat.sub_0_r in *.
    rewrite hl_len in *. split.
    + intros k Hk Hne a b. rewrite !lookup_app_l by (unfold parent; lia). apply HO. lia.
    + intros k a b _ Hk Ek. unfold parent in Ek. lia.
  - rewrite (swaps_view _ _ Hsw), hl_push. rewrite Permutation_app_comm. done.
Qed.

(** What Remove and Pop report: the element [a] left, and the rest is ordered. *)
Definition removed s (a : E) (r : option (X * T)) : Prop :=
  ∃ x s1 s', r = Some (x, s') ∧ swaps s s1 ∧ Pop s1 = Some (x, s') ∧ elt s1 x = a ∧
    heap_ordered lt (view s') (Len s') ∧ view s ≡ₚ a :: view s'.

(** The final Pop, once [a] has reached the last position. *)
Lemma pop_last s s1 a :
  swaps s s1 → view s1 !! (length (view s) - 1) = Some a →
  heap_ordered lt (view s1) (length (view s) - 1) → removed s a (Pop s1).
Proof using HL.
  intros Hsw Hn HO1. pose proof (swaps_Len _ _ Hsw) as Hlen1. rewrite !hl_len in Hlen1.
  pose proof (lookup_lt_Some _ _ _ Hn). set (n := length (view s) - 1) in *.
  assert (Hv : view s1 = take n (view s1) ++ [a]).
  { rewrite <- (take_drop n (view s1)) at 1. f_equal.
    erewrite drop_S by done. by rewrite drop_ge by lia. }
  destruct (hl_pop _ _ _ Hv) as (x & s' & HP & Hv' & Hx).
  exists x, s1, s'. do 4 (split; [done|]). split.
  - rewrite hl_len, Hv', length_take, Nat.min_l by lia.
    rewrite Hv in HO1. eapply heap_ordered_prefix; [|done]. rewrite length_take. lia.
  - rewrite <- (swaps_view _ _ Hsw), Hv, Hv'. by rewrite Permutation_app_comm.
Qed.

(** The exchange with the last position that starts Remove and Pop. *)
Lemma swap_last i s a :
  heap_ordered lt (view s) (Len s) → view s !! i = Some a → i < Len s - 1 →
  let n := length (view s) - 1 in
  let s0 := Swap i n s in
  swaps s s0 ∧ view s0 !! n = Some a ∧ Len s0 = S n ∧ down_inv lt (view s0) n i false.
Proof using HL.
  intros HO Ha Hi n s0. rewrite (hl_len s) in *.
  assert (Hsw0 : swaps s s0) by (apply swaps_one; rewrite hl_len; lia).
  assert (Hv0 : view s0 = exchange i n (view s)) by (apply hl_swap; lia).
  split; [done|]. split; [by rewrite Hv0, lookup_exchange_r by lia|].
  assert (Len s0 = S n) by (rewrite (swaps_Len _ _ Hsw0), hl_len; lia).
  split; [done|].
  eapply (heap_ordered_replace lt); [by eapply heap_ordered_le, HO; lia|lia| |lia].
  intros k ? ?. rewrite Hv0. apply lookup_exchange_ne; lia.
Qed.

(** heap.Remove: exactly the element that was at [i] leaves. *)
Lemma Remove_spec i s a :
  heap_ordered lt (view s) (Len s) → view s !! i = Some a → removed s a (heap.Remove i s).
Proof using HL.
  intros HO Ha. pose proof (lookup_lt_Some _ _ _ Ha) as Hi.
  unfold heap.Remove. rewrite (hl_len s).
  destruct (Nat.leb_spec (length (view s)) i) as [?|_]; [lia|].
  destruct (Nat.eqb_spec (length (view s) - 1) i) as [<-|Hne].
  { apply pop_last; [apply rtc_refl|done|].
    eapply heap_ordered_le, HO. rewrite hl_len. lia. }
  destruct (swap_last i s a HO Ha) as (Hsw & Hn & Hlen & Hinv); [rewrite hl_len; lia|].
  set (n := length (view s) - 1) in *. set (s0 := Swap i n s) in *.
  pose proof (down_ordered i n s0 false ltac:(lia) Hinv) as Hdown.
  pose proof (down_swaps i n s0 ltac:(lia)) as Hdsw.
  pose proof (down_above n i n s0 n ltac:(lia) ltac:(lia)) as Habove.
  unfold heap.down in *. destruct (heap.down_loop n i n s0) as [i' s2]. simpl in *.
  destruct Hdown as [Hmoved Hstay]. destruct (i <? i') eqn:Ei.
  - apply pop_last; [by etrans|fold n; congruence|apply Hmoved; by left].
  - destruct (Hstay eq_refl) as [-> Hch].
    assert (Hup : up_inv lt (view s0) n i) by (by apply down_up_inv).
    apply pop_last; [etrans; [done|apply up_swaps; lia]| |apply up_ordered; [lia|lia|done]].
    fold n. rewrite <- Hn. apply up_above; lia.
Qed.

(** heap.Pop: a minimum leaves. *)
Lemma Pop_spec s r :
  heap_ordered lt (view s) (Len s) → view s !! 0 = Some r →
  removed s r (heap.Pop s) ∧ (∀ a, a ∈ view s → lt a r = false).
Proof using HL.
  intros HO Hr. pose proof (lookup_lt_Some _ _ _ Hr) as Hlen.
  split.
  2: { intros a [k Hk]%list_elem_of_lookup. eapply (heap_root_min lt); [done| |done..].
       rewrite hl_len. by eapply lookup_lt_Some. }
  unfold heap.Pop. rewrite (hl_len s).
  destruct (Nat.eqb_spec (length (view s)) 0) as [?|_]; [lia|].
  destruct (decide (length (view s) = 1)) as [E1|E1].
  { rewrite E1. cbn. apply pop_last; rewrite ?E1; cbn.
    - apply swaps_one; rewrite hl_len; lia.
    - rewrite hl_swap, lookup_exchange_l by lia. done.
    - intros k ?. lia. }
  destruct (swap_last 0 s r HO Hr) as (Hsw & Hn & Hl0 & Hinv); [rewrite hl_len; lia|].
  set (n := length (view s) - 1) in *. set (s0 := Swap 0 n s) in *.
  pose proof (down_ordered 0 n s0 true ltac:(lia) (down_inv_root _ _ _ Hinv)) as Hdown.
  pose proof (down_swaps 0 n s0 ltac:(lia)) as Hdsw.
  pose proof (down_above n 0 n s0 n ltac:(lia) ltac:(lia)) as Habove.
  unfold heap.down in *. destruct (heap.down_loop n 0 n s0) as [i' s2]. simpl in *.
  apply pop_last; [by etrans|fold n; congruence|]. apply Hdown. by right.
Qed.

(** heap.Init on an empty heap, the only use the scheduler makes of it. *)
Lemma Init_empty s : Len s = 0 → heap.Init s = s.
Proof. unfold heap.Init. by intros ->. Qed.
End Correct.
