(* ===== verification/GoStd.v ===== *)
(** * The parts of Go's standard library the program uses

    [strings], [strconv], [time] and [float64], written out as executable
    definitions.  Strings are byte strings, as in Go.  Instants are nanoseconds
    since the zero [time.Time] (January 1, year 1, UTC), durations are [int64]
    nanoseconds, [float64] is IEEE binary64 ([SpecFloat] with precision 53 and
    maximal exponent 1024). *)

From S2P Require Import Prelude.
From Stdlib Require Export Ascii Floats.SpecFloat.
#[local] Open Scope string_scope.
#[local] Open Scope list_scope.
#[local] Open Scope nat_scope.

(** ** strings *)

Definition HasPrefix (s p : string) : bool := String.prefix p s.

Fixpoint Contains (s sub : string) : bool :=
  String.prefix sub s ||
  match s with
  | "" => false
  | String _ s' => Contains s' sub
  end.

Fixpoint Join (l : list string) (sep : string) : string :=
  match l with
  | [] => ""
  | [s] => s
  | s :: l' => s +:+ sep +:+ Join l' sep
  end.

(** Upper case of the ASCII letters.  Go also maps other runes; of those, only
    U+0131 and U+017F have an ASCII upper case (I and S), given as their UTF-8
    bytes; every other rune is mapped to a non-ASCII rune and left as it is
    here. *)
Definition upper_ascii (c : ascii) : ascii :=
  let n := Ascii.nat_of_ascii c in
  if (97 <=? n) && (n <=? 122) then Ascii.ascii_of_nat (n - 32) else c.

Fixpoint ToUpper (s : string) : string :=
  match s with
  | String c1 (String c2 s' as t) =>
      if (Ascii.nat_of_ascii c1 =? 196) && (Ascii.nat_of_ascii c2 =? 177)
      then String "I" (ToUpper s')
      else if (Ascii.nat_of_ascii c1 =? 197) && (Ascii.nat_of_ascii c2 =? 191)
      then String "S" (ToUpper s')
      else String (upper_ascii c1) (ToUpper t)
  | String c "" => String (upper_ascii c) ""
  | "" => ""
  end.

(** ** strconv *)

Definition Itoa (z : Z) : string := pretty z.

Definition digit_of (c : ascii) : option Z :=
  let n := Z.of_nat (Ascii.nat_of_ascii c) in
  if ((48 <=? n) && (n <=? 57))%Z then Some (n - 48)%Z else None.

Fixpoint digits (acc : Z) (s : string) : option Z :=
  match s with
  | "" => Some acc
  | String c s' => match digit_of c with Some d => digits (10 * acc + d)%Z s' | None => None end
  end.

(** [strconv.Atoi]: the value and whether the error is nil.  Out of range, the
    value is the nearest bound; a syntax error gives 0. *)
Definition Atoi (s : string) : Z * bool :=
  let '(neg, body) :=
    match s with
    | String "+" s' => (false, s')
    | String "-" s' => (true, s')
    | _ => (false, s)
    end in
  match body with
  | "" => (0%Z, false)
  | _ =>
      match digits 0 body with
      | None => (0%Z, false)
      | Some n =>
          if neg then
            if (2 ^ 63 <? n)%Z then (- 2 ^ 63, false)%Z else ((- n)%Z, true)
          else
            if (n <? 2 ^ 63)%Z then (n, true) else ((2 ^ 63 - 1)%Z, false)
      end
  end.

(** ** time *)

Definition Time : Type := Z.
Definition Duration : Type := Z.

Definition zeroTime : Time := 0%Z.
Definition Nanosecond : Duration := 1%Z.
Definition Microsecond : Duration := 1000%Z.
Definition Millisecond : Duration := 1000000%Z.
Definition Second : Duration := 1000000000%Z.
Definition Minute : Duration := (60 * Second)%Z.

(** Seconds from the zero time to the Unix epoch. *)
Definition unixToInternal : Z := 62135596800%Z.

Definition IsZero (t : Time) : bool := (t =? zeroTime)%Z.
Definition Before (t u : Time) : bool := (t <? u)%Z.
Definition After (t u : Time) : bool := (u <? t)%Z.
Definition Add (t : Time) (d : Duration) : Time := (t + d)%Z.
(** [t.Sub(u)] saturates. *)
Definition Sub (t u : Time) : Duration := Z.max (- 2 ^ 63) (Z.min (2 ^ 63 - 1) (t - u)).
Definition Unix (t : Time) : Z := (t / Second - unixToInternal)%Z.
Definition UnixMilli (t : Time) : Z := (t / Millisecond - unixToInternal * 1000)%Z.

(** [Duration.String]. *)
Fixpoint pad_zeros (n : nat) (s : string) : string :=
  if String.length s <? n then
    match n with O => s | S n' => if String.length s <? n then String "0" (pad_zeros n' s) else s end
  else s.

Fixpoint drop_trailing_zeros (s : string) : string :=
  match s with
  | "" => ""
  | String c s' =>
      match drop_trailing_zeros s' with
      | "" => if Ascii.eqb c "0" then "" else String c ""
      | t => String c t
      end
  end.

Definition fmtFrac (u : Z) (prec : nat) : string * Z :=
  let p := (10 ^ Z.of_nat prec)%Z in
  let frac := drop_trailing_zeros (pad_zeros prec (Itoa (u mod p))) in
  ((match frac with "" => "" | _ => String "." frac end), (u / p)%Z).

Definition Duration_String (d : Duration) : string :=
  let u := Z.abs d in
  let body :=
    if (u <? Second)%Z then
      if (u =? 0)%Z then "0s"
      else
        let '(prec, unit) :=
          if (u <? Microsecond)%Z then (0, "ns")
          else if (u <? Millisecond)%Z
          then (3, String (Ascii.ascii_of_nat 194) (String (Ascii.ascii_of_nat 181) "s"))
          else (6, "ms") in
        let '(f, n) := fmtFrac u prec in Itoa n +:+ f +:+ unit
    else
      let '(f, secs) := fmtFrac u 9 in
      let mins := (secs / 60)%Z in
      let hours := (mins / 60)%Z in
      (if (0 <? mins)%Z then
         (if (0 <? hours)%Z then Itoa hours +:+ "h" else "") +:+ Itoa (mins mod 60) +:+ "m"
       else "") +:+ Itoa (secs mod 60) +:+ f +:+ "s" in
  if (d <? 0)%Z then "-" +:+ body else body.

Example dur1 : Duration_String (90 * Second)%Z = "1m30s". Proof. reflexivity. Qed.
Example dur2 : Duration_String (1500 * Millisecond)%Z = "1.5s". Proof. reflexivity. Qed.
Example dur3 : Duration_String (10 * Second)%Z = "10s". Proof. reflexivity. Qed.

(** ** float64 *)

Module float64.
Definition t : Type := spec_float.
Definition prec : Z := 53%Z.
Definition emax : Z := 1024%Z.

Definition zero : t := S754_zero false.
Definition add (x y : t) : t := SFadd prec emax x y.
Definition mul (x y : t) : t := SFmul prec emax x y.
Definition div (x y : t) : t := SFdiv prec emax x y.
Definition ltb (x y : t) : bool := SFltb x y.

(** Conversion of an integer, rounded to nearest even. *)
Definition of_Z (z : Z) : t := binary_normalize prec emax z 0 false.

(** The float nearest to [num / den * 10 ^ 0]: correct rounding of a decimal
    literal. *)
Definition of_ratio (neg : bool) (num den : positive) : t :=
  let '(mz, ez, lz) := SFdiv_core_binary prec emax (Zpos num) 0 (Zpos den) 0 in
  binary_round_aux prec emax neg mz ez lz.

(** Truncation toward zero of a finite float. *)
Definition trunc (x : t) : option Z :=
  match x with
  | S754_zero _ => Some 0%Z
  | S754_finite s m e =>
      let a := if (0 <=? e)%Z then (Zpos m * 2 ^ e)%Z else (Zpos m / 2 ^ (- e))%Z in
      Some (if s then (- a)%Z else a)
  | _ => None
  end.
End float64.

(** Go leaves the conversion of a float that does not fit [int] to the
    implementation: amd64 gives the minimal integer, arm64 saturates (and gives
    0 for NaN). *)
Class GoArch := float_to_int_overflow : float64.t → Z.

Definition amd64 : GoArch := λ _, (- 2 ^ 63)%Z.
Definition arm64 : GoArch := λ x,
  match x with
  | S754_nan => 0%Z
  | S754_zero _ => 0%Z
  | S754_infinity s => if s then (- 2 ^ 63)%Z else (2 ^ 63 - 1)%Z
  | S754_finite s _ _ => if s then (- 2 ^ 63)%Z else (2 ^ 63 - 1)%Z
  end.

(** [int(x)] *)
Definition int_of_float `{GoArch} (x : float64.t) : Z :=
  match float64.trunc x with
  | Some z => if ((- 2 ^ 63 <=? z) && (z <? 2 ^ 63))%Z then z else float_to_int_overflow x
  | None => float_to_int_overflow x
  end.

(** [Duration.Seconds]: whole seconds and nanoseconds converted separately. *)
Definition Seconds (d : Duration) : float64.t :=
  let sec := Z.quot d Second in
  let nsec := Z.rem d Second in
  float64.add (float64.of_Z sec) (float64.div (float64.of_Z nsec) (float64.of_Z 1000000000)).

Example fl1 : int_of_float (H:=amd64) (float64.div (float64.of_Z 250) (float64.of_Z 100)) = 2%Z.
Proof. reflexivity. Qed.
Example fl2 : float64.of_ratio false 1 2 = float64.div (float64.of_Z 1) (float64.of_Z 2).
Proof. reflexivity. Qed.
Example fl3 : float64.of_ratio false 95 100 = S754_finite false 8556839292003942 (-53).
Proof. vm_compute. reflexivity. Qed.
Example fl4 : Seconds 2500000000%Z = float64.of_ratio false 5 2.
Proof. vm_compute. reflexivity. Qed.

(** ** Decimal round trip *)

(** [d] writes the number [n]: reading it after [acc] shifts [acc]. *)
Record decimal (n : Z) (d : string) : Prop := {
  dec_digits acc r : digits acc (d +:+ r) = digits (acc * 10 ^ Z.of_nat (String.length d) + n) r;
  dec_head : ∃ c d', d = String c d' ∧ is_Some (digit_of c) ∧ (c = "0"%char → n = 0%Z ∧ d' = "");
  dec_all : Forall (λ c, is_Some (digit_of c)) (String.list_ascii_of_string d)
}.

Lemma digit_char (k : N) : (k < 10)%N →
  digit_of (pretty_N_char k) = Some (Z.of_N k) ∧ (pretty_N_char k = "0"%char → k = 0%N).
Proof.
  intros Hk. assert (k = 0 ∨ k = 1 ∨ k = 2 ∨ k = 3 ∨ k = 4 ∨ k = 5 ∨ k = 6 ∨ k = 7 ∨ k = 8 ∨ k = 9)%N
    as H by lia.
  by destruct H as [->|[->|[->|[->|[->|[->|[->|[->|[->| ->]]]]]]]]].
Qed.

Lemma pretty_N_go_decimal (x : N) : (0 < x)%N → ∃ d, decimal (Z.of_N x) d ∧
  ∀ s, pretty_N_go x s = d +:+ s.
Proof.
  induction (N.lt_wf_0 x) as [x _ IH]. intros Hx.
  pose proof (digit_char (x mod 10)%N) as [Hd H0]; [lia|].
  set (c := pretty_N_char (x mod 10)%N) in *.
  destruct (decide (x < 10)%N) as [Hlt|Hge].
  - exists (String c ""). split.
    + split.
      * intros acc r. simpl. rewrite Hd. f_equal. lia.
      * exists c, "". split; [done|]. split; [by eauto|]. intros ->. specialize (H0 eq_refl). lia.
      * simpl. by repeat constructor.
    + intros s. rewrite pretty_N_go_step by done.
      rewrite (N.div_small x 10) by done. by rewrite pretty_N_go_0.
  - destruct (IH (x / 10)%N) as (d & [Hdig (c0 & d' & Hd0 & Hc0 & Hz) Hall] & Hgo); [lia..|].
    exists (d +:+ String c ""). split.
    + split.
      * intros acc r. rewrite str_app_assoc, Hdig. simpl. rewrite Hd, str_app_length. f_equal.
        simpl String.length. rewrite Nat2Z.inj_add, Z.pow_add_r by lia. change (10 ^ Z.of_nat 1)%Z with 10%Z. lia.
      * exists c0, (d' +:+ String c ""). rewrite Hd0. split; [done|]. split; [done|].
        intros ->. destruct (Hz eq_refl). lia.
      * clear -Hall Hd. induction d as [|a d IH]; simpl in *; [by repeat constructor|].
        apply Forall_cons in Hall as [? ?]. constructor; [done|]. by apply IH.
    + intros s. rewrite pretty_N_go_step by done. fold c. rewrite Hgo, str_app_assoc. done.
Qed.

Lemma pretty_N_decimal (x : N) : decimal (Z.of_N x) (pretty x).
Proof.
  destruct (decide (x = 0)%N) as [->|Hx].
  - split.
    + intros acc r. simpl. f_equal. change (Z.of_nat (nat_of_ascii "0")) with 48%Z. lia.
    + exists "0"%char, "". by repeat split; eauto.
    + simpl. by repeat constructor.
  - destruct (pretty_N_go_decimal x) as (d & Hd & Hgo); [lia|].
    unfold pretty, pretty_N. rewrite decide_False by done. by rewrite Hgo, str_app_nil.
Qed.

Lemma Itoa_decimal z : ∃ d, decimal (Z.abs z) d ∧ Itoa z = (if (z <? 0)%Z then "-" else "") +:+ d.
Proof.
  exists (pretty (Z.abs_N z)). split.
  - rewrite <- N2Z.inj_abs_N. apply pretty_N_decimal.
  - by destruct z.
Qed.

Lemma Atoi_Itoa z : in_int64 z → Atoi (Itoa z) = (z, true).
Proof.
  intros Hz. destruct (Itoa_decimal z) as (d & [Hdig (c & d' & -> & Hc & _) _] & ->).
  pose proof (Hdig 0%Z "") as Hv. rewrite str_app_nil in Hv. unfold in_int64 in Hz.
  assert (Hc1 : c ≠ "+"%char ∧ c ≠ "-"%char) by (by split; intros ->; destruct Hc).
  destruct Hc1 as [Hp Hm]. destruct (Z.ltb_spec z 0).
  - cbn [String.append]. unfold Atoi. rewrite Hv. cbn [digits].
    rewrite Z.mul_0_l, Z.add_0_l. case_match; to_prop; [lia|]. f_equal. lia.
  - cbn [String.append]. unfold Atoi.
    assert (E : (match String c d' with String "+" s' => (false, s') | String "-" s' => (true, s')
      | _ => (false, String c d') end) = (false, String c d')).
    { clear -Hp Hm. destruct c as [[] [] [] [] [] [] [] []]; try done; exfalso; by (apply Hp || apply Hm). }
    rewrite E, Hv. cbn [digits]. rewrite Z.mul_0_l, Z.add_0_l.
    destruct (Z.ltb_spec (Z.abs z) (2 ^ 63)); [|lia]. f_equal. lia.
Qed.
