(* ===== verification/Queue.v ===== *)
(** * pkg/scheduler/queue.go: jobs, the priority queue, the global scheduler

    [Job.t], [JobGroup.t] and [GlobalScheduler.t] are the structs of the file.
    Go pointers to jobs and groups are locations ([loc]) into the object stores
    [objs] and [gobjs] of the scheduler state: the heap and the [jobs] map hold
    pointers to the same objects, so a write through one is seen through the
    other, and a pointer may sit in the heap twice (Requeue does not look
    whether the job is queued).

    Each method is one definition that runs to completion: the mutex makes the
    methods atomic.  Methods that read [time.Now()] take the instant.  The
    hooks [OnJobChange] and [OnGroupChange] are the sends to [dbWriteChan] that
    StartMaster installs; [dbWriteChan] lists the pending sends, oldest first. *)

From S2P Require Import Prelude GoStd GoHeap.
#[local] Open Scope string_scope.
#[local] Open Scope list_scope.
#[local] Open Scope nat_scope.

Definition StateQueued : string := "QUEUED".
Definition StateRunning : string := "RUNNING".
Definition StateCompleted : string := "COMPLETED".
Definition StateFailed : string := "FAILED".
Definition StateCancelled : string := "CANCELLED".

(** [map[string]string]; [None] is the nil map. *)
Abbreviation strmap := (option (gmap string string)).

Module Job.
Record t := mk {
  ID : string;
  Requirement : string;
  Command : string;
  SubmitTime : Time;
  Priority : Z;
  User : string;
  WalltimeSeconds : Z;
  GPUsRequired : Z;
  CPUsRequired : Z;
  MemoryRequiredMB : Z;
  EnvVars : strmap;
  MaxRetries : Z;
  RetryCount : Z;
  GroupID : string;
  State : string;
  WorkerNode : string;
  StartTime : Time;
  EndTime : Time;
  Output : string;
  Error : string;
  index : Z
}.
(** The zero value, completed by Go's struct literals. *)
Definition zero : t :=
  mk "" "" "" zeroTime 0 "" 0 0 0 0 None 0 0 "" "" "" zeroTime zeroTime "" "" 0.
End Job.
Abbreviation Job := Job.t.

#[export] Instance eta_Job : Eta Job := λ j,
  Job.mk (Job.ID j) (Job.Requirement j) (Job.Command j) (Job.SubmitTime j) (Job.Priority j)
    (Job.User j) (Job.WalltimeSeconds j) (Job.GPUsRequired j) (Job.CPUsRequired j)
    (Job.MemoryRequiredMB j) (Job.EnvVars j) (Job.MaxRetries j) (Job.RetryCount j)
    (Job.GroupID j) (Job.State j) (Job.WorkerNode j) (Job.StartTime j) (Job.EndTime j)
    (Job.Output j) (Job.Error j) (Job.index j).
#[export] Instance Job_inhabited : Inhabited Job := populate Job.zero.

Module JobGroup.
Record t := mk {
  GroupID : string;
  JobIDs : list string;
  NumNodes : Z;
  GPUsPerNode : Z;
  MasterPort : Z;
  State : string;
  CreatedAt : Time
}.
Definition zero : t := mk "" [] 0 0 0 "" zeroTime.
End JobGroup.
Abbreviation JobGroup := JobGroup.t.

#[export] Instance eta_JobGroup : Eta JobGroup := λ g,
  JobGroup.mk (JobGroup.GroupID g) (JobGroup.JobIDs g) (JobGroup.NumNodes g)
    (JobGroup.GPUsPerNode g) (JobGroup.MasterPort g) (JobGroup.State g) (JobGroup.CreatedAt g).
#[export] Instance JobGroup_inhabited : Inhabited JobGroup := populate JobGroup.zero.

(** [range] over a Go map visits the entries in an unspecified order. *)
Class MapOrder := {
  range : ∀ {A}, gmap string A → list (string * A);
  range_perm : ∀ {A} (m : gmap string A), range m ≡ₚ map_to_list m
}.
#[refine] Definition map_order_canonical : MapOrder := {| range := λ A m, map_to_list m |}.
Proof. done. Defined.

(** [Job.Copy] copies the struct and rebuilds the environment map entry by
    entry. *)
Definition Copy (j : Job) : Job :=
  j <| Job.EnvVars ::= λ env,
    match env with
    | None => None
    | Some m => Some (list_to_map (map_to_list m))
    end |>.

Definition CopyGroup (g : JobGroup) : JobGroup :=
  g <| JobGroup.JobIDs ::= λ ids, map id ids |>.

(** ** The scheduler state *)

Abbreviation loc := positive.

(** One send to [dbWriteChan]. *)
Inductive dbWriteOp := WriteJob (l : loc) | WriteGroup (l : loc).

Module GlobalScheduler.
Record t := mk {
  objs : gmap loc Job;
  gobjs : gmap loc JobGroup;
  queue : list loc;
  jobs : gmap string loc;
  groups : gmap string loc;
  MaxQueueSize : Z;
  OnJobChange : bool;
  OnGroupChange : bool;
  dbWriteChan : list dbWriteOp
}.
End GlobalScheduler.
Abbreviation GlobalScheduler := GlobalScheduler.t.
Import GlobalScheduler (objs, gobjs, queue, jobs, groups, MaxQueueSize, OnJobChange,
  OnGroupChange, dbWriteChan).

#[export] Instance eta_GlobalScheduler : Eta GlobalScheduler := λ gs,
  GlobalScheduler.mk (objs gs) (gobjs gs) (queue gs) (jobs gs) (groups gs)
    (MaxQueueSize gs) (OnJobChange gs) (OnGroupChange gs) (dbWriteChan gs).

(** [*l] and writes through [l]. *)
Definition deref (gs : GlobalScheduler) (l : loc) : Job := objs gs !!! l.
Definition gderef (gs : GlobalScheduler) (l : loc) : JobGroup := gobjs gs !!! l.
Definition update (l : loc) (f : Job → Job) (gs : GlobalScheduler) : GlobalScheduler :=
  gs <| objs ::= alter f l |>.
Definition gupdate (l : loc) (f : JobGroup → JobGroup) (gs : GlobalScheduler) : GlobalScheduler :=
  gs <| gobjs ::= alter f l |>.

(** [&scheduler.Job{...}] *)
Definition new_job (j : Job) (gs : GlobalScheduler) : loc * GlobalScheduler :=
  let l := fresh (dom (objs gs)) in (l, gs <| objs ::= <[l := j]> |>).
Definition new_group (g : JobGroup) (gs : GlobalScheduler) : loc * GlobalScheduler :=
  let l := fresh (dom (gobjs gs)) in (l, gs <| gobjs ::= <[l := g]> |>).

(** ** JobQueue: heap.Interface *)

Module JobQueue.
Definition Len (gs : GlobalScheduler) : nat := length (queue gs).

Definition job_less (a b : Job) : bool :=
  if (Job.Priority a =? Job.Priority b)%Z
  then Before (Job.SubmitTime a) (Job.SubmitTime b)
  else (Job.Priority a <? Job.Priority b)%Z.

Definition Less (gs : GlobalScheduler) (i j : nat) : bool :=
  job_less (deref gs (queue gs !!! i)) (deref gs (queue gs !!! j)).

Definition Swap (i j : nat) (gs : GlobalScheduler) : GlobalScheduler :=
  let gs := gs <| queue ::= exchange i j |> in
  let gs := update (queue gs !!! i) (λ x, x <| Job.index := Z.of_nat i |>) gs in
  update (queue gs !!! j) (λ x, x <| Job.index := Z.of_nat j |>) gs.

Definition Push (l : loc) (gs : GlobalScheduler) : GlobalScheduler :=
  let n := length (queue gs) in
  let gs := update l (λ x, x <| Job.index := Z.of_nat n |>) gs in
  gs <| queue ::= λ q, q ++ [l] |>.

Definition Pop (gs : GlobalScheduler) : option (loc * GlobalScheduler) :=
  let old := queue gs in
  let n := length old in
  match old !! (n - 1) with
  | None => None
  | Some item =>
      let gs := update item (λ x, x <| Job.index := (-1)%Z |>) gs in
      Some (item, gs <| queue := take (n - 1) old |>)
  end.
End JobQueue.

#[export] Instance JobQueue_heap : HeapInterface GlobalScheduler loc := {|
  Len := JobQueue.Len; Less := JobQueue.Less; Swap := JobQueue.Swap;
  Push := JobQueue.Push; Pop := JobQueue.Pop
|}.

(** ** The methods of GlobalScheduler *)

Definition notifyJobChange (l : loc) (gs : GlobalScheduler) : GlobalScheduler :=
  if OnJobChange gs then gs <| dbWriteChan ::= λ c, c ++ [WriteJob l] |> else gs.

Definition notifyGroupChange (l : loc) (gs : GlobalScheduler) : GlobalScheduler :=
  if OnGroupChange gs then gs <| dbWriteChan ::= λ c, c ++ [WriteGroup l] |> else gs.

Definition NewGlobalScheduler : GlobalScheduler :=
  heap.Init (GlobalScheduler.mk ∅ ∅ [] ∅ ∅ 0 false false []).

(** [heap.Remove(&gs.queue, i)], result dropped. *)
Definition heap_remove (i : Z) (gs : GlobalScheduler) : GlobalScheduler :=
  match heap.Remove (Z.to_nat i) gs with
  | Some (_, gs') => gs'
  | None => gs
  end.

Definition Enqueue (job : loc) (gs : GlobalScheduler) : option string * GlobalScheduler :=
  if ((0 <? MaxQueueSize gs) && (MaxQueueSize gs <=? Z.of_nat (Len gs)))%Z
  then (Some ("queue full (" +:+ Itoa (MaxQueueSize gs) +:+ " jobs)"), gs)
  else
    let gs := update job (λ j, j <| Job.State := StateQueued |>) gs in
    let gs := gs <| jobs ::= <[Job.ID (deref gs job) := job]> |> in
    let gs := heap.Push job gs in
    (None, notifyJobChange job gs).

Definition Dequeue (gs : GlobalScheduler) : option Job * GlobalScheduler :=
  if Len gs =? 0 then (None, gs)
  else
    match heap.Pop gs with
    | Some (l, gs') => (Some (Copy (deref gs' l)), gs')
    | None => (None, gs)
    end.

Definition Peek (gs : GlobalScheduler) : option Job :=
  match queue gs with
  | [] => None
  | l :: _ => Some (Copy (deref gs l))
  end.

Definition QueueLen (gs : GlobalScheduler) : nat := Len gs.

(** The scan of Backfill: position and pointer of the first job, in array
    order, that the predicate accepts. *)
Fixpoint Backfill_scan {W} (matchFunc : Job → M W bool) (gs : GlobalScheduler)
    (i : nat) (q : list loc) : M W (option (nat * loc)) :=
  match q with
  | [] => mret None
  | job :: q' =>
      b ← matchFunc (Copy (deref gs job));
      if b : bool then mret (Some (i, job)) else Backfill_scan matchFunc gs (S i) q'
  end.

Definition Backfill {W} (matchFunc : Job → M W bool) (gs : GlobalScheduler) :
    M W (option Job * GlobalScheduler) :=
  found ← Backfill_scan matchFunc gs 0 (queue gs);
  match found with
  | None => mret (None, gs)
  | Some (i, job) =>
      let gs := heap_remove (Z.of_nat i) gs in
      mret (Some (Copy (deref gs job)), gs)
  end.

(** The guarded removal shared by RemoveByID and Cancel. *)
Definition remove_at_index (job : loc) (gs : GlobalScheduler) : GlobalScheduler :=
  let idx := Job.index (deref gs job) in
  if ((0 <=? idx) && (idx <? Z.of_nat (Len gs)))%Z then heap_remove idx gs else gs.

Definition RemoveByID (jobID : string) (gs : GlobalScheduler) : option Job * GlobalScheduler :=
  match jobs gs !! jobID with
  | None => (None, gs)
  | Some job =>
      if negb (String.eqb (Job.State (deref gs job)) StateQueued) then (None, gs)
      else
        let gs := remove_at_index job gs in
        (Some (Copy (deref gs job)), gs)
  end.

Definition Cancel (now : Time) (jobID : string) (gs : GlobalScheduler) :
    (option Job * bool) * GlobalScheduler :=
  match jobs gs !! jobID with
  | None => ((None, false), gs)
  | Some job =>
      let mark gs :=
        let gs := update job (λ j, j <| Job.State := StateCancelled |> <| Job.EndTime := now |>) gs in
        let gs := notifyJobChange job gs in
        ((Some (Copy (deref gs job)), true), gs) in
      let state := Job.State (deref gs job) in
      if String.eqb state StateQueued then mark (remove_at_index job gs)
      else if String.eqb state StateRunning then mark gs
      else ((Some (Copy (deref gs job)), false), gs)
  end.

Definition Requeue (jobID : string) (incrementRetry : bool) (gs : GlobalScheduler) :
    (option Job * option string) * GlobalScheduler :=
  match jobs gs !! jobID with
  | None => ((None, Some "job not found"), gs)
  | Some job =>
      let gs := if incrementRetry
        then update job (λ j, j <| Job.RetryCount ::= λ n, n +ᵢ 1 |>) gs else gs in
      let gs := update job (λ j,
        j <| Job.State := StateQueued |> <| Job.WorkerNode := "" |>
          <| Job.StartTime := zeroTime |> <| Job.EndTime := zeroTime |>
          <| Job.Output := "" |> <| Job.Error := "" |>
          <| Job.index := (-1)%Z |>) gs in
      let gs := heap.Push job gs in
      let gs := notifyJobChange job gs in
      ((Some (Copy (deref gs job)), None), gs)
  end.

Definition MarkRunning (now : Time) (jobID workerNode : string) (gs : GlobalScheduler) :
    GlobalScheduler :=
  match jobs gs !! jobID with
  | None => gs
  | Some job =>
      let gs := update job (λ j,
        j <| Job.State := StateRunning |> <| Job.WorkerNode := workerNode |>
          <| Job.StartTime := now |>) gs in
      notifyJobChange job gs
  end.

Definition RequeueRunningJob (jobID : string) (gs : GlobalScheduler) :
    (option Job * bool) * GlobalScheduler :=
  match jobs gs !! jobID with
  | None => ((None, false), gs)
  | Some job =>
      if negb (String.eqb (Job.State (deref gs job)) StateRunning) then ((None, false), gs)
      else
        let gs := update job (λ j,
          j <| Job.State := StateQueued |> <| Job.WorkerNode := "" |>
            <| Job.StartTime := zeroTime |>) gs in
        let gs := heap.Push job gs in
        let gs := notifyJobChange job gs in
        ((Some (Copy (deref gs job)), true), gs)
  end.

Definition MarkCompleted (now : Time) (jobID : string) (success : bool) (output errMsg : string)
    (gs : GlobalScheduler) : GlobalScheduler :=
  match jobs gs !! jobID with
  | None => gs
  | Some job =>
      if String.eqb (Job.State (deref gs job)) StateCancelled then gs
      else
        let gs := update job (λ j,
          j <| Job.State := if success then StateCompleted else StateFailed |>
            <| Job.Output := output |> <| Job.Error := errMsg |>
            <| Job.EndTime := now |>) gs in
        notifyJobChange job gs
  end.

Definition GetJob (jobID : string) (gs : GlobalScheduler) : option Job :=
  match jobs gs !! jobID with
  | None => None
  | Some job => Some (Copy (deref gs job))
  end.

Section Listing.
Context `{MapOrder}.

Definition ListJobs (stateFilter : string) (gs : GlobalScheduler) : list Job :=
  omap (λ '(_, l),
    let job := deref gs l in
    if String.eqb stateFilter "" || String.eqb (Job.State job) stateFilter
    then Some (Copy job) else None) (range (jobs gs)).

Definition RunningJobs (gs : GlobalScheduler) : list Job := ListJobs StateRunning gs.

Definition RunningJobsOnNode (nodeName : string) (gs : GlobalScheduler) : list Job :=
  omap (λ '(_, l),
    let job := deref gs l in
    if String.eqb (Job.State job) StateRunning && String.eqb (Job.WorkerNode job) nodeName
    then Some (Copy job) else None) (range (jobs gs)).

Definition PendingGroups (gs : GlobalScheduler) : list JobGroup :=
  omap (λ '(_, l),
    let g := gderef gs l in
    if String.eqb (JobGroup.State g) "PENDING" then Some (CopyGroup g) else None)
    (range (groups gs)).
End Listing.

Definition RegisterGroup (g : loc) (gs : GlobalScheduler) : GlobalScheduler :=
  let gs := gs <| groups ::= <[JobGroup.GroupID (gderef gs g) := g]> |> in
  notifyGroupChange g gs.

Definition GetGroup (groupID : string) (gs : GlobalScheduler) : option JobGroup :=
  match groups gs !! groupID with
  | None => None
  | Some g => Some (CopyGroup (gderef gs g))
  end.

Definition SetGroupState (groupID state : string) (gs : GlobalScheduler) : GlobalScheduler :=
  match groups gs !! groupID with
  | None => gs
  | Some g =>
      let gs := gupdate g (λ x, x <| JobGroup.State := state |>) gs in
      notifyGroupChange g gs
  end.
