(* ===== verification/QueueFacts.v ===== *)
(** * Facts about the priority queue and the global scheduler

    The laws of [heap.Interface] for [JobQueue], what each heap operation
    leaves unchanged ([heap_frame]), and the well-formedness of the scheduler
    state ([wf]): heap order, unique and correctly indexed pointers, agreement
    of the heap with the [jobs] map. *)

From S2P Require Import Prelude GoStd GoHeap Queue.
Import GlobalScheduler (objs, gobjs, queue, jobs, groups, MaxQueueSize, OnJobChange,
  OnGroupChange, dbWriteChan).
#[local] Open Scope nat_scope.

(** ** Pointers *)

Lemma Copy_id j : Copy j = j.
Proof.
  destruct j as [??????????[env|] ??????????]; [|done].
  unfold Copy. simpl. by rewrite list_to_map_to_list.
Qed.

Lemma CopyGroup_id g : CopyGroup g = g.
Proof. destruct g. unfold CopyGroup. simpl. by rewrite map_id. Qed.

#[export] Hint Rewrite Copy_id CopyGroup_id : tasch_rw.

Lemma deref_update_eq l f gs : l ∈ dom (objs gs) → deref (update l f gs) l = f (deref gs l).
Proof. intros [j Hj]%elem_of_dom. unfold deref, lookup_total, map_lookup_total. simpl.
  by rewrite lookup_alter_eq, Hj.
Qed.

Lemma deref_update_ne l l' f gs : l ≠ l' → deref (update l f gs) l' = deref gs l'.
Proof. intros. unfold deref. simpl. by rewrite lookup_total_alter_ne. Qed.

(** A field that the update does not touch, whatever the pointer. *)
Lemma deref_update_proj {A} (g : Job → A) l l' f gs :
  (∀ j, g (f j) = g j) → g (deref (update l f gs) l') = g (deref gs l').
Proof.
  intros Hg. destruct (decide (l = l')) as [<-|]; [|by rewrite deref_update_ne].
  unfold deref. simpl. unfold lookup_total, map_lookup_total.
  rewrite lookup_alter_eq. destruct (objs gs !! l); simpl; [apply Hg|done].
Qed.

Lemma dom_update l f gs : dom (objs (update l f gs)) = dom (objs gs).
Proof. simpl. apply dom_alter_L. Qed.

(** ** The laws of heap.Interface *)

Definition key (gs : GlobalScheduler) (l : loc) : Z * Z * loc :=
  (Job.Priority (deref gs l), Job.SubmitTime (deref gs l), l).

Definition key_lt (a b : Z * Z * loc) : bool :=
  if (a.1.1 =? b.1.1)%Z then Before a.1.2 b.1.2 else (a.1.1 <? b.1.1)%Z.

Definition qview (gs : GlobalScheduler) : list (Z * Z * loc) := key gs <$> queue gs.

Lemma key_lt_less gs a b : key_lt (key gs a) (key gs b) = JobQueue.job_less (deref gs a) (deref gs b).
Proof. done. Qed.

#[export] Instance key_weak : StrictWeak key_lt.
Proof.
  split; unfold key_lt, Before; intros; repeat case_match; to_prop; try lia.
  all: by apply Z.ltb_ge; lia.
Qed.

(** Updates that keep priority and submission time keep the heap's view. *)
Definition keeps_key (f : Job → Job) : Prop := ∀ j,
  Job.Priority (f j) = Job.Priority j ∧ Job.SubmitTime (f j) = Job.SubmitTime j.

Lemma key_update l l' f gs : keeps_key f → key (update l f gs) l' = key gs l'.
Proof. intros Hf. unfold key. by rewrite !deref_update_proj by apply Hf. Qed.

Lemma qview_update l f gs : keeps_key f → qview (update l f gs) = qview gs.
Proof. intros Hf. apply list_fmap_ext. intros. by apply key_update. Qed.

Lemma keeps_key_index n : keeps_key (λ x, x <| Job.index := n |>).
Proof. done. Qed.
#[export] Hint Resolve keeps_key_index : tasch.

Lemma fmap_exchange {A B} (f : A → B) i j (l : list A) :
  f <$> exchange i j l = exchange i j (f <$> l).
Proof.
  unfold exchange. rewrite !list_lookup_fmap.
  destruct (l !! i), (l !! j); simpl; [|done..]. by rewrite !list_fmap_insert.
Qed.

Lemma Swap_qview i j gs : qview (JobQueue.Swap i j gs) = exchange i j (qview gs).
Proof.
  unfold JobQueue.Swap. cbv zeta. rewrite !qview_update by done.
  unfold qview. simpl. rewrite <- fmap_exchange. apply list_fmap_ext. done.
Qed.

Lemma Push_qview l gs : qview (JobQueue.Push l gs) = qview gs ++ [key gs l].
Proof.
  unfold JobQueue.Push, qview. simpl. rewrite fmap_app. simpl. f_equal.
  - apply list_fmap_ext. intros. by apply (key_update l).
  - f_equal. by apply (key_update l).
Qed.

Lemma Pop_qview gs v e : qview gs = v ++ [e] →
  ∃ l gs', JobQueue.Pop gs = Some (l, gs') ∧ qview gs' = v ∧ key gs l = e.
Proof.
  unfold qview. intros Hv. apply fmap_app_inv in Hv as (q & q1 & -> & Hq & Hgs).
  symmetry in Hq. apply fmap_cons_inv in Hq as (l & q2 & -> & Hq2 & ->).
  symmetry in Hq2. apply fmap_nil_inv in Hq2 as ->.
  exists l. unfold JobQueue.Pop. rewrite Hgs, length_app. simpl.
  replace (length q + 1 - 1) with (length q) by lia.
  rewrite list_lookup_middle by done. eexists. split; [done|]. split; [|done].
  simpl. rewrite take_app_length. apply list_fmap_ext. intros. by apply (key_update l).
Qed.

#[export] Instance JobQueue_laws : HeapLaws JobQueue_heap qview key key_lt.
Proof.
  split.
  - apply key_weak.
  - intros gs. unfold qview. by rewrite length_fmap.
  - intros gs i j a b. unfold qview. rewrite !list_lookup_fmap.
    intros (l & Hl & ->)%fmap_Some (l' & Hl' & ->)%fmap_Some.
    simpl. unfold JobQueue.Less.
    by rewrite (list_lookup_total_correct _ _ _ Hl), (list_lookup_total_correct _ _ _ Hl').
  - intros gs i j _ _. apply Swap_qview.
  - intros gs l. apply Push_qview.
  - apply Pop_qview.
Qed.

(** ** What a heap operation leaves unchanged

    The heap moves pointers and writes [index] fields, nothing else. *)

Definition erase (j : Job) : Job := j <| Job.index := 0%Z |>.

Record heap_frame (gs gs' : GlobalScheduler) : Prop := {
  hf_jobs : jobs gs' = jobs gs;
  hf_gobjs : gobjs gs' = gobjs gs;
  hf_groups : groups gs' = groups gs;
  hf_max : MaxQueueSize gs' = MaxQueueSize gs;
  hf_hook : OnJobChange gs' = OnJobChange gs;
  hf_ghook : OnGroupChange gs' = OnGroupChange gs;
  hf_chan : dbWriteChan gs' = dbWriteChan gs;
  hf_dom : dom (objs gs') = dom (objs gs);
  hf_obj l : erase (deref gs' l) = erase (deref gs l)
}.

#[export] Instance heap_frame_pre : PreOrder heap_frame.
Proof. split; [done|]. intros ??? [] []; split; intros; congruence. Qed.

Lemma hf_proj {A} (g : Job → A) gs gs' l :
  heap_frame gs gs' → (∀ j, g (erase j) = g j) → g (deref gs' l) = g (deref gs l).
Proof. intros HF Hg. by rewrite <- (Hg (deref gs' l)), (hf_obj _ _ HF), Hg. Qed.

Lemma frame_index l n gs : heap_frame gs (update l (λ x, x <| Job.index := n |>) gs).
Proof.
  split; [done..| |].
  - apply dom_update.
  - intros l'. by apply (deref_update_proj erase).
Qed.

Lemma frame_queue q gs : heap_frame gs (gs <| queue := q |>).
Proof. done. Qed.

Lemma frame_Swap i j gs : heap_frame gs (JobQueue.Swap i j gs).
Proof.
  unfold JobQueue.Swap. cbv zeta. etrans; [|apply frame_index].
  etrans; [|apply frame_index]. apply (frame_queue (exchange i j (queue gs))).
Qed.

Lemma frame_swaps gs gs' : swaps gs gs' → heap_frame gs gs'.
Proof.
  intros H. apply (swaps_preserve (heap_frame gs) gs gs'); [|done..].
  intros s i j ? _ _. etrans; [done|apply frame_Swap].
Qed.

Lemma Pop_inv gs l gs' : Pop gs = Some (l, gs') →
  queue gs !! (length (queue gs) - 1) = Some l ∧
  gs' = (update l (λ x, x <| Job.index := (-1)%Z |>) gs)
          <| queue := take (length (queue gs) - 1) (queue gs) |>.
Proof.
  change (Pop gs) with (JobQueue.Pop gs). unfold JobQueue.Pop. cbv zeta.
  destruct (queue gs !! _) as [p|]; [|done]. intros H. by injection H as -> <-.
Qed.

Lemma frame_Pop gs l gs' : Pop gs = Some (l, gs') → heap_frame gs gs'.
Proof.
  intros [_ ->]%Pop_inv.
  exact (transitivity (frame_index l (-1)%Z gs) (frame_queue _ _)).
Qed.

Lemma frame_heap_Push l gs : heap_frame gs (heap.Push l gs).
Proof.
  transitivity (JobQueue.Push l gs).
  - exact (transitivity (frame_index l (Z.of_nat (length (queue gs))) gs) (frame_queue _ _)).
  - apply frame_swaps, up_swaps. simpl. unfold JobQueue.Len. simpl.
    rewrite length_app. simpl. lia.
Qed.

(** [heap.Remove] and [heap.Pop] on the scheduler's queue took out the element [a]. *)
Abbreviation qremoved := (removed (HI := JobQueue_heap) (view := qview) (elt := key)
  (lt := key_lt)).

Lemma frame_removed gs a l gs' : qremoved gs a (Some (l, gs')) → heap_frame gs gs'.
Proof.
  intros (x & s1 & s' & [= <- <-] & Hsw & HP & _).
  etrans; [by apply frame_swaps|by eapply frame_Pop].
Qed.

(** ** Heap order, whatever the history *)

Definition ordered (gs : GlobalScheduler) : Prop :=
  heap_ordered key_lt (qview gs) (Len gs).

Lemma ordered_update l f gs : keeps_key f → ordered gs → ordered (update l f gs).
Proof. intros Hf. unfold ordered. by rewrite qview_update. Qed.

Lemma ordered_push l gs : ordered gs → ordered (heap.Push l gs).
Proof. intros H. by apply (Push_spec l gs). Qed.

Lemma removed_ordered gs a l gs' : qremoved gs a (Some (l, gs')) → ordered gs'.
Proof. by intros (x & s1 & s' & [= <- <-] & _ & _ & _ & ? & _). Qed.

(** [heap.Remove] at a position in range takes out the pointer at it. *)
Lemma heap_remove_spec gs i l :
  ordered gs → queue gs !! i = Some l →
  ∃ gs', heap.Remove i gs = Some (l, gs') ∧ qremoved gs (key gs l) (Some (l, gs')) ∧
    queue gs ≡ₚ l :: queue gs'.
Proof.
  intros HO Hl.
  destruct (Remove_spec (elt := key) i gs (key gs l) HO) as (x & s1 & gs' & HR & Hsw & HP & Hx & HO' & Hv).
  { unfold qview. by rewrite list_lookup_fmap, Hl. }
  assert (x = l) as -> by (unfold key in Hx; congruence).
  exists gs'. split; [done|]. split; [by exists l, s1, gs'|].
  apply (fmap_Permutation (λ k, k.2)) in Hv. unfold qview in Hv. simpl in Hv.
  rewrite <- !list_fmap_compose in Hv.
  rewrite !(list_fmap_ext _ id), !list_fmap_id in Hv by done. done.
Qed.

Lemma heap_pop_spec gs l q :
  ordered gs → queue gs = l :: q →
  ∃ gs', heap.Pop gs = Some (l, gs') ∧ qremoved gs (key gs l) (Some (l, gs')) ∧
    queue gs ≡ₚ l :: queue gs' ∧ (∀ l', l' ∈ queue gs → key_lt (key gs l') (key gs l) = false).
Proof.
  intros HO Hq.
  destruct (Pop_spec (elt := key) gs (key gs l) HO) as [(x & s1 & gs' & HR & Hsw & HP & Hx & HO' & Hv) Hmin].
  { unfold qview. by rewrite Hq. }
  assert (x = l) as -> by (unfold key in Hx; congruence).
  exists gs'. split; [done|]. split; [by exists l, s1, gs'|]. split.
  - apply (fmap_Permutation (λ k, k.2)) in Hv. unfold qview in Hv. simpl in Hv.
    rewrite <- !list_fmap_compose in Hv.
    rewrite !(list_fmap_ext _ id), !list_fmap_id in Hv by done. done.
  - intros l' Hl'. apply Hmin. unfold qview. by apply list_elem_of_fmap_2.
Qed.

Lemma heap_push_queue gs l : ordered gs → queue (heap.Push l gs) ≡ₚ l :: queue gs.
Proof.
  intros HO. destruct (Push_spec (elt := key) l gs HO) as (_ & Hv & _).
  apply (fmap_Permutation (λ k, k.2)) in Hv. unfold qview in Hv. simpl in Hv.
  rewrite <- !list_fmap_compose in Hv.
  rewrite !(list_fmap_ext _ id), !list_fmap_id in Hv by done. done.
Qed.

(** ** Well-formed scheduler states

    [wf_but x]: heap order; every pointer of the heap occurs once, knows its
    position and is the one its ID maps to; a tracked job outside the heap has
    index -1, but for the pointer [x] a method is about to push. *)

Record wf_ptr (x : option loc) (gs : GlobalScheduler) : Prop := {
  wf_nodup : NoDup (queue gs);
  wf_index i l : queue gs !! i = Some l → Job.index (deref gs l) = Z.of_nat i;
  wf_queue l : l ∈ queue gs → jobs gs !! Job.ID (deref gs l) = Some l;
  wf_jobs id l : jobs gs !! id = Some l → l ∈ dom (objs gs) ∧ Job.ID (deref gs l) = id;
  wf_out id l : jobs gs !! id = Some l → l ∉ queue gs → Some l ≠ x →
    Job.index (deref gs l) = (-1)%Z
}.

Definition wf_but (x : option loc) (gs : GlobalScheduler) : Prop := ordered gs ∧ wf_ptr x gs.
Definition wf (gs : GlobalScheduler) : Prop := wf_but None gs.

Lemma wf_alloc x gs l : wf_ptr x gs → l ∈ queue gs → l ∈ dom (objs gs).
Proof. intros HW Hl. by eapply wf_jobs, wf_queue. Qed.

(** The clauses that only read IDs survive any heap operation that keeps the
    set of queued pointers. *)
Lemma wf_ids_frame x gs gs' :
  heap_frame gs gs' → wf_ptr x gs →
  (∀ id l, jobs gs' !! id = Some l → l ∈ dom (objs gs') ∧ Job.ID (deref gs' l) = id) ∧
  (∀ l, l ∈ queue gs → jobs gs' !! Job.ID (deref gs' l) = Some l).
Proof.
  intros HF HW. split.
  - intros id l. rewrite (hf_jobs _ _ HF), (hf_dom _ _ HF), (hf_proj Job.ID _ _ _ HF) by done.
    apply (wf_jobs _ _ HW).
  - intros l. rewrite (hf_jobs _ _ HF), (hf_proj Job.ID _ _ _ HF) by done. apply (wf_queue _ _ HW).
Qed.

Lemma deref_index_eq l n gs : l ∈ dom (objs gs) →
  Job.index (deref (update l (λ x, x <| Job.index := n |>) gs) l) = n.
Proof. intros. by rewrite deref_update_eq. Qed.

Lemma wf_Swap x i j gs :
  i < Len gs → j < Len gs → wf_ptr x gs → wf_ptr x (JobQueue.Swap i j gs).
Proof.
  intros Hi Hj HW. simpl in *. unfold JobQueue.Len in *.
  pose proof (frame_Swap i j gs) as HF.
  assert (Hq : queue (JobQueue.Swap i j gs) = exchange i j (queue gs)) by done.
  assert (Hperm : ∀ l, l ∈ exchange i j (queue gs) ↔ l ∈ queue gs)
    by (intros; by rewrite exchange_Permutation).
  destruct (wf_ids_frame _ _ _ HF HW) as [Hjobs Hqueue].
  destruct (lookup_lt_is_Some_2 _ _ Hi) as [a Ha]. destruct (lookup_lt_is_Some_2 _ _ Hj) as [b Hb].
  assert (Hd : ∀ l, deref (JobQueue.Swap i j gs) l =
    deref (update a (λ x, x <| Job.index := Z.of_nat j |>)
            (update b (λ x, x <| Job.index := Z.of_nat i |>) gs)) l).
  { intros l. unfold JobQueue.Swap. cbv zeta. simpl.
    rewrite (list_lookup_total_correct _ i b), (list_lookup_total_correct _ j a); [done|..].
    - by rewrite lookup_exchange_r.
    - by rewrite lookup_exchange_l. }
  assert (Ha' : a ∈ dom (objs gs)) by (eapply wf_alloc; [done|]; by eapply list_elem_of_lookup_2).
  assert (Hb' : b ∈ dom (objs gs)) by (eapply wf_alloc; [done|]; by eapply list_elem_of_lookup_2).
  split.
  - rewrite Hq, exchange_Permutation. apply (wf_nodup _ _ HW).
  - intros k l. rewrite Hq, Hd. destruct (decide (k = j)) as [->|Hkj].
    { rewrite lookup_exchange_r, Ha by done. intros [= <-].
      apply deref_index_eq. by rewrite dom_update. }
    destruct (decide (k = i)) as [->|Hki].
    { rewrite lookup_exchange_l, Hb by done. intros [= <-].
      rewrite deref_update_ne; [by apply deref_index_eq|].
      intros ->. apply Hkj. eapply NoDup_lookup; [apply (wf_nodup _ _ HW)|done..]. }
    rewrite lookup_exchange_ne by done. intros Hl.
    rewrite !deref_update_ne; [by apply (wf_index _ _ HW)|..]; intros ->.
    + apply Hkj. eapply NoDup_lookup; [apply (wf_nodup _ _ HW)|done..].
    + apply Hki. eapply NoDup_lookup; [apply (wf_nodup _ _ HW)|done..].
  - intros l Hl. rewrite Hq, Hperm in Hl. by apply Hqueue.
  - apply Hjobs.
  - intros id l. rewrite Hq, Hperm, (hf_jobs _ _ HF), Hd. intros Hid Hl Hx.
    rewrite !deref_update_ne; [by eapply (wf_out _ _ HW)|..]; intros ->; apply Hl;
      by eapply list_elem_of_lookup_2.
Qed.

Lemma wf_swaps x gs gs' : swaps gs gs' → wf_ptr x gs → wf_ptr x gs'.
Proof.
  apply swaps_preserve. intros. by apply wf_Swap.
Qed.

(** Pushing a tracked pointer that is not in the heap. *)
Lemma wf_Push l gs : wf_ptr (Some l) gs → l ∉ queue gs →
  jobs gs !! Job.ID (deref gs l) = Some l → wf_ptr None (JobQueue.Push l gs).
Proof.
  intros HW Hl Hid. set (n := length (queue gs)).
  set (gs1 := update l (λ x, x <| Job.index := Z.of_nat n |>) gs).
  assert (HF : heap_frame gs gs1) by apply frame_index.
  destruct (wf_ids_frame _ _ _ HF HW) as [Hjobs Hqueue].
  assert (Hdom : l ∈ dom (objs gs)) by (by eapply (wf_jobs _ _ HW)).
  assert (Hd : ∀ l', deref (JobQueue.Push l gs) l' = deref gs1 l') by done.
  assert (Hq : queue (JobQueue.Push l gs) = queue gs ++ [l]) by done.
  split.
  - rewrite Hq. apply NoDup_app. split; [apply (wf_nodup _ _ HW)|].
    split; [|apply NoDup_singleton]. by intros l' ? ->%list_elem_of_singleton.
  - intros i l'. rewrite Hq, Hd. intros [Hi|[? Hi]]%lookup_app_Some.
    + unfold gs1. rewrite deref_update_ne; [by apply (wf_index _ _ HW)|].
      intros ->. apply Hl. by eapply list_elem_of_lookup_2.
    + apply list_lookup_singleton_Some in Hi as [? <-].
      unfold gs1. rewrite deref_index_eq by done. f_equal. unfold n. lia.
  - intros l'. rewrite Hq, Hd, elem_of_app, list_elem_of_singleton.
    intros [?| ->]; [by apply Hqueue|].
    by rewrite (hf_proj Job.ID _ _ _ HF).
  - apply Hjobs.
  - intros id l' Hid'. rewrite Hq, Hd, elem_of_app, list_elem_of_singleton. intros Hout _.
    unfold gs1. rewrite deref_update_ne by (intros ->; tauto).
    eapply (wf_out _ _ HW); [done|tauto|]. intros [= ->]. tauto.
Qed.

Lemma wf_heap_push l gs : ordered gs → wf_ptr (Some l) gs → l ∉ queue gs →
  jobs gs !! Job.ID (deref gs l) = Some l → wf (heap.Push l gs).
Proof.
  intros HO HW Hl Hid. split; [by apply ordered_push|].
  destruct (Push_spec (elt := key) l gs HO) as (_ & _ & Hsw).
  eapply wf_swaps; [done|]. by apply wf_Push.
Qed.

Lemma wf_Pop gs l gs' : wf_ptr None gs → Pop gs = Some (l, gs') → wf_ptr None gs'.
Proof.
  intros HW HP. pose proof (frame_Pop _ _ _ HP) as HF.
  destruct (wf_ids_frame _ _ _ HF HW) as [Hjobs Hqueue].
  apply Pop_inv in HP as [Hp ->].
  set (n := length (queue gs) - 1) in *.
  assert (Hsplit : queue gs = take n (queue gs) ++ [l]).
  { rewrite <- (take_drop n (queue gs)) at 1. f_equal. erewrite drop_S by done.
    by rewrite drop_ge by lia. }
  set (gs1 := update l (λ x, x <| Job.index := (-1)%Z |>) gs) in *.
  assert (Hl : l ∈ dom (objs gs)) by (eapply wf_alloc; [done|]; by eapply list_elem_of_lookup_2).
  pose proof (wf_nodup _ _ HW) as Hnd. rewrite Hsplit in Hnd.
  apply NoDup_app in Hnd as (Hnd & Hnot & _).
  set (gs2 := gs1 <| queue := take n (queue gs) |>) in *.
  assert (Hd : ∀ l', deref gs2 l' = deref gs1 l') by done.
  assert (Hq : queue gs2 = take n (queue gs)) by done.
  split.
  - by rewrite Hq.
  - intros i l'. rewrite Hq, Hd. intros Hi.
    unfold gs1. rewrite deref_update_ne.
    + apply (wf_index _ _ HW). rewrite Hsplit. by apply lookup_app_l_Some.
    + intros <-. eapply Hnot; [by eapply list_elem_of_lookup_2|]. by apply list_elem_of_singleton.
  - intros l'. rewrite Hq. intros Hl'. apply Hqueue.
    rewrite Hsplit. apply elem_of_app. by left.
  - apply Hjobs.
  - intros id l' Hid. rewrite Hq, Hd. intros Hout _.
    unfold gs1. destruct (decide (l = l')) as [<-|Hne]; [by apply deref_index_eq|].
    rewrite deref_update_ne by done. eapply (wf_out _ _ HW); [done| |done].
    rewrite Hsplit. rewrite elem_of_app, list_elem_of_singleton. intros [?| ->]; done.
Qed.

Lemma wf_removed gs a l gs' : wf_ptr None gs → qremoved gs a (Some (l, gs')) → wf gs'.
Proof.
  intros HW HR. split; [by eapply removed_ordered|].
  destruct HR as (x & s1 & s' & [= <- <-] & Hsw & HP & _).
  eapply wf_Pop; [|done]. by eapply wf_swaps.
Qed.

(** Updates that keep ID, key and index keep the state well formed. *)
Definition keeps_ptr (f : Job → Job) : Prop := keeps_key f ∧
  ∀ j, Job.ID (f j) = Job.ID j ∧ Job.index (f j) = Job.index j.

Lemma wf_update x l f gs : keeps_ptr f → wf_but x gs → wf_but x (update l f gs).
Proof.
  intros [Hk Hf] [HO HW]. split; [by apply ordered_update|].
  assert (HID : ∀ l', Job.ID (deref (update l f gs) l') = Job.ID (deref gs l'))
    by (intros; apply deref_update_proj; apply Hf).
  assert (Hidx : ∀ l', Job.index (deref (update l f gs) l') = Job.index (deref gs l'))
    by (intros; apply deref_update_proj; apply Hf).
  destruct HW. split; [done|..].
  - intros i l'. rewrite Hidx. auto.
  - intros l'. rewrite HID. auto.
  - intros id l'. rewrite HID, dom_update. auto.
  - intros id l'. rewrite Hidx. eauto.
Qed.

(** [wf_but] reads the object store, the queue and the [jobs] map only. *)
Lemma wf_ext x gs gs' : objs gs' = objs gs → queue gs' = queue gs → jobs gs' = jobs gs →
  wf_but x gs → wf_but x gs'.
Proof.
  destruct gs, gs'. simpl. intros -> -> -> [HO HW]. split; [exact HO|]. by destruct HW.
Qed.

Lemma wf_notify l gs x : wf_but x gs → wf_but x (notifyJobChange l gs).
Proof. unfold notifyJobChange. case_match; [|done]. by apply wf_ext. Qed.

Lemma wf_weaken l gs : wf gs → wf_but (Some l) gs.
Proof. intros [HO HW]. split; [done|]. destruct HW. split; eauto. Qed.

#[export] Hint Resolve wf_notify wf_weaken : tasch.
