(* ===== verification/SchedulerSpec.v ===== *)
(** * The global scheduler against its abstract specification

    The abstract scheduler is a table of jobs and the set of pending IDs, with
    no heap, no pointers and no [index] fields.  [spec_step] says what each
    method may do to it and return; [allowed] is the protocol under which the
    pointer-based code is well behaved (a fresh ID on Enqueue, no Requeue of a
    job that is already pending). *)

From S2P Require Import Prelude GoStd GoHeap Queue QueueFacts.
Import GlobalScheduler (objs, gobjs, queue, jobs, groups, MaxQueueSize, OnJobChange,
  OnGroupChange, dbWriteChan).
#[local] Open Scope string_scope.
#[local] Open Scope nat_scope.

(** ** Operations as data, so that histories are lists *)

Inductive op :=
  | OEnqueue (j : Job)
  | ODequeue
  | OBackfill (matchFunc : Job → bool)
  | ORemoveByID (id : string)
  | OCancel (now : Time) (id : string)
  | ORequeue (id : string) (incrementRetry : bool)
  | OMarkRunning (now : Time) (id node : string)
  | ORequeueRunning (id : string)
  | OMarkCompleted (now : Time) (id : string) (success : bool) (output err : string)
  | ORegisterGroup (g : JobGroup)
  | OSetGroupState (id state : string).

Inductive res :=
  | RUnit
  | RErr (e : option string)
  | RJob (j : option Job)
  | RJobOk (j : option Job) (ok : bool)
  | RJobErr (j : option Job) (e : option string).

(** Backfill with a predicate that has no state of its own. *)
Definition Backfill_pure (p : Job → bool) (gs : GlobalScheduler) : option Job * GlobalScheduler :=
  match Backfill (W := ()) (λ j, mret (p j)) gs () with
  | Some (r, _) => r
  | None => (None, gs)
  end.

Definition exec_op (o : op) (gs : GlobalScheduler) : res * GlobalScheduler :=
  match o with
  | OEnqueue j => let '(l, gs) := new_job j gs in let '(e, gs) := Enqueue l gs in (RErr e, gs)
  | ODequeue => let '(j, gs) := Dequeue gs in (RJob j, gs)
  | OBackfill p => let '(j, gs) := Backfill_pure p gs in (RJob j, gs)
  | ORemoveByID id => let '(j, gs) := RemoveByID id gs in (RJob j, gs)
  | OCancel now id => let '((j, ok), gs) := Cancel now id gs in (RJobOk j ok, gs)
  | ORequeue id b => let '((j, e), gs) := Requeue id b gs in (RJobErr j e, gs)
  | OMarkRunning now id node => (RUnit, MarkRunning now id node gs)
  | ORequeueRunning id => let '((j, ok), gs) := RequeueRunningJob id gs in (RJobOk j ok, gs)
  | OMarkCompleted now id b out err => (RUnit, MarkCompleted now id b out err gs)
  | ORegisterGroup g => let '(l, gs) := new_group g gs in (RUnit, RegisterGroup l gs)
  | OSetGroupState id st => (RUnit, SetGroupState id st gs)
  end.

Fixpoint run (ops : list op) (gs : GlobalScheduler) : GlobalScheduler :=
  match ops with
  | [] => gs
  | o :: ops' => run ops' (exec_op o gs).2
  end.

(** ** The abstract scheduler *)

Record spec := Spec { table : gmap string Job; pending : gset string }.

Definition abs (gs : GlobalScheduler) : spec := {|
  table := (λ l, erase (deref gs l)) <$> jobs gs;
  pending := list_to_set ((λ l, Job.ID (deref gs l)) <$> queue gs)
|}.

Definition erase_res (r : res) : res :=
  match r with
  | RJob j => RJob (erase <$> j)
  | RJobOk j ok => RJobOk (erase <$> j) ok
  | RJobErr j e => RJobErr (erase <$> j) e
  | r => r
  end.

(** What the methods write into a job. *)
Definition queued (j : Job) : Job := j <| Job.State := StateQueued |>.
Definition cancelled (now : Time) (j : Job) : Job :=
  j <| Job.State := StateCancelled |> <| Job.EndTime := now |>.
Definition running (now : Time) (node : string) (j : Job) : Job :=
  j <| Job.State := StateRunning |> <| Job.WorkerNode := node |> <| Job.StartTime := now |>.
Definition requeued (j : Job) : Job :=
  j <| Job.State := StateQueued |> <| Job.WorkerNode := "" |> <| Job.StartTime := zeroTime |>.
Definition reset (incrementRetry : bool) (j : Job) : Job :=
  (if incrementRetry then j <| Job.RetryCount ::= λ n, n +ᵢ 1 |> else j)
    <| Job.State := StateQueued |> <| Job.WorkerNode := "" |>
    <| Job.StartTime := zeroTime |> <| Job.EndTime := zeroTime |>
    <| Job.Output := "" |> <| Job.Error := "" |>.
Definition completed (now : Time) (success : bool) (output err : string) (j : Job) : Job :=
  j <| Job.State := if success then StateCompleted else StateFailed |>
    <| Job.Output := output |> <| Job.Error := err |> <| Job.EndTime := now |>.

(** [id] is pending with a job no pending job precedes. *)
Definition minimal (s : spec) (id : string) (j : Job) : Prop :=
  id ∈ pending s ∧ table s !! id = Some j ∧
  ∀ id' j', id' ∈ pending s → table s !! id' = Some j' → JobQueue.job_less j' j = false.

Inductive spec_step (limit : Z) (s : spec) : op → res → spec → Prop :=
  | spec_enqueue_full j :
      (0 < limit ≤ Z.of_nat (size (pending s)))%Z →
      spec_step limit s (OEnqueue j) (RErr (Some ("queue full (" +:+ Itoa limit +:+ " jobs)"))) s
  | spec_enqueue j :
      (limit ≤ 0 ∨ Z.of_nat (size (pending s)) < limit)%Z →
      spec_step limit s (OEnqueue j) (RErr None)
        (Spec (<[Job.ID j := erase (queued j)]> (table s)) ({[Job.ID j]} ∪ pending s))
  | spec_dequeue_empty :
      pending s = ∅ → spec_step limit s ODequeue (RJob None) s
  | spec_dequeue id j :
      minimal s id j →
      spec_step limit s ODequeue (RJob (Some j)) (Spec (table s) (pending s ∖ {[id]}))
  | spec_backfill_none p :
      (∀ id j, id ∈ pending s → table s !! id = Some j →
        ∃ idx, p (j <| Job.index := idx |>) = false) →
      spec_step limit s (OBackfill p) (RJob None) s
  | spec_backfill p id j idx :
      id ∈ pending s → table s !! id = Some j → p (j <| Job.index := idx |>) = true →
      spec_step limit s (OBackfill p) (RJob (Some j)) (Spec (table s) (pending s ∖ {[id]}))
  | spec_remove_none id :
      (∀ j, table s !! id = Some j → Job.State j ≠ StateQueued) →
      spec_step limit s (ORemoveByID id) (RJob None) s
  | spec_remove id j :
      table s !! id = Some j → Job.State j = StateQueued →
      spec_step limit s (ORemoveByID id) (RJob (Some j)) (Spec (table s) (pending s ∖ {[id]}))
  | spec_cancel_unknown now id :
      table s !! id = None → spec_step limit s (OCancel now id) (RJobOk None false) s
  | spec_cancel_queued now id j :
      table s !! id = Some j → Job.State j = StateQueued →
      spec_step limit s (OCancel now id) (RJobOk (Some (cancelled now j)) true)
        (Spec (<[id := cancelled now j]> (table s)) (pending s ∖ {[id]}))
  | spec_cancel_running now id j :
      table s !! id = Some j → Job.State j = StateRunning →
      spec_step limit s (OCancel now id) (RJobOk (Some (cancelled now j)) true)
        (Spec (<[id := cancelled now j]> (table s)) (pending s))
  | spec_cancel_done now id j :
      table s !! id = Some j → Job.State j ≠ StateQueued → Job.State j ≠ StateRunning →
      spec_step limit s (OCancel now id) (RJobOk (Some j) false) s
  | spec_requeue_unknown id b :
      table s !! id = None →
      spec_step limit s (ORequeue id b) (RJobErr None (Some "job not found")) s
  | spec_requeue id b j :
      table s !! id = Some j →
      spec_step limit s (ORequeue id b) (RJobErr (Some (reset b j)) None)
        (Spec (<[id := reset b j]> (table s)) ({[id]} ∪ pending s))
  | spec_running_unknown now id node :
      table s !! id = None → spec_step limit s (OMarkRunning now id node) RUnit s
  | spec_running now id node j :
      table s !! id = Some j →
      spec_step limit s (OMarkRunning now id node) RUnit
        (Spec (<[id := running now node j]> (table s)) (pending s))
  | spec_requeue_running_no id :
      (∀ j, table s !! id = Some j → Job.State j ≠ StateRunning) →
      spec_step limit s (ORequeueRunning id) (RJobOk None false) s
  | spec_requeue_running id j :
      table s !! id = Some j → Job.State j = StateRunning →
      spec_step limit s (ORequeueRunning id) (RJobOk (Some (requeued j)) true)
        (Spec (<[id := requeued j]> (table s)) ({[id]} ∪ pending s))
  | spec_completed_no now id b out err :
      (∀ j, table s !! id = Some j → Job.State j = StateCancelled) →
      spec_step limit s (OMarkCompleted now id b out err) RUnit s
  | spec_completed now id b out err j :
      table s !! id = Some j → Job.State j ≠ StateCancelled →
      spec_step limit s (OMarkCompleted now id b out err) RUnit
        (Spec (<[id := completed now b out err j]> (table s)) (pending s))
  | spec_register g : spec_step limit s (ORegisterGroup g) RUnit s
  | spec_group id st : spec_step limit s (OSetGroupState id st) RUnit s.

(** The protocol: what a caller must respect. *)
Definition allowed (s : spec) (o : op) : Prop :=
  match o with
  | OEnqueue j => table s !! Job.ID j = None
  | ORequeue id _ => id ∉ pending s
  | ORequeueRunning id => ∀ j, table s !! id = Some j → Job.State j = StateRunning → id ∉ pending s
  | _ => True
  end.

(** ** The abstraction function and the pointer operations *)

Lemma erase_idem j : erase (erase j) = erase j.
Proof. done. Qed.

Lemma erase_restore j : (erase j) <| Job.index := Job.index j |> = j.
Proof. by destruct j. Qed.

Lemma table_lookup gs id : table (abs gs) !! id = (λ l, erase (deref gs l)) <$> jobs gs !! id.
Proof. apply lookup_fmap. Qed.

Lemma table_lookup_Some gs id l : jobs gs !! id = Some l → table (abs gs) !! id = Some (erase (deref gs l)).
Proof. intros H. by rewrite table_lookup, H. Qed.

Lemma table_lookup_inv gs id j : table (abs gs) !! id = Some j →
  ∃ l, jobs gs !! id = Some l ∧ j = erase (deref gs l).
Proof. rewrite table_lookup. by intros (l & ? & ->)%fmap_Some; eauto. Qed.

Lemma elem_of_pending gs id :
  id ∈ pending (abs gs) ↔ ∃ l, l ∈ queue gs ∧ id = Job.ID (deref gs l).
Proof. unfold abs. simpl. rewrite elem_of_list_to_set, list_elem_of_fmap. naive_solver. Qed.

(** In a well-formed state an ID is pending exactly when its pointer is queued. *)
Lemma pending_queue x gs id l : wf_ptr x gs → jobs gs !! id = Some l →
  id ∈ pending (abs gs) ↔ l ∈ queue gs.
Proof.
  intros HW Hid. rewrite elem_of_pending. destruct (wf_jobs _ _ HW _ _ Hid) as [_ HID]. split.
  - intros (l' & Hl' & Heq). apply (wf_queue _ _ HW) in Hl' as Hj. rewrite <- Heq in Hj.
    by assert (l = l') as -> by congruence.
  - intros. by exists l.
Qed.

Lemma size_pending x gs : wf_ptr x gs → size (pending (abs gs)) = Len gs.
Proof.
  intros HW. unfold abs. simpl. rewrite size_list_to_set; [by rewrite length_fmap|].
  apply NoDup_fmap_2_strong; [|apply (wf_nodup _ _ HW)].
  intros l l' Hl Hl' Heq. apply (wf_queue _ _ HW) in Hl, Hl'. congruence.
Qed.

Lemma abs_frame_table gs gs' : heap_frame gs gs' → table (abs gs') = table (abs gs).
Proof.
  intros HF. apply map_eq. intros id. rewrite !table_lookup, (hf_jobs _ _ HF).
  destruct (jobs gs !! id); simpl; [|done]. by rewrite (hf_obj _ _ HF).
Qed.

Lemma abs_push gs l x : wf_ptr x gs → ordered gs → jobs gs !! Job.ID (deref gs l) = Some l →
  abs (heap.Push l gs) = Spec (table (abs gs)) ({[Job.ID (deref gs l)]} ∪ pending (abs gs)).
Proof.
  intros HW HO Hid. pose proof (frame_heap_Push l gs) as HF.
  assert (Ht := abs_frame_table _ _ HF). destruct (abs (heap.Push l gs)) as [t p] eqn:E.
  simpl in Ht. subst t. f_equal. replace p with (pending (abs (heap.Push l gs))) by (by rewrite E).
  apply set_eq. intros id. rewrite elem_of_union, elem_of_singleton, !elem_of_pending.
  setoid_rewrite (hf_proj Job.ID _ _ _ HF); [|done].
  setoid_rewrite heap_push_queue; [|done]. setoid_rewrite elem_of_cons. naive_solver.
Qed.

Lemma abs_remove gs gs' l : wf_ptr None gs → heap_frame gs gs' → queue gs ≡ₚ l :: queue gs' →
  abs gs' = Spec (table (abs gs)) (pending (abs gs) ∖ {[Job.ID (deref gs l)]}).
Proof.
  intros HW HF Hq. assert (Ht := abs_frame_table _ _ HF).
  destruct (abs gs') as [t p] eqn:E. simpl in Ht. subst t. f_equal.
  replace p with (pending (abs gs')) by (by rewrite E).
  pose proof (wf_nodup _ _ HW) as Hnd. rewrite Hq in Hnd. apply NoDup_cons in Hnd as [Hl _].
  assert (Hin : ∀ l', l' ∈ queue gs ↔ l' = l ∨ l' ∈ queue gs')
    by (intros; by rewrite Hq, elem_of_cons).
  apply set_eq. intros id. rewrite elem_of_difference, elem_of_singleton, !elem_of_pending.
  setoid_rewrite (hf_proj Job.ID _ _ _ HF); [|done]. split.
  - intros (l' & Hl' & ->). split; [naive_solver|]. intros Heq.
    assert (Hl2 : l' ∈ queue gs) by naive_solver. assert (Hl3 : l ∈ queue gs) by naive_solver.
    apply (wf_queue _ _ HW) in Hl2, Hl3. congruence.
  - intros [(l' & Hl' & ->) Hne]. exists l'. split; [|done]. naive_solver.
Qed.

(** A write through the pointer of [id] is an update of its table entry. *)
Lemma abs_update gs x id l f g : wf_ptr x gs → jobs gs !! id = Some l →
  (∀ j, erase (f j) = g (erase j)) → (∀ j, Job.ID (f j) = Job.ID j) →
  abs (update l f gs) = Spec (<[id := g (erase (deref gs l))]> (table (abs gs))) (pending (abs gs)).
Proof.
  intros HW Hid Hfg Hf. destruct (wf_jobs _ _ HW _ _ Hid) as [Hdom HID].
  unfold abs at 1. f_equal.
  - apply map_eq. intros id'. rewrite lookup_fmap. destruct (decide (id' = id)) as [->|Hne].
    + rewrite lookup_insert_eq. simpl. rewrite Hid. simpl. by rewrite deref_update_eq, Hfg.
    + rewrite lookup_insert_ne, table_lookup by done. simpl.
      destruct (jobs gs !! id') as [l'|] eqn:Hid'; simpl; [|done].
      rewrite deref_update_ne; [done|]. intros <-.
      destruct (wf_jobs _ _ HW _ _ Hid'). congruence.
  - apply set_eq. intros id'. rewrite elem_of_list_to_set, elem_of_pending, list_elem_of_fmap.
    setoid_rewrite (deref_update_proj Job.ID); [|done]. naive_solver.
Qed.

Lemma abs_notify l gs : abs (notifyJobChange l gs) = abs gs.
Proof. unfold notifyJobChange. by case_match. Qed.

Lemma Spec_eta s : Spec (table s) (pending s) = s.
Proof. by destruct s. Qed.

(** ** Enqueue *)

(** The state Enqueue pushes into: the object allocated, queued and tracked. *)
Definition tracked (l : loc) (j : Job) (gs : GlobalScheduler) : GlobalScheduler :=
  gs <| objs ::= <[l := j]> |> <| jobs ::= <[Job.ID j := l]> |>.

Lemma Enqueue_new_eq j gs : let '(l, gs1) := new_job j gs in
  Enqueue l gs1 =
    if ((0 <? MaxQueueSize gs) && (MaxQueueSize gs <=? Z.of_nat (Len gs)))%Z
    then (Some ("queue full (" +:+ Itoa (MaxQueueSize gs) +:+ " jobs)"), gs1)
    else (None, notifyJobChange l (heap.Push l (tracked l (queued j) gs))).
Proof.
  unfold new_job, Enqueue. set (l := fresh _). cbv zeta.
  change (MaxQueueSize (gs <| objs ::= <[l := j]> |>)) with (MaxQueueSize gs).
  change (Len (gs <| objs ::= <[l := j]> |>)) with (Len gs).
  case_match; [done|]. f_equal. f_equal. f_equal. unfold tracked, update.
  assert (E : alter (λ x, x <| Job.State := StateQueued |>) l (<[l := j]> (objs gs)) =
    <[l := queued j]> (objs gs)) by (by rewrite alter_insert_eq).
  unfold deref. destruct gs. simpl in *. rewrite E, lookup_total_insert_eq. done.
Qed.

Lemma tracked_deref l j gs : deref (tracked l j gs) l = j.
Proof. unfold deref. simpl. apply lookup_total_insert_eq. Qed.

Lemma tracked_deref_ne l l' j gs : l ≠ l' → deref (tracked l j gs) l' = deref gs l'.
Proof. intros. unfold deref. simpl. by apply lookup_total_insert_ne. Qed.

Lemma wf_tracked l j gs : wf gs → l ∉ dom (objs gs) → jobs gs !! Job.ID j = None →
  wf_but (Some l) (tracked l j gs) ∧ (l ∉ queue gs) ∧
  abs (tracked l j gs) = Spec (<[Job.ID j := erase j]> (table (abs gs))) (pending (abs gs)).
Proof.
  intros [HO HW] Hfresh Hnew.
  assert (Hq : ∀ l', l' ∈ queue gs → l ≠ l').
  { intros l' Hl' <-. by apply Hfresh, (wf_alloc None). }
  assert (Hj : ∀ id l', jobs gs !! id = Some l' → l ≠ l').
  { intros id l' Hl' <-. by apply (wf_jobs _ _ HW) in Hl' as [? _]. }
  assert (Hl : l ∉ queue gs) by (intros ?; by eapply (Hq l)).
  split; [split|split; [done|]].
  - unfold ordered, qview. change (queue (tracked l j gs)) with (queue gs).
    rewrite (list_fmap_ext _ (key gs)); [exact HO|]. intros i l' Hl'%list_elem_of_lookup_2.
    unfold key. by rewrite tracked_deref_ne by auto.
  - assert (Hlk : ∀ id l', jobs gs !! id = Some l' → jobs (tracked l j gs) !! id = Some l').
    { intros id l' Hid. change (jobs (tracked l j gs)) with (<[Job.ID j := l]> (jobs gs)).
      rewrite lookup_insert_ne; [done|congruence]. }
    split; change (queue (tracked l j gs)) with (queue gs).
    + apply (wf_nodup _ _ HW).
    + intros i l' Hl'. rewrite tracked_deref_ne by (apply Hq; by eapply list_elem_of_lookup_2).
      by apply (wf_index _ _ HW).
    + intros l' Hl'. rewrite tracked_deref_ne by auto. by apply Hlk, (wf_queue _ _ HW).
    + intros id l'. change (jobs (tracked l j gs)) with (<[Job.ID j := l]> (jobs gs)).
      change (objs (tracked l j gs)) with (<[l := j]> (objs gs)). rewrite dom_insert_L.
      intros [[<- <-]|[Hne Hid]]%lookup_insert_Some.
      { rewrite tracked_deref. set_solver. }
      rewrite tracked_deref_ne by eauto. destruct (wf_jobs _ _ HW _ _ Hid). set_solver.
    + intros id l'. change (jobs (tracked l j gs)) with (<[Job.ID j := l]> (jobs gs)).
      intros [[<- <-]|[Hne Hid]]%lookup_insert_Some; [done|]. intros ? _.
      rewrite tracked_deref_ne by eauto. by eapply (wf_out _ _ HW).
  - unfold abs at 1. f_equal.
    + change (jobs (tracked l j gs)) with (<[Job.ID j := l]> (jobs gs)).
      rewrite fmap_insert, tracked_deref. apply map_eq. intros id.
      destruct (decide (id = Job.ID j)) as [->|?]; [by rewrite !lookup_insert_eq|].
      rewrite !lookup_insert_ne, table_lookup, lookup_fmap by done.
      destruct (jobs gs !! id) eqn:?; simpl; [|done]. by rewrite tracked_deref_ne by eauto.
    + unfold abs. simpl. f_equal. apply list_fmap_ext. intros i l' Hl'%list_elem_of_lookup_2.
      by rewrite tracked_deref_ne by auto.
Qed.

(** An object nothing points to. *)
Lemma wf_garbage l j gs : wf gs → l ∉ dom (objs gs) →
  wf (gs <| objs ::= <[l := j]> |>) ∧ abs (gs <| objs ::= <[l := j]> |>) = abs gs.
Proof.
  intros [HO HW] Hfresh. set (gs' := gs <| objs ::= <[l := j]> |>).
  assert (Hd : ∀ l', l ≠ l' → deref gs' l' = deref gs l')
    by (intros; unfold deref; simpl; by apply lookup_total_insert_ne).
  assert (Hq : ∀ l', l' ∈ queue gs → l ≠ l').
  { intros l' Hl' <-. by apply Hfresh, (wf_alloc None). }
  assert (Hj : ∀ id l', jobs gs !! id = Some l' → l ≠ l').
  { intros id l' Hl' <-. by apply (wf_jobs _ _ HW) in Hl' as [? _]. }
  split; [split|].
  - unfold ordered, qview. change (queue gs') with (queue gs).
    rewrite (list_fmap_ext _ (key gs)); [exact HO|]. intros i l' Hl'%list_elem_of_lookup_2.
    unfold key. by rewrite Hd by auto.
  - split; change (queue gs') with (queue gs); change (jobs gs') with (jobs gs).
    + apply (wf_nodup _ _ HW).
    + intros i l' Hl'. rewrite Hd by (apply Hq; by eapply list_elem_of_lookup_2).
      by apply (wf_index _ _ HW).
    + intros l' Hl'. rewrite Hd by auto. by apply (wf_queue _ _ HW).
    + intros id l' Hid. rewrite Hd by eauto. destruct (wf_jobs _ _ HW _ _ Hid).
      split; [|done]. change (objs gs') with (<[l := j]> (objs gs)). set_solver.
    + intros id l' Hid ? ?. rewrite Hd by eauto. by eapply (wf_out _ _ HW).
  - unfold abs. f_equal.
    + apply map_eq. intros id. rewrite !lookup_fmap. change (jobs gs') with (jobs gs).
      destruct (jobs gs !! id) eqn:?; simpl; [|done]. by rewrite Hd by eauto.
    + f_equal. apply list_fmap_ext. intros i l' Hl'%list_elem_of_lookup_2. by rewrite Hd by auto.
Qed.

Lemma refine_enqueue j gs : wf gs → allowed (abs gs) (OEnqueue j) →
  let '(r, gs') := exec_op (OEnqueue j) gs in
  wf gs' ∧ spec_step (MaxQueueSize gs) (abs gs) (OEnqueue j) (erase_res r) (abs gs').
Proof.
  intros HWF Hal. pose proof HWF as [HO HW]. unfold allowed in Hal.
  rewrite table_lookup in Hal. apply fmap_None in Hal.
  assert (Hfresh : fresh (dom (objs gs)) ∉ dom (objs gs)) by apply is_fresh.
  pose proof (Enqueue_new_eq j gs) as HE. cbn [exec_op].
  unfold new_job in *. set (l := fresh _) in *. rewrite HE.
  pose proof (size_pending _ _ HW) as Hsz. clear HE.
  destruct (_ && _) eqn:Hfull.
  - to_prop. destruct (wf_garbage l j gs HWF Hfresh) as [? ->]. split; [done|].
    constructor. rewrite Hsz. lia.
  - destruct (wf_tracked l (queued j) gs HWF Hfresh Hal) as ([HO1 HW1] & Hl & Habs).
    assert (Hid : jobs (tracked l (queued j) gs) !! Job.ID (deref (tracked l (queued j) gs) l) = Some l).
    { rewrite tracked_deref. apply lookup_insert_eq. }
    split; [by apply wf_notify, wf_heap_push|].
    rewrite abs_notify. erewrite abs_push by done. rewrite tracked_deref, Habs. simpl.
    constructor. rewrite Hsz.
    apply andb_false_iff in Hfull as [?%Z.ltb_ge|?%Z.leb_gt]; [by left|by right].
Qed.

(** ** Taking jobs out *)

Lemma refine_dequeue gs : wf gs →
  let '(r, gs') := exec_op ODequeue gs in
  wf gs' ∧ spec_step (MaxQueueSize gs) (abs gs) ODequeue (erase_res r) (abs gs').
Proof.
  intros HWF. pose proof HWF as [HO HW]. cbn [exec_op]. unfold Dequeue.
  change (Len gs) with (length (queue gs)).
  destruct (queue gs) as [|l q] eqn:Hq; cbn [length Nat.eqb].
  { split; [done|]. constructor. unfold abs. simpl. by rewrite Hq. }
  destruct (heap_pop_spec gs l q HO Hq) as (gs' & HP & HR & Hperm & Hmin).
  rewrite HP. split; [by eapply wf_removed|].
  pose proof (frame_removed _ _ _ _ HR) as HF.
  assert (Hl : l ∈ queue gs) by (rewrite Hq; apply list_elem_of_here).
  pose proof (wf_queue _ _ HW _ Hl) as Hid.
  rewrite (abs_remove gs gs' l) by done. rewrite Copy_id. simpl erase_res.
  rewrite (hf_obj _ _ HF). constructor. split; [|split].
  - by apply elem_of_pending; eauto.
  - by apply table_lookup_Some.
  - intros id' j' Hin Hj'. apply table_lookup_inv in Hj' as (l' & Hl' & ->).
    apply (pending_queue _ _ _ _ HW Hl') in Hin. by apply Hmin.
Qed.

(** [remove_at_index] takes the pointer out if it is in the heap. *)
Lemma remove_at_index_spec gs id l : wf gs → jobs gs !! id = Some l →
  let gs' := remove_at_index l gs in
  wf gs' ∧ heap_frame gs gs' ∧ (l ∉ queue gs') ∧
  abs gs' = Spec (table (abs gs)) (pending (abs gs) ∖ {[id]}).
Proof.
  intros HWF Hid. pose proof HWF as [HO HW]. unfold remove_at_index. cbv zeta.
  destruct (wf_jobs _ _ HW _ _ Hid) as [_ HID].
  destruct (decide (l ∈ queue gs)) as [Hin|Hin].
  - apply list_elem_of_lookup in Hin as [i Hi]. rewrite (wf_index _ _ HW _ _ Hi).
    pose proof (lookup_lt_Some _ _ _ Hi). unfold Len. simpl. unfold JobQueue.Len.
    destruct (_ && _) eqn:Hc.
    2: { apply andb_false_iff in Hc as [?%Z.leb_gt|?%Z.ltb_ge]; lia. }
    unfold heap_remove. rewrite Nat2Z.id.
    destruct (heap_remove_spec gs i l HO Hi) as (gs' & -> & HR & Hperm).
    pose proof (frame_removed _ _ _ _ HR) as HF.
    split; [by eapply wf_removed|]. split; [done|]. split.
    + pose proof (wf_nodup _ _ HW) as Hnd. rewrite Hperm in Hnd. by apply NoDup_cons in Hnd as [? _].
    + rewrite (abs_remove gs gs' l) by done. by rewrite HID.
  - rewrite (wf_out _ _ HW id l Hid Hin) by done. simpl. do 3 (split; [done|]).
    assert (Hnp : id ∉ pending (abs gs)) by (by rewrite (pending_queue None gs id l)).
    rewrite <- (Spec_eta (abs gs)) at 1. f_equal. set_solver.
Qed.

Lemma refine_remove id gs : wf gs →
  let '(r, gs') := exec_op (ORemoveByID id) gs in
  wf gs' ∧ spec_step (MaxQueueSize gs) (abs gs) (ORemoveByID id) (erase_res r) (abs gs').
Proof.
  intros HWF. cbn [exec_op]. unfold RemoveByID.
  destruct (jobs gs !! id) as [l|] eqn:Hid.
  2: { split; [done|]. constructor. intros j. rewrite table_lookup, Hid. done. }
  destruct (negb _) eqn:Hst; to_prop.
  - split; [done|]. constructor. intros j (l' & ? & ->)%table_lookup_inv. by simplify_eq.
  - destruct (remove_at_index_spec gs id l HWF Hid) as (? & HF & _ & ->). split; [done|].
    rewrite Copy_id. simpl erase_res. rewrite (hf_obj _ _ HF). constructor; [|done].
    by apply table_lookup_Some.
Qed.

(** The scan of Backfill stops at the first accepted job of the array. *)
Lemma Backfill_scan_pure p gs i q : ∃ r,
  Backfill_scan (W := ()) (λ j, mret (p j)) gs i q () = Some (r, ()) ∧
  match r with
  | Some (k, l) => ∃ n, k = i + n ∧ q !! n = Some l ∧ p (deref gs l) = true ∧
      ∀ m l', m < n → q !! m = Some l' → p (deref gs l') = false
  | None => ∀ l, l ∈ q → p (deref gs l) = false
  end.
Proof.
  revert i. induction q as [|l q IH]; intros i; simpl.
  { exists None. split; [done|]. by intros l ?%not_elem_of_nil. }
  unfold mbind, M_bind, mret, M_ret. rewrite Copy_id.
  destruct (p (deref gs l)) eqn:Hp.
  - exists (Some (i, l)). split; [done|]. exists 0. split; [lia|]. do 2 (split; [done|]). lia.
  - destruct (IH (S i)) as ([[k l']|] & HE & HR); setoid_rewrite HE; eexists; split; try done.
    + destruct HR as (n & -> & Hl' & Hp' & Hbefore). exists (S n). split; [lia|].
      do 2 (split; [done|]). intros [|m] l'' Hm Hl''; simpl in Hl''; [congruence|].
      apply (Hbefore m); [lia|done].
    + intros l'' [-> |?]%elem_of_cons; [done|]. by apply HR.
Qed.

(** Backfill: the first accepted job in array order leaves the heap. *)
Lemma Backfill_pure_spec p gs : wf gs →
  let '(r, gs') := Backfill_pure p gs in
  match r with
  | None => gs' = gs ∧ ∀ l, l ∈ queue gs → p (deref gs l) = false
  | Some j => ∃ n l, queue gs !! n = Some l ∧ p (deref gs l) = true ∧
      (∀ m l', m < n → queue gs !! m = Some l' → p (deref gs l') = false) ∧
      j = deref gs' l ∧ wf gs' ∧ heap_frame gs gs' ∧ queue gs ≡ₚ l :: queue gs'
  end.
Proof.
  intros [HO HW]. unfold Backfill_pure, Backfill.
  destruct (Backfill_scan_pure p gs 0 (queue gs)) as (r & HE & HR).
  rewrite (M_bind_Some _ _ _ _ _ HE). destruct r as [[k l]|]; simpl.
  - destruct HR as (n & -> & Hn & Hp & Hbefore). simpl. unfold heap_remove. rewrite Nat2Z.id.
    destruct (heap_remove_spec gs n l HO Hn) as (gs' & -> & HRm & Hperm).
    exists n, l. do 3 (split; [done|]). split; [by rewrite Copy_id|].
    split; [by eapply wf_removed|]. split; [by eapply frame_removed|done].
  - done.
Qed.

Lemma refine_backfill p gs : wf gs →
  let '(r, gs') := exec_op (OBackfill p) gs in
  wf gs' ∧ spec_step (MaxQueueSize gs) (abs gs) (OBackfill p) (erase_res r) (abs gs').
Proof.
  intros HWF. pose proof HWF as [HO HW]. cbn [exec_op].
  pose proof (Backfill_pure_spec p gs HWF) as HB.
  destruct (Backfill_pure p gs) as [[j|] gs'].
  - destruct HB as (n & l & Hn & Hp & _ & -> & ? & HF & Hperm). split; [done|].
    assert (Hl : l ∈ queue gs) by (by eapply list_elem_of_lookup_2).
    rewrite (abs_remove gs gs' l) by done. simpl erase_res. rewrite (hf_obj _ _ HF).
    econstructor.
    + apply elem_of_pending; eauto.
    + by apply table_lookup_Some, (wf_queue _ _ HW).
    + by rewrite erase_restore.
  - destruct HB as [-> HB]. split; [done|]. constructor.
    intros id j Hin (l & Hl & ->)%table_lookup_inv. exists (Job.index (deref gs l)).
    rewrite erase_restore. apply HB. by eapply pending_queue.
Qed.

(** ** State changes through a tracked pointer *)

(** Push [erase_res] to the returned job without computing its pointer. *)
Ltac push_erase := rewrite ?Copy_id; lazymatch goal with
  | |- context [erase_res (RJobOk (Some ?j) ?b)] =>
      change (erase_res (RJobOk (Some j) b)) with (RJobOk (Some (erase j)) b)
  | |- context [erase_res (RJobErr (Some ?j) ?e)] =>
      change (erase_res (RJobErr (Some j) e)) with (RJobErr (Some (erase j)) e)
  end.

Lemma update_update l f g gs : update l g (update l f gs) = update l (λ j, g (f j)) gs.
Proof. destruct gs. unfold update. simpl. f_equal. apply alter_alter_eq. Qed.

(** Writes to a job outside the heap may change its [index]. *)
Lemma wf_update_out l f gs : keeps_key f → (∀ j, Job.ID (f j) = Job.ID j) → l ∉ queue gs →
  wf_but (Some l) gs → wf_but (Some l) (update l f gs).
Proof.
  intros Hk Hf Hl [HO HW]. split; [by apply ordered_update|].
  assert (HID : ∀ l', Job.ID (deref (update l f gs) l') = Job.ID (deref gs l'))
    by (intros; by apply deref_update_proj).
  split; [apply (wf_nodup _ _ HW)|..].
  - intros i l' Hi. rewrite deref_update_ne; [by apply (wf_index _ _ HW)|].
    intros ->. apply Hl. by eapply list_elem_of_lookup_2.
  - intros l'. rewrite HID. apply (wf_queue _ _ HW).
  - intros id l'. rewrite HID, dom_update. apply (wf_jobs _ _ HW).
  - intros id l' Hid Hout Hne. rewrite deref_update_ne by congruence.
    by eapply (wf_out _ _ HW).
Qed.

(** A state change that leaves the heap alone: what Cancel of a running job,
    MarkRunning and MarkCompleted share. *)
Lemma refine_write gs id l f g : wf gs → jobs gs !! id = Some l → keeps_ptr f →
  (∀ j, erase (f j) = g (erase j)) →
  let gs' := notifyJobChange l (update l f gs) in
  wf gs' ∧ erase (deref gs' l) = g (erase (deref gs l)) ∧
  abs gs' = Spec (<[id := g (erase (deref gs l))]> (table (abs gs))) (pending (abs gs)).
Proof.
  intros HWF Hid Hf Hg gs'. pose proof HWF as [_ HW].
  destruct (wf_jobs _ _ HW _ _ Hid) as [Hdom HID].
  split; [by apply wf_notify, wf_update|]. split.
  - subst gs'. replace (deref (notifyJobChange l (update l f gs)) l) with (deref (update l f gs) l)
      by (unfold notifyJobChange; by case_match).
    by rewrite deref_update_eq, Hg.
  - subst gs'. rewrite abs_notify. apply (abs_update _ None); [done..|]. intros j. by apply Hf.
Qed.

(** A state change followed by a push: what Requeue and RequeueRunningJob share. *)
Lemma refine_push gs id l f g : wf gs → jobs gs !! id = Some l → l ∉ queue gs → keeps_key f →
  (∀ j, Job.ID (f j) = Job.ID j) → (∀ j, erase (f j) = g (erase j)) →
  let gs' := notifyJobChange l (heap.Push l (update l f gs)) in
  wf gs' ∧ erase (deref gs' l) = g (erase (deref gs l)) ∧
  abs gs' = Spec (<[id := g (erase (deref gs l))]> (table (abs gs))) ({[id]} ∪ pending (abs gs)).
Proof.
  intros HWF Hid Hout Hk HfID Hg gs'. pose proof HWF as [_ HW].
  destruct (wf_jobs _ _ HW _ _ Hid) as [Hdom HID].
  destruct (wf_update_out l f gs Hk HfID Hout (wf_weaken l gs HWF)) as [HO1 HW1].
  assert (HID1 : Job.ID (deref (update l f gs) l) = id)
    by (rewrite (deref_update_proj Job.ID); done).
  assert (Hid1 : jobs (update l f gs) !! Job.ID (deref (update l f gs) l) = Some l)
    by (by rewrite HID1).
  split; [by apply wf_notify, wf_heap_push|]. split.
  - subst gs'. pose proof (frame_heap_Push l (update l f gs)) as HF.
    replace (deref (notifyJobChange _ _) l) with (deref (heap.Push l (update l f gs)) l)
      by (unfold notifyJobChange; by case_match).
    by rewrite (hf_obj _ _ HF), deref_update_eq, Hg.
  - subst gs'. rewrite abs_notify. erewrite abs_push by done. rewrite HID1.
    by rewrite (abs_update gs None id l f g).
Qed.

Lemma refine_cancel now id gs : wf gs →
  let '(r, gs') := exec_op (OCancel now id) gs in
  wf gs' ∧ spec_step (MaxQueueSize gs) (abs gs) (OCancel now id) (erase_res r) (abs gs').
Proof.
  intros HWF. cbn [exec_op]. unfold Cancel.
  destruct (jobs gs !! id) as [l|] eqn:Hid.
  2: { split; [done|]. constructor. by rewrite table_lookup, Hid. }
  pose proof (table_lookup_Some _ _ _ Hid) as Ht. cbv zeta.
  destruct (String.eqb _ StateQueued) eqn:Hq; [|destruct (String.eqb _ StateRunning) eqn:Hr]; to_prop.
  - destruct (remove_at_index_spec gs id l HWF Hid) as (HWF1 & HF & _ & Habs).
    assert (Hid1 : jobs (remove_at_index l gs) !! id = Some l) by (by rewrite (hf_jobs _ _ HF)).
    destruct (refine_write _ id l
      (λ j, (j <| Job.State := StateCancelled |>) <| Job.EndTime := now |>) (cancelled now)
      HWF1 Hid1) as (HWF2 & He & ->); [done..|].
    split; [done|]. push_erase. rewrite He, Habs, (hf_obj _ _ HF).
    by constructor.
  - destruct (refine_write gs id l
      (λ j, (j <| Job.State := StateCancelled |>) <| Job.EndTime := now |>) (cancelled now)
      HWF Hid) as (HWF2 & He & ->); [done..|].
    split; [done|]. push_erase. rewrite He. by constructor.
  - split; [done|]. push_erase. by constructor.
Qed.

Lemma refine_mark_running now id node gs : wf gs →
  let '(r, gs') := exec_op (OMarkRunning now id node) gs in
  wf gs' ∧ spec_step (MaxQueueSize gs) (abs gs) (OMarkRunning now id node) (erase_res r) (abs gs').
Proof.
  intros HWF. cbn [exec_op]. unfold MarkRunning.
  destruct (jobs gs !! id) as [l|] eqn:Hid.
  2: { split; [done|]. constructor. by rewrite table_lookup, Hid. }
  destruct (refine_write gs id l (running now node) (running now node) HWF Hid)
    as (HWF2 & _ & Habs); [done..|].
  split; [exact HWF2|]. cbv zeta. unfold running in Habs at 1. rewrite Habs.
  constructor. by apply table_lookup_Some.
Qed.

Lemma refine_mark_completed now id b out err gs : wf gs →
  let '(r, gs') := exec_op (OMarkCompleted now id b out err) gs in
  wf gs' ∧ spec_step (MaxQueueSize gs) (abs gs) (OMarkCompleted now id b out err)
    (erase_res r) (abs gs').
Proof.
  intros HWF. cbn [exec_op]. unfold MarkCompleted.
  destruct (jobs gs !! id) as [l|] eqn:Hid.
  2: { split; [done|]. constructor. intros j. by rewrite table_lookup, Hid. }
  destruct (String.eqb _ StateCancelled) eqn:Hc; to_prop.
  { split; [done|]. constructor. intros j (l' & ? & ->)%table_lookup_inv. by simplify_eq. }
  destruct (refine_write gs id l (completed now b out err) (completed now b out err) HWF Hid)
    as (HWF2 & _ & Habs); [done..|].
  split; [exact HWF2|]. cbv zeta. unfold completed in Habs at 1. rewrite Habs.
  constructor; [by apply table_lookup_Some|done].
Qed.

Lemma refine_requeue_running id gs : wf gs → allowed (abs gs) (ORequeueRunning id) →
  let '(r, gs') := exec_op (ORequeueRunning id) gs in
  wf gs' ∧ spec_step (MaxQueueSize gs) (abs gs) (ORequeueRunning id) (erase_res r) (abs gs').
Proof.
  intros HWF Hal. pose proof HWF as [_ HW]. cbn [exec_op]. unfold RequeueRunningJob.
  destruct (jobs gs !! id) as [l|] eqn:Hid.
  2: { split; [done|]. constructor. intros j. by rewrite table_lookup, Hid. }
  destruct (negb _) eqn:Hst; to_prop.
  { split; [done|]. constructor. intros j (l' & ? & ->)%table_lookup_inv. by simplify_eq. }
  assert (Hout : l ∉ queue gs).
  { rewrite <- (pending_queue None gs id l) by done.
    apply (Hal (erase (deref gs l))); [by apply table_lookup_Some|done]. }
  destruct (refine_push gs id l requeued requeued HWF Hid Hout) as (HWF2 & He & Habs); [done..|].
  cbv zeta. unfold requeued in HWF2, He at 1, Habs at 1.
  split; [exact HWF2|]. push_erase. rewrite He, Habs.
  constructor; [by apply table_lookup_Some|done].
Qed.

(** The two writes of Requeue are one update. *)
Lemma Requeue_eq id b gs l : jobs gs !! id = Some l →
  Requeue id b gs =
    let gs' := notifyJobChange l (heap.Push l (update l (λ j, (reset b j) <| Job.index := (-1)%Z |>) gs)) in
    ((Some (Copy (deref gs' l)), None), gs').
Proof.
  intros Hid. unfold Requeue. rewrite Hid. destruct b; cbv zeta; [by rewrite update_update|done].
Qed.

Lemma refine_requeue id b gs : wf gs → allowed (abs gs) (ORequeue id b) →
  let '(r, gs') := exec_op (ORequeue id b) gs in
  wf gs' ∧ spec_step (MaxQueueSize gs) (abs gs) (ORequeue id b) (erase_res r) (abs gs').
Proof.
  intros HWF Hal. pose proof HWF as [_ HW]. cbn [exec_op].
  destruct (jobs gs !! id) as [l|] eqn:Hid.
  2: { unfold Requeue. rewrite Hid. split; [done|]. constructor. by rewrite table_lookup, Hid. }
  rewrite (Requeue_eq _ _ _ _ Hid). cbv zeta.
  assert (Hout : l ∉ queue gs) by (by rewrite <- (pending_queue None gs id l)).
  destruct (refine_push gs id l (λ j, (reset b j) <| Job.index := (-1)%Z |>) (reset b)
    HWF Hid Hout) as (HWF2 & He & ->); [by destruct b..|].
  split; [exact HWF2|]. push_erase. rewrite He.
  constructor. by apply table_lookup_Some.
Qed.

Lemma wf_groups gs gs' : objs gs' = objs gs → queue gs' = queue gs → jobs gs' = jobs gs →
  wf gs → wf gs' ∧ abs gs' = abs gs.
Proof.
  intros Ho Hq Hj HWF. split; [by apply (wf_ext None gs)|].
  unfold abs, deref. by rewrite Ho, Hq, Hj.
Qed.

Lemma refine_register g gs : wf gs →
  let '(r, gs') := exec_op (ORegisterGroup g) gs in
  wf gs' ∧ spec_step (MaxQueueSize gs) (abs gs) (ORegisterGroup g) (erase_res r) (abs gs').
Proof.
  intros HWF. cbn [exec_op new_group]. unfold RegisterGroup, notifyGroupChange. cbv zeta.
  assert (∀ gs', objs gs' = objs gs → queue gs' = queue gs → jobs gs' = jobs gs →
    wf gs' ∧ spec_step (MaxQueueSize gs) (abs gs) (ORegisterGroup g) RUnit (abs gs')) as Hgen.
  { intros gs' Ho Hq Hj. destruct (wf_groups gs gs' Ho Hq Hj HWF) as [? ->]. split; [done|constructor]. }
  case_match; by apply Hgen.
Qed.

Lemma refine_set_group id st gs : wf gs →
  let '(r, gs') := exec_op (OSetGroupState id st) gs in
  wf gs' ∧ spec_step (MaxQueueSize gs) (abs gs) (OSetGroupState id st) (erase_res r) (abs gs').
Proof.
  intros HWF. cbn [exec_op]. unfold SetGroupState.
  assert (∀ gs', objs gs' = objs gs → queue gs' = queue gs → jobs gs' = jobs gs →
    wf gs' ∧ spec_step (MaxQueueSize gs) (abs gs) (OSetGroupState id st) RUnit (abs gs')) as Hgen.
  { intros gs' Ho Hq Hj. destruct (wf_groups gs gs' Ho Hq Hj HWF) as [? ->]. split; [done|constructor]. }
  destruct (groups gs !! id); [|by apply Hgen]. unfold notifyGroupChange. cbv zeta.
  case_match; by apply Hgen.
Qed.

(** Every operation: a refinement step that keeps the state well formed. *)
Lemma refines_step gs o : wf gs → allowed (abs gs) o →
  let '(r, gs') := exec_op o gs in
  wf gs' ∧ spec_step (MaxQueueSize gs) (abs gs) o (erase_res r) (abs gs').
Proof.
  intros HW Hal. destruct o.
  - by apply refine_enqueue.
  - by apply refine_dequeue.
  - by apply refine_backfill.
  - by apply refine_remove.
  - by apply refine_cancel.
  - by apply refine_requeue.
  - by apply refine_mark_running.
  - by apply refine_requeue_running.
  - by apply refine_mark_completed.
  - by apply refine_register.
  - by apply refine_set_group.
Qed.
