(* ===== verification/QueueProps.v ===== *)
(** * What the global scheduler guarantees

    The theorems about [pkg/scheduler/queue.go]: refinement of the abstract
    scheduler, the heap order under every history, draining in priority order,
    the life cycle of a job, the queue bound and the completeness of the
    change notifications. *)

From S2P Require Import Prelude GoStd GoHeap Queue QueueFacts SchedulerSpec.
Import GlobalScheduler (objs, gobjs, queue, jobs, groups, MaxQueueSize, OnJobChange,
  OnGroupChange, dbWriteChan).
#[local] Open Scope string_scope.
#[local] Open Scope list_scope.
#[local] Open Scope nat_scope.

(** The scheduler as StartMaster sets it up. *)
Definition started (limit : Z) (hooks : bool) : GlobalScheduler :=
  NewGlobalScheduler <| MaxQueueSize := limit |> <| OnJobChange := hooks |>
    <| OnGroupChange := hooks |>.

(** ** Refinement *)

Lemma wf_started limit hooks : wf (started limit hooks).
Proof.
  unfold started, NewGlobalScheduler. rewrite Init_empty by done.
  split; [apply heap_ordered_nil|].
  split; simpl.
  - constructor.
  - done.
  - intros l Hl. by apply not_elem_of_nil in Hl.
  - done.
  - done.
Qed.

(** Histories that respect the protocol. *)
Fixpoint allowed_run (ops : list op) (gs : GlobalScheduler) : Prop :=
  match ops with
  | [] => True
  | o :: ops' => allowed (abs gs) o ∧ allowed_run ops' (exec_op o gs).2
  end.

Lemma wf_run ops gs : wf gs → allowed_run ops gs → wf (run ops gs).
Proof.
  revert gs. induction ops as [|o ops IH]; intros gs HW; simpl; [done|].
  intros [Hal Hrun]. apply IH; [|done].
  pose proof (refines_step gs o HW Hal) as H. destruct (exec_op o gs). apply H.
Qed.

(** ** Heap order without the protocol *)

(** Heap order and no dangling pointer. *)
Definition heap_inv (gs : GlobalScheduler) : Prop :=
  ordered gs ∧ (∀ l, l ∈ queue gs → l ∈ dom (objs gs)) ∧
  (∀ id l, jobs gs !! id = Some l → l ∈ dom (objs gs)).

Lemma heap_inv_update l f gs : keeps_key f → heap_inv gs → heap_inv (update l f gs).
Proof.
  intros Hf (HO & Hq & Hj). split; [by apply ordered_update|].
  rewrite dom_update. by split.
Qed.

Lemma heap_inv_frame gs gs' : ordered gs' → heap_frame gs gs' →
  (∀ l, l ∈ queue gs' → l ∈ dom (objs gs)) →
  (∀ id l, jobs gs !! id = Some l → l ∈ dom (objs gs)) → heap_inv gs'.
Proof. intros HO HF Hq Hj. split; [done|]. by rewrite (hf_dom _ _ HF), (hf_jobs _ _ HF). Qed.

Lemma heap_inv_push l gs : l ∈ dom (objs gs) → heap_inv gs → heap_inv (heap.Push l gs).
Proof.
  intros Hl (HO & Hq & Hj). eapply heap_inv_frame; [by apply ordered_push|apply frame_heap_Push| |done].
  intros l'. rewrite heap_push_queue by done. rewrite elem_of_cons. intros [->|]; auto.
Qed.

Lemma heap_inv_notify l gs : heap_inv gs → heap_inv (notifyJobChange l gs).
Proof. unfold notifyJobChange. by case_match. Qed.

Lemma heap_inv_removed gs a l gs' : heap_inv gs → qremoved gs a (Some (l, gs')) →
  queue gs ≡ₚ l :: queue gs' → heap_inv gs'.
Proof.
  intros (HO & Hq & Hj) HR Hperm.
  eapply heap_inv_frame; [by eapply removed_ordered|by eapply frame_removed| |done].
  intros l' Hl'. apply Hq. rewrite Hperm. apply elem_of_cons. by right.
Qed.

Lemma heap_inv_heap_remove i gs : heap_inv gs → (i < Len gs)%nat → heap_inv (heap_remove (Z.of_nat i) gs).
Proof.
  intros HI Hi. pose proof HI as (HO & _). unfold heap_remove. rewrite Nat2Z.id.
  destruct (lookup_lt_is_Some_2 _ _ Hi) as [l Hl].
  destruct (heap_remove_spec gs i l HO Hl) as (gs' & -> & HR & Hperm).
  by eapply heap_inv_removed.
Qed.

Lemma heap_inv_remove_at_index l gs : heap_inv gs → heap_inv (remove_at_index l gs).
Proof.
  intros HI. unfold remove_at_index. cbv zeta. case_match eqn:Hc; [|done]. to_prop.
  rewrite <- (Z2Nat.id (Job.index _)) by done. apply heap_inv_heap_remove; [done|lia].
Qed.

Lemma frame_heap_remove i gs : ordered gs → (i < Len gs)%nat → heap_frame gs (heap_remove (Z.of_nat i) gs).
Proof.
  intros HO Hi. unfold heap_remove. rewrite Nat2Z.id.
  destruct (lookup_lt_is_Some_2 _ _ Hi) as [l Hl].
  destruct (heap_remove_spec gs i l HO Hl) as (gs' & -> & HR & _). by eapply frame_removed.
Qed.

Lemma frame_remove_at_index l gs : ordered gs → heap_frame gs (remove_at_index l gs).
Proof.
  intros HO. unfold remove_at_index. cbv zeta. case_match eqn:Hc; [|done]. to_prop.
  rewrite <- (Z2Nat.id (Job.index _)) by done. apply frame_heap_remove; [done|lia].
Qed.

Lemma heap_inv_alloc l j gs : heap_inv gs → l ∉ dom (objs gs) →
  heap_inv (gs <| objs ::= <[l := j]> |>) ∧ heap_inv (tracked l j gs).
Proof.
  intros (HO & Hq & Hj) Hl.
  assert (HO' : ∀ gs', objs gs' = <[l := j]> (objs gs) → queue gs' = queue gs → ordered gs').
  { intros gs' Ho Hq'. unfold ordered, qview, Len. simpl. unfold JobQueue.Len. rewrite Hq'.
    rewrite (list_fmap_ext _ (key gs)); [exact HO|]. intros i l' Hl'%list_elem_of_lookup_2.
    unfold key, deref. rewrite Ho, lookup_total_insert_ne; [done|]. intros <-. auto. }
  split; (split; [by apply HO'|]); simpl; split; intros *; rewrite dom_insert.
  - intros ?%Hq. set_solver.
  - intros ?%Hj. set_solver.
  - intros ?%Hq. set_solver.
  - intros [[_ <-]|[_ ?%Hj]]%lookup_insert_Some; set_solver.
Qed.

Lemma heap_inv_update_notify l f gs : keeps_key f → heap_inv gs →
  heap_inv (notifyJobChange l (update l f gs)).
Proof. intros. by apply heap_inv_notify, heap_inv_update. Qed.

Lemma heap_inv_update_push l f gs : l ∈ dom (objs gs) → keeps_key f → heap_inv gs →
  heap_inv (notifyJobChange l (heap.Push l (update l f gs))).
Proof.
  intros. apply heap_inv_notify, heap_inv_push; [by rewrite dom_update|by apply heap_inv_update].
Qed.

Lemma heap_inv_groups gs gs' : objs gs' = objs gs → queue gs' = queue gs → jobs gs' = jobs gs →
  heap_inv gs → heap_inv gs'.
Proof. destruct gs, gs'. simpl. by intros -> -> ->. Qed.

(** What heap_inv says about one operation, whether or not the protocol allows it. *)
Lemma heap_inv_step o gs : heap_inv gs → heap_inv (exec_op o gs).2.
Proof.
  intros HI. pose proof HI as (HO & Hq & Hj). destruct o; cbn [exec_op].
  - pose proof (Enqueue_new_eq j gs) as HE. unfold new_job in *. set (l := fresh _) in *.
    assert (Hl : l ∉ dom (objs gs)) by apply is_fresh.
    rewrite HE. case_match; simpl; [by apply heap_inv_alloc|].
    apply heap_inv_notify, heap_inv_push; [simpl; set_solver|by apply heap_inv_alloc].
  - unfold Dequeue. change (Len gs) with (length (queue gs)).
    destruct (queue gs) as [|l q] eqn:E; [done|]. cbn [length Nat.eqb].
    destruct (heap_pop_spec gs l q HO E) as (gs' & -> & HR & Hperm & _).
    simpl. by eapply heap_inv_removed.
  - unfold Backfill_pure, Backfill.
    destruct (Backfill_scan_pure matchFunc gs 0 (queue gs)) as (r & HE & HR).
    rewrite (M_bind_Some _ _ _ _ _ HE). destruct r as [[k l]|]; simpl; [|done].
    destruct HR as (n & -> & Hn & _). apply heap_inv_heap_remove; [done|].
    by eapply lookup_lt_Some.
  - unfold RemoveByID. destruct (jobs gs !! id) as [l|]; [|done]. destruct (negb _); [done|].
    by apply heap_inv_remove_at_index.
  - unfold Cancel. destruct (jobs gs !! id) as [l|]; [|done].
    destruct (String.eqb _ StateQueued); [|destruct (String.eqb _ StateRunning); [|done]];
      simpl; apply heap_inv_update_notify; try done.
    by apply heap_inv_remove_at_index.
  - destruct (jobs gs !! id) as [l|] eqn:E; [|unfold Requeue; by rewrite E].
    rewrite (Requeue_eq _ _ _ _ E). apply heap_inv_update_push; [by eauto| |done].
    by destruct incrementRetry.
  - unfold MarkRunning. destruct (jobs gs !! id); [|done]. by apply heap_inv_update_notify.
  - unfold RequeueRunningJob. destruct (jobs gs !! id) as [l|] eqn:E; [|done].
    destruct (negb _); [done|]. apply heap_inv_update_push; [by eauto|done|done].
  - unfold MarkCompleted. destruct (jobs gs !! id); [|done]. destruct (String.eqb _ _); [done|].
    by apply heap_inv_update_notify.
  - eapply heap_inv_groups; [..|done]; simpl; unfold RegisterGroup, notifyGroupChange;
      by case_match.
  - unfold SetGroupState. destruct (groups gs !! id); [|done].
    eapply heap_inv_groups; [..|done]; simpl; unfold notifyGroupChange; by case_match.
Qed.

Lemma heap_inv_run ops gs : heap_inv gs → heap_inv (run ops gs).
Proof.
  revert gs. induction ops as [|o ops IH]; intros gs HI; simpl; [done|]. by apply IH, heap_inv_step.
Qed.

Lemma wf_heap_inv gs : wf gs → heap_inv gs.
Proof.
  intros [HO HW]. split; [done|]. split; [intros; by eapply wf_alloc|].
  intros. by eapply (wf_jobs _ _ HW).
Qed.

(** ** What an operation keeps: the limit, and the hooks *)

Definition config_of (gs : GlobalScheduler) : Z * bool * bool :=
  (MaxQueueSize gs, OnJobChange gs, OnGroupChange gs).

Lemma config_frame gs gs' : heap_frame gs gs' → config_of gs' = config_of gs.
Proof. intros []. unfold config_of. congruence. Qed.

Lemma config_notify l gs : config_of (notifyJobChange l gs) = config_of gs.
Proof. unfold notifyJobChange. by case_match. Qed.

Lemma config_gnotify l gs : config_of (notifyGroupChange l gs) = config_of gs.
Proof. unfold notifyGroupChange. by case_match. Qed.

Lemma config_step o gs : heap_inv gs → config_of (exec_op o gs).2 = config_of gs.
Proof.
  intros (HO & _ & _). destruct o; cbn [exec_op].
  - pose proof (Enqueue_new_eq j gs) as HE. unfold new_job in *. rewrite HE.
    case_match; simpl; [done|].
    by rewrite config_notify, (config_frame _ _ (frame_heap_Push _ _)).
  - unfold Dequeue. change (Len gs) with (length (queue gs)).
    destruct (queue gs) as [|l q] eqn:E; [done|]. cbn [length Nat.eqb].
    destruct (heap_pop_spec gs l q HO E) as (gs' & -> & HR & _).
    simpl. by eapply config_frame, frame_removed.
  - unfold Backfill_pure, Backfill.
    destruct (Backfill_scan_pure matchFunc gs 0 (queue gs)) as (r & HE & HR).
    rewrite (M_bind_Some _ _ _ _ _ HE). destruct r as [[k l]|]; simpl; [|done].
    destruct HR as (n & -> & Hn & _). apply config_frame, frame_heap_remove; [done|].
    by eapply lookup_lt_Some.
  - unfold RemoveByID. destruct (jobs gs !! id) as [l|]; [|done]. destruct (negb _); [done|].
    by apply config_frame, frame_remove_at_index.
  - unfold Cancel. destruct (jobs gs !! id) as [l|]; [|done].
    destruct (String.eqb _ StateQueued); [|destruct (String.eqb _ StateRunning); [|done]];
      simpl; rewrite config_notify; [|done].
    by apply (config_frame gs (remove_at_index l gs)), frame_remove_at_index.
  - destruct (jobs gs !! id) as [l|] eqn:E; [|unfold Requeue; by rewrite E].
    rewrite (Requeue_eq _ _ _ _ E). cbv zeta. cbn [snd].
    by rewrite config_notify, (config_frame _ _ (frame_heap_Push _ _)).
  - unfold MarkRunning. destruct (jobs gs !! id); [|done]. cbn [snd]. by rewrite config_notify.
  - unfold RequeueRunningJob. destruct (jobs gs !! id) as [l|] eqn:E; [|done].
    destruct (negb _); [done|]. cbv zeta. cbn [snd].
    by rewrite config_notify, (config_frame _ _ (frame_heap_Push _ _)).
  - unfold MarkCompleted. destruct (jobs gs !! id); [|done]. destruct (String.eqb _ _); [done|].
    cbn [snd]. by rewrite config_notify.
  - simpl. unfold RegisterGroup. by rewrite config_gnotify.
  - unfold SetGroupState. destruct (groups gs !! id); [|done]. simpl. by rewrite config_gnotify.
Qed.

(** ** Histories of the abstract scheduler *)

Inductive spec_run (limit : Z) : spec → list op → list res → spec → Prop :=
  | spec_run_nil s : spec_run limit s [] [] s
  | spec_run_cons s1 o r s2 ops rs s3 :
      spec_step limit s1 o r s2 → spec_run limit s2 ops rs s3 →
      spec_run limit s1 (o :: ops) (r :: rs) s3.

(** What the operations of a history return. *)
Fixpoint results (ops : list op) (gs : GlobalScheduler) : list res :=
  match ops with
  | [] => []
  | o :: ops' => let '(r, gs') := exec_op o gs in r :: results ops' gs'
  end.

Lemma run_refines ops gs : wf gs → allowed_run ops gs →
  wf (run ops gs) ∧
  spec_run (MaxQueueSize gs) (abs gs) ops (erase_res <$> results ops gs) (abs (run ops gs)).
Proof.
  revert gs. induction ops as [|o ops IH]; intros gs HW; simpl; [split; [done|constructor]|].
  intros [Hal Hrun]. pose proof (refines_step gs o HW Hal) as H.
  pose proof (config_step o gs (wf_heap_inv _ HW)) as Hc.
  destruct (exec_op o gs) as [r gs']. destruct H as [HW' Hst].
  destruct (IH gs' HW' Hrun) as [? Hr]. split; [done|].
  assert (E : MaxQueueSize gs' = MaxQueueSize gs) by (unfold config_of in Hc; simpl in Hc; congruence).
  rewrite E in Hr. econstructor; [exact Hst|exact Hr].
Qed.

(** ** Life cycle *)

(** The state changes each method makes to the job it names, by job state. *)
Inductive transition (id : string) : op → string → string → Prop :=
  | t_cancel now st : st = StateQueued ∨ st = StateRunning →
      transition id (OCancel now id) st StateCancelled
  | t_requeue b st : transition id (ORequeue id b) st StateQueued
  | t_running now node st : transition id (OMarkRunning now id node) st StateRunning
  | t_requeue_running : transition id (ORequeueRunning id) StateRunning StateQueued
  | t_completed now (b : bool) out err st : st ≠ StateCancelled →
      transition id (OMarkCompleted now id b out err) st (if b then StateCompleted else StateFailed).

(** What the submitter asked for: no method of the scheduler changes it. *)
Definition descriptor (j : Job) :=
  (Job.ID j, Job.Requirement j, Job.Command j, Job.SubmitTime j, Job.Priority j, Job.User j,
   Job.WalltimeSeconds j, (Job.GPUsRequired j, Job.CPUsRequired j, Job.MemoryRequiredMB j),
   Job.EnvVars j, Job.MaxRetries j, Job.GroupID j).

Lemma insert_lifecycle (t : gmap string Job) id0 id (j j' : Job) o :
  t !! id = Some j → descriptor (j' : Job) = descriptor j → transition id o (Job.State j) (Job.State j') →
  ∀ j0, t !! id0 = Some j0 → ∃ j0', <[id := j']> t !! id0 = Some j0' ∧
    descriptor j0' = descriptor j0 ∧
    (j0' = j0 ∨ transition id0 o (Job.State j0) (Job.State j0')).
Proof.
  intros Hid Hd Ht j0 Hj0. destruct (decide (id0 = id)) as [->|Hne].
  - rewrite lookup_insert_eq. exists j'. assert (j0 = j) as -> by congruence. auto.
  - rewrite lookup_insert_ne by done. eauto.
Qed.

Lemma spec_lifecycle limit s o r s' id j : spec_step limit s o r s' → allowed s o →
  table s !! id = Some j → ∃ j', table s' !! id = Some j' ∧ descriptor j' = descriptor j ∧
    (j' = j ∨ transition id o (Job.State j) (Job.State j')).
Proof.
  intros Hst Hal Hj. destruct Hst; simpl; eauto;
    try (eapply insert_lifecycle; [done|done| |done]; constructor; by auto).
  - exists j. rewrite lookup_insert_ne; [by auto|]. unfold allowed in Hal. congruence.
  - eapply insert_lifecycle; [done| | |done]; [by destruct b|].
    replace (Job.State (reset b j0)) with StateQueued by (by destruct b). constructor.
  - eapply insert_lifecycle; [done| | |done]; [done|].
    rewrite H0. constructor.
Qed.

(** A caller that also dispatches only what it took out of the queue. *)
Definition disciplined (s : spec) (o : op) : Prop := allowed s o ∧
  match o with
  | OMarkRunning _ id _ | OMarkCompleted _ id _ _ _ => id ∉ pending s
  | _ => True
  end.

Definition pending_queued (s : spec) : Prop :=
  ∀ id j, id ∈ pending s → table s !! id = Some j → Job.State j = StateQueued.

Lemma pending_queued_insert s id j' (p : gset string) : pending_queued s →
  (id ∈ p → Job.State j' = StateQueued) → (∀ id', id' ∈ p → id' ≠ id → id' ∈ pending s) →
  pending_queued (Spec (<[id := j']> (table s)) p).
Proof.
  intros HP Hst Hp id' j Hin Hj. simpl in *.
  apply lookup_insert_Some in Hj as [[<- <-]|[Hne Hj]]; [by auto|].
  eapply HP; [|exact Hj]. by apply Hp.
Qed.

Lemma pending_queued_subset s (p : gset string) : pending_queued s → p ⊆ pending s →
  pending_queued (Spec (table s) p).
Proof. intros HP Hp id' j Hin Hj. eapply HP; [|exact Hj]. by apply Hp. Qed.

Lemma pending_queued_step limit s o r s' : spec_step limit s o r s' → disciplined s o →
  pending_queued s → pending_queued s'.
Proof.
  intros Hst [Hal Hd] HP. destruct Hst; try exact HP;
    try (apply pending_queued_subset; [done|set_solver]);
    (apply pending_queued_insert; [done| |set_solver]); try done; try set_solver.
  - intros Hin. rewrite (HP _ _ Hin H) in H0. discriminate.
Qed.

(** ** Draining *)

(** [n] calls of Dequeue: the jobs handed out, and the state left. *)
Fixpoint drain (n : nat) (gs : GlobalScheduler) : list Job * GlobalScheduler :=
  match n with
  | O => ([], gs)
  | S n' =>
      match Dequeue gs with
      | (Some j, gs') => let '(js, gs'') := drain n' gs' in (j :: js, gs'')
      | (None, gs') => ([], gs')
      end
  end.

(** [a] need not come after [b]. *)
Definition not_after (a b : Job) : Prop := JobQueue.job_less b a = false.

Lemma not_after_erase a b : not_after (erase a) (erase b) = not_after a b.
Proof. done. Qed.

Lemma drain_spec n gs : wf gs → Len gs = n →
  let '(js, gs') := drain n gs in
  queue gs' = [] ∧ StronglySorted not_after js ∧
  erase <$> js ≡ₚ (λ l, erase (deref gs l)) <$> queue gs.
Proof.
  revert gs. induction n as [|n IH]; intros gs HWF Hlen; simpl in Hlen; unfold JobQueue.Len in Hlen.
  { apply length_zero_iff_nil in Hlen. simpl. rewrite Hlen. split; [done|]. split; [constructor|done]. }
  cbn [drain]. destruct (queue gs) as [|l q] eqn:Hq; [done|].
  destruct HWF as [HO HW].
  destruct (heap_pop_spec gs l q HO Hq) as (gs' & HP & HR & Hperm & Hmin).
  assert (HD : Dequeue gs = (Some (deref gs' l), gs')).
  { unfold Dequeue. change (Len gs) with (length (queue gs)). rewrite Hq. cbn [length Nat.eqb].
    by rewrite HP, Copy_id. }
  rewrite HD. pose proof (wf_removed _ _ _ _ HW HR) as HWF'.
  pose proof (frame_removed _ _ _ _ HR) as HF.
  assert (Hlen' : Len gs' = n).
  { apply Permutation_length in Hperm. rewrite Hq in Hperm. simpl in *. unfold JobQueue.Len. lia. }
  specialize (IH gs' HWF' Hlen'). destruct (drain n gs') as [js gs'']. destruct IH as (Hnil & Hs & Hp).
  split; [done|]. split.
  - constructor; [done|]. apply Forall_forall. intros j Hj.
    apply (list_elem_of_fmap_2 erase) in Hj. rewrite Hp in Hj.
    apply list_elem_of_fmap in Hj as (l' & He & Hl').
    rewrite <- not_after_erase, He, (hf_obj _ _ HF), (hf_obj _ _ HF), not_after_erase.
    apply Hmin. rewrite Hperm. by apply list_elem_of_further.
  - rewrite fmap_cons, Hp, (hf_obj _ _ HF). rewrite <- Hq, Hperm, fmap_cons. f_equiv.
    rewrite (list_fmap_ext _ (λ l, erase (deref gs l))); [done|]. intros. apply (hf_obj _ _ HF).
Qed.

(** ** Notifications *)

(** The sends an operation adds. *)
Definition notified (gs gs' : GlobalScheduler) (id : string) : Prop :=
  ∃ l ws, jobs gs' !! id = Some l ∧ dbWriteChan gs' = dbWriteChan gs ++ ws ∧ WriteJob l ∈ ws.

Lemma notifyJobChange_sends l gs : OnJobChange gs = true →
  dbWriteChan (notifyJobChange l gs) = dbWriteChan gs ++ [WriteJob l].
Proof. intros H. unfold notifyJobChange. by rewrite H. Qed.

Lemma jobs_notify l gs : jobs (notifyJobChange l gs) = jobs gs.
Proof. unfold notifyJobChange. by case_match. Qed.

(** A method whose last step is [notifyJobChange l] on the object of [id]. *)
Lemma notified_by gs gs1 l id : OnJobChange gs = true → OnJobChange gs1 = OnJobChange gs →
  dbWriteChan gs1 = dbWriteChan gs → jobs gs1 !! id = Some l →
  notified gs (notifyJobChange l gs1) id.
Proof.
  intros Hh Hh1 Hc Hid. exists l, [WriteJob l]. rewrite jobs_notify.
  rewrite notifyJobChange_sends by congruence. rewrite Hc. by repeat constructor.
Qed.

(** The ID whose table entry an operation may write. *)
Definition op_id (o : op) : option string :=
  match o with
  | OEnqueue j => Some (Job.ID j)
  | OCancel _ id | ORequeue id _ | OMarkRunning _ id _ | ORequeueRunning id
  | OMarkCompleted _ id _ _ _ => Some id
  | _ => None
  end.

Lemma spec_writes limit s o r s' id : spec_step limit s o r s' →
  table s' !! id ≠ table s !! id → op_id o = Some id.
Proof.
  intros Hst Hne. destruct Hst; try done; simpl in *;
    match goal with |- Some ?i = _ =>
      destruct (decide (i = id)) as [->|]; [done|by rewrite lookup_insert_ne in Hne]
    end.
Qed.

Lemma notified_step gs o i : wf gs → OnJobChange gs = true →
  table (abs (exec_op o gs).2) !! i ≠ table (abs gs) !! i → op_id o = Some i →
  notified gs (exec_op o gs).2 i.
Proof.
  intros [HO HW] Hh Hne Hid. destruct o; try discriminate Hid; injection Hid as <-; cbn [exec_op] in *.
  - pose proof (Enqueue_new_eq j gs) as HE. unfold new_job in *. set (l := fresh _) in *.
    rewrite HE in Hne |- *. clear HE. destruct (_ && _)%Z.
    { exfalso. apply Hne. cbn [snd]. unfold abs. simpl. rewrite !lookup_fmap.
      destruct (jobs gs !! Job.ID j) as [l'|] eqn:E; simpl; [|done]. f_equal.
      unfold deref. simpl. rewrite lookup_total_insert_ne; [done|]. intros <-.
      apply (wf_jobs _ _ HW) in E as [Hd _]. revert Hd. apply is_fresh. }
    pose proof (frame_heap_Push l (tracked l (queued j) gs)) as HF.
    apply notified_by; [done|by apply HF|by apply HF|].
    rewrite (hf_jobs _ _ HF). apply lookup_insert_eq.
  - revert Hne. unfold Cancel. destruct (jobs gs !! id) as [l|] eqn:E; [|done].
    destruct (String.eqb _ StateQueued); [|destruct (String.eqb _ StateRunning)]; [..|done];
      intros _; cbn [snd].
    + pose proof (frame_remove_at_index l gs HO) as HF. apply notified_by; [done|by apply HF|by apply HF|].
      change (jobs (remove_at_index l gs) !! id = Some l). by rewrite (hf_jobs _ _ HF).
    + by apply notified_by.
  - destruct (jobs gs !! id) as [l|] eqn:E.
    2: { exfalso. apply Hne. unfold Requeue. by rewrite E. }
    rewrite (Requeue_eq _ _ _ _ E). cbv zeta. cbn [snd].
    match goal with |- context [heap.Push l ?g] => pose proof (frame_heap_Push l g) as HF end.
    apply notified_by; [done|by apply HF|by apply HF|]. by rewrite (hf_jobs _ _ HF).
  - revert Hne. unfold MarkRunning. destruct (jobs gs !! id) eqn:E; [|done].
    intros _. cbn [snd]. by apply notified_by.
  - revert Hne. unfold RequeueRunningJob. destruct (jobs gs !! id) as [l|] eqn:E; [|done].
    destruct (negb _); [done|]. intros _. cbv zeta. cbn [snd].
    match goal with |- context [heap.Push l ?g] => pose proof (frame_heap_Push l g) as HF end.
    apply notified_by; [done|by apply HF|by apply HF|]. by rewrite (hf_jobs _ _ HF).
  - revert Hne. unfold MarkCompleted. destruct (jobs gs !! id) eqn:E; [|done].
    destruct (String.eqb _ _); [done|]. intros _. cbn [snd]. by apply notified_by.
Qed.

(** ** The queue limit *)

Definition requeues (o : op) : bool :=
  match o with ORequeue _ _ | ORequeueRunning _ => true | _ => false end.

Lemma Len_heap_remove i gs : ordered gs → (i < Len gs)%nat →
  (Len (heap_remove (Z.of_nat i) gs) ≤ Len gs)%nat.
Proof.
  intros HO Hi. unfold heap_remove. rewrite Nat2Z.id.
  destruct (lookup_lt_is_Some_2 _ _ Hi) as [l Hl].
  destruct (heap_remove_spec gs i l HO Hl) as (gs' & -> & _ & Hp).
  apply Permutation_length in Hp. simpl in *. unfold JobQueue.Len. lia.
Qed.

Lemma Len_remove_at_index l gs : ordered gs → (Len (remove_at_index l gs) ≤ Len gs)%nat.
Proof.
  intros HO. unfold remove_at_index. cbv zeta. case_match eqn:Hc; [|done]. to_prop.
  rewrite <- (Z2Nat.id (Job.index _)) by done. apply Len_heap_remove; [done|lia].
Qed.

Lemma Len_notify l gs : Len (notifyJobChange l gs) = Len gs.
Proof. unfold notifyJobChange. by case_match. Qed.

Lemma Len_gnotify l gs : Len (notifyGroupChange l gs) = Len gs.
Proof. unfold notifyGroupChange. by case_match. Qed.

Lemma Len_push l gs : ordered gs → Len (heap.Push l gs) = S (Len gs).
Proof. intros HO. exact (Permutation_length (heap_push_queue gs l HO)). Qed.

Lemma Len_step o gs : heap_inv gs → requeues o = false →
  let gs' := (exec_op o gs).2 in
  (Len gs' ≤ Len gs)%nat ∨
  (Len gs' = S (Len gs) ∧ (MaxQueueSize gs ≤ 0 ∨ Z.of_nat (Len gs) < MaxQueueSize gs)%Z).
Proof.
  intros HI Hr. pose proof HI as (HO & _). destruct o; try discriminate Hr; cbn [exec_op].
  - pose proof (Enqueue_new_eq j gs) as HE. unfold new_job in *. rewrite HE.
    destruct (_ && _) eqn:Hc; cbv zeta; [by left|]. right. cbn [snd]. rewrite Len_notify.
    rewrite Len_push by (by apply heap_inv_alloc; [|apply is_fresh]). split; [done|].
    apply andb_false_iff in Hc as [?%Z.ltb_ge|?%Z.leb_gt]; [by left|by right].
  - left. unfold Dequeue. change (Len gs) with (length (queue gs)).
    destruct (queue gs) as [|l q] eqn:E; cbn [length Nat.eqb snd].
    { change (Len gs) with (length (queue gs)). by rewrite E. }
    destruct (heap_pop_spec gs l q HO E) as (gs' & -> & HR & Hp & _).
    apply Permutation_length in Hp. rewrite E in Hp. simpl in *. unfold JobQueue.Len. lia.
  - left. unfold Backfill_pure, Backfill.
    destruct (Backfill_scan_pure matchFunc gs 0 (queue gs)) as (r & HE & HR).
    rewrite (M_bind_Some _ _ _ _ _ HE). destruct r as [[k l]|]; simpl; [|done].
    destruct HR as (n & -> & Hn & _). apply Len_heap_remove; [done|]. by eapply lookup_lt_Some.
  - left. unfold RemoveByID. destruct (jobs gs !! id); [|done]. destruct (negb _); [done|].
    by apply Len_remove_at_index.
  - left. unfold Cancel. destruct (jobs gs !! id) as [l|]; [|done].
    destruct (String.eqb _ StateQueued); [|destruct (String.eqb _ StateRunning); [|done]];
      cbv zeta; cbn [snd]; rewrite Len_notify; [|done].
    by apply Len_remove_at_index.
  - left. unfold MarkRunning. destruct (jobs gs !! id); [|done]. cbn [snd]. by rewrite Len_notify.
  - left. unfold MarkCompleted. destruct (jobs gs !! id); [|done].
    destruct (String.eqb _ _); [done|]. cbn [snd]. by rewrite Len_notify.
  - left. cbn [new_group snd]. unfold RegisterGroup. cbv zeta. by rewrite Len_gnotify.
  - left. unfold SetGroupState. destruct (groups gs !! id); [|done]. cbv zeta. cbn [snd].
    by rewrite Len_gnotify.
Qed.

Lemma limit_step o gs : heap_inv gs → MaxQueueSize (exec_op o gs).2 = MaxQueueSize gs.
Proof. intros HI. pose proof (config_step o gs HI) as H. unfold config_of in H. congruence. Qed.

Lemma Len_run ops gs : heap_inv gs → (0 < MaxQueueSize gs)%Z →
  (Z.of_nat (Len gs) ≤ MaxQueueSize gs)%Z → forallb (λ o, negb (requeues o)) ops = true →
  (Z.of_nat (Len (run ops gs)) ≤ MaxQueueSize gs)%Z.
Proof.
  revert gs. induction ops as [|o ops IH]; intros gs HI Hpos Hle; cbn [run forallb]; [done|].
  intros Hops. to_prop. rewrite <- (limit_step o gs HI). apply IH.
  - by apply heap_inv_step.
  - by rewrite limit_step.
  - rewrite limit_step by done. destruct (Len_step o gs HI) as [?|[? ?]]; [done|..]; lia.
  - done.
Qed.

(** ** Example jobs *)

Definition job_with (id : string) (prio : Z) (t : Time) : Job :=
  Job.zero <| Job.ID := id |> <| Job.Priority := prio |> <| Job.SubmitTime := t |>.

Arguments job_with id prio%_Z t%_Z.

Definition sample_ops : list op :=
  [OEnqueue (job_with "a" 10 3); OEnqueue (job_with "b" 5 4); OEnqueue (job_with "c" 10 1)]%Z.

Definition sample : GlobalScheduler := run sample_ops (started 10 true).

(** [ID]s in heap order. *)
Definition heap_ids (gs : GlobalScheduler) : list string := (λ l, Job.ID (deref gs l)) <$> queue gs.

Example sample_heap : heap_ids sample = ["b"; "a"; "c"].
Proof. vm_compute. reflexivity. Qed.
Example sample_drain : Job.ID <$> (drain 3 sample).1 = ["b"; "c"; "a"].
Proof. vm_compute. reflexivity. Qed.

Lemma sample_allowed : allowed_run sample_ops (started 10 true).
Proof. do 3 (split; [vm_compute; reflexivity|]). exact I. Qed.

Lemma sample_wf : wf sample.
Proof. apply wf_run; [apply wf_started|apply sample_allowed]. Qed.

(** ** The theorems *)

(** C1: every history of scheduler calls that respects the protocol (fresh IDs
    on Enqueue, no Requeue of a pending job) is a history of the abstract
    scheduler, with the same results: the heap, the pointers and the [index]
    fields implement a table of jobs and a set of pending IDs from which
    Dequeue takes a job no other pending job precedes. *)
Theorem scheduler_refines_spec limit hooks ops :
  allowed_run ops (started limit hooks) →
  spec_run limit (Spec ∅ ∅) ops (erase_res <$> results ops (started limit hooks))
    (abs (run ops (started limit hooks))).
Proof. intros H. by apply (run_refines ops (started limit hooks) (wf_started _ _)). Qed.

Lemma scheduler_refines_spec_witness :
  spec_run 10 (Spec ∅ ∅) sample_ops [RErr None; RErr None; RErr None] (abs sample).
Proof. exact (scheduler_refines_spec 10 true sample_ops sample_allowed). Defined.

(** In every state the scheduler can reach, by any sequence of calls and
    even outside the protocol, the array is heap ordered, and Dequeue returns
    [None] exactly on an empty queue; otherwise it takes out one pointer, to a
    job with the lowest priority value, and among those the earliest
    submission. *)
Theorem dequeue_after_any_history limit hooks ops :
  let gs := run ops (started limit hooks) in
  ordered gs ∧
  match Dequeue gs with
  | (None, gs') => queue gs = [] ∧ gs' = gs
  | (Some j, gs') => ∃ l, queue gs ≡ₚ l :: queue gs' ∧ j = deref gs' l ∧
      erase j = erase (deref gs l) ∧
      ∀ l', l' ∈ queue gs → JobQueue.job_less (deref gs l') j = false
  end.
Proof.
  intros gs. pose proof (heap_inv_run ops _ (wf_heap_inv _ (wf_started limit hooks))) as (HO & _).
  fold gs in HO. split; [done|]. unfold Dequeue. change (Len gs) with (length (queue gs)).
  destruct (queue gs) as [|l q] eqn:E; [done|]. cbn [length Nat.eqb].
  destruct (heap_pop_spec gs l q HO E) as (gs' & -> & HR & Hp & Hmin).
  pose proof (frame_removed _ _ _ _ HR) as HF. rewrite Copy_id.
  exists l. rewrite <- E. split; [done|]. split; [done|]. split; [apply (hf_obj _ _ HF)|].
  intros l' Hl'. rewrite <- (Hmin l' Hl'), key_lt_less. unfold JobQueue.job_less.
  by rewrite (hf_proj Job.Priority _ _ l HF), (hf_proj Job.SubmitTime _ _ l HF).
Qed.

(** C17: draining a well-formed queue by Dequeue hands out every pending job
    exactly once, in priority order. *)
Theorem drain_sorted gs : wf gs →
  let r := drain (QueueLen gs) gs in
  queue r.2 = [] ∧ StronglySorted not_after r.1 ∧
  erase <$> r.1 ≡ₚ (λ l, erase (deref gs l)) <$> queue gs.
Proof.
  intros H. pose proof (drain_spec _ gs H eq_refl) as HD. unfold QueueLen.
  by destruct (drain (Len gs) gs).
Qed.

Lemma drain_sorted_witness :
  Job.ID <$> (drain (QueueLen sample) sample).1 = ["b"; "c"; "a"] ∧
  StronglySorted not_after (drain (QueueLen sample) sample).1.
Proof.
  split; [vm_compute; reflexivity|]. exact (proj1 (proj2 (drain_sorted sample sample_wf))).
Defined.

(** C16: on a well-formed scheduler, a call that respects the protocol (an enqueued
    ID is not tracked yet, and neither Requeue nor RequeueRunningJob is called for
    a job that is pending) forgets no tracked job and changes nothing its
    submitter asked for; a job's record stays as it is, unless the call names the
    job and takes it along an edge of the life cycle: Cancel from QUEUED or
    RUNNING to CANCELLED, Requeue from any state to QUEUED, MarkRunning from any
    state to RUNNING (it does not look at the state, so a CANCELLED job too),
    RequeueRunningJob from RUNNING to QUEUED, MarkCompleted from any state but
    CANCELLED to COMPLETED or FAILED.  The protocol matters: Enqueue of a tracked
    ID replaces the record. *)
Theorem job_lifecycle gs o id j : wf gs → allowed (abs gs) o →
  table (abs gs) !! id = Some j →
  ∃ j', table (abs (exec_op o gs).2) !! id = Some j' ∧ descriptor j' = descriptor j ∧
    (j' = j ∨ transition id o (Job.State j) (Job.State j')).
Proof.
  intros HW Hal Hj. pose proof (refines_step gs o HW Hal) as H. destruct (exec_op o gs) as [r gs'].
  destruct H as [_ H]. by eapply spec_lifecycle.
Qed.

Definition job_b : Job := erase (queued (job_with "b" 5 4)).

Lemma sample_b : table (abs sample) !! "b" = Some job_b.
Proof. vm_compute. reflexivity. Qed.

Lemma job_lifecycle_witness :
  ∃ j', table (abs (exec_op (OCancel 7%Z "b") sample).2) !! "b" = Some j' ∧
    descriptor j' = descriptor job_b ∧
    (j' = job_b ∨ transition "b" (OCancel 7%Z "b") (Job.State job_b) (Job.State j')).
Proof. exact (job_lifecycle sample (OCancel 7%Z "b") "b" job_b sample_wf I sample_b). Defined.

(** Histories of a caller that runs only what it took out of the queue. *)
Fixpoint disciplined_run (ops : list op) (gs : GlobalScheduler) : Prop :=
  match ops with
  | [] => True
  | o :: ops' => disciplined (abs gs) o ∧ disciplined_run ops' (exec_op o gs).2
  end.

Lemma pending_queued_run ops gs : wf gs → pending_queued (abs gs) → disciplined_run ops gs →
  wf (run ops gs) ∧ pending_queued (abs (run ops gs)).
Proof.
  revert gs. induction ops as [|o ops IH]; intros gs HW HP; cbn [run disciplined_run]; [done|].
  intros [Hd Hrun]. pose proof (refines_step gs o HW (proj1 Hd)) as H.
  destruct (exec_op o gs) as [r gs']. destruct H as [HW' Hst].
  apply IH; [done| |done]. by eapply pending_queued_step.
Qed.

Lemma pending_queued_started limit hooks : pending_queued (abs (started limit hooks)).
Proof. intros id j Hin. by apply not_elem_of_empty in Hin. Qed.

(** C15: under a caller that respects the protocol (fresh IDs on Enqueue, no Requeue
    of a pending job) and marks as running or completed only jobs it took out of
    the queue, each pointer of the heap is tracked under its own ID, sits in
    the heap once, knows its position, and its job is QUEUED. *)
Theorem pending_jobs_are_queued limit hooks ops i l :
  disciplined_run ops (started limit hooks) →
  let gs := run ops (started limit hooks) in
  queue gs !! i = Some l →
  Job.State (deref gs l) = StateQueued ∧ Job.index (deref gs l) = Z.of_nat i ∧
  jobs gs !! Job.ID (deref gs l) = Some l ∧ ∀ i', queue gs !! i' = Some l → i' = i.
Proof.
  intros Hrun gs Hi.
  destruct (pending_queued_run ops _ (wf_started limit hooks) (pending_queued_started _ _) Hrun)
    as [[_ HW] HP]. fold gs in HW, HP.
  assert (Hl : l ∈ queue gs) by (by eapply list_elem_of_lookup_2).
  pose proof (wf_queue _ _ HW _ Hl) as Hid. split.
  - apply (HP (Job.ID (deref gs l)) (erase (deref gs l))); [|by apply table_lookup_Some].
    apply elem_of_pending; eauto.
  - split; [by apply (wf_index _ _ HW)|]. split; [done|].
    intros i' Hi'. by eapply NoDup_lookup; [apply (wf_nodup _ _ HW)|..].
Qed.

Lemma pending_jobs_are_queued_witness :
  Job.State (deref sample (queue sample !!! 0)) = StateQueued.
Proof.
  refine (proj1 (pending_jobs_are_queued 10 true sample_ops 0 (queue sample !!! 0) _ _)).
  - do 3 (split; [split; [vm_compute; reflexivity|exact I]|]). exact I.
  - vm_compute. reflexivity.
Defined.

(** With the hook installed, a call that respects the protocol and changes
    what the scheduler knows about a job also hands that job to the writer, so
    no change of a job escapes the store. *)
Theorem changes_are_notified gs o id : wf gs → allowed (abs gs) o → OnJobChange gs = true →
  table (abs (exec_op o gs).2) !! id ≠ table (abs gs) !! id →
  notified gs (exec_op o gs).2 id.
Proof.
  intros HW Hal Hh Hne. apply notified_step; [done..|].
  pose proof (refines_step gs o HW Hal) as H. destruct (exec_op o gs) as [r gs'].
  destruct H as [_ H]. by eapply spec_writes.
Qed.

Lemma changes_are_notified_witness : notified sample (exec_op (OCancel 7%Z "b") sample).2 "b".
Proof.
  apply changes_are_notified; [exact sample_wf|exact I|vm_compute; reflexivity|].
  rewrite sample_b. vm_compute. discriminate.
Defined.

(** Without requeues the limit is a bound: no history of the other calls
    makes the queue longer than a positive [MaxQueueSize]. *)
Theorem queue_bound limit hooks ops : (0 < limit)%Z →
  forallb (λ o, negb (requeues o)) ops = true →
  (Z.of_nat (QueueLen (run ops (started limit hooks))) ≤ limit)%Z.
Proof.
  intros Hpos Hops. apply (Len_run ops (started limit hooks)); [|done| |done].
  - apply wf_heap_inv, wf_started.
  - change (Len (started limit hooks)) with 0. simpl. lia.
Qed.

Lemma queue_bound_witness : (Z.of_nat (QueueLen (run sample_ops (started 2 true))) ≤ 2)%Z.
Proof. apply (queue_bound 2 true sample_ops); [lia|reflexivity]. Defined.

(** Outside the protocol the queue is corrupted: Requeue of a job that is
    already pending puts its pointer into the heap a second time. *)
Theorem requeue_pending_duplicates gs id b l : wf gs → jobs gs !! id = Some l → l ∈ queue gs →
  ¬ NoDup (queue (Requeue id b gs).2) ∧ heap_inv (Requeue id b gs).2.
Proof.
  intros HW Hid Hl. split.
  - rewrite (Requeue_eq _ _ _ _ Hid). cbv zeta. cbn [snd].
    set (gs1 := update l _ gs).
    replace (queue (notifyJobChange l (heap.Push l gs1))) with (queue (heap.Push l gs1))
      by (unfold notifyJobChange; by case_match).
    rewrite heap_push_queue by (apply ordered_update; [by destruct b|apply HW]).
    intros [Hn _]%NoDup_cons. by apply Hn.
  - pose proof (heap_inv_step (ORequeue id b) gs (wf_heap_inv _ HW)) as H.
    cbn [exec_op] in H. by destruct (Requeue id b gs) as [[??]?].
Qed.

Lemma requeue_pending_duplicates_witness :
  ¬ NoDup (queue (Requeue "b" true sample).2) ∧ heap_inv (Requeue "b" true sample).2.
Proof.
  apply (requeue_pending_duplicates sample "b" true (queue sample !!! 0)).
  - exact sample_wf.
  - vm_compute. reflexivity.
  - apply (list_elem_of_lookup_2 _ 0). vm_compute. reflexivity.
Defined.
