(* ===== verification/JobTable.v ===== *)
(** * What the scheduler's operations do to the job table

    The frame of an operation on existing jobs (which objects, tables and
    descriptors it leaves alone), and its effect on the job it names, without
    assuming the protocol of [SchedulerSpec]: the handlers of the master call the
    operations in states the protocol excludes. *)

From S2P Require Import Prelude GoStd GoHeap Queue QueueFacts SchedulerSpec QueueProps.
Import GlobalScheduler (objs, gobjs, queue, jobs, groups, MaxQueueSize, OnJobChange,
  OnGroupChange, dbWriteChan).
#[local] Open Scope string_scope.
#[local] Open Scope list_scope.
#[local] Open Scope nat_scope.

(** The operations on jobs that exist already. *)
Definition plain_op (o : op) : Prop :=
  match o with OEnqueue _ | ORegisterGroup _ | OSetGroupState _ _ => False | _ => True end.

(** The same jobs and groups are tracked, the configuration is the same, and no
    descriptor has changed. *)
Record job_frame (gs gs' : GlobalScheduler) : Prop := {
  jf_jobs : jobs gs' = jobs gs;
  jf_gobjs : gobjs gs' = gobjs gs;
  jf_groups : groups gs' = groups gs;
  jf_config : config_of gs' = config_of gs;
  jf_dom : dom (objs gs') = dom (objs gs);
  jf_desc l : descriptor (deref gs' l) = descriptor (deref gs l)
}.

#[export] Instance job_frame_preorder : PreOrder job_frame.
Proof.
  split; [by split|]. intros ??? [] []. split; congruence.
Qed.

Lemma job_frame_heap gs gs' : heap_frame gs gs' → job_frame gs gs'.
Proof.
  intros HF. pose proof HF as []. split; try done; [by apply config_frame|].
  intros l. by apply (hf_proj descriptor _ _ _ HF).
Qed.

Lemma job_frame_update l f gs : (∀ j, descriptor (f j) = descriptor j) → job_frame gs (update l f gs).
Proof.
  intros Hf. split; try done; [apply dom_update|]. intros l'. by apply deref_update_proj.
Qed.

Lemma job_frame_notify l gs : job_frame gs (notifyJobChange l gs).
Proof. unfold notifyJobChange. by case_match. Qed.

Lemma job_frame_write l f gs : (∀ j, descriptor (f j) = descriptor j) →
  job_frame gs (notifyJobChange l (update l f gs)).
Proof. intros Hf. etrans; [by apply (job_frame_update l f)|apply job_frame_notify]. Qed.

Lemma job_frame_push l f gs : (∀ j, descriptor (f j) = descriptor j) →
  job_frame gs (notifyJobChange l (heap.Push l (update l f gs))).
Proof.
  intros Hf. etrans; [by apply (job_frame_update l f)|]. etrans; [|apply job_frame_notify].
  apply job_frame_heap, frame_heap_Push.
Qed.

Lemma job_frame_remove_at l gs : ordered gs → job_frame gs (remove_at_index l gs).
Proof. intros. by apply job_frame_heap, frame_remove_at_index. Qed.

(** What an operation on existing jobs does: it moves heap pointers, and it may
    then write one tracked job, possibly push it, and notify. *)
Inductive op_effect (gs : GlobalScheduler) : GlobalScheduler → Prop :=
  | effect_frame gs' : heap_frame gs gs' → op_effect gs gs'
  | effect_write gs1 id l f : heap_frame gs gs1 → jobs gs !! id = Some l →
      (∀ j, descriptor (f j) = descriptor j) → op_effect gs (notifyJobChange l (update l f gs1))
  | effect_push id l f : jobs gs !! id = Some l → (∀ j, descriptor (f j) = descriptor j) →
      op_effect gs (notifyJobChange l (heap.Push l (update l f gs))).

Lemma plain_op_effect o gs : plain_op o → ordered gs → op_effect gs (exec_op o gs).2.
Proof.
  intros Ho HO. destruct o; try done; clear Ho; cbn [exec_op].
  - apply effect_frame. unfold Dequeue. change (Len gs) with (length (queue gs)).
    destruct (queue gs) as [|l q] eqn:E; [done|]. cbn [length Nat.eqb].
    destruct (heap_pop_spec gs l q HO E) as (gs' & -> & HR & _). by eapply frame_removed.
  - apply effect_frame. unfold Backfill_pure, Backfill.
    destruct (Backfill_scan_pure matchFunc gs 0 (queue gs)) as (r & HE & HR).
    rewrite (M_bind_Some _ _ _ _ _ HE). destruct r as [[k l]|]; simpl; [|done].
    destruct HR as (n & -> & Hn & _). apply frame_heap_remove; [done|]. by eapply lookup_lt_Some.
  - apply effect_frame. unfold RemoveByID. destruct (jobs gs !! id) as [l|]; [|done].
    destruct (negb _); [done|]. by apply frame_remove_at_index.
  - unfold Cancel. destruct (jobs gs !! id) as [l|] eqn:E; [|by apply effect_frame].
    destruct (String.eqb _ StateQueued); [|destruct (String.eqb _ StateRunning); [|by apply effect_frame]].
    + by eapply effect_write; [apply frame_remove_at_index|exact E|].
    + by eapply effect_write; [reflexivity|exact E|].
  - destruct (jobs gs !! id) as [l|] eqn:E; [|apply effect_frame; unfold Requeue; by rewrite E].
    rewrite (Requeue_eq _ _ _ _ E). eapply effect_push; [exact E|]. intros j. by destruct incrementRetry.
  - unfold MarkRunning. destruct (jobs gs !! id) eqn:E; [|by apply effect_frame].
    by eapply effect_write; [reflexivity|exact E|].
  - unfold RequeueRunningJob. destruct (jobs gs !! id) as [l|] eqn:E; [|by apply effect_frame].
    destruct (negb _); [by apply effect_frame|]. by eapply effect_push.
  - unfold MarkCompleted. destruct (jobs gs !! id) eqn:E; [|by apply effect_frame].
    destruct (String.eqb _ _); [by apply effect_frame|]. by eapply effect_write; [reflexivity|exact E|].
Qed.

Lemma job_frame_op o gs : plain_op o → heap_inv gs → job_frame gs (exec_op o gs).2.
Proof.
  intros Ho (HO & _). destruct (plain_op_effect o gs Ho HO) as [gs' HF|gs1 id l f HF _ Hf|id l f _ Hf].
  - by apply job_frame_heap.
  - etrans; [by apply job_frame_heap|by apply job_frame_write].
  - by apply job_frame_push.
Qed.

(** ** The effect on the job itself *)

Lemma GetJob_Some id gs j : GetJob id gs = Some j ↔ ∃ l, jobs gs !! id = Some l ∧ deref gs l = j.
Proof.
  unfold GetJob. destruct (jobs gs !! id) as [l|].
  - rewrite Copy_id. naive_solver.
  - naive_solver.
Qed.

Lemma jobs_of_notify l gs : jobs (notifyJobChange l gs) = jobs gs.
Proof. unfold notifyJobChange. by case_match. Qed.

Lemma erase_index j n : erase (j <| Job.index := n |>) = erase j.
Proof. done. Qed.

Lemma deref_notify l l' gs : deref (notifyJobChange l gs) l' = deref gs l'.
Proof. unfold notifyJobChange. by case_match. Qed.

Lemma GetJob_notify id l gs : GetJob id (notifyJobChange l gs) = GetJob id gs.
Proof. unfold notifyJobChange. by case_match. Qed.

(** A write to the job's own object. *)
Lemma deref_write id l f gs : heap_inv gs → jobs gs !! id = Some l →
  deref (notifyJobChange l (update l f gs)) l = f (deref gs l).
Proof.
  intros (_ & _ & Hj) Hl. rewrite deref_notify. apply deref_update_eq. by eauto.
Qed.

Lemma GetJob_write id l f gs : heap_inv gs → jobs gs !! id = Some l →
  GetJob id (notifyJobChange l (update l f gs)) = Some (f (deref gs l)).
Proof.
  intros HI Hl. apply GetJob_Some. exists l. split; [|by eapply deref_write].
  by rewrite jobs_of_notify.
Qed.

Lemma Cancel_running now id gs j : heap_inv gs → GetJob id gs = Some j → Job.State j = StateRunning →
  (Cancel now id gs).1 = (Some (cancelled now j), true) ∧
  GetJob id (Cancel now id gs).2 = Some (cancelled now j).
Proof.
  intros HI (l & Hl & <-)%GetJob_Some Hs. unfold Cancel. rewrite Hl, Hs.
  change (String.eqb StateRunning StateQueued) with false.
  change (String.eqb StateRunning StateRunning) with true. cbv zeta. cbn [fst snd].
  rewrite Copy_id, (deref_write id _ _ _ HI Hl). split; [done|]. by apply GetJob_write.
Qed.

Lemma MarkCompleted_cancelled now id b out err gs j : GetJob id gs = Some j →
  Job.State j = StateCancelled → MarkCompleted now id b out err gs = gs.
Proof. intros (l & Hl & <-)%GetJob_Some Hs. unfold MarkCompleted. by rewrite Hl, Hs. Qed.

(** Whatever its state was, a job that is requeued is queued again. *)
Lemma Requeue_any id b gs j : heap_inv gs → GetJob id gs = Some j →
  ∃ j', GetJob id (Requeue id b gs).2 = Some j' ∧ erase j' = erase (reset b j) ∧
    (Requeue id b gs).1 = (Some j', None).
Proof.
  intros HI (l & Hl & <-)%GetJob_Some. rewrite (Requeue_eq _ _ _ _ Hl). cbv zeta. cbn [fst snd].
  set (f := λ j, (reset b j) <| Job.index := (-1)%Z |>).
  exists (deref (heap.Push l (update l f gs)) l).
  pose proof (frame_heap_Push l (update l f gs)) as HF. split; [|split].
  - rewrite GetJob_notify. apply GetJob_Some. exists l. split; [|done].
    by rewrite (hf_jobs _ _ HF).
  - rewrite (hf_obj _ _ HF), deref_update_eq; [|destruct HI as (_ & _ & Hj); by eauto].
    apply erase_index.
  - by rewrite Copy_id, deref_notify.
Qed.

(** ** Descriptors by ID *)

Definition asked (gs : GlobalScheduler) (id : string) := descriptor <$> GetJob id gs.

Lemma asked_frame gs gs' id : job_frame gs gs' → asked gs' id = asked gs id.
Proof.
  intros HF. unfold asked, GetJob. rewrite (jf_jobs _ _ HF). destruct (jobs gs !! id) as [l|]; [|done].
  rewrite !Copy_id. cbn [fmap option_fmap option_map]. f_equal. apply (jf_desc _ _ HF).
Qed.

(** Allocation changes no tracked job; tracking the new object adds one. *)
Lemma GetJob_alloc gs id l j : heap_inv gs → l ∉ dom (objs gs) →
  GetJob id (gs <| objs ::= <[l := j]> |>) = GetJob id gs ∧
  GetJob id (tracked l j gs) = if decide (id = Job.ID j) then Some j else GetJob id gs.
Proof.
  intros (_ & _ & Hj) Hl. unfold GetJob.
  change (jobs (gs <| objs ::= <[l := j]> |>)) with (jobs gs).
  change (jobs (tracked l j gs)) with (<[Job.ID j := l]> (jobs gs)).
  assert (∀ l', jobs gs !! id = Some l' → <[l := j]> (objs gs) !!! l' = objs gs !!! l') as Hne.
  { intros l' Hl'%Hj. apply lookup_total_insert_ne. by intros <-. }
  split.
  - destruct (jobs gs !! id) as [l'|] eqn:E; [|done]. rewrite !Copy_id. unfold deref. cbn.
    by rewrite Hne.
  - case_decide as Hid.
    + subst id. by rewrite lookup_insert_eq, Copy_id, tracked_deref.
    + rewrite lookup_insert_ne by done. destruct (jobs gs !! id) as [l'|] eqn:E; [|done].
      rewrite !Copy_id. unfold deref. cbn. by rewrite Hne.
Qed.

Lemma asked_alloc gs id l j : heap_inv gs → l ∉ dom (objs gs) →
  asked (gs <| objs ::= <[l := j]> |>) id = asked gs id ∧
  asked (tracked l j gs) id = if decide (id = Job.ID j) then Some (descriptor j) else asked gs id.
Proof.
  intros HI Hl. unfold asked. destruct (GetJob_alloc gs id l j HI Hl) as [-> ->]. by case_decide.
Qed.

(** A submission: the error when the queue is full, and what is tracked then. *)
Lemma enqueue_new j gs : heap_inv gs →
  let '(e, gs') := Enqueue (new_job j gs).1 (new_job j gs).2 in
  groups gs' = groups gs ∧ gobjs gs' = gobjs gs ∧ config_of gs' = config_of gs ∧
  e = (if ((0 <? MaxQueueSize gs) && (MaxQueueSize gs <=? Z.of_nat (Len gs)))%Z
       then Some ("queue full (" +:+ Itoa (MaxQueueSize gs) +:+ " jobs)") else None) ∧
  ∀ id, asked gs' id =
    match e with
    | None => if decide (id = Job.ID j) then Some (descriptor j) else asked gs id
    | Some _ => asked gs id
    end.
Proof.
  intros HI. pose proof (Enqueue_new_eq j gs) as HE. unfold new_job in *. cbn [fst snd].
  set (l := fresh _) in *. assert (Hl : l ∉ dom (objs gs)) by apply is_fresh. rewrite HE.
  destruct (_ && _); [split_and!; try done; intros id; by apply asked_alloc|].
  assert (HF : job_frame (tracked l (queued j) gs) (notifyJobChange l (heap.Push l (tracked l (queued j) gs)))).
  { etrans; [apply job_frame_heap, frame_heap_Push|apply job_frame_notify]. }
  split_and!; [by rewrite (jf_groups _ _ HF)|by rewrite (jf_gobjs _ _ HF)|by rewrite (jf_config _ _ HF)|done|].
  intros id. rewrite (asked_frame _ _ _ HF). apply (asked_alloc gs id l (queued j) HI Hl).
Qed.

Lemma State_heap_frame gs gs' id : heap_frame gs gs' →
  Job.State <$> GetJob id gs' = Job.State <$> GetJob id gs.
Proof.
  intros HF. unfold GetJob. rewrite (hf_jobs _ _ HF). destruct (jobs gs !! id) as [l|]; [|done].
  rewrite !Copy_id. cbn [fmap option_fmap option_map]. f_equal. by apply (hf_proj Job.State _ _ _ HF).
Qed.

(** The states after a submission: the new job is queued. *)
Lemma enqueue_state j gs id : heap_inv gs →
  Job.State <$> GetJob id (Enqueue (new_job j gs).1 (new_job j gs).2).2 =
    match (Enqueue (new_job j gs).1 (new_job j gs).2).1 with
    | None => if decide (id = Job.ID j) then Some StateQueued else Job.State <$> GetJob id gs
    | Some _ => Job.State <$> GetJob id gs
    end.
Proof.
  intros HI. pose proof (Enqueue_new_eq j gs) as HE. unfold new_job in *. cbn [fst snd].
  set (l := fresh _) in *. assert (Hl : l ∉ dom (objs gs)) by apply is_fresh. rewrite HE.
  destruct (_ && _); cbn [fst snd]; [by destruct (GetJob_alloc gs id l j HI Hl) as [-> _]|].
  rewrite GetJob_notify, (State_heap_frame _ _ _ (frame_heap_Push _ _)).
  destruct (GetJob_alloc gs id l (queued j) HI Hl) as [_ ->].
  change (Job.ID (queued j)) with (Job.ID j). by case_decide.
Qed.

(** ** Jobs under their own ID *)

Definition ids_ok (gs : GlobalScheduler) : Prop :=
  ∀ id l, jobs gs !! id = Some l → Job.ID (deref gs l) = id.

Lemma ids_ok_frame gs gs' : job_frame gs gs' → ids_ok gs → ids_ok gs'.
Proof.
  intros HF HI id l. rewrite (jf_jobs _ _ HF). intros Hl. pose proof (jf_desc _ _ HF l) as Hd.
  unfold descriptor in Hd. rewrite <- (HI id l Hl). congruence.
Qed.

Lemma ids_ok_asked gs : ids_ok gs ↔ ∀ id j, GetJob id gs = Some j → Job.ID j = id.
Proof.
  split.
  - intros HI id j (l & Hl & <-)%GetJob_Some. by apply HI.
  - intros HI id l Hl. apply HI. apply GetJob_Some. by exists l.
Qed.

(** Writing one job leaves the others alone. *)
Lemma GetJob_write_ne id id' l f gs : ids_ok gs → jobs gs !! id = Some l → id' ≠ id →
  GetJob id' (notifyJobChange l (update l f gs)) = GetJob id' gs.
Proof.
  intros HI Hl Hne. rewrite GetJob_notify. unfold GetJob. change (jobs (update l f gs)) with (jobs gs).
  destruct (jobs gs !! id') as [l'|] eqn:E; [|done]. rewrite !Copy_id, deref_update_ne; [done|].
  intros ->. apply Hne.
  trans (Job.ID (deref gs l')); [symmetry|]; by apply HI.
Qed.

(** A job runs on a node. *)
Definition running_on (gs : GlobalScheduler) (id node : string) : Prop :=
  ∃ j, GetJob id gs = Some j ∧ Job.State j = StateRunning ∧ Job.WorkerNode j = node.

Lemma running_on_frame gs gs' id node : heap_frame gs gs' → running_on gs id node →
  running_on gs' id node.
Proof.
  intros HF (j & (l & Hl & <-)%GetJob_Some & Hs & Hn). exists (deref gs' l). split_and!.
  - apply GetJob_Some. exists l. by rewrite (hf_jobs _ _ HF).
  - by rewrite (hf_proj Job.State _ _ _ HF).
  - by rewrite (hf_proj Job.WorkerNode _ _ _ HF).
Qed.

Lemma MarkRunning_runs now id node gs : heap_inv gs → GetJob id gs ≠ None →
  running_on (MarkRunning now id node gs) id node.
Proof.
  intros HI Hid. unfold MarkRunning. unfold GetJob in Hid.
  destruct (jobs gs !! id) as [l|] eqn:E; [|done].
  eexists. split; [by apply GetJob_write|done].
Qed.

Lemma MarkRunning_others now id id' node gs : ids_ok gs → id' ≠ id →
  GetJob id' (MarkRunning now id node gs) = GetJob id' gs.
Proof.
  intros HI Hne. unfold MarkRunning. destruct (jobs gs !! id) eqn:E; [|done]. by eapply GetJob_write_ne.
Qed.

Lemma RemoveByID_frame id gs : heap_inv gs → heap_frame gs (RemoveByID id gs).2.
Proof.
  intros (HO & _). unfold RemoveByID. destruct (jobs gs !! id) as [l|]; [|done].
  destruct (negb _); [done|]. by apply frame_remove_at_index.
Qed.

Lemma GetJob_frame_some gs gs' id : job_frame gs gs' → GetJob id gs ≠ None → GetJob id gs' ≠ None.
Proof.
  intros HF. unfold GetJob. rewrite (jf_jobs _ _ HF). by destruct (jobs gs !! id).
Qed.
