(* ===== verification/GoJson.v ===== *)
(** * encoding/json: the part the program uses

    A JSON text is first split into tokens ([runes]): ASCII bytes, well-formed
    multi-byte UTF-8 sequences, and bytes that belong to neither (which Go
    replaces by U+FFFD).  [parse] is Go's validating scanner and decoder on
    such tokens, with its nesting limit; [print] is the encoder with HTML
    escaping.  [Unmarshal_map] decodes into a [map[string]interface{}], and
    [decode_fields] into a struct, with Go's case-insensitive field names. *)

From S2P Require Import Prelude GoStd.
#[local] Open Scope string_scope.
#[local] Open Scope list_scope.
#[local] Open Scope nat_scope.

(** ** Bytes and runes *)

Definition code (c : ascii) : Z := Z.of_N (Ascii.N_of_ascii c).
Definition byte (z : Z) : ascii := Ascii.ascii_of_N (Z.to_N z).
Definition between (lo hi : Z) (c : ascii) : bool := ((lo <=? code c) && (code c <=? hi))%Z.
Definition dq : ascii := "034".
Definition backslash : ascii := "092".

Inductive tok := Asc (c : ascii) | Multi (s : string) | Bad.

Definition cont (c : ascii) : bool := between 128 191 c.

(** The well-formed two, three and four byte sequences of UTF-8. *)
Definition utf8_2 (a b : ascii) : bool := between 194 223 a && cont b.
Definition utf8_3 (a b c : ascii) : bool :=
  ((between 224 224 a && between 160 191 b) || (between 225 236 a && cont b) ||
   (between 237 237 a && between 128 159 b) || (between 238 239 a && cont b)) && cont c.
Definition utf8_4 (a b c d : ascii) : bool :=
  ((between 240 240 a && between 144 191 b) || (between 241 243 a && cont b) ||
   (between 244 244 a && between 128 143 b)) && cont c && cont d.

Fixpoint runes (s : string) : list tok :=
  match s with
  | "" => []
  | String a s1 =>
      if (code a <? 128)%Z then Asc a :: runes s1
      else
        match s1 with
        | "" => [Bad]
        | String b s2 =>
            if utf8_2 a b then Multi (String a (String b "")) :: runes s2
            else
              match s2 with
              | "" => Bad :: runes s1
              | String c s3 =>
                  if utf8_3 a b c then Multi (String a (String b (String c ""))) :: runes s3
                  else
                    match s3 with
                    | "" => Bad :: runes s1
                    | String d s4 =>
                        if utf8_4 a b c d
                        then Multi (String a (String b (String c (String d "")))) :: runes s4
                        else Bad :: runes s1
                    end
              end
        end
  end.

Definition FFFD : string := String (byte 239) (String (byte 191) (String (byte 189) "")).

Definition bytes_of (t : tok) : string :=
  match t with Asc c => String c "" | Multi s => s | Bad => FFFD end.

Fixpoint concat_toks (l : list tok) : string :=
  match l with [] => "" | t :: l' => bytes_of t +:+ concat_toks l' end.

(** A string with its invalid bytes replaced. *)
Definition sanitize (s : string) : string := concat_toks (runes s).
Definition valid_utf8 (s : string) : bool := String.eqb (sanitize s) s.

(** UTF-8 encoding of a code point. *)
Definition utf8 (r : Z) : string :=
  if (r <? 128)%Z then String (byte r) ""
  else if (r <? 2048)%Z
  then String (byte (192 + r / 64)) (String (byte (128 + r mod 64)) "")
  else if (r <? 65536)%Z
  then String (byte (224 + r / 4096)) (String (byte (128 + (r / 64) mod 64))
         (String (byte (128 + r mod 64)) ""))
  else String (byte (240 + r / 262144)) (String (byte (128 + (r / 4096) mod 64))
         (String (byte (128 + (r / 64) mod 64)) (String (byte (128 + r mod 64)) ""))).

(** ** Values *)

(** Numbers keep their text; objects keep order and duplicates. *)
#[warnings="-register-all"]
Inductive json :=
  | JNull
  | JBool (b : bool)
  | JNum (text : string)
  | JStr (s : string)
  | JArr (l : list json)
  | JObj (m : list (string * json)).

(** ** The scanner and decoder *)

Definition is_ws (c : ascii) : bool :=
  Ascii.eqb c "032" || Ascii.eqb c "009" || Ascii.eqb c "010" || Ascii.eqb c "013".

Fixpoint skip_ws (l : list tok) : list tok :=
  match l with
  | Asc c :: l' => if is_ws c then skip_ws l' else l
  | _ => l
  end.

Definition hex_digit (c : ascii) : option Z :=
  let n := code c in
  if ((48 <=? n) && (n <=? 57))%Z then Some (n - 48)%Z
  else if ((97 <=? n) && (n <=? 102))%Z then Some (n - 87)%Z
  else if ((65 <=? n) && (n <=? 70))%Z then Some (n - 55)%Z
  else None.

Definition hex4 (a b c d : ascii) : option Z :=
  a ← hex_digit a; b ← hex_digit b; c ← hex_digit c; d ← hex_digit d;
  Some (((a * 16 + b) * 16 + c) * 16 + d)%Z.

Definition simple_escape (c : ascii) : option ascii :=
  if Ascii.eqb c dq then Some dq
  else if Ascii.eqb c backslash then Some backslash
  else if Ascii.eqb c "/" then Some c
  else if Ascii.eqb c "b" then Some (byte 8)
  else if Ascii.eqb c "f" then Some (byte 12)
  else if Ascii.eqb c "n" then Some (byte 10)
  else if Ascii.eqb c "r" then Some (byte 13)
  else if Ascii.eqb c "t" then Some (byte 9)
  else None.

Definition is_surrogate (r : Z) : bool := ((55296 <=? r) && (r <=? 57343))%Z.
Definition is_pair (r1 r2 : Z) : bool :=
  ((55296 <=? r1) && (r1 <? 56320) && (56320 <=? r2) && (r2 <=? 57343))%Z.
Definition surrogate_pair (r1 r2 : Z) : Z := ((r1 - 55296) * 1024 + (r2 - 56320) + 65536)%Z.

Definition prepend (p : string) (r : option (string * list tok)) : option (string * list tok) :=
  match r with Some (s, rest) => Some (p +:+ s, rest) | None => None end.

(** The body of a string literal, up to and including the closing quote. *)
Fixpoint unquote (l : list tok) : option (string * list tok) :=
  match l with
  | [] => None
  | Asc c :: l1 =>
      if Ascii.eqb c dq then Some ("", l1)
      else if Ascii.eqb c backslash then
        match l1 with
        | Asc e :: l2 =>
            if Ascii.eqb e "u" then
              match l2 with
              | Asc a :: Asc b :: Asc x :: Asc y :: l3 =>
                  match hex4 a b x y with
                  | None => None
                  | Some r =>
                      if is_surrogate r then
                        match l3 with
                        | Asc q :: Asc u :: Asc a' :: Asc b' :: Asc x' :: Asc y' :: l4 =>
                            match hex4 a' b' x' y' with
                            | Some r' =>
                                if Ascii.eqb q backslash && Ascii.eqb u "u" && is_pair r r'
                                then prepend (utf8 (surrogate_pair r r')) (unquote l4)
                                else prepend FFFD (unquote l3)
                            | None => prepend FFFD (unquote l3)
                            end
                        | _ => prepend FFFD (unquote l3)
                        end
                      else prepend (utf8 r) (unquote l3)
                  end
              | _ => None
              end
            else
              match simple_escape e with
              | Some b => prepend (String b "") (unquote l2)
              | None => None
              end
        | _ => None
        end
      else if (code c <? 32)%Z then None
      else prepend (String c "") (unquote l1)
  | t :: l1 => prepend (bytes_of t) (unquote l1)
  end.

Definition is_digit (c : ascii) : bool := between 48 57 c.

Fixpoint take_digits (l : list tok) : string * list tok :=
  match l with
  | Asc c :: l' =>
      if is_digit c then let '(s, r) := take_digits l' in (String c s, r) else ("", l)
  | _ => ("", l)
  end.

(** One digit or more. *)
Definition some_digits (l : list tok) : option (string * list tok) :=
  match take_digits l with
  | ("", _) => None
  | r => Some r
  end.

Definition int_part (l : list tok) : option (string * list tok) :=
  match l with
  | Asc "0" :: l' => Some ("0", l')
  | _ => some_digits l
  end.

Definition frac_part (l : list tok) : option (string * list tok) :=
  match l with
  | Asc "." :: l' => prepend "." (some_digits l')
  | _ => Some ("", l)
  end.

Definition exp_part (l : list tok) : option (string * list tok) :=
  match l with
  | Asc e :: l' =>
      if Ascii.eqb e "e" || Ascii.eqb e "E" then
        match l' with
        | Asc s :: l'' =>
            if Ascii.eqb s "+" || Ascii.eqb s "-"
            then prepend (String e (String s "")) (some_digits l'')
            else prepend (String e "") (some_digits l')
        | _ => None
        end
      else Some ("", l)
  | _ => Some ("", l)
  end.

Definition parse_number (l : list tok) : option (string * list tok) :=
  let '(sign, l) := match l with Asc "-" :: l' => ("-", l') | _ => ("", l) end in
  '(i, l) ← int_part l;
  '(f, l) ← frac_part l;
  '(e, l) ← exp_part l;
  Some (sign +:+ i +:+ f +:+ e, l).

Fixpoint expect (s : string) (l : list tok) : option (list tok) :=
  match s with
  | "" => Some l
  | String c s' =>
      match l with
      | Asc c' :: l' => if Ascii.eqb c c' then expect s' l' else None
      | _ => None
      end
  end.

(** Containers nest at most this deep. *)
Definition maxNestingDepth : Z := 10000.

(** The members of an object and the elements of an array, after the opening
    bracket; [value] parses one value. *)
Fixpoint members (value : list tok → option (json * list tok)) (k : nat) (l : list tok) :
    option (list (string * json) * list tok) :=
  match k with
  | O => None
  | S k =>
      match skip_ws l with
      | Asc q :: l =>
          if Ascii.eqb q dq then
            '(key, l) ← unquote l;
            match skip_ws l with
            | Asc ":" :: l =>
                '(v, l) ← value l;
                match skip_ws l with
                | Asc "," :: l => '(m, l) ← members value k l; Some ((key, v) :: m, l)
                | Asc "}" :: l => Some ([(key, v)], l)
                | _ => None
                end
            | _ => None
            end
          else None
      | _ => None
      end
  end.

Fixpoint elements (value : list tok → option (json * list tok)) (k : nat) (l : list tok) :
    option (list json * list tok) :=
  match k with
  | O => None
  | S k =>
      '(v, l) ← value l;
      match skip_ws l with
      | Asc "," :: l => '(vs, l) ← elements value k l; Some (v :: vs, l)
      | Asc "]" :: l => Some ([v], l)
      | _ => None
      end
  end.

(** One value.  [n] bounds the nesting and the length of the loops; [depth] is
    the number of containers that are open. *)
Fixpoint parse_value (n : nat) (depth : Z) (l : list tok) : option (json * list tok) :=
  match n with
  | O => None
  | S n =>
      match skip_ws l with
      | Asc c :: l1 =>
          if Ascii.eqb c dq then '(s, l) ← unquote l1; Some (JStr s, l)
          else if Ascii.eqb c "{" then
            if (maxNestingDepth <=? depth)%Z then None
            else match expect "}" (skip_ws l1) with
                 | Some l => Some (JObj [], l)
                 | None => '(m, l) ← members (parse_value n (depth + 1)) n l1; Some (JObj m, l)
                 end
          else if Ascii.eqb c "[" then
            if (maxNestingDepth <=? depth)%Z then None
            else match expect "]" (skip_ws l1) with
                 | Some l => Some (JArr [], l)
                 | None => '(vs, l) ← elements (parse_value n (depth + 1)) n l1; Some (JArr vs, l)
                 end
          else if Ascii.eqb c "t" then l ← expect "rue" l1; Some (JBool true, l)
          else if Ascii.eqb c "f" then l ← expect "alse" l1; Some (JBool false, l)
          else if Ascii.eqb c "n" then l ← expect "ull" l1; Some (JNull, l)
          else '(t, l) ← parse_number (Asc c :: l1); Some (JNum t, l)
      | _ => None
      end
  end.

(** A whole text.  Every nested call of [parse_value] and every turn of its
    loops consumes a token, so the length of the text is enough fuel. *)
Definition parse (s : string) : option json :=
  '(v, rest) ← parse_value (S (String.length s)) 0 (runes s);
  match skip_ws rest with
  | [] => Some v
  | _ => None
  end.

(** ** The encoder *)

Definition hex_char (n : Z) : ascii := if (n <? 10)%Z then byte (48 + n) else byte (87 + n).

Definition line_separator (s : string) : bool :=
  String.eqb s (String (byte 226) (String (byte 128) (String (byte 168) ""))) ||
  String.eqb s (String (byte 226) (String (byte 128) (String (byte 169) ""))).

Definition u_escape (a b c d : ascii) : string :=
  String backslash (String "u" (String a (String b (String c (String d ""))))).

(** [appendString] with HTML escaping. *)
Definition escape_tok (t : tok) : string :=
  match t with
  | Bad => u_escape "f" "f" "f" "d"
  | Multi s =>
      if line_separator s
      then u_escape "2" "0" "2" (if String.eqb s (String (byte 226) (String (byte 128) (String (byte 168) ""))) then "8" else "9")
      else s
  | Asc c =>
      if Ascii.eqb c dq || Ascii.eqb c backslash then String backslash (String c "")
      else if (code c =? 8)%Z then String backslash "b"
      else if (code c =? 12)%Z then String backslash "f"
      else if (code c =? 10)%Z then String backslash "n"
      else if (code c =? 13)%Z then String backslash "r"
      else if (code c =? 9)%Z then String backslash "t"
      else if (code c <? 32)%Z || Ascii.eqb c "<" || Ascii.eqb c ">" || Ascii.eqb c "&"
      then u_escape "0" "0" (hex_char (code c / 16)) (hex_char (code c mod 16))
      else String c ""
  end.

Fixpoint escape_toks (l : list tok) : string :=
  match l with [] => "" | t :: l' => escape_tok t +:+ escape_toks l' end.

Definition quote (s : string) : string :=
  String dq (escape_toks (runes s) +:+ String dq "").

Fixpoint print (v : json) : string :=
  match v with
  | JNull => "null"
  | JBool b => if b then "true" else "false"
  | JNum t => t
  | JStr s => quote s
  | JArr l => "[" +:+ Join (map print l) "," +:+ "]"
  | JObj m => "{" +:+ Join (map (λ '(k, v), quote k +:+ ":" +:+ print v) m) "," +:+ "}"
  end.

(** Keys of a map are printed in byte order. *)
Definition key_le (a b : string * json) : Prop := String.leb a.1 b.1 = true.
#[export] Instance key_le_dec : RelDecision key_le.
Proof. intros a b. unfold key_le. apply _. Defined.

Definition JMap (m : gmap string json) : json := JObj (merge_sort key_le (map_to_list m)).

(** [json.Marshal] of a [map[string]string]; the nil map is null. *)
Definition JStrMap (m : option (gmap string string)) : json :=
  match m with
  | None => JNull
  | Some m => JMap (JStr <$> m)
  end.

Definition JInt (z : Z) : json := JNum (Itoa z).

Example parse1 : parse " [1.5e3, true ,{ }] " = Some (JArr [JNum "1.5e3"; JBool true; JObj []]).
Proof. vm_compute. reflexivity. Qed.
Example parse2 : parse "[01]" = None.
Proof. vm_compute. reflexivity. Qed.
Example print1 : parse (print (JObj [("a<b", JStr (String dq "x\y")); ("n", JInt (-12))])) =
  Some (JObj [("a<b", JStr (String dq "x\y")); ("n", JNum "-12")]).
Proof. vm_compute. reflexivity. Qed.

(** ** Numbers as float64 *)

(** The digits of a number text: sign, integer part, fraction, exponent. *)
Definition split_number (t : string) : bool * string * string * Z :=
  let l := runes t in
  let '(neg, l) := match l with Asc "-" :: l' => (true, l') | _ => (false, l) end in
  let '(i, l) := take_digits l in
  let '(f, l) := match l with Asc "." :: l' => take_digits l' | _ => ("", l) end in
  let e :=
    match l with
    | Asc _ :: l' =>
        match l' with
        | Asc "-" :: l'' => match digits 0 (take_digits l'').1 with Some n => (- n)%Z | None => 0%Z end
        | Asc "+" :: l'' => match digits 0 (take_digits l'').1 with Some n => n | None => 0%Z end
        | _ => match digits 0 (take_digits l').1 with Some n => n | None => 0%Z end
        end
    | _ => 0%Z
    end in
  (neg, i, f, e).

(** [strconv.ParseFloat] on a valid number text: the nearest float64, [None] when
    it overflows.  Far outside the range of float64 the power of ten is not
    computed. *)
Definition ParseFloat (t : string) : option float64.t :=
  let '(neg, i, f, e) := split_number t in
  match digits 0 (i +:+ f) with
  | Some (Zpos m) =>
      let e := (e - Z.of_nat (String.length f))%Z in
      if (400 <? e + Z.log2 (Zpos m) / 4)%Z then None
      else if (e + Z.log2 (Zpos m) / 3 + 1 <? -400)%Z then Some (S754_zero neg)
      else
        let x := if (0 <=? e)%Z
          then float64.of_ratio neg (m * Z.to_pos (10 ^ e)) 1
          else float64.of_ratio neg m (Z.to_pos (10 ^ (- e))) in
        match x with
        | S754_infinity _ => None
        | _ => Some x
        end
  | _ => Some (S754_zero neg)
  end.

Example float1 : ParseFloat "16" = Some (float64.of_Z 16). Proof. vm_compute. reflexivity. Qed.
Example float2 : ParseFloat "-2.5e-1" = Some (float64.of_ratio true 1 4). Proof. vm_compute. reflexivity. Qed.
Example float3 : ParseFloat "1e309" = None. Proof. vm_compute. reflexivity. Qed.

(** ** json.Unmarshal into a map[string]interface{}

    The result is the map (nil unless the text is an object) and whether the
    error is nil.  A number that overflows is an error that leaves the rest of
    the map filled in. *)

Fixpoint no_overflow (v : json) : bool :=
  match v with
  | JNum t => match ParseFloat t with Some _ => true | None => false end
  | JArr l => forallb no_overflow l
  | JObj m => forallb (λ '(_, v), no_overflow v) m
  | _ => true
  end.

(** The last of several members with one name wins. *)
Definition object_map (m : list (string * json)) : gmap string json :=
  list_to_map (rev m).

Definition Unmarshal_map (s : string) : option (gmap string json) * bool :=
  match parse s with
  | None => (None, false)
  | Some JNull => (None, true)
  | Some (JObj m) => (Some (object_map m), no_overflow (JObj m))
  | Some _ => (None, false)
  end.

Definition map_get (m : option (gmap string json)) (key : string) : option json :=
  match m with Some m => m !! key | None => None end.

(** [v, _ := ad[key].(float64)] *)
Definition get_float (m : option (gmap string json)) (key : string) : float64.t :=
  match map_get m key with
  | Some (JNum t) => match ParseFloat t with Some f => f | None => float64.zero end
  | _ => float64.zero
  end.

(** [v, ok := ad[key].(string)] *)
Definition get_string (m : option (gmap string json)) (key : string) : option string :=
  match map_get m key with
  | Some (JStr s) => Some s
  | _ => None
  end.

(** ** json.Unmarshal into a struct

    A decoder takes the old value of a field; [None] is a non-nil error (every
    caller drops the partly filled struct then). *)

Definition dec_string (v : json) (old : string) : option string :=
  match v with JStr s => Some s | JNull => Some old | _ => None end.

Definition dec_int (v : json) (old : Z) : option Z :=
  match v with
  | JNum t => match Atoi t with (n, true) => Some n | _ => None end
  | JNull => Some old
  | _ => None
  end.

Fixpoint dec_entries (m : list (string * json)) (acc : gmap string string) :
    option (gmap string string) :=
  match m with
  | [] => Some acc
  | (k, v) :: m' => s ← dec_string v ""; dec_entries m' (<[k := s]> acc)
  end.

Definition dec_strmap (v : json) (old : option (gmap string string)) :
    option (option (gmap string string)) :=
  match v with
  | JNull => Some None
  | JObj m => acc ← dec_entries m (default ∅ old); Some (Some acc)
  | _ => None
  end.

Fixpoint dec_elements (l : list json) : option (list string) :=
  match l with
  | [] => Some []
  | v :: l' => s ← dec_string v ""; rest ← dec_elements l'; Some (s :: rest)
  end.

Definition dec_strings (v : json) (old : list string) : option (list string) :=
  match v with
  | JNull => Some []
  | JArr l => dec_elements l
  | _ => None
  end.

(** Field names match case-insensitively; besides ASCII, the Kelvin sign folds
    to K and the long s to S. *)
Fixpoint fold_toks (l : list tok) : string :=
  match l with
  | [] => ""
  | t :: l' =>
      (match t with
       | Asc c => String (upper_ascii c) ""
       | _ =>
           if String.eqb (bytes_of t) (String (byte 226) (String (byte 132) (String (byte 170) "")))
           then "K"
           else if String.eqb (bytes_of t) (String (byte 197) (String (byte 191) "")) then "S"
           else bytes_of t
       end) +:+ fold_toks l'
  end.
Definition foldName (s : string) : string := fold_toks (runes s).

Section Struct.
Context {T : Type} (fields : list (string * (json → T → option T))).

Definition find_field (key : string) : option (json → T → option T) :=
  match List.find (λ f, String.eqb f.1 key) fields with
  | Some f => Some f.2
  | None =>
      match List.find (λ f, String.eqb (foldName f.1) (foldName key)) fields with
      | Some f => Some f.2
      | None => None
      end
  end.

Fixpoint decode_fields (m : list (string * json)) (x : T) : option T :=
  match m with
  | [] => Some x
  | (key, v) :: m' =>
      match find_field key with
      | Some dec => x ← dec v x; decode_fields m' x
      | None => decode_fields m' x
      end
  end.

Definition decode_struct (v : json) (x : T) : option T :=
  match v with
  | JNull => Some x
  | JObj m => decode_fields m x
  | _ => None
  end.

Definition Unmarshal_struct (s : string) (x : T) : option T :=
  v ← parse s; decode_struct v x.
End Struct.
