(* ===== verification/GoJsonFacts.v ===== *)
(** * JSON round trip

    [parse (print v)] is [v] with its strings made valid UTF-8, for every value
    whose numbers are well formed and whose nesting is within Go's limit. *)

From S2P Require Import Prelude GoStd GoJson.
#[local] Open Scope string_scope.
#[local] Open Scope list_scope.
#[local] Open Scope nat_scope.

(** ** Tokens *)

Definition good_tok (t : tok) : Prop :=
  match t with
  | Asc c => (code c < 128)%Z
  | Multi s => ∀ r, runes (s +:+ r) = Multi s :: runes r
  | Bad => True
  end.

Lemma between_ge lo hi c : between lo hi c = true → (lo ≤ code c)%Z.
Proof. unfold between. intros. by to_prop. Qed.

Lemma high_byte c lo hi : between lo hi c = true → (128 ≤ lo)%Z → (code c <? 128)%Z = false.
Proof. intros H%between_ge ?. apply Z.ltb_ge. lia. Qed.

Lemma utf8_2_high a b : utf8_2 a b = true → (code a <? 128)%Z = false.
Proof. unfold utf8_2. intros [H _]%andb_true_iff. by eapply high_byte. Qed.

Lemma utf8_3_not_2 a b c : utf8_3 a b c = true →
  (code a <? 128)%Z = false ∧ utf8_2 a b = false.
Proof.
  unfold utf8_3. intros [H _]%andb_true_iff.
  assert (224 ≤ code a)%Z.
  { repeat (apply orb_true_iff in H as [H|H]); apply andb_true_iff in H as [H%between_ge _]; lia. }
  split; [apply Z.ltb_ge; lia|]. unfold utf8_2, between. apply andb_false_iff. left.
  apply andb_false_iff. right. apply Z.leb_gt. lia.
Qed.

Lemma utf8_4_not_3 a b c d : utf8_4 a b c d = true →
  (code a <? 128)%Z = false ∧ utf8_2 a b = false ∧ utf8_3 a b c = false.
Proof.
  unfold utf8_4. intros [[H _]%andb_true_iff _]%andb_true_iff.
  assert (Ha : (240 ≤ code a)%Z).
  { repeat (apply orb_true_iff in H as [H|H]); apply andb_true_iff in H as [H%between_ge _]; lia. }
  assert (Hb : ∀ lo hi, (hi < 240)%Z → between lo hi a = false).
  { intros lo hi ?. unfold between. apply andb_false_iff. right. apply Z.leb_gt. lia. }
  split; [apply Z.ltb_ge; lia|]. unfold utf8_2, utf8_3. by rewrite !Hb by lia.
Qed.

Lemma runes_good s : Forall good_tok (runes s).
Proof.
  induction s as [s IH] using (induction_ltof1 _ String.length); unfold ltof in IH.
  destruct s as [|a s1]; [constructor|]. cbn [runes].
  destruct (Z.ltb_spec (code a) 128); [constructor; [done|apply IH; simpl; lia]|].
  destruct s1 as [|b s2]; [by repeat constructor|].
  destruct (utf8_2 a b) eqn:E2.
  { constructor; [|apply IH; simpl; lia]. intros r. cbn [String.append runes].
    by rewrite (utf8_2_high a b), E2. }
  destruct s2 as [|c s3]; [constructor; [done|apply IH; simpl; lia]|].
  destruct (utf8_3 a b c) eqn:E3.
  { constructor; [|apply IH; simpl; lia]. intros r. cbn [String.append runes].
    destruct (utf8_3_not_2 a b c E3) as [-> ->]. by rewrite E3. }
  destruct s3 as [|d s4]; [constructor; [done|apply IH; simpl; lia]|].
  destruct (utf8_4 a b c d) eqn:E4; (constructor; [|apply IH; simpl; lia]); [|done].
  intros r. cbn [String.append runes]. destruct (utf8_4_not_3 a b c d E4) as (-> & -> & ->).
  by rewrite E4.
Qed.

Lemma runes_ascii c r : (code c < 128)%Z → runes (String c r) = Asc c :: runes r.
Proof. intros H. cbn [runes]. destruct (Z.ltb_spec (code c) 128); [done|lia]. Qed.

(** ** String literals *)

Lemma unquote_asc c r : (code c < 128)%Z →
  unquote (runes (escape_tok (Asc c) +:+ r)) = prepend (String c "") (unquote (runes r)).
Proof.
  intros Hc. destruct c as [[] [] [] [] [] [] [] []]; try reflexivity; vm_compute in Hc; discriminate.
Qed.

Lemma unquote_tok t r : good_tok t →
  unquote (runes (escape_tok t +:+ r)) = prepend (bytes_of t) (unquote (runes r)).
Proof.
  destruct t as [c|s|]; intros Ht; [by apply unquote_asc| |done].
  cbn [escape_tok]. destruct (line_separator s) eqn:E; [|by rewrite Ht].
  unfold line_separator in E. apply orb_true_iff in E as [->%String.eqb_eq| ->%String.eqb_eq]; done.
Qed.

Lemma prepend_prepend a b r : prepend a (prepend b r) = prepend (a +:+ b) r.
Proof. destruct r as [[??]|]; simpl; [|done]. by rewrite str_app_assoc. Qed.

Lemma unquote_escape l r : Forall good_tok l →
  unquote (runes (escape_toks l +:+ String dq r)) = Some (concat_toks l, runes r).
Proof.
  induction 1 as [|t l Ht _ IH]; [done|]. cbn [escape_toks concat_toks].
  rewrite str_app_assoc, unquote_tok by done. by rewrite IH.
Qed.

Lemma quote_runes s r : runes (quote s +:+ r) =
  Asc dq :: runes (escape_toks (runes s) +:+ String dq r).
Proof.
  unfold quote. cbn [String.append]. rewrite runes_ascii by (vm_compute; reflexivity).
  by rewrite str_app_assoc.
Qed.

Lemma unquote_quote s r :
  unquote (runes (escape_toks (runes s) +:+ String dq r)) = Some (sanitize s, runes r).
Proof. apply unquote_escape, runes_good. Qed.

(** ** Values *)

Fixpoint clean (v : json) : json :=
  match v with
  | JStr s => JStr (sanitize s)
  | JArr l => JArr (map clean l)
  | JObj m => JObj (map (λ '(k, v), (sanitize k, clean v)) m)
  | v => v
  end.

Fixpoint weight (v : json) : nat :=
  match v with
  | JArr l => S (foldr (λ v n, weight v + n) 0 l)
  | JObj m => S (foldr (λ '(_, v) n, weight v + n) 0 m)
  | _ => 1
  end.

Fixpoint nesting (v : json) : nat :=
  match v with
  | JArr l => S (foldr (λ v n, Nat.max (nesting v) n) 0 l)
  | JObj m => S (foldr (λ '(_, v) n, Nat.max (nesting v) n) 0 m)
  | _ => 0
  end.

(** What may follow a number. *)
Definition delim (l : list tok) : Prop :=
  match l with
  | Asc c :: _ => is_digit c = false ∧ c ≠ "."%char ∧ c ≠ "e"%char ∧ c ≠ "E"%char
  | _ => True
  end.

Definition number_head (c : ascii) : bool := Ascii.eqb c "-" || is_digit c.

Record number_text (t : string) : Prop := {
  nt_head : ∃ c t', t = String c t' ∧ number_head c = true;
  nt_parse r : delim (runes r) → parse_number (runes (t +:+ r)) = Some (t, runes r)
}.

Fixpoint numbers_ok (v : json) : Prop :=
  match v with
  | JNum t => number_text t
  | JArr l => foldr (λ v P, numbers_ok v ∧ P) True l
  | JObj m => foldr (λ '(_, v) P, numbers_ok v ∧ P) True m
  | _ => True
  end.

Lemma number_head_facts c : number_head c = true →
  (code c < 128)%Z ∧ is_ws c = false ∧ Ascii.eqb c dq = false ∧ Ascii.eqb c "{" = false ∧
  Ascii.eqb c "[" = false ∧ Ascii.eqb c "t" = false ∧ Ascii.eqb c "f" = false ∧
  Ascii.eqb c "n" = false ∧ c ≠ "]"%char.
Proof. destruct c as [[] [] [] [] [] [] [] []]; intros H; try discriminate H; by repeat split. Qed.

(** The first token of a printed value is no space and no closing bracket. *)
Lemma print_head v : numbers_ok v → ∃ c s, print v = String c s ∧ (code c < 128)%Z ∧
  is_ws c = false ∧ c ≠ "]"%char.
Proof.
  destruct v; simpl; intros H; try by (eexists _, _; repeat split; vm_compute; congruence).
  - destruct b; by (eexists _, _; repeat split; vm_compute; congruence).
  - destruct H as [(c & t' & -> & Hc) _]. apply number_head_facts in Hc as (?&?&?&?&?&?&?&?&?).
    by eexists _, _.
Qed.

Definition parses (value : list tok → option (json * list tok)) (v : json) : Prop :=
  ∀ r, delim (runes r) → value (runes (print v +:+ r)) = Some (clean v, runes r).

Lemma opt_bind_Some {A B} (a : A) (f : A → option B) : (Some a ≫= f) = f a.
Proof. done. Qed.

Lemma runes_punct c r : In c [":"; ","; "]"; "}"]%char →
  skip_ws (runes (String c r)) = Asc c :: runes r.
Proof. intros [<-|[<-|[<-|[<-|[]]]]]; done. Qed.

Lemma skip_ws_dq l : skip_ws (Asc dq :: l) = Asc dq :: l.
Proof. done. Qed.

(** One step of a parser: past a bind, then past a punctuation character. *)
Ltac parse_step :=
  rewrite opt_bind_Some; cbv beta iota; cbn [String.append];
  rewrite ?runes_punct by (simpl; tauto); cbv beta iota.

Lemma elements_print value k l r : l ≠ [] → length l ≤ k → Forall (parses value) l →
  elements value k (runes (Join (map print l) "," +:+ "]" +:+ r)) = Some (map clean l, runes r).
Proof.
  revert l. induction k as [|k IH]; intros [|v l] Hne Hk Hl; try done; [simpl in Hk; lia|].
  apply Forall_cons in Hl as [Hv Hl]. cbn [elements]. destruct l as [|w l].
  - cbn [map Join]. rewrite Hv by done. by parse_step.
  - change (map print (v :: w :: l)) with (print v :: map print (w :: l)).
    change (Join (print v :: map print (w :: l)) ",")
      with (print v +:+ "," +:+ Join (map print (w :: l)) ",").
    rewrite !str_app_assoc, Hv by done. parse_step.
    by rewrite IH by (done || (simpl in *; lia)).
Qed.

Definition print_member : string * json → string := λ '(k, v), quote k +:+ ":" +:+ print v.
Definition clean_member : string * json → string * json := λ '(k, v), (sanitize k, clean v).

Lemma members_print value k m r : m ≠ [] → length m ≤ k → Forall (λ kv, parses value kv.2) m →
  members value k (runes (Join (map print_member m) "," +:+ "}" +:+ r)) =
    Some (map clean_member m, runes r).
Proof.
  revert m. induction k as [|k IH]; intros [|[key v] m] Hne Hk Hm; try done; [simpl in Hk; lia|].
  apply Forall_cons in Hm as [Hv Hm]. simpl in Hv. cbn [members]. destruct m as [|w m].
  - cbn [map Join print_member]. rewrite !str_app_assoc, quote_runes.
    rewrite skip_ws_dq. cbv beta iota.
    change (Ascii.eqb dq dq) with true. cbv iota.
    rewrite unquote_quote. parse_step. rewrite Hv by done. by parse_step.
  - change (map print_member ((key, v) :: w :: m)) with (print_member (key, v) :: map print_member (w :: m)).
    change (Join (print_member (key, v) :: map print_member (w :: m)) ",")
      with (print_member (key, v) +:+ "," +:+ Join (map print_member (w :: m)) ",").
    cbn [print_member]. rewrite !str_app_assoc, quote_runes.
    rewrite skip_ws_dq. cbv beta iota.
    change (Ascii.eqb dq dq) with true. cbv iota.
    rewrite unquote_quote. parse_step. rewrite Hv by done. parse_step.
    by rewrite IH by (done || (simpl in *; lia)).
Qed.

Lemma skip_ws_head c l : is_ws c = false → skip_ws (Asc c :: l) = Asc c :: l.
Proof. intros H. cbn [skip_ws]. by rewrite H. Qed.

(** The test for an empty container. *)
Lemma not_close c c' l : c ≠ c' → expect (String c' "") (Asc c :: l) = None.
Proof. intros H. simpl. destruct (Ascii.eqb_spec c' c); [congruence|done]. Qed.

Lemma in_weight v l : v ∈ l → weight v ≤ foldr (λ v n, weight v + n) 0 l.
Proof. induction 1; simpl; lia. Qed.
Lemma in_nesting v l : v ∈ l → nesting v ≤ foldr (λ v n, Nat.max (nesting v) n) 0 l.
Proof. induction 1; simpl; lia. Qed.
Lemma in_weight_m (k : string) v m : (k, v) ∈ m → weight v ≤ foldr (λ '(_, v) n, weight v + n) 0 m.
Proof. induction m as [|[??] m IH]; [by intros ?%not_elem_of_nil|]. intros [[= <- <-]|?%IH]%elem_of_cons; simpl; lia. Qed.
Lemma in_nesting_m (k : string) v m : (k, v) ∈ m → nesting v ≤ foldr (λ '(_, v) n, Nat.max (nesting v) n) 0 m.
Proof. induction m as [|[??] m IH]; [by intros ?%not_elem_of_nil|]. intros [[= <- <-]|?%IH]%elem_of_cons; simpl; lia. Qed.
Lemma in_numbers v l : v ∈ l → foldr (λ v P, numbers_ok v ∧ P) True l → numbers_ok v.
Proof. induction 1; simpl; tauto. Qed.
Lemma in_numbers_m (k : string) v m : (k, v) ∈ m → foldr (λ '(_, v) P, numbers_ok v ∧ P) True m → numbers_ok v.
Proof. induction m as [|[??] m IH]; [by intros ?%not_elem_of_nil|]. intros [[= <- <-]|?]%elem_of_cons; simpl; tauto. Qed.

Lemma weight_length l : length l ≤ foldr (λ v n, weight v + n) 0 l.
Proof. induction l as [|v l IH]; simpl; [lia|]. assert (1 ≤ weight v) by (destruct v; simpl; lia). lia. Qed.
Lemma weight_length_m m : length m ≤ foldr (λ '(_, v) n, weight v + n) 0 (m : list (string * json)).
Proof. induction m as [|[k v] m IH]; simpl; [lia|]. assert (1 ≤ weight v) by (destruct v; simpl; lia). lia. Qed.

Lemma parse_value_print n depth v r :
  weight v ≤ n → numbers_ok v → (depth + Z.of_nat (nesting v) ≤ maxNestingDepth)%Z →
  delim (runes r) → parse_value n depth (runes (print v +:+ r)) = Some (clean v, runes r).
Proof.
  revert depth v r. induction n as [|n IH]; intros depth v r Hw Hn Hd Hr.
  { destruct v; simpl in Hw; lia. }
  destruct v as [|b|t|s|l|m].
  - done.
  - by destruct b.
  - destruct Hn as [(c & t' & Ht & Hc) Hp]. simpl print. specialize (Hp r Hr).
    destruct (number_head_facts c Hc) as (Ha & Hws & H1 & H2 & H3 & H4 & H5 & H6 & _).
    rewrite Ht in *. cbn [String.append] in *. rewrite runes_ascii in * by done.
    cbn [parse_value skip_ws]. by rewrite Hws, H1, H2, H3, H4, H5, H6, Hp.
  - simpl print. rewrite quote_runes. cbn [parse_value]. rewrite skip_ws_dq.
    change (Ascii.eqb dq dq) with true. cbv iota. rewrite unquote_quote. done.
  - simpl in Hw, Hn, Hd.
    assert (Hl : Forall (parses (parse_value n (depth + 1))) l).
    { apply Forall_forall. intros v Hv r' Hr'. apply IH; [..|done].
      - pose proof (in_weight v l Hv). lia.
      - by eapply in_numbers.
      - pose proof (in_nesting v l Hv). lia. }
    assert (Hdep : (maxNestingDepth <=? depth)%Z = false) by (apply Z.leb_gt; lia).
    pose proof (weight_length l). cbn [print]. rewrite !str_app_assoc. cbn [String.append].
    rewrite runes_ascii by done. cbn [parse_value]. rewrite skip_ws_head by done.
    destruct l as [|v l].
    { cbn [map Join String.append]. rewrite runes_ascii by done. cbn -[Z.leb]. by rewrite Hdep. }
    destruct (print_head v) as (c & s & Hs & Hc & Hws & Hcl); [by apply Hn|].
    pose proof (elements_print (parse_value n (depth + 1)) n (v :: l) r) as HE.
    assert (Hhd : ∃ l1, runes (Join (map print (v :: l)) "," +:+ "]" +:+ r) = Asc c :: l1).
    { destruct l as [|w l]; cbn [map Join]; rewrite Hs; cbn [String.append];
        rewrite ?str_app_assoc; eexists; by apply runes_ascii. }
    destruct Hhd as [l1 Hhd]. cbn [String.append] in HE, Hhd. rewrite Hhd in *.
    change (Ascii.eqb "[" dq) with false. change (Ascii.eqb "[" "{") with false.
    change (Ascii.eqb "[" "[") with true. cbv iota.
    rewrite Hdep, skip_ws_head, not_close by done. rewrite HE by (done || lia). done.
  - simpl in Hw, Hn, Hd.
    assert (Hl : Forall (λ kv, parses (parse_value n (depth + 1)) kv.2) m).
    { apply Forall_forall. intros [k v] Hv r' Hr'. apply IH; [..|done].
      - pose proof (in_weight_m k v m Hv). simpl. lia.
      - by eapply in_numbers_m.
      - pose proof (in_nesting_m k v m Hv). simpl. lia. }
    assert (Hdep : (maxNestingDepth <=? depth)%Z = false) by (apply Z.leb_gt; lia).
    pose proof (weight_length_m m). cbn [print]. fold print_member. fold clean_member.
    rewrite !str_app_assoc. cbn [String.append].
    rewrite runes_ascii by done. cbn [parse_value]. rewrite skip_ws_head by done.
    destruct m as [|[k v] m].
    { cbn [map Join String.append]. rewrite runes_ascii by done. cbn -[Z.leb]. by rewrite Hdep. }
    pose proof (members_print (parse_value n (depth + 1)) n ((k, v) :: m) r) as HE.
    assert (Hhd : ∃ l1, runes (Join (map print_member ((k, v) :: m)) "," +:+ "}" +:+ r) = Asc dq :: l1).
    { destruct m as [|w m]; cbn [map Join print_member]; rewrite ?str_app_assoc, quote_runes; by eexists. }
    destruct Hhd as [l1 Hhd]. cbn [String.append] in HE, Hhd. rewrite Hhd in *.
    change (Ascii.eqb "{" dq) with false. change (Ascii.eqb "{" "{") with true. cbv iota.
    rewrite Hdep, skip_ws_dq, not_close by done. rewrite HE by (done || lia). done.
Qed.

Lemma Join_length l sep : foldr (λ s n, String.length s + n) 0 l ≤ String.length (Join l sep).
Proof.
  induction l as [|s l IH]; [done|]. destruct l as [|s' l]; cbn [Join foldr] in *; [lia|].
  rewrite !str_app_length. lia.
Qed.

Lemma weight_print n v : weight v ≤ n → numbers_ok v → weight v ≤ String.length (print v).
Proof.
  revert v. induction n as [|n IH]; intros v Hw Hn; [destruct v; simpl in *; lia|].
  destruct v as [|b|t|s|l|m]; cbn [weight] in *; try (simpl; lia).
  - destruct b; simpl; lia.
  - destruct Hn as [(c & t' & -> & _) _]. simpl. lia.
  - cbn [print]. rewrite !str_app_length. pose proof (Join_length (map print l) ",").
    assert (foldr (λ v n, weight v + n) 0 l ≤ foldr (λ s n, String.length s + n) 0 (map print l)).
    { clear H. simpl in Hn. apply le_S_n in Hw. revert Hw Hn. induction l as [|v l IHl]; [done|]. simpl. intros Hw [Hv Hn].
      assert (weight v ≤ String.length (print v)) by (apply IH; [lia|done]).
      assert (foldr (λ v n, weight v + n) 0 l ≤ n) by lia. specialize (IHl H0 Hn). lia. }
    simpl. lia.
  - cbn [print]. rewrite !str_app_length.
    pose proof (Join_length (map (λ '(k, v), quote k +:+ ":" +:+ print v) m) ",").
    assert (foldr (λ '(_, v) n, weight v + n) 0 m ≤
      foldr (λ s n, String.length s + n) 0 (map (λ '(k, v), quote k +:+ ":" +:+ print v) m)).
    { clear H. simpl in Hn. apply le_S_n in Hw. revert Hw Hn.
      induction m as [|[k v] m IHm]; [done|]. cbn [map foldr]. intros Hw [Hv Hn].
      assert (weight v ≤ String.length (print v)) by (apply IH; [lia|done]).
      assert (foldr (λ '(_, v) n, weight v + n) 0 m ≤ n) by lia. specialize (IHm H0 Hn).
      rewrite !str_app_length. cbn [String.append String.length] in *. lia. }
    cbn [String.length]. lia.
Qed.

Theorem parse_print v : numbers_ok v → (Z.of_nat (nesting v) ≤ maxNestingDepth)%Z →
  parse (print v) = Some (clean v).
Proof.
  intros Hn Hd. unfold parse.
  pose proof (parse_value_print (S (String.length (print v))) 0 v "") as HP.
  rewrite str_app_nil in HP. rewrite HP; [done|..]; [|done|done|done].
  pose proof (weight_print _ v (le_n _) Hn). lia.
Qed.

(** ** Numbers *)

Lemma take_digits_app d r : Forall (λ c, is_digit c = true) (String.list_ascii_of_string d) →
  (match runes r with Asc c :: _ => is_digit c = false | _ => True end) →
  take_digits (runes (d +:+ r)) = (d, runes r).
Proof.
  intros Hd Hr. induction d as [|c d IH]; cbn [String.list_ascii_of_string String.append] in *.
  - cbn [String.append]. destruct (runes r) as [|[c| |] l]; simpl; try done. by rewrite Hr.
  - apply Forall_cons in Hd as [Hc Hd]. cbn [String.append].
    rewrite runes_ascii by (by apply number_head_facts; unfold number_head; rewrite Hc, orb_true_r).
    cbn [take_digits]. by rewrite Hc, IH.
Qed.

Lemma is_digit_of c : is_Some (digit_of c) → is_digit c = true.
Proof. destruct c as [[] [] [] [] [] [] [] []]; intros [v Hv]; try discriminate Hv; done. Qed.

Lemma delim_no_digit r : delim (runes r) →
  match runes r with Asc c :: _ => is_digit c = false | _ => True end.
Proof. destruct (runes r) as [|[c| |] l]; simpl; tauto. Qed.

Lemma frac_exp_delim r : delim (runes r) →
  frac_part (runes r) = Some ("", runes r) ∧ exp_part (runes r) = Some ("", runes r).
Proof.
  destruct (runes r) as [|[c| |] l]; simpl; [done| |done|done]. intros (_ & Hp & He & HE).
  destruct (Ascii.eqb_spec c "e"); [done|]. destruct (Ascii.eqb_spec c "E"); [done|].
  split; [|done]. by destruct c as [[] [] [] [] [] [] [] []].
Qed.

(** Decimal integers are JSON numbers. *)
Lemma int_part_decimal n d r : decimal n d → delim (runes r) →
  int_part (runes (d +:+ r)) = Some (d, runes r) ∧
  ∃ c l, runes (d +:+ r) = Asc c :: l ∧ is_digit c = true.
Proof.
  intros [_ (c & d' & -> & Hc & Hz) Hall] Hr.
  assert (Hd : Forall (λ c, is_digit c = true) (String.list_ascii_of_string (String c d')))
    by (eapply Forall_impl; [done|apply is_digit_of]).
  pose proof (take_digits_app _ r Hd (delim_no_digit r Hr)) as HT.
  pose proof (is_digit_of c Hc) as Hcd.
  assert (Hca : (code c < 128)%Z) by (apply number_head_facts; unfold number_head; by rewrite Hcd, orb_true_r).
  cbn [String.append] in *. rewrite runes_ascii in * by done. split; [|by eexists _, _].
  destruct (decide (c = "0"%char)) as [->|Hne].
  - destruct (Hz eq_refl) as [_ ->]. done.
  - assert (HI : int_part (Asc c :: runes (d' +:+ r)) = some_digits (Asc c :: runes (d' +:+ r))).
    { destruct c as [[] [] [] [] [] [] [] []]; try done; by destruct Hne. }
    rewrite HI. unfold some_digits. by rewrite HT.
Qed.

Lemma Itoa_number z : number_text (Itoa z).
Proof.
  destruct (Itoa_decimal z) as (d & Hd & ->). split.
  - pose proof Hd as [_ (c & d' & -> & Hc & _) _]. destruct (z <? 0)%Z.
    + by exists "-"%char, (String c d').
    + exists c, d'. split; [done|]. unfold number_head. by rewrite is_digit_of, orb_true_r.
  - intros r Hr. destruct (int_part_decimal _ d r Hd Hr) as (HI & c & l & Hl & Hc).
    destruct (frac_exp_delim r Hr) as [HF HE]. unfold parse_number. destruct (z <? 0)%Z.
    + rewrite str_app_assoc. cbn [String.append]. rewrite runes_ascii by done.
      rewrite HI, opt_bind_Some. cbv beta iota. rewrite HF, opt_bind_Some. cbv beta iota.
      rewrite HE, opt_bind_Some. cbv beta iota. by rewrite !str_app_nil.
    + cbn [String.append].
      assert (E : match runes (d +:+ r) with Asc "-" :: l' => ("-", l') | _ => ("", runes (d +:+ r)) end
        = ("", runes (d +:+ r))).
      { rewrite Hl. destruct c as [[] [] [] [] [] [] [] []]; try done; discriminate Hc. }
      rewrite E, HI, opt_bind_Some. cbv beta iota. rewrite HF, opt_bind_Some. cbv beta iota.
      rewrite HE, opt_bind_Some. cbv beta iota. cbn [String.append]. by rewrite !str_app_nil.
Qed.

(** ** Maps of strings *)

Definition str_member : string * string → string * json := λ '(k, s), (k, JStr s).

Lemma dec_entries_str l acc : NoDup l.*1 →
  dec_entries (map str_member l) acc = Some (list_to_map l ∪ acc).
Proof.
  revert acc. induction l as [|[k s] l IH]; intros acc Hnd; cbn [map dec_entries].
  - by rewrite list_to_map_nil, (left_id_L ∅ (∪)).
  - apply NoDup_cons in Hnd as [Hk Hnd]. cbn [str_member dec_string mbind option_bind].
    rewrite IH by done. f_equal. rewrite list_to_map_cons.
    rewrite <- insert_union_l, <- insert_union_r; [done|].
    by apply not_elem_of_list_to_map_1.
Qed.

(** All strings of a map are valid UTF-8. *)
Definition strmap_valid (m : gmap string string) : Prop :=
  map_Forall (λ k s, sanitize k = k ∧ sanitize s = s) m.

Definition str_entries (m : gmap string string) : list (string * json) :=
  merge_sort key_le (map_to_list (JStr <$> m)).

Lemma str_entries_spec m : ∃ l, str_entries m = map str_member l ∧ NoDup l.*1 ∧
  list_to_map l = m ∧ l ≡ₚ map_to_list m.
Proof.
  assert (HP : str_entries m ≡ₚ map str_member (map_to_list m)).
  { unfold str_entries. rewrite merge_sort_Permutation, map_to_list_fmap. apply reflexive_eq.
    apply list_fmap_ext. by intros ? [??]. }
  apply Permutation_map_inv in HP as (l & Hl & HP). symmetry in HP.
  exists l. split; [done|].
  assert (Hnd : NoDup l.*1) by (rewrite HP; apply NoDup_fst_map_to_list).
  split; [done|]. split; [|done].
  rewrite <- (list_to_map_to_list m). by apply list_to_map_proper.
Qed.

Lemma clean_str_entries l : Forall (λ ks, sanitize ks.1 = ks.1 ∧ sanitize ks.2 = ks.2) l →
  map clean_member (map str_member l) = map str_member l.
Proof.
  induction 1 as [|[k s] l [Hk Hs] _ IH]; [done|]. cbn [map str_member clean_member clean].
  simpl in Hk, Hs. by rewrite Hk, Hs, IH.
Qed.

Lemma dec_str_entries m : strmap_valid m →
  dec_entries (map clean_member (str_entries m)) ∅ = Some m.
Proof.
  intros Hv. destruct (str_entries_spec m) as (l & -> & Hnd & Hm & HP).
  rewrite clean_str_entries.
  - rewrite dec_entries_str by done. by rewrite Hm, (right_id_L ∅ (∪)).
  - apply Forall_forall. intros [k s] Hin. rewrite HP in Hin. apply elem_of_map_to_list in Hin.
    by apply (Hv k s).
Qed.

Lemma numbers_str_entries m : numbers_ok (JObj (str_entries m)).
Proof.
  destruct (str_entries_spec m) as (l & -> & _). simpl. clear.
  induction l as [|[k s] l IH]; simpl; [done|]. by split.
Qed.

Lemma nesting_str_entries m : nesting (JObj (str_entries m)) = 1.
Proof.
  destruct (str_entries_spec m) as (l & -> & _). simpl. f_equal. clear.
  induction l as [|[k s] l IH]; simpl; [done|]. by rewrite IH.
Qed.

(** A string literal of the program is its own clean form. *)
Lemma valid_utf8_eq s : valid_utf8 s = true → sanitize s = s.
Proof. apply String.eqb_eq. Qed.

(** ** Structs *)

Lemma decode_cons {T} (fields : list (string * (json → T → option T))) k v m x dec :
  find_field fields k = Some dec →
  decode_fields fields ((k, v) :: m) x = dec v x ≫= decode_fields fields m.
Proof. intros H. cbn [decode_fields]. by rewrite H. Qed.

Lemma decode_nil {T} (fields : list (string * (json → T → option T))) x :
  decode_fields fields [] x = Some x.
Proof. done. Qed.

Lemma decode_app {T} (fields : list (string * (json → T → option T))) m1 m2 x :
  decode_fields fields (m1 ++ m2) x = decode_fields fields m1 x ≫= decode_fields fields m2.
Proof.
  revert x. induction m1 as [|[k v] m1 IH]; intros x; [done|]. cbn [app decode_fields].
  destruct (find_field fields k) as [dec|]; [|apply IH]. destruct (dec v x); simpl; [apply IH|done].
Qed.

Lemma dec_int_JInt z old : in_int64 z → dec_int (clean (JInt z)) old = Some z.
Proof. intros Hz. unfold JInt. cbn [clean dec_int]. by rewrite Atoi_Itoa. Qed.

(** One member of a cleaned object: look the field up, run its decoder. *)
Ltac decode_step :=
  erewrite decode_cons by reflexivity;
  cbn [snd dec_string mbind option_bind];
  rewrite ?dec_int_JInt by done;
  cbn [mbind option_bind].
