(* ===== verification/GoTime.v ===== *)
(** * time.Time as JSON: RFC 3339

    The civil calendar of Go's [time] package (proleptic Gregorian), the layout
    [2006-01-02T15:04:05.999999999Z07:00] that [Time.MarshalJSON] prints and the
    strict parser of [Time.UnmarshalJSON].

    An instant does not carry its location here; the offset in minutes east of
    UTC at which an instant is printed is the parameter [Zone] (the local zone;
    the zero time is in UTC). *)

From S2P Require Import Prelude GoStd.
#[local] Open Scope string_scope.
#[local] Open Scope list_scope.
#[local] Open Scope Z_scope.

(** ** The civil calendar

    Days are counted from March 1 of the year 0, eras have 400 years. *)

Definition is_leap (y : Z) : bool := (y mod 4 =? 0) && (negb (y mod 100 =? 0) || (y mod 400 =? 0)).

Definition days_in (y m : Z) : Z :=
  if (m =? 2) then (if is_leap y then 29 else 28)
  else if (m =? 4) || (m =? 6) || (m =? 9) || (m =? 11) then 30 else 31.

(** Year (counted from March, within its era) and day of that year. *)
Definition era_year (doe : Z) : Z * Z :=
  let c := Z.min 3 (doe / 36524) in
  let doe := doe - 36524 * c in
  let q := doe / 1461 in
  let doe := doe - 1461 * q in
  let y := Z.min 3 (doe / 365) in
  (100 * c + 4 * q + y, doe - 365 * y).

(** Month and day of month of a day of such a year. *)
Definition month_day (doy : Z) : Z * Z :=
  let mp := (5 * doy + 2) / 153 in
  (if mp <? 10 then mp + 3 else mp - 9, doy - (153 * mp + 2) / 5 + 1).

Definition civil (day : Z) : Z * Z * Z :=
  let '(yoe, doy) := era_year (day mod 146097) in
  let '(m, d) := month_day doy in
  (yoe + 400 * (day / 146097) + (if m <=? 2 then 1 else 0), m, d).

Definition day_of (y m d : Z) : Z :=
  let y' := if m <=? 2 then y - 1 else y in
  let era := y' / 400 in
  let yoe := y' mod 400 in
  let mp := if 2 <? m then m - 3 else m + 9 in
  era * 146097 + (yoe * 365 + yoe / 4 - yoe / 100) + (153 * mp + 2) / 5 + d - 1.

Lemma era_year_spec doe : 0 <= doe < 146097 →
  let '(y, doy) := era_year doe in
  0 <= y < 400 /\ 0 <= doy <= 365 /\ doe = y * 365 + y / 4 - y / 100 + doy /\
  (doy = 365 → is_leap (y + 1) = true).
Proof.
  intros H. unfold era_year. cbv zeta.
  set (c := Z.min 3 (doe / 36524)). set (d1 := doe - 36524 * c).
  assert (Hc : 0 <= c <= 3 /\ 0 <= d1 <= 36524 /\ (d1 = 36524 → c = 3)) by (subst d1 c; lia).
  set (q := d1 / 1461). set (d2 := d1 - 1461 * q).
  assert (Hq : 0 <= q <= 24 /\ 0 <= d2 <= 1460 /\ (q = 24 → d2 = 1460 → d1 = 36524)) by (subst d2 q; lia).
  set (y := Z.min 3 (d2 / 365)).
  assert (Hy : 0 <= y <= 3 /\ 0 <= d2 - 365 * y <= 365 /\ (d2 - 365 * y = 365 → y = 3 /\ d2 = 1460))
    by (subst y; lia).
  assert (E4 : (100 * c + 4 * q + y) / 4 = 25 * c + q) by lia.
  assert (E100 : (100 * c + 4 * q + y) / 100 = c) by lia.
  rewrite E4, E100. split; [lia|]. split; [lia|]. split; [subst d2 d1; lia|].
  intros H365. unfold is_leap. destruct Hy as (_ & _ & Hy). specialize (Hy H365) as [-> Hd2].
  assert ((100 * c + 4 * q + 3 + 1) mod 4 = 0) as -> by lia. simpl.
  destruct (Z.eqb_spec ((100 * c + 4 * q + 3 + 1) mod 100) 0) as [Hm|]; [|done]. simpl.
  apply Z.eqb_eq. assert (q = 24) by lia. assert (c = 3) by lia. lia.
Qed.

Fixpoint check_doys (n : nat) (doy : Z) : bool :=
  match n with
  | O => true
  | S n =>
      let '(m, d) := month_day doy in
      let mp := if 2 <? m then m - 3 else m + 9 in
      ((153 * mp + 2) / 5 + d - 1 =? doy) && (1 <=? m) && (m <=? 12) && (1 <=? d) &&
      (if (m =? 2) then (d <=? 28) || (doy =? 365)
       else d <=? (if (m =? 4) || (m =? 6) || (m =? 9) || (m =? 11) then 30 else 31)) &&
      check_doys n (doy + 1)
  end.

Lemma month_day_spec y doy : 0 <= doy <= 365 → (doy = 365 → is_leap y = true) →
  let '(m, d) := month_day doy in
  doy = (153 * (if 2 <? m then m - 3 else m + 9) + 2) / 5 + d - 1 /\ 1 <= m <= 12 /\
  1 <= d <= days_in y m.
Proof.
  intros Hd Hl.
  assert (H : ∀ n k, check_doys n k = true → k <= doy < k + Z.of_nat n →
    check_doys 1 doy = true).
  { clear. induction n as [|n IH]; intros k H Hk; [lia|]. destruct (decide (k = doy)) as [<-|].
    - cbn [check_doys] in *. destruct (month_day k). apply andb_true_iff in H as [-> _]. done.
    - apply (IH (k + 1)); [|lia]. cbn [check_doys] in H. destruct (month_day k).
      by apply andb_true_iff in H as [_ ?]. }
  specialize (H 366%nat 0 ltac:(vm_compute; reflexivity)). cbn [check_doys] in H.
  destruct (month_day doy) as [m d]. specialize (H ltac:(lia)). unfold days_in.
  destruct (Z.eqb_spec m 2) as [->|]; to_prop.
  - change (2 <? 2) with false in *. cbv iota in *.
    match goal with H : (d <=? 28) || _ = true |- _ => apply orb_true_iff in H as [H|H]; to_prop end.
    + split; [lia|]. split; [lia|]. destruct (is_leap y); lia.
    + split; [lia|]. rewrite Hl by done. split; lia.
  - split; [lia|]. split; [lia|]. done.
Qed.

Lemma days_in_period y e m : days_in (y + 400 * e) m = days_in y m.
Proof.
  unfold days_in. replace (is_leap (y + 400 * e)) with (is_leap y); [done|]. unfold is_leap.
  replace ((y + 400 * e) mod 4) with (y mod 4) by lia.
  replace ((y + 400 * e) mod 100) with (y mod 100) by lia.
  by replace ((y + 400 * e) mod 400) with (y mod 400) by lia.
Qed.

Lemma civil_spec day : let '(y, m, d) := civil day in
  day_of y m d = day /\ 1 <= m <= 12 /\ 1 <= d <= days_in y m /\
  400 * (day / 146097) <= y <= 400 * (day / 146097) + 400.
Proof.
  unfold civil. pose proof (era_year_spec (day mod 146097)) as H1.
  destruct (era_year (day mod 146097)) as [yoe doy].
  destruct H1 as (Hy & Hd & Hdoe & Hl); [lia|].
  pose proof (month_day_spec (yoe + 1) doy Hd Hl) as H2.
  assert (Hjan : ∀ m d, month_day doy = (m, d) → days_in (yoe + 1) m = days_in yoe m ∨ m = 2).
  { intros m d _. unfold days_in. destruct (Z.eqb_spec m 2); tauto. }
  destruct (month_day doy) as [m d]. destruct H2 as (Hdd & Hm & Hdm).
  set (e := day / 146097). set (j := if m <=? 2 then 1 else 0).
  assert (Hj : j = 1 /\ m <= 2 \/ j = 0 /\ 2 < m) by (subst j; destruct (Z.leb_spec m 2); lia).
  split; [|split; [done|split]].
  - unfold day_of.
    replace (if m <=? 2 then yoe + 400 * e + j - 1 else yoe + 400 * e + j) with (yoe + e * 400)
      by (subst j; case_match; lia).
    rewrite Z.div_add, Z.mod_add, (Z.div_small yoe), (Z.mod_small yoe) by lia.
    pose proof (Z.div_mod day 146097). subst e. lia.
  - replace (yoe + 400 * e + j) with (yoe + j + 400 * e) by lia. rewrite days_in_period.
    destruct Hj as [[-> ?]|[-> ?]]; [done|]. rewrite Z.add_0_r.
    destruct (Hjan m d eq_refl) as [<-| ->]; [done|lia].
  - lia.
Qed.

(** ** RFC 3339 *)

Class Zone := zone_minutes : Time → Z.

Definition utc : Zone := λ _, 0.

Definition secs_per_day : Z := 86400.
(** January 1 of the year 1, counted from March 1 of the year 0. *)
Definition day_zero : Z := 306.

Definition digit (k : Z) : ascii := Ascii.ascii_of_N (Z.to_N (48 + k)).
Definition pad2 (n : Z) : string := String (digit (n / 10)) (String (digit (n mod 10)) "").
Definition pad4 (n : Z) : string := pad2 (n / 100) +:+ pad2 (n mod 100).

(** At most [k] decimals of [n / 10^k], without trailing zeros. *)
Fixpoint frac_digits (k : nat) (n : Z) : string :=
  match k with
  | O => ""
  | S k =>
      if n =? 0 then ""
      else let p := 10 ^ Z.of_nat k in String (digit (n / p)) (frac_digits k (n mod p))
  end.

(** The minutes east of UTC at which [t] is printed. *)
Definition offset `{Zone} (t : Time) : Z := if IsZero t then 0 else zone_minutes t.

Definition format_offset (off : Z) : string :=
  if off =? 0 then "Z"
  else (if off <? 0 then "-" else "+") +:+ pad2 (Z.abs off / 60) +:+ ":" +:+ pad2 (Z.abs off mod 60).

(** The text between the quotes; [None]: the year does not have four digits or
    the offset is a day or more. *)
Definition MarshalTime `{Zone} (t : Time) : option string :=
  let off := offset t in
  let local := t + off * 60 * Second in
  let secs := local / Second in
  let '(y, m, d) := civil (secs / secs_per_day + day_zero) in
  let tod := secs mod secs_per_day in
  let nsec := local mod Second in
  if (y <? 0) || (9999 <? y) || (1440 <=? Z.abs off) then None
  else Some (pad4 y +:+ "-" +:+ pad2 m +:+ "-" +:+ pad2 d +:+ "T" +:+
    pad2 (tod / 3600) +:+ ":" +:+ pad2 (tod / 60 mod 60) +:+ ":" +:+ pad2 (tod mod 60) +:+
    (if nsec =? 0 then "" else "." +:+ frac_digits 9 nsec) +:+ format_offset off).

Definition two (s : string) (lo hi : Z) : option (Z * string) :=
  match s with
  | String a (String b s) =>
      x ← digit_of a; y ← digit_of b;
      if (lo <=? 10 * x + y) && (10 * x + y <=? hi) then Some (10 * x + y, s) else None
  | _ => None
  end.

Definition char (c : ascii) (s : string) : option string :=
  match s with
  | String c' s' => if Ascii.eqb c c' then Some s' else None
  | "" => None
  end.

Fixpoint read_frac (k : nat) (s : string) : Z * string :=
  match s with
  | "" => (0, "")
  | String c s' =>
      match digit_of c with
      | None => (0, s)
      | Some d =>
          match k with
          | O => let '(_, r) := read_frac O s' in (0, r)
          | S k' => let '(v, r) := read_frac k' s' in (d * 10 ^ Z.of_nat k' + v, r)
          end
      end
  end.

Definition read_offset (s : string) : option (Z * string) :=
  match s with
  | String c s' =>
      if Ascii.eqb c "Z" then Some (0, s')
      else if Ascii.eqb c "+" || Ascii.eqb c "-" then
        '(h, s) ← two s' 0 23; s ← char ":" s; '(m, s) ← two s 0 59;
        Some ((if Ascii.eqb c "-" then -1 else 1) * (60 * h + m), s)
      else None
  | "" => None
  end.

(** An optional fraction of a second, in nanoseconds. *)
Definition fraction (s : string) : Z * string :=
  match char "." s with
  | Some (String c r) =>
      match digit_of c with Some _ => read_frac 9 (String c r) | None => (0, s) end
  | _ => (0, s)
  end.

(** [parseRFC3339], the parser of the texts [MarshalTime] prints.  (For other
    texts Go falls back to its layout parser, which accepts some more.) *)
Definition UnmarshalTime (s : string) : option Time :=
  '(y1, s) ← two s 0 99; '(y2, s) ← two s 0 99; s ← char "-" s;
  '(m, s) ← two s 1 12; s ← char "-" s;
  '(d, s) ← two s 1 (days_in (100 * y1 + y2) m); s ← char "T" s;
  '(h, s) ← two s 0 23; s ← char ":" s;
  '(mi, s) ← two s 0 59; s ← char ":" s;
  '(sec, s) ← two s 0 59;
  let '(nsec, s) := fraction s in
  '(off, s) ← read_offset s;
  match s with
  | "" =>
      Some (((day_of (100 * y1 + y2) m d - day_zero) * secs_per_day
             + h * 3600 + mi * 60 + sec - off * 60) * Second + nsec)
  | _ => None
  end.

Example time0 : MarshalTime (H:=utc) zeroTime = Some "0001-01-01T00:00:00Z".
Proof. vm_compute. reflexivity. Qed.
(** 2024-02-29 12:34:56.78 UTC, printed two hours east. *)
Example time1 : let t := (63844806896 * Second + 780000000) in
  MarshalTime (H:=λ _, 120) t = Some "2024-02-29T14:34:56.78+02:00" /\
  UnmarshalTime "2024-02-29T14:34:56.78+02:00" = Some t.
Proof. vm_compute. done. Qed.

(** ** Round trip *)

Lemma digit_of_digit k : 0 <= k < 10 → digit_of (digit k) = Some k.
Proof.
  intros H. assert (k = 0 ∨ k = 1 ∨ k = 2 ∨ k = 3 ∨ k = 4 ∨ k = 5 ∨ k = 6 ∨ k = 7 ∨ k = 8 ∨ k = 9)
    as H' by lia.
  by destruct H' as [->|[->|[->|[->|[->|[->|[->|[->|[->| ->]]]]]]]]].
Qed.

Lemma two_pad2 n s lo hi : 0 <= n < 100 → lo <= n <= hi → two (pad2 n +:+ s) lo hi = Some (n, s).
Proof.
  intros Hn Hr. unfold two, pad2. cbn [String.append]. rewrite !digit_of_digit by lia. simpl.
  replace (10 * (n / 10) + n mod 10) with n by lia.
  destruct (Z.leb_spec lo n); [|lia]. destruct (Z.leb_spec n hi); [done|lia].
Qed.

Lemma char_eq c s : char c (String c s) = Some s.
Proof. simpl. by rewrite Ascii.eqb_refl. Qed.

Definition no_digit (s : string) : Prop :=
  match s with String c _ => digit_of c = None | "" => True end.

Lemma read_frac_zero k s : no_digit s → read_frac k s = (0, s).
Proof. destruct s as [|c s]; simpl; [done|]. by intros ->. Qed.

Lemma read_frac_digits k n s : 0 <= n < 10 ^ Z.of_nat k → no_digit s →
  read_frac k (frac_digits k n +:+ s) = (n, s).
Proof.
  revert n. induction k as [|k IH]; intros n Hn Hs.
  { simpl in Hn. replace n with 0 by lia. by apply read_frac_zero. }
  cbn [frac_digits]. destruct (Z.eqb_spec n 0) as [->|]; [by apply read_frac_zero|].
  assert (Hp : 0 < 10 ^ Z.of_nat k) by (apply Z.pow_pos_nonneg; lia).
  rewrite Nat2Z.inj_succ, Z.pow_succ_r in Hn by lia.
  pose proof (Z.div_mod n (10 ^ Z.of_nat k)). pose proof (Z.mod_pos_bound n (10 ^ Z.of_nat k) Hp).
  assert (0 <= n / 10 ^ Z.of_nat k < 10) by (split; [apply Z.div_pos; lia|apply Z.div_lt_upper_bound; lia]).
  cbn [String.append read_frac]. rewrite digit_of_digit by done.
  rewrite IH by done. f_equal. lia.
Qed.

Lemma read_offset_format off : Z.abs off < 1440 → read_offset (format_offset off) = Some (off, "").
Proof.
  intros H. unfold format_offset. destruct (Z.eqb_spec off 0) as [->|Hne]; [done|].
  assert (Hc : ∀ c, (c = "+"%char ∨ c = "-"%char) →
    read_offset (String c (pad2 (Z.abs off / 60) +:+ ":" +:+ pad2 (Z.abs off mod 60))) =
      Some ((if Ascii.eqb c "-" then -1 else 1) * Z.abs off, "")).
  { intros c Hc. unfold read_offset.
    assert (Ascii.eqb c "Z" = false ∧ (Ascii.eqb c "+" || Ascii.eqb c "-") = true) as [-> ->]
      by (by destruct Hc as [->| ->]).
    rewrite two_pad2 by lia. cbn [mbind option_bind String.append]. rewrite char_eq.
    cbn [mbind option_bind].
    replace (pad2 (Z.abs off mod 60)) with (pad2 (Z.abs off mod 60) +:+ "") by (by rewrite str_app_nil).
    rewrite two_pad2 by lia. cbn [mbind option_bind]. by replace (60 * (Z.abs off / 60) + Z.abs off mod 60) with (Z.abs off) by lia. }
  destruct (Z.ltb_spec off 0); cbn [String.append]; rewrite Hc by tauto; f_equal; f_equal;
    simpl Ascii.eqb; cbv iota; lia.
Qed.

Lemma no_digit_offset off : no_digit (format_offset off).
Proof. unfold format_offset. destruct (off =? 0); [done|]. by destruct (off <? 0). Qed.

(** What follows the seconds. *)
Lemma fraction_print nsec off : 0 <= nsec < Second →
  fraction ((if nsec =? 0 then "" else "." +:+ frac_digits 9 nsec) +:+ format_offset off)
    = (nsec, format_offset off).
Proof.
  intros Hn. unfold fraction. destruct (Z.eqb_spec nsec 0) as [->|Hne].
  - cbn [String.append]. unfold format_offset. destruct (off =? 0); [done|]. by destruct (off <? 0).
  - cbn [String.append]. rewrite char_eq.
    pose proof (read_frac_digits 9 nsec (format_offset off) Hn (no_digit_offset off)) as HR.
    assert (∃ c r, frac_digits 9 nsec +:+ format_offset off = String c r ∧ is_Some (digit_of c)) as
      (c & r & Hc & [v Hv]).
    { cbn [frac_digits]. destruct (Z.eqb_spec nsec 0); [done|]. cbn [String.append].
      eexists _, _. split; [done|]. rewrite digit_of_digit; [done|].
      change (10 ^ Z.of_nat 8) with 100000000. unfold Second in Hn. lia. }
    rewrite Hc in *. by rewrite Hv.
Qed.

(** Reading what was printed gives the instant back, in any zone of whole
    minutes. *)
Lemma UnmarshalTime_MarshalTime `{Zone} t s : MarshalTime t = Some s → UnmarshalTime s = Some t.
Proof.
  unfold MarshalTime. cbv zeta. set (off := offset t).
  set (local := t + off * 60 * Second). set (secs := local / Second).
  pose proof (civil_spec (secs / secs_per_day + day_zero)) as HC.
  destruct (civil _) as [[y m] d]. destruct HC as (Hday & Hm & Hd & _).
  destruct (_ || _) eqn:Hc; [done|]. to_prop. intros HS%(inj Some). subst s.
  assert (Hd31 : days_in y m <= 31) by (unfold days_in; repeat case_match; lia).
  unfold UnmarshalTime, pad4. rewrite !str_app_assoc.
  set (tod := secs mod secs_per_day). unfold secs_per_day in *.
  assert (Htod : 0 <= tod < 86400) by (subst tod; lia).
  rewrite !two_pad2 by lia. cbn [mbind option_bind]. rewrite two_pad2 by lia.
  cbn [mbind option_bind String.append]. rewrite char_eq. cbn [mbind option_bind].
  rewrite two_pad2 by lia. cbn [mbind option_bind String.append]. rewrite char_eq. cbn [mbind option_bind].
  replace (100 * (y / 100) + y mod 100) with y by lia.
  rewrite two_pad2 by lia. cbn [mbind option_bind String.append]. rewrite char_eq. cbn [mbind option_bind].
  rewrite two_pad2 by lia. cbn [mbind option_bind String.append]. rewrite char_eq. cbn [mbind option_bind].
  rewrite two_pad2 by lia. cbn [mbind option_bind String.append]. rewrite char_eq. cbn [mbind option_bind].
  rewrite two_pad2 by lia. cbn [mbind option_bind].
  rewrite fraction_print by (unfold Second; lia).
  rewrite read_offset_format by lia. cbn [mbind option_bind]. f_equal. rewrite Hday.
  assert (Hs : local = secs * Second + local mod Second) by (subst secs; unfold Second; lia).
  assert (Ht : secs = (secs / 86400) * 86400 + tod) by (subst tod; lia).
  unfold local in Hs at 1. clearbody tod. unfold Second in *. lia.
Qed.
