(* ===== verification/Fairshare.v ===== *)
(** * pkg/scheduler/queue.go: FairshareCalculator

    Usage per user in float64, the penalty added to a job's priority, and the
    periodic decay.  The theorem: with non-negative units and decay factors no
    user's usage turns negative or NaN, so the penalty never favours a user
    (until the quotient leaves the range of [int]). *)

From S2P Require Import Prelude GoStd.
#[local] Open Scope string_scope.
#[local] Open Scope Z_scope.

Module FairshareCalculator.
Record t := mk { UserUsage : gmap string float64.t }.
End FairshareCalculator.
Abbreviation FairshareCalculator := FairshareCalculator.t.
Import FairshareCalculator (UserUsage).

#[export] Instance eta_FairshareCalculator : Eta FairshareCalculator := λ fc,
  FairshareCalculator.mk (UserUsage fc).

Definition NewFairshareCalculator : FairshareCalculator := FairshareCalculator.mk ∅.

Definition RecordUsage (user : string) (units : float64.t) (fc : FairshareCalculator) :
    FairshareCalculator :=
  fc <| UserUsage ::= λ u, <[user := float64.add (default float64.zero (u !! user)) units]> u |>.

Definition CalculatePenalty `{GoArch} (user : string) (fc : FairshareCalculator) : Z :=
  match UserUsage fc !! user with
  | None => 0
  | Some usage => int_of_float (float64.div usage (float64.of_Z 100))
  end.

Definition DecayUsage (factor : float64.t) (fc : FairshareCalculator) : FairshareCalculator :=
  fc <| UserUsage ::= fmap (λ x, float64.mul x factor) |>.

(** ** Signs of float64 operations *)

(** Not negative, and not NaN. *)
Definition nonneg (x : float64.t) : Prop :=
  match x with
  | S754_zero _ => True
  | S754_finite s _ _ => s = false
  | S754_infinity s => s = false
  | S754_nan => False
  end.

(** Finite and not negative. *)
Definition finite_nonneg (x : float64.t) : Prop :=
  match x with
  | S754_zero _ => True
  | S754_finite s _ _ => s = false
  | _ => False
  end.

Definition shr_nonneg (r : shr_record) : Prop := 0 <= shr_m r.

Lemma shr_1_nonneg r : shr_nonneg r → shr_nonneg (shr_1 r).
Proof. destruct r as [[|[p|p|]|[p|p|]] [] []]; unfold shr_nonneg; simpl; lia. Qed.

Lemma shr_iter_nonneg p r : shr_nonneg r → shr_nonneg (SpecFloat.iter_pos shr_1 p r).
Proof.
  revert r. induction p as [p IH|p IH|]; intros r Hr; simpl;
    [apply IH, IH, shr_1_nonneg, Hr|apply IH, IH, Hr|by apply shr_1_nonneg].
Qed.

Lemma shr_fexp_nonneg m e l : 0 <= m → shr_nonneg (shr_fexp float64.prec float64.emax m e l).1.
Proof.
  intros Hm. unfold shr_fexp, shr.
  assert (H0 : shr_nonneg (shr_record_of_loc m l)) by (unfold shr_nonneg; by destruct l as [|[]]).
  destruct (_ - _); [done| |done]. by apply shr_iter_nonneg.
Qed.

Lemma round_nearest_even_nonneg m l : 0 <= m → 0 <= round_nearest_even m l.
Proof. intros. unfold round_nearest_even. destruct l as [|[]]; try lia. destruct (Z.even m); lia. Qed.

Lemma round_aux_nonneg m e l : 0 <= m →
  nonneg (binary_round_aux float64.prec float64.emax false m e l).
Proof.
  intros Hm. unfold binary_round_aux.
  pose proof (shr_fexp_nonneg m e l Hm) as H1.
  destruct (shr_fexp _ _ m e l) as [r1 e1]. simpl in H1.
  pose proof (shr_fexp_nonneg _ e1 loc_Exact (round_nearest_even_nonneg _ (loc_of_shr_record r1) H1)) as H2.
  destruct (shr_fexp _ _ _ e1 loc_Exact) as [r2 e2]. simpl in H2. unfold shr_nonneg in H2.
  destruct (shr_m r2); simpl; [done| |lia]. by destruct (_ <=? _).
Qed.

Lemma round_nonneg m e : nonneg (binary_round float64.prec float64.emax false m e).
Proof.
  unfold binary_round. destruct (shl_align _ _ _) as [m' e']. by apply round_aux_nonneg.
Qed.

Lemma normalize_nonneg z e : 0 <= z → nonneg (binary_normalize float64.prec float64.emax z e false).
Proof. intros Hz. destruct z as [|p|p]; simpl; [done|apply round_nonneg|lia]. Qed.

Lemma add_nonneg x y : nonneg x → nonneg y → nonneg (float64.add x y).
Proof.
  destruct x as [[]|[]| |[] mx ex], y as [[]|[]| |[] my ey]; simpl; try done; intros _ _.
  apply round_nonneg.
Qed.

Lemma mul_nonneg x y : nonneg x → finite_nonneg y → (∀ s, y ≠ S754_zero s) →
  nonneg (float64.mul x y).
Proof.
  destruct x as [[]|[]| |[] mx ex], y as [[]|[]| |[] my ey]; simpl; try done;
    intros _ _ Hz; try (by destruct (Hz true)); try (by destruct (Hz false)).
  by apply round_aux_nonneg.
Qed.

Lemma of_Z_nonneg z : 0 <= z → nonneg (float64.of_Z z).
Proof. apply normalize_nonneg. Qed.

Lemma div_core_nonneg m1 e1 m2 e2 : 0 < m1 → 0 < m2 →
  0 <= (SFdiv_core_binary float64.prec float64.emax m1 e1 m2 e2).1.1.
Proof.
  intros H1 H2. unfold SFdiv_core_binary. cbv zeta.
  match goal with |- context [Z.div_eucl ?a m2] => set (a' := a) end.
  assert (Ha : 0 <= a').
  { subst a'. destruct (_ - _); [lia| |lia]. apply Z.shiftl_nonneg. lia. }
  pose proof (Z_div_mod a' m2) as HD. destruct (Z.div_eucl a' m2) as [q r]. simpl.
  destruct HD; [lia|]. nia.
Qed.

Lemma div_nonneg x y : nonneg x → finite_nonneg y → (∀ s, y ≠ S754_zero s) →
  nonneg (float64.div x y).
Proof.
  destruct x as [[]|[]| |[] mx ex], y as [[]|[]| |[] my ey]; simpl; try done;
    intros _ _ Hz; try (by destruct (Hz true)); try (by destruct (Hz false)).
  pose proof (div_core_nonneg (Zpos mx) ex (Zpos my) ey) as HD.
  destruct (SFdiv_core_binary _ _ _ _ _ _) as [[m e] l]. apply round_aux_nonneg. apply HD; lia.
Qed.

Lemma trunc_nonneg x z : nonneg x → float64.trunc x = Some z → 0 <= z.
Proof.
  destruct x as [|[]| |[] m e]; simpl; try done; intros _ Hz; simplify_eq; [done|].
  destruct (Z.leb_spec 0 e); [apply Z.mul_nonneg_nonneg; lia|].
  apply Z.div_pos; [lia|apply Z.pow_pos_nonneg; lia].
Qed.

(** ** The invariant *)

Definition usage_ok (fc : FairshareCalculator) : Prop := map_Forall (λ _, nonneg) (UserUsage fc).

(** What the server does to the calculator, with the units and factors it uses. *)
Inductive fairshare_step : FairshareCalculator → FairshareCalculator → Prop :=
  | step_record user units fc : nonneg units → fairshare_step fc (RecordUsage user units fc)
  | step_decay factor fc : finite_nonneg factor → (∀ s, factor ≠ S754_zero s) →
      fairshare_step fc (DecayUsage factor fc).

Lemma usage_ok_step fc fc' : fairshare_step fc fc' → usage_ok fc → usage_ok fc'.
Proof.
  intros [user units fc0 Hu|factor fc0 Hf Hz] H; unfold usage_ok in *; simpl.
  - apply map_Forall_insert_2; [|done]. apply add_nonneg; [|done].
    destruct (_ !! user) eqn:E; [by eapply H|done].
  - intros u x. rewrite lookup_fmap. intros (y & Hy & ->)%fmap_Some.
    apply mul_nonneg; [by eapply H|done..].
Qed.

Lemma usage_ok_reachable fc : rtc fairshare_step NewFairshareCalculator fc → usage_ok fc.
Proof.
  intros H. assert (usage_ok NewFairshareCalculator) as H0 by apply map_Forall_empty.
  revert H0. induction H; [done|]. intros. apply IHrtc. by eapply usage_ok_step.
Qed.

(** The quotient by 100 fits [int]. *)
Definition penalty_fits (user : string) (fc : FairshareCalculator) : Prop :=
  match UserUsage fc !! user with
  | None => True
  | Some x => ∃ z, float64.trunc (float64.div x (float64.of_Z 100)) = Some z ∧ z < 2 ^ 63
  end.

(** In every state of the calculator that records of non-negative usage and
    decays by positive finite factors lead to, each user's usage is a
    non-negative number (no NaN), and the penalty is not negative as long as
    the quotient fits [int]; so a user is never moved ahead by past usage. *)
Theorem fairshare_penalty_nonneg `{GoArch} fc user :
  rtc fairshare_step NewFairshareCalculator fc →
  usage_ok fc ∧ (penalty_fits user fc → 0 <= CalculatePenalty user fc).
Proof.
  intros Hr. pose proof (usage_ok_reachable fc Hr) as Hok. split; [done|].
  unfold penalty_fits, CalculatePenalty. destruct (UserUsage fc !! user) as [x|] eqn:E; [|done].
  intros (z & Hz & Hlt). unfold int_of_float. rewrite Hz.
  assert (0 <= z).
  { eapply trunc_nonneg; [|done]. apply div_nonneg; [by eapply Hok|done..]. }
  destruct (Z.leb_spec (- 2 ^ 63) z); [|lia]. destruct (Z.ltb_spec z (2 ^ 63)); [done|lia].
Qed.

Definition sample_fairshare : FairshareCalculator :=
  DecayUsage (float64.of_ratio false 95 100)
    (RecordUsage "alice" (float64.of_Z 500) NewFairshareCalculator).

Example sample_penalty : CalculatePenalty (H:=amd64) "alice" sample_fairshare = 4.
Proof. vm_compute. reflexivity. Qed.

Lemma sample_fairshare_reachable : rtc fairshare_step NewFairshareCalculator sample_fairshare.
Proof.
  eapply rtc_l; [by apply (step_record "alice" (float64.of_Z 500))|].
  eapply rtc_l; [|apply rtc_refl]. by apply (step_decay (float64.of_ratio false 95 100)).
Qed.

Lemma fairshare_penalty_nonneg_witness : 0 <= CalculatePenalty (H:=amd64) "alice" sample_fairshare.
Proof.
  apply (fairshare_penalty_nonneg (H:=amd64) sample_fairshare "alice" sample_fairshare_reachable).
  unfold penalty_fits. exists 4. vm_compute. done.
Defined.
