(* ===== verification/CircuitBreaker.v ===== *)
(** * internal/daemon/master.go: circuitBreaker

    A node is blocked for five minutes once three different jobs in a row fail
    on it for an infrastructure reason.  Reading a Go map at an absent key gives
    the zero value. *)

From S2P Require Import Prelude GoStd.
#[local] Open Scope string_scope.
#[local] Open Scope list_scope.
#[local] Open Scope Z_scope.

Module circuitBreaker.
Record t := mk {
  failures : gmap string Z;
  blocked : gmap string Time;
  lastFailedJob : gmap string string
}.
End circuitBreaker.
Abbreviation circuitBreaker := circuitBreaker.t.
Import circuitBreaker (failures, blocked, lastFailedJob).

#[export] Instance eta_circuitBreaker : Eta circuitBreaker := λ cb,
  circuitBreaker.mk (failures cb) (blocked cb) (lastFailedJob cb).

Definition newCircuitBreaker : circuitBreaker := circuitBreaker.mk ∅ ∅ ∅.

Definition RecordFailure (now : Time) (node jobID : string) (cb : circuitBreaker) : circuitBreaker :=
  if String.eqb (default "" (lastFailedJob cb !! node)) jobID then cb
  else
    let cb := cb <| lastFailedJob ::= <[node := jobID]> |> in
    let cb := cb <| failures ::= λ f, <[node := default 0 (f !! node) +ᵢ 1]> f |> in
    if 3 <=? default 0 (failures cb !! node)
    then cb <| blocked ::= <[node := Add now (5 * Minute)]> |>
    else cb.

Definition RecordSuccess (node : string) (cb : circuitBreaker) : circuitBreaker :=
  cb <| failures ::= delete node |> <| blocked ::= delete node |>
     <| lastFailedJob ::= delete node |>.

(** The answer, and the breaker after an expired block is dropped. *)
Definition IsBlocked (now : Time) (node : string) (cb : circuitBreaker) : bool * circuitBreaker :=
  match blocked cb !! node with
  | None => (false, cb)
  | Some until =>
      if After now until
      then (false, cb <| blocked ::= delete node |> <| failures ::= delete node |>
                      <| lastFailedJob ::= delete node |>)
      else (true, cb)
  end.

(** ** What one node's entry goes through *)

Inductive event := EFailure (now : Time) (jobID : string) | ESuccess | ECheck (now : Time).

Definition event_step (node : string) (e : event) (cb : circuitBreaker) : circuitBreaker :=
  match e with
  | EFailure now jobID => RecordFailure now node jobID cb
  | ESuccess => RecordSuccess node cb
  | ECheck now => (IsBlocked now node cb).2
  end.

(** The specification: the jobs that failed in a row, latest first and each
    counted once in succession, and the end of the block. *)
Record node_state := NodeState { streak : list string; until : option Time }.

Definition spec_step (e : event) (s : node_state) : node_state :=
  match e with
  | ESuccess => NodeState [] None
  | ECheck now =>
      match until s with
      | Some t => if After now t then NodeState [] None else s
      | None => s
      end
  | EFailure now jobID =>
      if String.eqb (default "" (head (streak s))) jobID then s
      else
        let l := jobID :: streak s in
        NodeState l (if (3 <=? Z.of_nat (length l)) then Some (Add now (5 * Minute)) else until s)
  end.

(** The maps hold the specification's state of [node]. *)
Definition rel (node : string) (s : node_state) (cb : circuitBreaker) : Prop :=
  failures cb !! node = (if streak s is [] then None else Some (Z.of_nat (length (streak s)))) ∧
  lastFailedJob cb !! node = head (streak s) ∧ blocked cb !! node = until s.

(** No map entry changes but [node]'s. *)
Definition others (node : string) (cb cb' : circuitBreaker) : Prop := ∀ n, n ≠ node →
  failures cb' !! n = failures cb !! n ∧ blocked cb' !! n = blocked cb !! n ∧
  lastFailedJob cb' !! n = lastFailedJob cb !! n.

Lemma failures_read node s cb : rel node s cb →
  default 0 (failures cb !! node) = Z.of_nat (length (streak s)).
Proof. intros [-> _]. by destruct (streak s). Qed.

Lemma rel_step node e s cb : rel node s cb → Z.of_nat (length (streak s)) < 2 ^ 62 →
  rel node (spec_step e s) (event_step node e cb) ∧ others node cb (event_step node e cb).
Proof.
  intros HR Hlen. pose proof HR as (Hf & Hl & Hb). destruct e as [now jobID| |now]; simpl.
  - unfold RecordFailure. rewrite Hl. destruct (String.eqb _ jobID); [by split|]. cbv zeta.
    assert (E : default 0 (failures cb !! node) +ᵢ 1 = Z.of_nat (length (jobID :: streak s))).
    { rewrite (failures_read node s) by done. rewrite int_add_small by (unfold in_int64; simpl; lia).
      simpl. lia. }
    change (failures (cb <| lastFailedJob ::= <[node := jobID]> |>)) with (failures cb).
    simpl. rewrite lookup_insert_eq. simpl. rewrite E.
    destruct (3 <=? _); split; try (split; simpl; rewrite ?lookup_insert_eq; done);
      intros n Hn; simpl; by rewrite ?lookup_insert_ne by done.
  - unfold RecordSuccess. split; [by split; simpl; rewrite ?lookup_delete_eq|].
    intros n Hn; simpl; by rewrite !lookup_delete_ne by done.
  - unfold IsBlocked. rewrite Hb. destruct (until s) as [t|]; [|done]. destruct (After now t); [|done].
    split; [by split; simpl; rewrite ?lookup_delete_eq|].
    intros n Hn; simpl; by rewrite !lookup_delete_ne by done.
Qed.

(** ** Histories over all nodes *)

Definition breaker_run (es : list (string * event)) (cb : circuitBreaker) : circuitBreaker :=
  fold_left (λ cb '(n, e), event_step n e cb) es cb.

Definition node_run (node : string) (es : list (string * event)) (s : node_state) : node_state :=
  fold_left (λ s '(n, e), if String.eqb n node then spec_step e s else s) es s.

Definition spec_blocked (now : Time) (s : node_state) : bool :=
  match until s with Some t => negb (After now t) | None => false end.

Lemma rel_others node n e s cb : n ≠ node → rel node s cb → rel node s (event_step n e cb).
Proof.
  intros Hn (Hf & Hl & Hb). destruct e as [now jobID| |now]; simpl.
  - unfold RecordFailure. destruct (String.eqb _ _); [done|]. cbv zeta.
    destruct (3 <=? _); (split; [|split]); simpl; by rewrite ?lookup_insert_ne by done.
  - unfold RecordSuccess. (split; [|split]); simpl; by rewrite ?lookup_delete_ne by done.
  - unfold IsBlocked. destruct (blocked cb !! n) as [t|]; [|done]. destruct (After now t); [|done].
    (split; [|split]); simpl; by rewrite ?lookup_delete_ne by done.
Qed.

Lemma streak_step e s : (length (streak (spec_step e s)) ≤ S (length (streak s)))%nat.
Proof. destruct e; simpl; repeat case_match; simpl; lia. Qed.

(** Only a streak of three blocks a node. *)
Definition blocked_by_three (s : node_state) : Prop :=
  is_Some (until s) → (3 ≤ length (streak s))%nat.

Lemma no_block : blocked_by_three (NodeState [] None).
Proof. intros [t H]. discriminate H. Qed.

Lemma blocked_by_three_step e s : blocked_by_three s → blocked_by_three (spec_step e s).
Proof.
  intros H. destruct e as [now jobID| |now]; simpl; [|exact no_block|].
  - destruct (String.eqb _ _); [done|]. unfold blocked_by_three. simpl.
    destruct (Z.leb_spec 3 (Z.of_nat (S (length (streak s))))); [lia|].
    intros Hs%H. lia.
  - destruct (until s) as [t|]; [|done]. destruct (After now t); [exact no_block|done].
Qed.

Lemma breaker_run_rel node es s cb : rel node s cb → blocked_by_three s →
  Z.of_nat (length (streak s)) + Z.of_nat (length es) < 2 ^ 62 →
  rel node (node_run node es s) (breaker_run es cb) ∧ blocked_by_three (node_run node es s).
Proof.
  revert s cb. induction es as [|[n e] es IH]; intros s cb HR H3 Hlen; simpl; [done|].
  simpl in Hlen. destruct (String.eqb_spec n node) as [->|Hne].
  - pose proof (streak_step e s). apply IH; [apply rel_step; [done|lia]|by apply blocked_by_three_step|lia].
  - apply IH; [by apply rel_others|done|lia].
Qed.

(** After any history of failures, successes and checks on any nodes, the
    breaker answers for each node what the specification of that node's own
    history answers: blocked until five minutes after the latest failure that
    made the streak three or longer; a streak counts failures since the last
    success or expiry, repeated failures of one job once. *)
Theorem breaker_blocks_after_three es node now : Z.of_nat (length es) < 2 ^ 62 →
  let s := node_run node es (NodeState [] None) in
  (IsBlocked now node (breaker_run es newCircuitBreaker)).1 = spec_blocked now s ∧
  (spec_blocked now s = true → (3 ≤ length (streak s))%nat).
Proof.
  intros Hlen s.
  destruct (breaker_run_rel node es (NodeState [] None) newCircuitBreaker) as [(_ & _ & Hb) H3].
  { done. } { exact no_block. } { simpl. lia. }
  fold s in Hb, H3. unfold spec_blocked, IsBlocked. rewrite Hb. unfold blocked_by_three in H3.
  destruct (until s) as [t|]; [|done]. destruct (After now t); simpl; split; try done.
  intros _. by apply H3.
Qed.

Definition sample_events : list (string * event) :=
  [("w1", EFailure 0 "a"); ("w1", EFailure 1 "a"); ("w2", EFailure 1 "a"); ("w1", EFailure 2 "b");
   ("w1", EFailure 3 "c"); ("w2", ECheck 4)].

Lemma breaker_blocks_after_three_witness :
  (IsBlocked 10 "w1" (breaker_run sample_events newCircuitBreaker)).1 = true ∧
  (IsBlocked (4 + 5 * Minute) "w1" (breaker_run sample_events newCircuitBreaker)).1 = false.
Proof.
  split.
  - rewrite (proj1 (breaker_blocks_after_three sample_events "w1" 10 ltac:(done))). reflexivity.
  - rewrite (proj1 (breaker_blocks_after_three sample_events "w1" (4 + 5 * Minute) ltac:(done))). reflexivity.
Defined.
