(* ===== verification/Tracker.v ===== *)
(** * internal/daemon/master.go: gpuTracker

    GPUs, CPUs and memory in use per node.  As long as every release matches a
    reservation that is still held, the counters are the sums of the held
    reservations; a second release of one reservation gives away what another
    job holds. *)

From S2P Require Import Prelude GoStd.
#[local] Open Scope string_scope.
#[local] Open Scope list_scope.
#[local] Open Scope Z_scope.

Module gpuTracker.
Record t := mk {
  gpusAllocated : gmap string Z;
  cpusAllocated : gmap string Z;
  memAllocated : gmap string Z
}.
End gpuTracker.
Abbreviation gpuTracker := gpuTracker.t.
Import gpuTracker (gpusAllocated, cpusAllocated, memAllocated).

#[export] Instance eta_gpuTracker : Eta gpuTracker := λ gt,
  gpuTracker.mk (gpusAllocated gt) (cpusAllocated gt) (memAllocated gt).

Definition newGPUTracker : gpuTracker := gpuTracker.mk ∅ ∅ ∅.

(** [m[node]] of an int map. *)
Definition used (m : gmap string Z) (node : string) : Z := default 0 (m !! node).

(** [m[node] += n], and [m[node] -= n] with the deletion of entries that reach 0. *)
Definition map_add (node : string) (n : Z) (m : gmap string Z) : gmap string Z :=
  <[node := used m node +ᵢ n]> m.
Definition map_release (node : string) (n : Z) (m : gmap string Z) : gmap string Z :=
  let m := <[node := used m node -ᵢ n]> m in
  if used m node <=? 0 then delete node m else m.

Definition Allocate (node : string) (gpus cpus memMB : Z) (gt : gpuTracker) : gpuTracker :=
  gt <| gpusAllocated ::= map_add node gpus |> <| cpusAllocated ::= map_add node cpus |>
     <| memAllocated ::= map_add node memMB |>.

Definition Release (node : string) (gpus cpus memMB : Z) (gt : gpuTracker) : gpuTracker :=
  gt <| gpusAllocated ::= map_release node gpus |> <| cpusAllocated ::= map_release node cpus |>
     <| memAllocated ::= map_release node memMB |>.

Definition AvailableGPUs (node : string) (total : Z) (gt : gpuTracker) : Z :=
  total -ᵢ used (gpusAllocated gt) node.
Definition AvailableCPUs (node : string) (total : Z) (gt : gpuTracker) : Z :=
  total -ᵢ used (cpusAllocated gt) node.
Definition AvailableMemory (node : string) (total : Z) (gt : gpuTracker) : Z :=
  total -ᵢ used (memAllocated gt) node.

(** ** One counter *)

Lemma used_add m node n node' : in_int64 (used m node + n) →
  used (map_add node n m) node' = used m node' + (if decide (node' = node) then n else 0).
Proof.
  intros H. unfold map_add, used at 1. destruct (decide (node' = node)) as [->|].
  - rewrite lookup_insert_eq. simpl. by rewrite int_add_small.
  - rewrite lookup_insert_ne by done. unfold used. lia.
Qed.

(** The counter never goes below zero by a release. *)
Lemma used_release m node n node' : in_int64 (used m node - n) →
  used (map_release node n m) node' =
    if decide (node' = node) then Z.max 0 (used m node - n) else used m node'.
Proof.
  intros H. unfold map_release. rewrite int_sub_small by done. cbv zeta.
  set (v := used m node - n).
  assert (used (<[node := v]> m) node = v) as -> by (unfold used; by rewrite lookup_insert_eq).
  destruct (Z.leb_spec v 0), (decide (node' = node)) as [->|]; unfold used;
    rewrite ?lookup_delete_eq, ?lookup_delete_ne, ?lookup_insert_eq, ?lookup_insert_ne by done;
    simpl; lia.
Qed.

(** ** Reservations *)

Record reservation := Reservation { r_node : string; r_gpus : Z; r_cpus : Z; r_mem : Z }.

Definition r_ok (r : reservation) : Prop := 0 ≤ r_gpus r ∧ 0 ≤ r_cpus r ∧ 0 ≤ r_mem r.

(** What the reservations of [node] add up to. *)
Definition total (f : reservation → Z) (node : string) (held : list reservation) : Z :=
  foldr (λ r n, (if decide (r_node r = node) then f r else 0) + n) 0 held.

#[export] Instance total_proper f node : Proper ((≡ₚ) ==> eq) (total f node).
Proof. induction 1; simpl; lia. Qed.

Lemma total_nonneg f node held : (∀ r, r ∈ held → 0 ≤ f r) → 0 ≤ total f node held.
Proof.
  intros H. induction held as [|r held IH]; simpl; [done|].
  assert (0 ≤ f r) by (apply H; left). case_decide; specialize (IH (λ r Hr, H r (list_elem_of_further _ _ _ Hr))); lia.
Qed.

Inductive tracker_op := OAllocate (r : reservation) | ORelease (r : reservation).

Definition tracker_step (o : tracker_op) (gt : gpuTracker) : gpuTracker :=
  match o with
  | OAllocate r => Allocate (r_node r) (r_gpus r) (r_cpus r) (r_mem r) gt
  | ORelease r => Release (r_node r) (r_gpus r) (r_cpus r) (r_mem r) gt
  end.

(** Histories in which a release gives back a reservation that is held; the
    sums stay within [int]. *)
Inductive held_step : list reservation → tracker_op → list reservation → Prop :=
  | held_allocate r held : r_ok r →
      total r_gpus (r_node r) (r :: held) < 2 ^ 63 →
      total r_cpus (r_node r) (r :: held) < 2 ^ 63 →
      total r_mem (r_node r) (r :: held) < 2 ^ 63 →
      held_step held (OAllocate r) (r :: held)
  | held_release r held held' : held ≡ₚ r :: held' → held_step held (ORelease r) held'.

Inductive held_run : list reservation → list tracker_op → list reservation → Prop :=
  | held_nil held : held_run held [] held
  | held_cons h1 o h2 os h3 : held_step h1 o h2 → held_run h2 os h3 → held_run h1 (o :: os) h3.

Record counts (held : list reservation) (gt : gpuTracker) : Prop := {
  c_ok r : r ∈ held → r_ok r;
  c_gpus node : used (gpusAllocated gt) node = total r_gpus node held;
  c_cpus node : used (cpusAllocated gt) node = total r_cpus node held;
  c_mem node : used (memAllocated gt) node = total r_mem node held;
  c_bound node : total r_gpus node held < 2 ^ 63 ∧ total r_cpus node held < 2 ^ 63 ∧
    total r_mem node held < 2 ^ 63
}.

Lemma total_cons f node r held :
  total f node (r :: held) = (if decide (r_node r = node) then f r else 0) + total f node held.
Proof. done. Qed.

(** The two steps on one counter. *)
Lemma count_add f m r held : (∀ r', r' ∈ r :: held → 0 ≤ f r') →
  (∀ node, used m node = total f node held) → total f (r_node r) (r :: held) < 2 ^ 63 →
  ∀ node, used (map_add (r_node r) (f r) m) node = total f node (r :: held).
Proof.
  intros Hp Hm Hb node. pose proof (total_nonneg f (r_node r) (r :: held) Hp) as Hn.
  rewrite total_cons, decide_True in Hn, Hb by done.
  rewrite used_add by (unfold in_int64; rewrite Hm; lia). rewrite Hm, total_cons.
  repeat case_decide; subst; try done; lia.
Qed.

Lemma count_release f m r held : (∀ r', r' ∈ r :: held → 0 ≤ f r') →
  (∀ node, used m node = total f node (r :: held)) → total f (r_node r) (r :: held) < 2 ^ 63 →
  ∀ node, used (map_release (r_node r) (f r) m) node = total f node held.
Proof.
  intros Hp Hm Hb node.
  assert (Hn : 0 ≤ total f (r_node r) held) by (apply total_nonneg; intros; apply Hp; by right).
  assert (Hr : 0 ≤ f r) by (apply Hp; left).
  pose proof (Hm (r_node r)) as Hu. rewrite total_cons, decide_True in Hu, Hb by done.
  rewrite used_release by (unfold in_int64; lia). specialize (Hm node). rewrite total_cons in Hm.
  repeat case_decide; subst; try done; lia.
Qed.

Lemma counts_step h o h' gt : held_step h o h' → counts h gt → counts h' (tracker_step o gt).
Proof.
  intros Hs [Hok Hg Hc Hm Hb]. destruct Hs as [r held Hr B1 B2 B3|r held held' Hp]; simpl.
  - assert (Hok' : ∀ r', r' ∈ r :: held → r_ok r') by (intros r' [->|]%elem_of_cons; auto).
    split; simpl; [done|..].
    + apply count_add; [intros; by apply Hok'|done..].
    + apply count_add; [intros; by apply Hok'|done..].
    + apply count_add; [intros; by apply Hok'|done..].
    + intros node. specialize (Hb node). 
      rewrite total_cons, decide_True in B1, B2, B3 by done.
      case_decide; [subst|]; lia.
  - setoid_rewrite Hp in Hg. setoid_rewrite Hp in Hc. setoid_rewrite Hp in Hm.
    setoid_rewrite Hp in Hb. setoid_rewrite Hp in Hok.
    split; simpl; [intros; apply Hok; by right|..].
    + apply count_release; [intros; by apply Hok|done|apply Hb].
    + apply count_release; [intros; by apply Hok|done|apply Hb].
    + apply count_release; [intros; by apply Hok|done|apply Hb].
    + intros node. specialize (Hb node). rewrite !total_cons in Hb.
      assert (∀ f, (∀ r', r' ∈ r :: held' → 0 ≤ f r') → 0 ≤ (if decide (r_node r = node) then f r else 0)).
      { intros f Hf. case_decide; [apply Hf; left|done]. }
      pose proof (H r_gpus ltac:(intros; by apply Hok)).
      pose proof (H r_cpus ltac:(intros; by apply Hok)).
      pose proof (H r_mem ltac:(intros; by apply Hok)). lia.
Qed.

Lemma counts_run h os h' gt : held_run h os h' → counts h gt →
  counts h' (fold_left (λ gt o, tracker_step o gt) os gt).
Proof. intros Hr. revert gt. induction Hr; intros gt Hc; simpl; [done|]. by eapply IHHr, counts_step. Qed.

Lemma counts_new : counts [] newGPUTracker.
Proof. split; try done. by intros r ?%not_elem_of_nil. Qed.

(** C20: while every release gives back a reservation that is still held, and no
    reservation is of a negative amount and those held add up to less than 2^63 on each
    node, the free GPUs, CPUs and memory the tracker reports for a node are the node's
    totals minus what the held reservations add up to. *)
Theorem tracker_counts_reservations os held node tg tc tm :
  held_run [] os held →
  let gt := fold_left (λ gt o, tracker_step o gt) os newGPUTracker in
  0 ≤ tg < 2 ^ 63 → 0 ≤ tc < 2 ^ 63 → 0 ≤ tm < 2 ^ 63 →
  AvailableGPUs node tg gt = tg - total r_gpus node held ∧
  AvailableCPUs node tc gt = tc - total r_cpus node held ∧
  AvailableMemory node tm gt = tm - total r_mem node held.
Proof.
  intros Hr gt Hg Hc Hm. destruct (counts_run [] os held newGPUTracker Hr counts_new) as [Hok E1 E2 E3 Hb].
  fold gt in E1, E2, E3. specialize (Hb node).
  pose proof (total_nonneg r_gpus node held ltac:(intros; by apply Hok)).
  pose proof (total_nonneg r_cpus node held ltac:(intros; by apply Hok)).
  pose proof (total_nonneg r_mem node held ltac:(intros; by apply Hok)).
  unfold AvailableGPUs, AvailableCPUs, AvailableMemory. rewrite E1, E2, E3.
  split; [|split]; apply int_sub_small; unfold in_int64; lia.
Qed.

Definition res_a := Reservation "w1" 2 4 1024.
Definition res_b := Reservation "w1" 1 2 512.

Lemma tracker_counts_reservations_witness :
  AvailableGPUs "w1" 4 (fold_left (λ gt o, tracker_step o gt)
    [OAllocate res_a; OAllocate res_b; ORelease res_a] newGPUTracker) = 3.
Proof.
  assert (Hr : held_run [] [OAllocate res_a; OAllocate res_b; ORelease res_a] [res_b]).
  { apply held_cons with [res_a]; [by constructor|].
    apply held_cons with [res_b; res_a]; [by constructor|].
    apply held_cons with [res_b]; [|constructor]. apply held_release. apply Permutation_swap. }
  exact (proj1 (tracker_counts_reservations _ [res_b] "w1" 4 4 4 Hr ltac:(lia) ltac:(lia) ltac:(lia))).
Defined.

(** Releasing a reservation twice corrupts the count: the tracker then
    reports free GPUs that another job still holds (all of them, when the first
    job had as many). *)
Theorem double_release_oversubscribes held r gt n :
  counts (r :: held) gt → 0 < r_gpus r → 0 < total r_gpus (r_node r) held →
  0 ≤ n < 2 ^ 63 →
  let gt' := tracker_step (ORelease r) (tracker_step (ORelease r) gt) in
  AvailableGPUs (r_node r) n gt' =
    n - Z.max 0 (total r_gpus (r_node r) held - r_gpus r) ∧
  n - total r_gpus (r_node r) held < AvailableGPUs (r_node r) n gt'.
Proof.
  intros Hc Hr Ht Hn.
  assert (Hc1 : counts held (tracker_step (ORelease r) gt))
    by (eapply counts_step; [by apply held_release|done]).
  destruct (c_bound _ _ Hc (r_node r)) as [Hb _]. rewrite total_cons, decide_True in Hb by done.
  assert (E : AvailableGPUs (r_node r) n (tracker_step (ORelease r) (tracker_step (ORelease r) gt)) =
    n - Z.max 0 (total r_gpus (r_node r) held - r_gpus r)).
  { unfold AvailableGPUs. simpl.
    assert (Hu : used (gpusAllocated (tracker_step (ORelease r) gt)) (r_node r) =
      total r_gpus (r_node r) held) by apply (c_gpus _ _ Hc1).
    simpl in Hu. rewrite used_release by (unfold in_int64; rewrite Hu; lia).
    rewrite decide_True, Hu by done. apply int_sub_small. unfold in_int64. lia. }
  cbv zeta. split; [exact E|]. rewrite E. lia.
Qed.

Lemma double_release_oversubscribes_witness :
  AvailableGPUs "w1" 4 (tracker_step (ORelease res_a) (tracker_step (ORelease res_a)
    (tracker_step (OAllocate res_a) (tracker_step (OAllocate res_b) newGPUTracker)))) = 4.
Proof.
  assert (Hc : counts [res_a; res_b]
    (tracker_step (OAllocate res_a) (tracker_step (OAllocate res_b) newGPUTracker))).
  { eapply counts_step; [by constructor|]. eapply counts_step; [by constructor|]. exact counts_new. }
  exact (proj1 (double_release_oversubscribes [res_b] res_a _ 4 Hc ltac:(done) ltac:(done) ltac:(lia))).
Defined.
