(* ===== verification/GoRegexp.v ===== *)
(** * regexp, and the resource hints read from a requirement

    The fragment of Go's [regexp] the program uses: literals, single characters and
    greedy runs of a class, sequences, alternatives and capture groups, matched
    leftmost-first.  [parseCELRequirement] (internal/daemon/master.go) applies
    two such expressions. *)

From S2P Require Import Prelude GoStd.
#[local] Open Scope string_scope.
#[local] Open Scope list_scope.
#[local] Open Scope Z_scope.

(** ** Regular expressions *)

Inductive regexp :=
  | Lit (s : string)
  | One (p : ascii → bool)
  | Many (p : ascii → bool)
  | Some1 (p : ascii → bool)
  | Seq (a b : regexp)
  | Alt (a b : regexp)
  | Group (a : regexp).

Fixpoint strip (l s : string) : option string :=
  match l with
  | "" => Some s
  | String c l' =>
      match s with
      | String c' s' => if Ascii.eqb c c' then strip l' s' else None
      | "" => None
      end
  end.

Section Matching.
Context {X : Type}.

(** The longest run first, then shorter ones. *)
Fixpoint many (p : ascii → bool) (s : string) (k : string → option X) : option X :=
  match s with
  | String c s' =>
      if p c then match many p s' k with Some x => Some x | None => k s end else k s
  | "" => k s
  end.

Definition some1 (p : ascii → bool) (s : string) (k : string → option X) : option X :=
  match s with
  | String c s' => if p c then many p s' k else None
  | "" => None
  end.

(** [k] takes the rest of the input and the text of the group. *)
Fixpoint re_match (r : regexp) (s : string) (group : option string)
    (k : string → option string → option X) : option X :=
  match r with
  | Lit l => match strip l s with Some s' => k s' group | None => None end
  | One p => match s with String c s' => if p c then k s' group else None | "" => None end
  | Many p => many p s (λ s', k s' group)
  | Some1 p => some1 p s (λ s', k s' group)
  | Seq a b => re_match a s group (λ s' g, re_match b s' g k)
  | Alt a b => match re_match a s group k with Some x => Some x | None => re_match b s group k end
  | Group a =>
      re_match a s group (λ s' _,
        k s' (Some (String.substring 0 (String.length s - String.length s') s)))
  end.
End Matching.

(** [FindStringSubmatch]: the text of the group in the leftmost match. *)
Fixpoint FindStringSubmatch (r : regexp) (s : string) : option (option string) :=
  match re_match r s None (λ _ g, Some g) with
  | Some g => Some g
  | None => match s with String _ s' => FindStringSubmatch r s' | "" => None end
  end.

(** ** parseCELRequirement *)

Definition is_space (c : ascii) : bool :=
  Ascii.eqb c "032" || Ascii.eqb c "009" || Ascii.eqb c "010" || Ascii.eqb c "012" || Ascii.eqb c "013".
Definition is_dec (c : ascii) : bool := match digit_of c with Some _ => true | None => false end.

(** [field\s*(?:>=|==|>)\s*(\d+)] *)
Definition bound_regexp (field : string) : regexp :=
  Seq (Lit field) (Seq (Many is_space)
    (Seq (Alt (Lit ">=") (Alt (Lit "==") (Lit ">")))
      (Seq (Many is_space) (Group (Some1 is_dec))))).

Definition cpuRegex : regexp := bound_regexp "cpu_cores".
Definition memRegex : regexp := bound_regexp "total_memory_mb".

(** The number in the group, the error of Atoi ignored. *)
Definition first_bound (r : regexp) (celStr : string) : Z :=
  match FindStringSubmatch r celStr with
  | Some (Some digits) => (Atoi digits).1
  | _ => 0
  end.

Definition parseCELRequirement (celStr : string) : Z * Z :=
  (first_bound cpuRegex celStr, first_bound memRegex celStr).

Example parse_cel1 :
  parseCELRequirement "ad.cpu_cores >= 4 && ad.total_memory_mb>1024" = (4, 1024)%Z.
Proof. vm_compute. reflexivity. Qed.
Example parse_cel2 : parseCELRequirement "ad['cpu_cores'] >= 4 && ad.cpu_cores == x" = (0, 0)%Z.
Proof. vm_compute. reflexivity. Qed.

(** ** What the expressions find *)

Definition all (p : ascii → bool) (s : string) : Prop :=
  Forall (λ c, p c = true) (String.list_ascii_of_string s).

Lemma many_sound {X} p s (k : string → option X) x : many p s k = Some x →
  ∃ d s', s = d +:+ s' ∧ all p d ∧ k s' = Some x.
Proof.
  revert k. induction s as [|c s IH]; intros k; cbn [many]; intros H.
  { exists "", "". by repeat split; [constructor|]. }
  destruct (p c) eqn:Hp; [|exists "", (String c s); by repeat split; [constructor|]].
  destruct (many p s k) as [y|] eqn:E.
  - simplify_eq. destruct (IH k E) as (d & s' & -> & Hd & Hk).
    exists (String c d), s'. repeat split; [by constructor|done].
  - exists "", (String c s). by repeat split; [constructor|].
Qed.

Lemma some1_sound {X} p s (k : string → option X) x : some1 p s k = Some x →
  ∃ d s', s = d +:+ s' ∧ all p d ∧ d ≠ "" ∧ k s' = Some x.
Proof.
  destruct s as [|c s]; simpl; [done|]. destruct (p c) eqn:Hp; [|done].
  intros (d & s' & -> & Hd & Hk)%many_sound. exists (String c d), s'. by repeat split; [constructor|..].
Qed.

Lemma substring_prefix a b :
  String.substring 0 (String.length (a +:+ b) - String.length b) (a +:+ b) = a.
Proof.
  rewrite str_app_length. replace (String.length a + String.length b - String.length b)%nat
    with (String.length a) by lia.
  induction a as [|c a IH]; cbn [String.append String.length String.substring]; [by destruct b|].
  by rewrite IH.
Qed.

(** A match of [bound_regexp] captures digits. *)
Lemma bound_match_sound field s g : re_match (bound_regexp field) s None (λ _ g, Some g) = Some g →
  ∃ d, g = Some d ∧ all is_dec d ∧ d ≠ "".
Proof.
  cbn [bound_regexp re_match]. destruct (strip field s) as [s1|]; [|done].
  intros (d1 & s2 & _ & _ & H)%many_sound.
  assert (Hk : ∀ s3 g, many is_space s3 (λ s', some1 is_dec s' (λ s'0, Some (Some
      (String.substring 0 (String.length s' - String.length s'0) s')))) = Some g →
    ∃ d, g = Some d ∧ all is_dec d ∧ d ≠ "").
  { clear. intros s3 g (d1 & s4 & _ & _ & H)%many_sound.
    apply some1_sound in H as (d & s5 & -> & Hd & Hne & Hg). simplify_eq.
    rewrite substring_prefix. by exists d. }
  destruct (strip ">=" s2) as [s3|].
  - match type of H with match ?m with _ => _ end = _ => destruct m eqn:E end.
    + simplify_eq. by eapply Hk.
    + destruct (strip "==" s2) as [s4|].
      * match type of H with match ?m with _ => _ end = _ => destruct m eqn:E' end;
          [simplify_eq; by eapply Hk|].
        destruct (strip ">" s2); [by eapply Hk|done].
      * destruct (strip ">" s2); [by eapply Hk|done].
  - destruct (strip "==" s2) as [s4|].
    * match type of H with match ?m with _ => _ end = _ => destruct m eqn:E' end;
        [simplify_eq; by eapply Hk|].
      destruct (strip ">" s2); [by eapply Hk|done].
    * destruct (strip ">" s2); [by eapply Hk|done].
Qed.

Lemma digits_nonneg s acc n : 0 ≤ acc → digits acc s = Some n → 0 ≤ n.
Proof.
  revert acc. induction s as [|c s IH]; intros acc Ha; simpl; [by intros [= <-]|].
  destruct (digit_of c) as [v|] eqn:E; [|done]. intros H. eapply IH; [|exact H].
  unfold digit_of in E. case_match eqn:Hc; [|done]. to_prop. simplify_eq. lia.
Qed.

Lemma Atoi_dec_range d : all is_dec d → 0 ≤ (Atoi d).1 < 2 ^ 63.
Proof.
  intros Hd. assert (Hsign : ∀ c r, d = String c r → c ≠ "+"%char ∧ c ≠ "-"%char).
  { intros c r ->. apply Forall_cons in Hd as [Hc _]. by split; intros ->. }
  unfold Atoi.
  assert (E : (match d with String "+" s' => (false, s') | String "-" s' => (true, s')
    | _ => (false, d) end) = (false, d)).
  { destruct d as [|c r]; [done|]. destruct (Hsign c r eq_refl) as [Hp Hm].
    destruct c as [[] [] [] [] [] [] [] []]; try done; exfalso; by (apply Hp || apply Hm). }
  rewrite E. destruct d as [|c r]; [simpl; lia|].
  destruct (digits 0 (String c r)) as [n|] eqn:En; [|simpl; lia].
  apply digits_nonneg in En; [|lia]. destruct (Z.ltb_spec n (2 ^ 63)); simpl; lia.
Qed.

Lemma first_bound_range field s : 0 ≤ first_bound (bound_regexp field) s < 2 ^ 63.
Proof.
  unfold first_bound.
  destruct (FindStringSubmatch (bound_regexp field) s) as [[d|]|] eqn:E; [|lia..].
  apply Atoi_dec_range.
  revert E. induction s as [|c s IH]; cbn [FindStringSubmatch];
    destruct (re_match _ _ _ _) as [g|] eqn:EM; try done; intros; simplify_eq.
  - by apply bound_match_sound in EM as (? & [= <-] & ? & _).
  - by apply bound_match_sound in EM as (? & [= <-] & ? & _).
Qed.

(** ** What the expressions find in a requirement of the documented form *)

(** [field] does not start within [pre] when [rest] follows. *)
Fixpoint absent (field pre rest : string) : Prop :=
  match pre with
  | "" => True
  | String c p => strip field (pre +:+ rest) = None ∧ absent field p rest
  end.

Lemma strip_app l s : strip l (l +:+ s) = Some s.
Proof. induction l as [|c l IH]; simpl; [done|]. by rewrite Ascii.eqb_refl. Qed.

Definition stops (p : ascii → bool) (s : string) : Prop :=
  match s with String c _ => p c = false | "" => True end.

Lemma many_longest {X} p d s (k : string → option X) x :
  all p d → stops p s → k s = Some x → many p (d +:+ s) k = Some x.
Proof.
  intros Hd Hs Hk. induction d as [|c d IH]; cbn [String.append].
  - destruct s as [|c s]; simpl in *; [done|]. by rewrite Hs.
  - apply Forall_cons in Hd as [Hc Hd]. cbn [many]. by rewrite Hc, IH.
Qed.

Lemma find_absent r field pre rest : (∀ s, strip field s = None → re_match r s None (λ _ g, Some g) = None) →
  absent field pre rest → FindStringSubmatch r (pre +:+ rest) = FindStringSubmatch r rest.
Proof.
  intros Hr. induction pre as [|c pre IH]; cbn [absent]; [done|]. intros [Hs Ha].
  change (String c pre +:+ rest) with (String c (pre +:+ rest)) in *.
  cbn [FindStringSubmatch]. rewrite (Hr _ Hs). by apply IH.
Qed.

Lemma find_here r s g : re_match r s None (λ _ g, Some g) = Some g → FindStringSubmatch r s = Some g.
Proof. intros H. destruct s; cbn [FindStringSubmatch]; by rewrite H. Qed.

Lemma bound_found field pre n post :
  absent field pre (field +:+ " >= " +:+ Itoa n +:+ post) → 0 ≤ n < 2 ^ 63 → stops is_dec post →
  first_bound (bound_regexp field) (pre +:+ field +:+ " >= " +:+ Itoa n +:+ post) = n.
Proof.
  intros Ha Hn Hpost. unfold first_bound.
  destruct (Itoa_decimal n) as (d & [_ (c & d' & -> & Hc & _) Hall] & HI).
  destruct (Z.ltb_spec n 0); [lia|]. cbn [String.append] in HI.
  assert (Hd : all is_dec (String c d')).
  { eapply Forall_impl; [exact Hall|]. intros a [v Hv]. unfold is_dec. by rewrite Hv. }
  rewrite (find_absent _ field); [| |exact Ha].
  2: { intros s Hs. cbn [bound_regexp re_match]. by rewrite Hs. }
  rewrite (find_here _ _ (Some (Itoa n))).
  { by rewrite Atoi_Itoa by (unfold in_int64; lia). }
  cbn [bound_regexp re_match]. rewrite strip_app.
  change (" >= " +:+ Itoa n +:+ post) with (" " +:+ ">= " +:+ Itoa n +:+ post).
  apply many_longest; [by repeat constructor|done|].
  change (">= " +:+ Itoa n +:+ post) with (">=" +:+ " " +:+ Itoa n +:+ post). rewrite strip_app.
  assert (Hg : many is_space (" " +:+ Itoa n +:+ post) (λ s', some1 is_dec s' (λ s'0, Some (Some
      (String.substring 0 (String.length s' - String.length s'0) s')))) = Some (Some (Itoa n))).
  { apply many_longest; [by repeat constructor| |].
    - rewrite HI. cbn [String.append stops]. apply Forall_cons in Hd as [Hcd _].
      destruct c as [[] [] [] [] [] [] [] []]; try done; discriminate Hcd.
    - rewrite HI. apply Forall_cons in Hd as [Hcd Hd']. cbn [String.append some1]. rewrite Hcd.
      apply many_longest; [done..|].
      change (String c (d' +:+ post)) with (String c d' +:+ post). by rewrite substring_prefix. }
  by rewrite Hg.
Qed.

Lemma Itoa_absent field n pre rest : (∀ c s, field = String c s → is_dec c = false) → field ≠ "" →
  0 ≤ n → absent field pre rest → absent field (Itoa n +:+ pre) rest.
Proof.
  intros Hf Hne Hn Ha. destruct (Itoa_decimal n) as (d & [_ _ Hall] & ->).
  destruct (Z.ltb_spec n 0); [lia|]. cbn [String.append]. clear -Hf Hne Ha Hall.
  induction d as [|c d IH]; [done|]. apply Forall_cons in Hall as [[v Hc] Hall].
  cbn [String.append absent]. split; [|by apply IH].
  destruct field as [|c' field]; [done|]. specialize (Hf c' field eq_refl). cbn [strip].
  destruct (Ascii.eqb_spec c' c) as [->|]; [|done]. unfold is_dec in Hf. by rewrite Hc in Hf.
Qed.

(** C40: the resource hints of a requirement written as the documentation shows,
    [ad.cpu_cores >= c && ad.total_memory_mb >= m], are [c] and [m]; and
    whatever the requirement, the hints are never negative and fit [int]. *)
Theorem cel_hints_of_documented_form c m : 0 ≤ c < 2 ^ 63 → 0 ≤ m < 2 ^ 63 →
  parseCELRequirement ("ad.cpu_cores >= " +:+ Itoa c +:+ " && ad.total_memory_mb >= " +:+ Itoa m)
    = (c, m) ∧
  ∀ celStr, 0 ≤ (parseCELRequirement celStr).1 < 2 ^ 63 ∧ 0 ≤ (parseCELRequirement celStr).2 < 2 ^ 63.
Proof.
  intros Hc Hm. split; [|intros; split; apply first_bound_range]. unfold parseCELRequirement. f_equal.
  - apply (bound_found "cpu_cores" "ad." c (" && ad.total_memory_mb >= " +:+ Itoa m)); [|done|done].
    by repeat split.
  - pose proof (bound_found "total_memory_mb" ("ad.cpu_cores >= " +:+ Itoa c +:+ " && ad.") m "") as HB.
    rewrite !str_app_assoc, str_app_nil in HB. apply HB; [|done|done].
    change ("ad.cpu_cores >= " +:+ Itoa c +:+ " && ad.")
      with ("ad.cpu_cores >= " +:+ (Itoa c +:+ " && ad.")).
    assert (absent "total_memory_mb" (Itoa c +:+ " && ad.")
      ("total_memory_mb" +:+ " >= " +:+ Itoa m)) as HA.
    { apply Itoa_absent; [by intros ? ? [= <- _]|done|lia|]. by repeat split. }
    do 16 (split; [done|]). exact HA.
Qed.

Lemma cel_hints_of_documented_form_witness :
  parseCELRequirement ("ad.cpu_cores >= " +:+ Itoa 8 +:+ " && ad.total_memory_mb >= " +:+ Itoa 16000)
    = (8, 16000).
Proof. exact (proj1 (cel_hints_of_documented_form 8 16000 ltac:(lia) ltac:(lia))). Defined.
