(* ===== verification/Messaging.v ===== *)
(** * pkg/messaging: dispatch messages

    [DispatchPayload] and its JSON form, and the two sockets.  zmq4 is a library
    the code only calls: what its calls answer are arguments here, an error as
    its text.  The publisher is the list of the messages handed to its [Send],
    whose error every caller ignores. *)

From S2P Require Import Prelude GoStd GoJson GoJsonFacts Queue.
#[local] Open Scope string_scope.
#[local] Open Scope list_scope.

Module DispatchPayload.
Record t := mk {
  TargetNode : string;
  JobID : string;
  Command : string;
  WalltimeSeconds : Z;
  Action : string;
  EnvVars : strmap
}.
Definition zero : t := mk "" "" "" 0 "" None.
End DispatchPayload.
Abbreviation DispatchPayload := DispatchPayload.t.
Import DispatchPayload (TargetNode, JobID, Command, WalltimeSeconds, Action, EnvVars).

#[export] Instance eta_DispatchPayload : Eta DispatchPayload := λ p,
  DispatchPayload.mk (TargetNode p) (JobID p) (Command p) (WalltimeSeconds p) (Action p) (EnvVars p).

(** The struct as JSON; [env_vars] is omitted when empty. *)
Definition json_of_payload (p : DispatchPayload) : json :=
  JObj ([("target_node", JStr (TargetNode p)); ("job_id", JStr (JobID p));
         ("command", JStr (Command p)); ("walltime_seconds", JInt (WalltimeSeconds p));
         ("action", JStr (Action p))] ++
        match EnvVars p with
        | None => []
        | Some m => if decide (m = ∅) then [] else [("env_vars", JObj (str_entries m))]
        end).

(** [json.Marshal(payload)] *)
Definition MarshalPayload (p : DispatchPayload) : string := print (json_of_payload p).

Definition payload_fields : list (string * (json → DispatchPayload → option DispatchPayload)) :=
  [("target_node", λ v p, x ← dec_string v (TargetNode p); Some (p <| TargetNode := x |>));
   ("job_id", λ v p, x ← dec_string v (JobID p); Some (p <| JobID := x |>));
   ("command", λ v p, x ← dec_string v (Command p); Some (p <| Command := x |>));
   ("walltime_seconds", λ v p, x ← dec_int v (WalltimeSeconds p); Some (p <| WalltimeSeconds := x |>));
   ("action", λ v p, x ← dec_string v (Action p); Some (p <| Action := x |>));
   ("env_vars", λ v p, x ← dec_strmap v (EnvVars p); Some (p <| EnvVars := x |>))].

(** [json.Unmarshal([]byte(msg), &payload)] into a zero payload. *)
Definition UnmarshalPayload (msg : string) : option DispatchPayload :=
  Unmarshal_struct payload_fields msg DispatchPayload.zero.

Module ZMQPublisher.
Record t := mk { sent : list string }.
End ZMQPublisher.
Abbreviation ZMQPublisher := ZMQPublisher.t.

(** [Listen] of a PUB socket. *)
Definition NewZMQPublisher (Listen : string → option string) (endpoint : string) : ZMQPublisher + string :=
  match Listen endpoint with
  | Some err => inr ("could not listen on " +:+ endpoint +:+ ": " +:+ err)
  | None => inl (ZMQPublisher.mk [])
  end.

Definition Send (msg : string) (pub : ZMQPublisher) : ZMQPublisher :=
  ZMQPublisher.mk (ZMQPublisher.sent pub ++ [msg]).

(** The SUB socket: where it is connected and the prefix it is subscribed to. *)
Module ZMQSubscriber.
Record t := mk { endpoint : string; topic : string }.
End ZMQSubscriber.
Abbreviation ZMQSubscriber := ZMQSubscriber.t.

(** [Dial] and [SetOption(OptionSubscribe, topic)]; the dialed socket is not closed when
    the second fails. *)
Definition NewZMQSubscriber (Dial SetOption : string → option string) (endpoint : string) :
    ZMQSubscriber + string :=
  match Dial endpoint with
  | Some err => inr ("could not dial " +:+ endpoint +:+ ": " +:+ err)
  | None =>
      match SetOption "" with
      | Some err => inr err
      | None => inl (ZMQSubscriber.mk endpoint "")
      end
  end.

(** The frames of a message one after the other; [Send] makes messages of one
    frame. *)
Definition Receive (Recv : list string + string) : string * option string :=
  match Recv with
  | inr err => ("", Some err)
  | inl frames => (foldr String.append "" frames, None)
  end.

(** What a subscriber is sent of what is published: the messages that begin with
    its topic. *)
Definition received (sub : ZMQSubscriber) (msgs : list string) : list string :=
  filter (λ msg, String.prefix (ZMQSubscriber.topic sub) msg) msgs.

(** Every subscriber is subscribed to everything, and receives a message as it
    was sent. *)
Lemma subscriber_receives_all Dial SetOption endpoint sub pub :
  NewZMQSubscriber Dial SetOption endpoint = inl sub →
  received sub (ZMQPublisher.sent pub) = ZMQPublisher.sent pub ∧
  ∀ msg, msg ∈ ZMQPublisher.sent pub → Receive (inl [msg]) = (msg, None).
Proof.
  unfold NewZMQSubscriber. destruct (Dial endpoint); [done|]. destruct (SetOption ""); [done|]. intros [= <-].
  split.
  - unfold received. induction (ZMQPublisher.sent pub) as [|msg l IH]; [done|].
    rewrite filter_cons_True by (by destruct msg). by f_equal.
  - intros msg _. unfold Receive. cbn. f_equal. induction msg as [|c s IH]; [done|]. cbn. by f_equal.
Qed.

(** ** Round trip *)

(** The texts the program accepts from its clients are valid UTF-8 (protobuf
    strings), and walltimes are machine integers. *)
Definition payload_ok (p : DispatchPayload) : Prop :=
  sanitize (TargetNode p) = TargetNode p ∧ sanitize (JobID p) = JobID p ∧
  sanitize (Command p) = Command p ∧ sanitize (Action p) = Action p ∧
  in_int64 (WalltimeSeconds p) ∧
  match EnvVars p with Some m => strmap_valid m | None => True end.

(** The empty map is not sent. *)
Definition drop_empty (env : strmap) : strmap :=
  match env with
  | Some m => if decide (m = ∅) then None else Some m
  | None => None
  end.

Lemma payload_numbers p : numbers_ok (json_of_payload p) ∧ (nesting (json_of_payload p) ≤ 2)%nat.
Proof.
  unfold json_of_payload. destruct (EnvVars p) as [m|]; [destruct (decide (m = ∅))|].
  1, 3: split; [repeat split; apply Itoa_number|simpl; lia].
  pose proof (nesting_str_entries m) as Hn. pose proof (numbers_str_entries m) as Hm.
  unfold JInt in *. cbn [app numbers_ok nesting foldr] in *. split; [|lia].
  repeat split; (apply Itoa_number || exact Hm).
Qed.

Lemma decode_payload p : payload_ok p →
  decode_struct payload_fields (clean (json_of_payload p)) DispatchPayload.zero =
    Some (p <| EnvVars ::= drop_empty |>).
Proof.
  intros (H1 & H2 & H3 & H4 & H5 & H6). destruct p as [tn id cmd wt act env]. cbn [TargetNode JobID Command WalltimeSeconds Action EnvVars] in *.
  unfold json_of_payload. cbn [TargetNode JobID Command WalltimeSeconds Action EnvVars].
  cbn [clean]. rewrite map_app. cbn [clean map decode_struct].
  rewrite H1, H2, H3, H4, decode_app. do 5 decode_step. rewrite decode_nil, opt_bind_Some.
  destruct env as [m|]; [destruct (decide (m = ∅)) as [->|Hm]|].
  - unfold drop_empty. cbn. done.
  - cbn [map]. erewrite decode_cons by reflexivity. cbn [snd dec_strmap clean].
    change (default ∅ _) with (∅ : gmap string string). fold clean_member. rewrite (dec_str_entries m H6).
    rewrite !opt_bind_Some, decode_nil. unfold drop_empty. cbn. by rewrite decide_False.
  - done.
Qed.

(** The text a published message decodes to what was encoded, an empty
    environment aside. *)
Lemma Unmarshal_MarshalPayload p : payload_ok p →
  UnmarshalPayload (MarshalPayload p) = Some (p <| EnvVars ::= drop_empty |>).
Proof.
  intros Hp. unfold UnmarshalPayload, Unmarshal_struct, MarshalPayload.
  destruct (payload_numbers p) as [Hn Hd].
  rewrite parse_print by (done || (unfold maxNestingDepth; lia)). by apply decode_payload.
Qed.
