(* ===== verification/Matchmaker.v ===== *)
(** * pkg/matchmaker/evaluator.go: matching jobs against class ads

    cel-go is a library the code calls: the class [CEL] holds what the code uses
    of it (compile, build a program, evaluate it on the class ad).  The theorem
    is that the program cache is transparent: an evaluator that has been asked
    anything answers like one that compiles every time. *)

From S2P Require Import Prelude GoStd GoJson.
#[local] Open Scope string_scope.

(** The value of an expression: a boolean or something else. *)
Inductive cel_value := CelBool (b : bool) | CelOther.

Class CEL := {
  Ast : Type;
  Program : Type;
  Compile : string → Ast + string;
  env_Program : Ast → Program + string;
  Eval : Program → option (gmap string json) → option cel_value
}.

Section Evaluator.
Context {C : CEL}.

Record Evaluator := { cache : gmap string Program }.

Definition NewEvaluator : Evaluator := {| cache := ∅ |}.

(** The answer is the boolean and the error. *)
Definition Match (expression adJSON : string) (e : Evaluator) :
    (bool * option string) * Evaluator :=
  let run prg e :=
    let '(adMap, ok) := Unmarshal_map adJSON in
    if ok then
      match Eval prg adMap with
      | None => ((false, None), e)
      | Some CelOther => ((false, Some "expression did not evaluate to a boolean"), e)
      | Some (CelBool b) => ((b, None), e)
      end
    else ((false, Some "failed to unmarshal class ad"), e) in
  match cache e !! expression with
  | Some prg => run prg e
  | None =>
      match Compile expression with
      | inr err => ((false, Some ("compile error: " +:+ err)), e)
      | inl ast =>
          match env_Program ast with
          | inr err => ((false, Some ("program construction error: " +:+ err)), e)
          | inl prg => run prg {| cache := <[expression := prg]> (cache e) |}
          end
      end
  end.

(** ** The cache *)

Definition cache_ok (e : Evaluator) : Prop := ∀ expression prg,
  cache e !! expression = Some prg → ∃ ast,
    Compile expression = inl ast ∧ env_Program ast = inl prg.

Lemma Match_cache expression adJSON e : cache_ok e →
  (Match expression adJSON e).1 = (Match expression adJSON NewEvaluator).1 ∧
  cache_ok (Match expression adJSON e).2.
Proof.
  intros Hok. unfold Match. simpl. rewrite lookup_empty.
  destruct (Unmarshal_map adJSON) as [adMap ok].
  destruct (cache e !! expression) as [prg|] eqn:E.
  - destruct (Hok _ _ E) as (ast & -> & ->). split; repeat case_match; done.
  - destruct (Compile expression) as [ast|err] eqn:EC; [|done].
    destruct (env_Program ast) as [prg|err] eqn:EP; [|done].
    split; [repeat case_match; done|].
    assert (cache_ok {| cache := <[expression := prg]> (cache e) |}).
    { intros x p. simpl. intros [[<- <-]|[_ Hx]]%lookup_insert_Some; [by exists ast|by apply Hok]. }
    repeat case_match; done.
Qed.

Definition match_all (qs : list (string * string)) (e : Evaluator) : Evaluator :=
  fold_left (λ e '(x, ad), (Match x ad e).2) qs e.

Lemma match_all_ok qs e : cache_ok e → cache_ok (match_all qs e).
Proof.
  revert e. induction qs as [|[x ad] qs IH]; intros e He; simpl; [done|].
  by apply IH, Match_cache.
Qed.

Lemma cache_ok_new : cache_ok NewEvaluator.
Proof. intros x p. simpl. by rewrite lookup_empty. Qed.

(** C38: whatever an evaluator has been asked before, it answers like a fresh
    one: caching compiled programs never changes a match. *)
Theorem match_cache_transparent qs expression adJSON :
  (Match expression adJSON (match_all qs NewEvaluator)).1 =
  (Match expression adJSON NewEvaluator).1.
Proof. apply Match_cache, match_all_ok, cache_ok_new. Qed.

(** C39: a match is only reported when the requirement compiles to a program
    that evaluates to true on a class ad that is a JSON object or null; every
    failure on the way is a non-match. *)
Theorem match_true_only_if_satisfied expression adJSON e : cache_ok e →
  (Match expression adJSON e).1.1 = true →
  ∃ ast prg adMap, Compile expression = inl ast ∧ env_Program ast = inl prg ∧
    Unmarshal_map adJSON = (adMap, true) ∧ Eval prg adMap = Some (CelBool true) ∧
    (Match expression adJSON e).1.2 = None.
Proof.
  intros Hok. destruct (Match_cache expression adJSON e Hok) as [-> _].
  unfold Match. simpl. rewrite lookup_empty.
  destruct (Compile expression) as [ast|err] eqn:EC; [|done].
  destruct (env_Program ast) as [prg|err] eqn:EP; [|done].
  destruct (Unmarshal_map adJSON) as [adMap []] eqn:EU; [|done].
  destruct (Eval prg adMap) as [[[]|]|] eqn:EE; try done. intros _. by exists ast, prg, adMap.
Qed.
End Evaluator.
Arguments Evaluator : clear implicits.
Arguments Evaluator {_}.

(** A small expression language: [true], and [has:k] for the presence of a key. *)
Definition toy_cel : CEL := {|
  Ast := string; Program := string;
  Compile x := if String.eqb x "" then inr "empty" else inl x;
  env_Program x := inl x;
  Eval p ad :=
    if String.eqb p "true" then Some (CelBool true)
    else if HasPrefix p "has:" then
      match map_get ad (String.substring 4 (String.length p - 4) p) with
      | Some _ => Some (CelBool true) | None => Some (CelBool false)
      end
    else Some CelOther
|}.

Definition ad16 : string := print (JObj [("cpu_cores", JNum "16")]).

Lemma match_true_only_if_satisfied_witness :
  ∃ ast prg adMap, Compile (CEL:=toy_cel) "has:cpu_cores" = inl ast ∧
    env_Program (CEL:=toy_cel) ast = inl prg ∧
    Unmarshal_map ad16 = (adMap, true) ∧ Eval (CEL:=toy_cel) prg adMap = Some (CelBool true) ∧
    (Match (C:=toy_cel) "has:cpu_cores" ad16 NewEvaluator).1.2 = None.
Proof.
  apply (match_true_only_if_satisfied (C:=toy_cel) "has:cpu_cores" ad16 NewEvaluator).
  - exact (cache_ok_new (C:=toy_cel)).
  - vm_compute. reflexivity.
Defined.
