(* ===== verification/Store.v ===== *)
(** * internal/store/store.go: jobs, groups, usage and dead letters on disk

    bbolt is a library: [Bolt] holds the operations the code uses and
    [BoltLaws] what its documentation says of them (a committed Put is what Get
    and ForEach see).  Values are the JSON texts of the structs.  The theorems
    are the round trips through the database. *)

From S2P Require Import Prelude GoStd GoJson GoJsonFacts GoTime Queue Messaging.
#[local] Open Scope string_scope.
#[local] Open Scope list_scope.
#[local] Open Scope Z_scope.

(** ** bbolt *)

(** A transaction that puts or deletes one key: [None] when it fails and is
    rolled back. *)
Class Bolt := {
  DB : Type;
  Put : string → string → string → DB → option DB;
  Delete : string → string → DB → option DB;
  Get : string → string → DB → option string;
  ForEach : string → DB → list (string * string)
}.

Class BoltLaws (B : Bolt) : Prop := {
  get_put b k v d d' : Put b k v d = Some d' → Get b k d' = Some v;
  get_put_ne b k v d d' b' k' : Put b k v d = Some d' → (b', k') ≠ (b, k) →
    Get b' k' d' = Get b' k' d;
  get_delete b k d d' : Delete b k d = Some d' → Get b k d' = None;
  get_delete_ne b k d d' b' k' : Delete b k d = Some d' → (b', k') ≠ (b, k) →
    Get b' k' d' = Get b' k' d;
  foreach_get b k v d : (k, v) ∈ ForEach b d ↔ Get b k d = Some v;
  foreach_nodup b d : NoDup (ForEach b d).*1
}.

(** The keys and values Put takes, by its documentation: a key that is not blank,
    of at most [MaxKeySize] bytes, and a value of at most [MaxValueSize]. *)
Definition puttable (key value : string) : Prop :=
  key ≠ "" ∧ Z.of_nat (String.length key) ≤ 32768 ∧ Z.of_nat (String.length value) ≤ 2 ^ 31 - 2.

Definition bucketJobs : string := "jobs".
Definition bucketGroups : string := "groups".
Definition bucketFairshare : string := "fairshare".
Definition bucketDeadLetters : string := "dead_letters".

(** ** Jobs and groups as JSON *)

Section Codec.
Context `{Zone}.

Definition env_members (env : strmap) : list (string * json) :=
  match env with
  | None => []
  | Some m => if decide (m = ∅) then [] else [("env_vars", JObj (str_entries m))]
  end.

(** [json.Marshal(job)]; it fails on an instant it cannot print. *)
Definition json_of_job (j : Job) : option json :=
  submit ← MarshalTime (Job.SubmitTime j);
  start ← MarshalTime (Job.StartTime j);
  finish ← MarshalTime (Job.EndTime j);
  Some (JObj ([("id", JStr (Job.ID j)); ("requirement", JStr (Job.Requirement j));
    ("command", JStr (Job.Command j)); ("submit_time", JStr submit);
    ("priority", JInt (Job.Priority j)); ("user", JStr (Job.User j));
    ("walltime_seconds", JInt (Job.WalltimeSeconds j));
    ("gpus_required", JInt (Job.GPUsRequired j)); ("cpus_required", JInt (Job.CPUsRequired j));
    ("memory_required_mb", JInt (Job.MemoryRequiredMB j))] ++
    env_members (Job.EnvVars j) ++
    [("max_retries", JInt (Job.MaxRetries j)); ("retry_count", JInt (Job.RetryCount j))] ++
    (if String.eqb (Job.GroupID j) "" then [] else [("group_id", JStr (Job.GroupID j))]) ++
    [("state", JStr (Job.State j)); ("worker_node", JStr (Job.WorkerNode j));
     ("start_time", JStr start); ("end_time", JStr finish);
     ("output", JStr (Job.Output j)); ("error", JStr (Job.Error j))])).

(** [null] keeps the old instant; any other value must be an RFC 3339 string. *)
Definition dec_time (v : json) (old : Time) : option Time :=
  match v with
  | JStr s => UnmarshalTime s
  | JNull => Some old
  | _ => None
  end.

Definition job_fields : list (string * (json → Job → option Job)) :=
  [("id", λ v j, x ← dec_string v (Job.ID j); Some (j <| Job.ID := x |>));
   ("requirement", λ v j, x ← dec_string v (Job.Requirement j); Some (j <| Job.Requirement := x |>));
   ("command", λ v j, x ← dec_string v (Job.Command j); Some (j <| Job.Command := x |>));
   ("submit_time", λ v j, x ← dec_time v (Job.SubmitTime j); Some (j <| Job.SubmitTime := x |>));
   ("priority", λ v j, x ← dec_int v (Job.Priority j); Some (j <| Job.Priority := x |>));
   ("user", λ v j, x ← dec_string v (Job.User j); Some (j <| Job.User := x |>));
   ("walltime_seconds", λ v j, x ← dec_int v (Job.WalltimeSeconds j); Some (j <| Job.WalltimeSeconds := x |>));
   ("gpus_required", λ v j, x ← dec_int v (Job.GPUsRequired j); Some (j <| Job.GPUsRequired := x |>));
   ("cpus_required", λ v j, x ← dec_int v (Job.CPUsRequired j); Some (j <| Job.CPUsRequired := x |>));
   ("memory_required_mb", λ v j, x ← dec_int v (Job.MemoryRequiredMB j); Some (j <| Job.MemoryRequiredMB := x |>));
   ("env_vars", λ v j, x ← dec_strmap v (Job.EnvVars j); Some (j <| Job.EnvVars := x |>));
   ("max_retries", λ v j, x ← dec_int v (Job.MaxRetries j); Some (j <| Job.MaxRetries := x |>));
   ("retry_count", λ v j, x ← dec_int v (Job.RetryCount j); Some (j <| Job.RetryCount := x |>));
   ("group_id", λ v j, x ← dec_string v (Job.GroupID j); Some (j <| Job.GroupID := x |>));
   ("state", λ v j, x ← dec_string v (Job.State j); Some (j <| Job.State := x |>));
   ("worker_node", λ v j, x ← dec_string v (Job.WorkerNode j); Some (j <| Job.WorkerNode := x |>));
   ("start_time", λ v j, x ← dec_time v (Job.StartTime j); Some (j <| Job.StartTime := x |>));
   ("end_time", λ v j, x ← dec_time v (Job.EndTime j); Some (j <| Job.EndTime := x |>));
   ("output", λ v j, x ← dec_string v (Job.Output j); Some (j <| Job.Output := x |>));
   ("error", λ v j, x ← dec_string v (Job.Error j); Some (j <| Job.Error := x |>))].

Definition MarshalJob (j : Job) : option string := print <$> json_of_job j.
Definition UnmarshalJob (data : string) : option Job := Unmarshal_struct job_fields data Job.zero.

(** A nil slice is null. *)
Definition json_of_strings (l : list string) : json :=
  match l with [] => JNull | _ => JArr (map JStr l) end.

Definition json_of_group (g : JobGroup) : option json :=
  created ← MarshalTime (JobGroup.CreatedAt g);
  Some (JObj [("group_id", JStr (JobGroup.GroupID g)); ("job_ids", json_of_strings (JobGroup.JobIDs g));
    ("num_nodes", JInt (JobGroup.NumNodes g)); ("gpus_per_node", JInt (JobGroup.GPUsPerNode g));
    ("master_port", JInt (JobGroup.MasterPort g)); ("state", JStr (JobGroup.State g));
    ("created_at", JStr created)]).

Definition group_fields : list (string * (json → JobGroup → option JobGroup)) :=
  [("group_id", λ v g, x ← dec_string v (JobGroup.GroupID g); Some (g <| JobGroup.GroupID := x |>));
   ("job_ids", λ v g, x ← dec_strings v (JobGroup.JobIDs g); Some (g <| JobGroup.JobIDs := x |>));
   ("num_nodes", λ v g, x ← dec_int v (JobGroup.NumNodes g); Some (g <| JobGroup.NumNodes := x |>));
   ("gpus_per_node", λ v g, x ← dec_int v (JobGroup.GPUsPerNode g); Some (g <| JobGroup.GPUsPerNode := x |>));
   ("master_port", λ v g, x ← dec_int v (JobGroup.MasterPort g); Some (g <| JobGroup.MasterPort := x |>));
   ("state", λ v g, x ← dec_string v (JobGroup.State g); Some (g <| JobGroup.State := x |>));
   ("created_at", λ v g, x ← dec_time v (JobGroup.CreatedAt g); Some (g <| JobGroup.CreatedAt := x |>))].

Definition MarshalGroup (g : JobGroup) : option string := print <$> json_of_group g.
Definition UnmarshalGroup (data : string) : option JobGroup :=
  Unmarshal_struct group_fields data JobGroup.zero.
End Codec.

(** ** Usage as JSON: the shortest decimal that reads back as the float *)

Module float_text.
(** The value [num / den] as [d * 10^k] with [p] digits, rounded to nearest even. *)
Definition round_to (num den : Z) (k : Z) (p : nat) : Z :=
  let s := Z.of_nat p - 1 - k in
  let num := if 0 <=? s then num * 10 ^ s else num in
  let den := if 0 <=? s then den else den * 10 ^ (- s) in
  let q := num / den in
  let r := 2 * (num mod den) in
  if (den <? r) || ((r =? den) && Z.odd q) then q + 1 else q.

(** The largest [k] with [10^k <= num/den], searched upwards from an estimate. *)
Fixpoint log10 (fuel : nat) (num den k : Z) : Z :=
  match fuel with
  | O => k
  | S n =>
      let k1 := k + 1 in
      if (if 0 <=? k1 then 10 ^ k1 * den <=? num else den <=? num * 10 ^ (- k1))
      then log10 n num den k1 else k
  end.

Definition same (x y : float64.t) : bool :=
  match x, y with
  | S754_finite s m e, S754_finite s' m' e' => Bool.eqb s s' && Pos.eqb m m' && Z.eqb e e'
  | _, _ => false
  end.

Definition of_decimal (d k : Z) : float64.t :=
  match d with
  | Zpos p => if 0 <=? k then float64.of_ratio false (p * Z.to_pos (10 ^ k)) 1
              else float64.of_ratio false p (Z.to_pos (10 ^ (- k)))
  | _ => float64.zero
  end.

(** Digits and exponent of the last digit. *)
Fixpoint shortest (n p : nat) (x : float64.t) (num den k : Z) : Z * Z :=
  let d := round_to num den k p in
  let e := k - Z.of_nat p + 1 in
  let '(d, e) := if d =? 10 ^ Z.of_nat p then (d / 10, e + 1) else (d, e) in
  match n with
  | O => (d, e)
  | S n => if same (of_decimal d e) x then (d, e) else shortest n (S p) x num den k
  end.

Fixpoint zeros (n : nat) : string := match n with O => "" | S n => String "0" (zeros n) end.

(** [0 < x]: the format of encoding/json. *)
Definition print_pos (m : positive) (e : Z) : string :=
  let x := S754_finite false m e in
  let num := if 0 <=? e then Zpos m * 2 ^ e else Zpos m in
  let den := if 0 <=? e then 1 else 2 ^ (- e) in
  let k := log10 8 num den ((Z.log2 num - Z.log2 den) * 301 / 1000 - 2) in
  let '(d, ex) := shortest 16 1 x num den k in
  let ds := Itoa d in
  let len := Z.of_nat (String.length ds) in
  let point := len + ex in
  if (num * 1000000 <? den) || (10 ^ 21 * den <=? num) then
    let e10 := point - 1 in
    String.substring 0 1 ds +:+
    (if len <=? 1 then "" else "." +:+ String.substring 1 (String.length ds) ds) +:+
    "e" +:+ (if e10 <? 0 then "-" else "+") +:+ Itoa (Z.abs e10)
  else if 0 <=? ex then ds +:+ zeros (Z.to_nat ex)
  else if 0 <? point then
    String.substring 0 (Z.to_nat point) ds +:+ "." +:+ String.substring (Z.to_nat point) (String.length ds) ds
  else "0." +:+ zeros (Z.to_nat (- point)) +:+ ds.

Definition print_float (x : float64.t) : option string :=
  match x with
  | S754_zero s => Some (if s then "-0" else "0")
  | S754_finite s m e => Some ((if s then "-" else "") +:+ print_pos m e)
  | _ => None
  end.
End float_text.

Example float_text1 : float_text.print_float (float64.of_ratio false 475 1) = Some "475".
Proof. vm_compute. reflexivity. Qed.
Example float_text2 : float_text.print_float (float64.of_ratio false 1 10) = Some "0.1".
Proof. vm_compute. reflexivity. Qed.
Example float_text3 : float_text.print_float (float64.mul (float64.of_ratio false 95 100) (float64.of_ratio false 123 10)) = Some "11.685".
Proof. vm_compute. reflexivity. Qed.
Example float_text4 : float_text.print_float (float64.of_ratio false (Z.to_pos (10 ^ 23)) 1) = Some "1e+23".
Proof. vm_compute. reflexivity. Qed.

(** [json.Marshal] of a [map[string]float64]; infinities and NaN are errors. *)
Fixpoint float_members (l : list (string * float64.t)) : option (list (string * json)) :=
  match l with
  | [] => Some []
  | (k, x) :: l => t ← float_text.print_float x; rest ← float_members l; Some ((k, JNum t) :: rest)
  end.

Definition MarshalUsage (usage : gmap string float64.t) : option string :=
  m ← float_members (map_to_list usage); Some (print (JObj (merge_sort key_le m))).

Definition dec_float (v : json) : option float64.t :=
  match v with
  | JNum t => ParseFloat t
  | JNull => Some float64.zero
  | _ => None
  end.

Fixpoint dec_usage (m : list (string * json)) (acc : gmap string float64.t) :
    option (gmap string float64.t) :=
  match m with
  | [] => Some acc
  | (k, v) :: m => x ← dec_float v; dec_usage m (<[k := x]> acc)
  end.

Definition UnmarshalUsage (data : string) : option (gmap string float64.t) :=
  v ← parse data;
  match v with
  | JNull => Some ∅
  | JObj m => dec_usage m ∅
  | _ => None
  end.

(** ** The store *)

Section Store.
Context {B : Bolt} `{Zone}.

(** A failed operation leaves the database as it was and returns its error. *)
Definition SaveJob (job : Job) (d : DB) : option DB :=
  data ← MarshalJob job; Put bucketJobs (Job.ID job) data d.

(** Entries that do not decode are skipped. *)
Definition LoadJobs (d : DB) : list Job :=
  omap (λ '(_, v), UnmarshalJob v) (ForEach bucketJobs d).

Definition DeleteJob (jobID : string) (d : DB) : option DB := Delete bucketJobs jobID d.

Definition store_GetJob (jobID : string) (d : DB) : option Job :=
  v ← Get bucketJobs jobID d; UnmarshalJob v.

Definition SaveGroup (group : JobGroup) (d : DB) : option DB :=
  data ← MarshalGroup group; Put bucketGroups (JobGroup.GroupID group) data d.

Definition LoadGroups (d : DB) : list JobGroup :=
  omap (λ '(_, v), UnmarshalGroup v) (ForEach bucketGroups d).

Definition SaveFairshare (usage : gmap string float64.t) (d : DB) : option DB :=
  data ← MarshalUsage usage; Put bucketFairshare "usage" data d.

Definition LoadFairshare (d : DB) : option (gmap string float64.t) :=
  match Get bucketFairshare "usage" d with
  | None => Some ∅
  | Some data => UnmarshalUsage data
  end.

Definition SaveDeadLetter (job : Job) (d : DB) : option DB :=
  data ← MarshalJob job; Put bucketDeadLetters (Job.ID job) data d.

Definition LoadDeadLetters (d : DB) : list Job :=
  omap (λ '(_, v), UnmarshalJob v) (ForEach bucketDeadLetters d).

Definition GetDeadLetter (jobID : string) (d : DB) : option Job :=
  v ← Get bucketDeadLetters jobID d; UnmarshalJob v.
End Store.

(** ** Round trips *)

Definition valid (s : string) : Prop := sanitize s = s.

(** The strings are UTF-8 and the integers fit: what protobuf messages and the
    worker reports provide. *)
Record job_ok (j : Job) : Prop := {
  ok_id : valid (Job.ID j); ok_req : valid (Job.Requirement j); ok_cmd : valid (Job.Command j);
  ok_user : valid (Job.User j); ok_group : valid (Job.GroupID j); ok_state : valid (Job.State j);
  ok_node : valid (Job.WorkerNode j); ok_out : valid (Job.Output j); ok_err : valid (Job.Error j);
  ok_env : match Job.EnvVars j with Some m => strmap_valid m | None => True end;
  ok_prio : in_int64 (Job.Priority j); ok_wall : in_int64 (Job.WalltimeSeconds j);
  ok_gpus : in_int64 (Job.GPUsRequired j); ok_cpus : in_int64 (Job.CPUsRequired j);
  ok_mem : in_int64 (Job.MemoryRequiredMB j); ok_max : in_int64 (Job.MaxRetries j);
  ok_retry : in_int64 (Job.RetryCount j)
}.

(** What the database keeps of a job: all but the heap index and an empty
    environment. *)
Definition stored (j : Job) : Job := j <| Job.EnvVars ::= drop_empty |> <| Job.index := 0 |>.

(** Printed instants are ASCII. *)
Definition ascii_only (s : string) : Prop :=
  Forall (λ c, (code c < 128)) (String.list_ascii_of_string s).

Lemma sanitize_ascii s : ascii_only s → sanitize s = s.
Proof.
  unfold ascii_only, sanitize. induction s as [|c s IH]; [done|].
  cbn [String.list_ascii_of_string]. intros [Hc Hs]%Forall_cons.
  rewrite runes_ascii by done. cbn [concat_toks bytes_of String.append]. by rewrite IH.
Qed.

Lemma ascii_app a b : ascii_only a → ascii_only b → ascii_only (a +:+ b).
Proof.
  unfold ascii_only. induction a as [|c a IH]; [done|].
  cbn [String.append String.list_ascii_of_string]. intros [? ?]%Forall_cons ?. constructor; auto.
Qed.

Lemma ascii_digit k : 0 <= k < 10 → code (digit k) < 128.
Proof.
  intros H. assert (k = 0 ∨ k = 1 ∨ k = 2 ∨ k = 3 ∨ k = 4 ∨ k = 5 ∨ k = 6 ∨ k = 7 ∨ k = 8 ∨ k = 9)
    as H' by lia.
  by destruct H' as [->|[->|[->|[->|[->|[->|[->|[->|[->| ->]]]]]]]]].
Qed.

Lemma ascii_pad2 n : 0 <= n < 100 → ascii_only (pad2 n).
Proof. intros. unfold pad2. repeat constructor; apply ascii_digit; lia. Qed.

Lemma ascii_frac k n : 0 <= n < 10 ^ Z.of_nat k → ascii_only (frac_digits k n).
Proof.
  revert n. induction k as [|k IH]; intros n Hn; [constructor|]. cbn [frac_digits].
  destruct (n =? 0); [constructor|].
  assert (Hp : 0 < 10 ^ Z.of_nat k) by (apply Z.pow_pos_nonneg; lia).
  rewrite Nat2Z.inj_succ, Z.pow_succ_r in Hn by lia.
  constructor; [|apply IH; by apply Z.mod_pos_bound].
  apply ascii_digit. split; [apply Z.div_pos; lia|apply Z.div_lt_upper_bound; lia].
Qed.

Create HintDb ascii.
#[export] Hint Resolve ascii_app ascii_pad2 ascii_frac : ascii.

Lemma ascii_MarshalTime `{Zone} t s : MarshalTime t = Some s → ascii_only s.
Proof.
  unfold MarshalTime. cbv zeta. set (off := offset t). set (local := t + off * 60 * Second).
  pose proof (civil_spec (local / Second / secs_per_day + day_zero)) as HC.
  destruct (civil _) as [[y m] d]. destruct HC as (_ & Hm & Hd & _).
  destruct (_ || _) eqn:Hc; [done|]. to_prop. intros HS%(inj Some). subst s.
  assert (d <= 31) by (unfold days_in in Hd; repeat case_match; lia).
  unfold pad4, format_offset, secs_per_day.
  repeat match goal with |- ascii_only (_ +:+ _) => apply ascii_app end;
    repeat case_match; to_prop; try (by repeat constructor);
    repeat match goal with |- ascii_only (_ +:+ _) => apply ascii_app end;
    try (by repeat constructor); try (apply ascii_pad2; lia); repeat case_match;
    try (by repeat constructor).
  apply ascii_frac. apply Z.mod_pos_bound. done.
Qed.

Section RoundTrips.
Context `{Zone}.

Lemma dec_time_Marshal t s old : MarshalTime t = Some s → dec_time (JStr (sanitize s)) old = Some t.
Proof.
  intros Ht. cbn [dec_time]. rewrite sanitize_ascii by (by eapply ascii_MarshalTime).
  by apply UnmarshalTime_MarshalTime.
Qed.

Lemma decode_env_members env j : match env with Some m => strmap_valid m | None => True end →
  Job.EnvVars j = None →
  decode_fields job_fields (map clean_member (env_members env)) j =
    Some (j <| Job.EnvVars := drop_empty env |>).
Proof.
  intros Hv Hj. unfold env_members, drop_empty. destruct env as [m|].
  2: { cbn [map]. rewrite decode_nil. by destruct j; simpl in *; subst. }
  destruct (decide (m = ∅)).
  { cbn [map]. rewrite decode_nil. by destruct j; simpl in *; subst. }
  cbn [map clean_member clean]. erewrite decode_cons by reflexivity. cbn [snd dec_strmap].
  fold clean_member. rewrite Hj. change (default ∅ None) with (∅ : gmap string string).
  rewrite (dec_str_entries m Hv), !opt_bind_Some. by rewrite decode_nil.
Qed.

Lemma decode_group_id id j : valid id → Job.GroupID j = "" →
  decode_fields job_fields (map clean_member (if String.eqb id "" then [] else [("group_id", JStr id)])) j =
    Some (j <| Job.GroupID := id |>).
Proof.
  intros Hv Hj. destruct (String.eqb_spec id "") as [->|Hne].
  { cbn [map]. rewrite decode_nil. by destruct j; simpl in *; subst. }
  cbn [map clean_member clean]. erewrite decode_cons by reflexivity.
  cbn [snd dec_string mbind option_bind]. rewrite Hv. by rewrite decode_nil.
Qed.

(** One member of a job object. *)
Ltac job_step := cbn [map clean_member clean]; erewrite decode_cons by reflexivity;
  cbn [snd]; cbn [dec_string];
  try (erewrite dec_time_Marshal by eassumption);
  try (change (JNum (Itoa ?z)) with (clean (JInt z)); rewrite dec_int_JInt by done);
  rewrite !opt_bind_Some.

(** Members that hold numbers in range and at most one level of nesting. *)
Definition member_ok (kv : string * json) : Prop := numbers_ok kv.2 ∧ (nesting kv.2 <= 1)%nat.

Lemma members_ok m : Forall member_ok m → numbers_ok (JObj m) ∧
  Z.of_nat (nesting (JObj m)) <= maxNestingDepth.
Proof.
  intros Hm. cbn [numbers_ok nesting].
  assert (foldr (λ '(_, v) P, numbers_ok v ∧ P) True m ∧
    (foldr (λ '(_, v) n, Nat.max (nesting v) n) 0%nat m <= 1)%nat) as [? ?].
  { induction Hm as [|[k v] m [Hn Hd] _ [IH1 IH2]]; simpl in *; [split; [done|lia]|].
    split; [done|lia]. }
  split; [done|]. unfold maxNestingDepth. lia.
Qed.

Lemma member_ok_str k s : member_ok (k, JStr s).
Proof. split; [done|simpl; lia]. Qed.
Lemma member_ok_int k z : member_ok (k, JInt z).
Proof. split; [apply Itoa_number|simpl; lia]. Qed.

Lemma member_ok_env env : Forall member_ok (env_members env).
Proof.
  unfold env_members. destruct env as [m|]; [|constructor]. destruct (decide (m = ∅)); [constructor|].
  constructor; [|constructor]. split; [apply numbers_str_entries|]. cbn [snd].
  rewrite nesting_str_entries. lia.
Qed.

#[local] Hint Resolve member_ok_str member_ok_int member_ok_env Forall_cons_2 Forall_nil_2 : core.

Lemma MarshalJob_roundtrip j data : job_ok j → MarshalJob j = Some data →
  UnmarshalJob data = Some (stored j).
Proof.
  intros Hok. unfold MarshalJob, json_of_job.
  destruct (MarshalTime (Job.SubmitTime j)) as [submit|] eqn:E1; [|done].
  destruct (MarshalTime (Job.StartTime j)) as [start|] eqn:E2; [|done].
  destruct (MarshalTime (Job.EndTime j)) as [finish|] eqn:E3; [|done].
  rewrite !opt_bind_Some. intros HS%(inj Some). subst data. unfold UnmarshalJob, Unmarshal_struct.
  match goal with |- context [JObj ?m] => assert (Forall member_ok m) as [Hn Hd]%members_ok end.
  { repeat apply Forall_app_2; try (case_match; auto); repeat apply Forall_cons_2; auto. }
  rewrite parse_print, opt_bind_Some by done. cbn [clean decode_struct]. fold clean_member.
  destruct Hok. unfold valid in *.
  rewrite !map_app, decode_app. do 10 job_step. rewrite decode_nil, opt_bind_Some.
  rewrite decode_app, decode_env_members by done. rewrite opt_bind_Some.
  rewrite decode_app. do 2 job_step. rewrite decode_nil, opt_bind_Some.
  rewrite decode_app, decode_group_id by done. rewrite opt_bind_Some.
  do 6 job_step. rewrite decode_nil. f_equal.
  destruct j. simpl in *. unfold stored. simpl. by f_equal.
Qed.
End RoundTrips.

(** A database in memory. *)
Definition bolt_map : Bolt := {|
  DB := gmap string (gmap string string);
  Put b k v d := Some (<[b := <[k := v]> (default ∅ (d !! b))]> d);
  Delete b k d := Some (<[b := delete k (default ∅ (d !! b))]> d);
  Get b k d := default ∅ (d !! b) !! k;
  ForEach b d := map_to_list (default ∅ (d !! b) : gmap string string)
|}.

Lemma bolt_map_laws : BoltLaws bolt_map.
Proof.
  split; simpl.
  - intros b k v d d' [= <-]. by rewrite lookup_insert_eq; simpl; rewrite lookup_insert_eq.
  - intros b k v d d' b' k' [= <-] Hne. destruct (decide (b' = b)) as [->|].
    + rewrite lookup_insert_eq. simpl. rewrite lookup_insert_ne; [done|congruence].
    + by rewrite lookup_insert_ne.
  - intros b k d d' [= <-]. by rewrite lookup_insert_eq; simpl; rewrite lookup_delete_eq.
  - intros b k d d' b' k' [= <-] Hne. destruct (decide (b' = b)) as [->|].
    + rewrite lookup_insert_eq. simpl. rewrite lookup_delete_ne; [done|congruence].
    + by rewrite lookup_insert_ne.
  - intros. apply elem_of_map_to_list.
  - intros. apply NoDup_fst_map_to_list.
Qed.

Section StoreFacts.
Context {B : Bolt} {BL : BoltLaws B} `{Zone}.

Lemma elem_of_LoadJobs j k v d : Get bucketJobs k d = Some v → UnmarshalJob v = Some j →
  j ∈ LoadJobs d.
Proof.
  intros Hg Hu. apply (foreach_get bucketJobs k v d) in Hg.
  apply list_elem_of_omap. by exists (k, v).
Qed.

(** C37: a job that was saved reads back as it was (but for the heap index and
    an empty environment), alone and among all jobs; saving it changes no other
    job's entry and no dead letter. *)
Theorem saved_job_reads_back j d d' : job_ok j → SaveJob j d = Some d' →
  store_GetJob (Job.ID j) d' = Some (stored j) ∧ stored j ∈ LoadJobs d' ∧
  (∀ id, id ≠ Job.ID j → store_GetJob id d' = store_GetJob id d) ∧
  (∀ id, GetDeadLetter id d' = GetDeadLetter id d).
Proof.
  intros Hok. unfold SaveJob. destruct (MarshalJob j) as [data|] eqn:E; [|done]. simpl. intros HP.
  pose proof (MarshalJob_roundtrip j data Hok E) as HR.
  pose proof (get_put _ _ _ _ _ HP) as HG.
  split; [unfold store_GetJob; by rewrite HG|]. split; [by eapply elem_of_LoadJobs|].
  split; intros id.
  - intros Hne. unfold store_GetJob. erewrite get_put_ne; [done..|congruence].
  - unfold GetDeadLetter. erewrite get_put_ne; [done..|discriminate].
Qed.
End StoreFacts.

Definition sample_job : Job :=
  Job.zero <| Job.ID := "a1b2c3d4" |> <| Job.Command := "echo <hi>" |> <| Job.State := StateQueued |>
    <| Job.SubmitTime := 63844806896 * Second |> <| Job.EnvVars := Some {["RANK" := "0"]} |>.

Lemma sample_job_ok : job_ok sample_job.
Proof.
  split; lazymatch goal with
  | |- valid _ => vm_compute; reflexivity
  | |- in_int64 _ => unfold in_int64; simpl; lia
  | |- _ => by apply map_Forall_singleton
  end.
Qed.

Lemma sample_job_prints : is_Some (MarshalJob (H:=utc) sample_job).
Proof.
  unfold MarshalJob, json_of_job.
  replace (MarshalTime (H:=utc) (Job.SubmitTime sample_job)) with (Some "2024-02-29T12:34:56Z")
    by (vm_compute; reflexivity).
  replace (MarshalTime (H:=utc) (Job.StartTime sample_job)) with (Some "0001-01-01T00:00:00Z")
    by (vm_compute; reflexivity).
  replace (MarshalTime (H:=utc) (Job.EndTime sample_job)) with (Some "0001-01-01T00:00:00Z")
    by (vm_compute; reflexivity).
  rewrite !opt_bind_Some. by eexists.
Qed.

Lemma saved_job_reads_back_witness : ∃ d' : DB (Bolt:=bolt_map),
  SaveJob (B:=bolt_map) (H:=utc) sample_job ∅ = Some d' ∧
  store_GetJob (B:=bolt_map) (Job.ID sample_job) d' = Some (stored sample_job).
Proof.
  destruct (SaveJob (B:=bolt_map) (H:=utc) sample_job ∅) as [d'|] eqn:E.
  - exists d'. split; [reflexivity|].
    exact (proj1 (saved_job_reads_back (B:=bolt_map) (BL:=bolt_map_laws) (H:=utc)
      sample_job ∅ d' sample_job_ok E)).
  - exfalso. unfold SaveJob in E. destruct sample_job_prints as [data Hd]. rewrite Hd in E. discriminate E.
Defined.
