(* ===== verification/Config.v ===== *)
(** * internal/config/config.go

    The configuration record, its defaults, the paths and the overrides from
    TASCH_* environment variables.  The file system and the YAML decoder are
    parameters ([OS], [yaml_Unmarshal]). *)

From S2P Require Import Prelude GoStd.
#[local] Open Scope string_scope.
#[local] Open Scope list_scope.
#[local] Open Scope Z_scope.

Module PortConfig.
Record t := mk { Gossip : Z; GRPC : Z; ZMQ : Z; Metrics : Z }.
End PortConfig.
Abbreviation PortConfig := PortConfig.t.
Import PortConfig (Gossip, GRPC, ZMQ, Metrics).

Module TLSConfig.
Record t := mk { Enabled : bool; CertFile : string; KeyFile : string; CAFile : string }.
End TLSConfig.
Abbreviation TLSConfig := TLSConfig.t.

Module Config.
Record t := mk {
  Role : string;
  NodeName : string;
  MasterAddr : string;
  Ports : PortConfig;
  MaxQueueSize : Z;
  MaxRetries : Z;
  DrainTimeout : Z;
  TLS : TLSConfig
}.
End Config.
Abbreviation Config := Config.t.

#[export] Instance eta_PortConfig : Eta PortConfig := λ p,
  PortConfig.mk (Gossip p) (GRPC p) (ZMQ p) (Metrics p).
#[export] Instance eta_Config : Eta Config := λ c,
  Config.mk (Config.Role c) (Config.NodeName c) (Config.MasterAddr c) (Config.Ports c)
    (Config.MaxQueueSize c) (Config.MaxRetries c) (Config.DrainTimeout c) (Config.TLS c).

Definition DefaultConfig : Config :=
  Config.mk "both" "" "127.0.0.1" (PortConfig.mk 7946 50051 5555 9090) 10000 3 60
    (TLSConfig.mk false "" "" "").

(** ** fmt.Sscanf(v, "%d", &n)

    Leading blanks, an optional sign, digits; what follows is not read.  [None]
    leaves the variable as it was. *)
Definition blank (c : ascii) : bool :=
  Ascii.eqb c "032" || Ascii.eqb c "009" || Ascii.eqb c "011" || Ascii.eqb c "012" || Ascii.eqb c "013".

Fixpoint skip_blanks (s : string) : string :=
  match s with String c s' => if blank c then skip_blanks s' else s | "" => "" end.

Fixpoint leading_digits (s : string) : string :=
  match s with
  | String c s' => match digit_of c with Some _ => String c (leading_digits s') | None => "" end
  | "" => ""
  end.

Definition Sscanf_d (v : string) : option Z :=
  let v := skip_blanks v in
  let '(sign, v) :=
    match v with
    | String "+" v' => ("+", v')
    | String "-" v' => ("-", v')
    | _ => ("", v)
    end in
  match leading_digits v with
  | "" => None
  | ds => match Atoi (sign +:+ ds) with (n, true) => Some n | _ => None end
  end.

(** [if v := os.Getenv(key); v != "" { fmt.Sscanf(v, "%d", &x) }] *)
Definition override_int (v : string) (x : Z) : Z :=
  if String.eqb v "" then x else default x (Sscanf_d v).

Definition ApplyEnvOverrides (Getenv : string → string) (c : Config) : Config :=
  let c := if String.eqb (Getenv "TASCH_MASTER_ADDR") "" then c
           else c <| Config.MasterAddr := Getenv "TASCH_MASTER_ADDR" |> in
  let c := c <| Config.Ports ::= λ p, p <| Gossip ::= override_int (Getenv "TASCH_GOSSIP_PORT") |> |> in
  let c := c <| Config.Ports ::= λ p, p <| GRPC ::= override_int (Getenv "TASCH_GRPC_PORT") |> |> in
  let c := c <| Config.Ports ::= λ p, p <| ZMQ ::= override_int (Getenv "TASCH_ZMQ_PORT") |> |> in
  c <| Config.Ports ::= λ p, p <| Metrics ::= override_int (Getenv "TASCH_METRICS_PORT") |> |>.

Definition GRPCAddr (c : Config) : string :=
  Config.MasterAddr c +:+ ":" +:+ Itoa (GRPC (Config.Ports c)).

(** ** Paths *)

(** [path/filepath]: the components of a path, and its lexical cleaning. *)
Fixpoint split_path (cur : string) (s : string) : list string :=
  match s with
  | "" => [cur]
  | String c s' => if Ascii.eqb c "/" then cur :: split_path "" s' else split_path (cur +:+ String c "") s'
  end.

(** [stack] holds the kept components, last first. *)
Definition clean_step (rooted : bool) (stack : list string) (x : string) : list string :=
  if String.eqb x "" || String.eqb x "." then stack
  else if String.eqb x ".." then
    match stack with
    | y :: rest => if String.eqb y ".." then x :: stack else rest
    | [] => if rooted then [] else [x]
    end
  else x :: stack.

Definition Clean (p : string) : string :=
  let rooted := HasPrefix p "/" in
  let body := Join (rev (fold_left (clean_step rooted) (split_path "" p) [])) "/" in
  if rooted then "/" +:+ body else if String.eqb body "" then "." else body.

Definition path_Join (elems : list string) : string :=
  match List.filter (λ e, negb (String.eqb e "")) elems with
  | [] => ""
  | l => Clean (Join l "/")
  end.

(** What the code asks the operating system. *)
Class OS := {
  Stat_ok : string → bool;
  Stat_is_dir : string → bool;
  UserHomeDir : option string;
  ReadFile : string → string + string
}.

Section Paths.
Context `{OS}.

Definition DefaultPath : string :=
  if Stat_ok "/etc/tasch/config.yaml" then "/etc/tasch/config.yaml"
  else match UserHomeDir with
       | None => "config.yaml"
       | Some home => path_Join [home; ".tasch"; "config.yaml"]
       end.

Definition StorePath : string :=
  if Stat_ok "/var/lib/tasch" && Stat_is_dir "/var/lib/tasch" then "/var/lib/tasch/tasch.db"
  else match UserHomeDir with
       | None => "tasch.db"
       | Some home => path_Join [home; ".tasch"; "tasch.db"]
       end.

Definition PidPath : string :=
  if Stat_ok "/var/lib/tasch" && Stat_is_dir "/var/lib/tasch" then "/var/lib/tasch/tasch.pid"
  else match UserHomeDir with
       | None => "tasch.pid"
       | Some home => path_Join [home; ".tasch"; "tasch.pid"]
       end.

(** The YAML decoder fills the fields the text names into the defaults. *)
Definition LoadConfig (yaml_Unmarshal : string → Config → Config + string) (path : string) :
    Config + string :=
  match ReadFile path with
  | inr err => inr ("cannot read config " +:+ path +:+ ": " +:+ err)
  | inl data =>
      match yaml_Unmarshal data DefaultConfig with
      | inr err => inr ("invalid config " +:+ path +:+ ": " +:+ err)
      | inl cfg => inl cfg
      end
  end.
End Paths.

Example path1 : path_Join ["/root/../home/x/"; ".tasch"; "tasch.db"] = "/home/x/.tasch/tasch.db".
Proof. vm_compute. reflexivity. Qed.

(** ** The overrides *)

Lemma leading_digits_all d : Forall (λ c, is_Some (digit_of c)) (String.list_ascii_of_string d) →
  leading_digits d = d.
Proof.
  induction d as [|c d IH]; [done|]. cbn [String.list_ascii_of_string leading_digits].
  intros [[v ->] Hd]%Forall_cons. by rewrite IH.
Qed.

Lemma Sscanf_Itoa n : in_int64 n → Sscanf_d (Itoa n) = Some n.
Proof.
  intros Hn. pose proof (Atoi_Itoa n Hn) as HA.
  destruct (Itoa_decimal n) as (d & [_ (c & d' & -> & [v Hc] & _) Hall] & HI).
  rewrite HI in *. pose proof (leading_digits_all _ Hall) as HL.
  unfold Sscanf_d. destruct (n <? 0); cbn [String.append] in *.
  - change (skip_blanks (String "-" (String c d'))) with (String "-" (String c d')). cbv beta iota.
    rewrite HL. cbn [String.append]. by rewrite HA.
  - assert (skip_blanks (String c d') = String c d' ∧
      (match String c d' with String "+" v' => ("+", v') | String "-" v' => ("-", v')
       | _ => ("", String c d') end) = ("", String c d')) as [-> ->].
    { destruct c as [[] [] [] [] [] [] [] []]; try discriminate Hc; done. }
    rewrite HL. cbn [String.append]. by rewrite HA.
Qed.

(** A port variable holding a decimal number sets that port, the digits
    before any other character count, a value that is empty or starts with no
    number leaves the port alone, and no variable changes anything but the
    master address and the ports. *)
Theorem env_overrides_ports Getenv c n : in_int64 n → Getenv "TASCH_GRPC_PORT" = Itoa n →
  Getenv "TASCH_ZMQ_PORT" = "" →
  let c' := ApplyEnvOverrides Getenv c in
  GRPC (Config.Ports c') = n ∧ ZMQ (Config.Ports c') = ZMQ (Config.Ports c) ∧
  c' = c <| Config.MasterAddr := Config.MasterAddr c' |> <| Config.Ports := Config.Ports c' |>.
Proof.
  intros Hn HG HZ. unfold ApplyEnvOverrides. cbv zeta. rewrite HG, HZ.
  assert (HO : ∀ x, override_int (Itoa n) x = n).
  { intros x. unfold override_int. destruct (String.eqb_spec (Itoa n) "") as [E|_].
    - destruct (Itoa_decimal n) as (d & [_ (a & d' & -> & _) _] & HI). rewrite HI in E.
      by destruct (n <? 0).
    - by rewrite Sscanf_Itoa. }
  destruct c as [role name addr [go gr zm me] q r dt tls].
  destruct (String.eqb (Getenv "TASCH_MASTER_ADDR") ""); simpl; by rewrite HO.
Qed.

Definition sample_env (key : string) : string :=
  if String.eqb key "TASCH_GRPC_PORT" then Itoa 6000
  else if String.eqb key "TASCH_METRICS_PORT" then "91x" else "".

Lemma env_overrides_ports_witness :
  GRPC (Config.Ports (ApplyEnvOverrides sample_env DefaultConfig)) = 6000 ∧
  GRPCAddr (ApplyEnvOverrides sample_env DefaultConfig) = "127.0.0.1:6000".
Proof.
  pose proof (env_overrides_ports sample_env DefaultConfig 6000 ltac:(unfold in_int64; lia) eq_refl eq_refl)
    as [H _].
  split; [exact H|]. unfold GRPCAddr. rewrite H. reflexivity.
Defined.
