(* ===== verification/World.v ===== *)
(** * The master's state

    [schedulerServer.t] is the struct of internal/daemon/master.go with what its
    handlers touch outside it: the cluster members gossip reports, the messages
    handed to ZeroMQ, the database, the clock, the source of UUIDs, the pending
    retry timers and the metrics.

    A handler is a computation [M World A] that runs to completion.  The mutexes
    make each of its calls into the scheduler, the tracker or the breaker
    atomic; Goroutines.v has the same handlers cut at those calls, for the
    machine that interleaves them. *)

From S2P Require Import Prelude GoStd GoJson GoTime Queue Messaging Fairshare CircuitBreaker.
From S2P Require Import Tracker Matchmaker Store Config.
#[local] Open Scope string_scope.
#[local] Open Scope list_scope.
#[local] Open Scope Z_scope.

(** [memberlist.Node]: the address is given as its String(). *)
Module Node.
Record t := mk { Name : string; Addr : string; Meta : string }.
End Node.
Abbreviation Node := Node.t.

(** [pb.LogMessage] *)
Module LogMessage.
Record t := mk { Timestamp : Z; Level : string; Message : string; JobId : string }.
End LogMessage.
Abbreviation LogMessage := LogMessage.t.

(** The updates of the Prometheus metrics (internal/daemon/metrics.go), in order. *)
Inductive metric :=
  | jobsSubmittedTotal (user : string) (n : Z)
  | jobsCompletedTotal (user status : string)
  | jobDuration (user status : string) (seconds : float64.t)
  | dispatchDuration (seconds : float64.t)
  | queueDepth (n : Z)
  | runningJobs (n : Z)
  | clusterNodes (n : Z)
  | groupsPending (n : Z)
  | walltimeKillsTotal
  | workerLostTotal.

(** A channel of [StreamLogs] and its capacity. *)
Abbreviation chan := positive.
Definition log_chan_cap : nat := 64.

Section World.
Context {C : CEL} {B : Bolt}.

Record World := mkWorld {
  disc : list Node;
  sched : GlobalScheduler;
  eval : Evaluator;
  pub : ZMQPublisher;
  fairshare : FairshareCalculator;
  store : option DB;
  cfg : Config;
  draining : bool;
  ctx_done : bool;
  cb : circuitBreaker;
  tracker : gpuTracker;
  dispatchPending : gmap string Time;
  logStore : gmap string (list LogMessage);
  logChannels : gmap string (list chan);
  chans : gmap chan (list LogMessage);
  timers : list (Time * string);
  metrics : list metric;
  clock : nat → Time;
  ticks : nat;
  uuids : nat → string;
  uuid_count : nat
}.

#[export] Instance eta_World : Eta World := λ w,
  mkWorld (disc w) (sched w) (eval w) (pub w) (fairshare w) (store w) (cfg w) (draining w)
    (ctx_done w) (cb w) (tracker w) (dispatchPending w) (logStore w) (logChannels w) (chans w)
    (timers w) (metrics w) (clock w) (ticks w) (uuids w) (uuid_count w).

(** [time.Now()] and [uuid.New().String()]: the next reading. *)
Definition time_Now : M World Time := λ w,
  Some (clock w (ticks w), w <| ticks ::= S |>).
Definition uuid_New : M World string := λ w,
  Some (uuids w (uuid_count w), w <| uuid_count ::= S |>).

Definition observe (m : metric) : M World () := modify (λ w, w <| metrics ::= λ l, l ++ [m] |>).

(** Calls on the parts of the server. *)
Definition on_queue {A} (f : GlobalScheduler → A * GlobalScheduler) : M World A := λ w,
  let '(a, gs) := f (sched w) in Some (a, w <| sched := gs |>).
Definition on_queue_ (f : GlobalScheduler → GlobalScheduler) : M World () :=
  modify (λ w, w <| sched ::= f |>).
Definition on_tracker (f : gpuTracker → gpuTracker) : M World () :=
  modify (λ w, w <| tracker ::= f |>).
Definition on_cb {A} (f : circuitBreaker → A * circuitBreaker) : M World A := λ w,
  let '(a, b) := f (cb w) in Some (a, w <| cb := b |>).

Definition queue_Cancel (jobID : string) : M World (option Job * bool) :=
  now ← time_Now; on_queue (Cancel now jobID).
Definition queue_MarkRunning (jobID node : string) : M World () :=
  now ← time_Now; on_queue_ (MarkRunning now jobID node).
Definition queue_MarkCompleted (jobID : string) (success : bool) (output errMsg : string) : M World () :=
  now ← time_Now; on_queue_ (MarkCompleted now jobID success output errMsg).
Definition queue_GetJob (jobID : string) : M World (option Job) := gets (λ w, GetJob jobID (sched w)).

Definition Release_job (job : Job) (node : string) : M World () :=
  on_tracker (Release node (Job.GPUsRequired job) (Job.CPUsRequired job) (Job.MemoryRequiredMB job)).

Definition cb_IsBlocked (node : string) : M World bool :=
  now ← time_Now; on_cb (IsBlocked now node).

Definition eval_Match (expression adJSON : string) : M World (bool * option string) := λ w,
  let '(r, e) := Match expression adJSON (eval w) in Some (r, w <| eval := e |>).

Definition pub_Send (p : DispatchPayload) : M World () :=
  modify (λ w, w <| pub ::= Send (MarshalPayload p) |>).

(** The payload that tells a worker to kill a job. *)
Definition cancel_payload (node jobID : string) : DispatchPayload :=
  DispatchPayload.zero <| DispatchPayload.TargetNode := node |> <| DispatchPayload.JobID := jobID |>
    <| DispatchPayload.Action := "cancel" |>.

(** A non-blocking send: dropped when the buffer is full. *)
Definition try_send (entry : LogMessage) (ch : chan) (cs : gmap chan (list LogMessage)) :
    gmap chan (list LogMessage) :=
  alter (λ buf, if (length buf <? log_chan_cap)%nat then buf ++ [entry] else buf) ch cs.

Definition appendLog (jobID level msg : string) : M World () :=
  now ← time_Now;
  let entry := LogMessage.mk (UnixMilli now) level msg jobID in
  modify (λ w, w <| logStore ::= λ ls, <[jobID := default [] (ls !! jobID) ++ [entry]]> ls |>);;
  modify (λ w, w <| chans ::= λ cs,
    fold_left (λ cs ch, try_send entry ch cs) (default [] (logChannels w !! jobID)) cs |>).
End World.
Arguments World {_ _}.
