(* ===== verification/Server.v ===== *)
(** * internal/daemon/master.go: the gRPC handlers

    One definition per handler of [schedulerServer]; the error of a handler is
    its gRPC status.  Printing to the console is left out. *)

From S2P Require Import Prelude GoStd GoJson GoTime Queue Messaging Fairshare CircuitBreaker.
From S2P Require Import Tracker Matchmaker Store Config GoRegexp World.
#[local] Open Scope string_scope.
#[local] Open Scope list_scope.
#[local] Open Scope Z_scope.

Inductive code := Unavailable | ResourceExhausted | Internal.

(** A response or a status error. *)
Abbreviation reply A := (A + (code * string))%type.

(** ** Messages of api/v1/scheduler.proto *)

Record SubmitJobRequest := {
  sj_CelRequirement : string; sj_Command : string; sj_Priority : Z; sj_User : string;
  sj_WalltimeSeconds : Z; sj_GpusRequired : Z; sj_EnvVars : strmap
}.
Record SubmitJobResponse := { sjr_JobId : string; sjr_Status : string }.

Record SubmitDistributedJobRequest := {
  sd_CelRequirement : string; sd_Command : string; sd_NumNodes : Z; sd_GpusPerNode : Z;
  sd_Priority : Z; sd_User : string; sd_WalltimeSeconds : Z; sd_MasterPort : Z; sd_EnvVars : strmap
}.
Record SubmitDistributedJobResponse := {
  sdr_GroupId : string; sdr_JobIds : list string; sdr_Status : string
}.

Record CancelJobResponse := { cj_JobId : string; cj_Status : string; cj_Message : string }.

Record GetJobStatusResponse := {
  gs_JobId : string; gs_State : string; gs_WorkerNode : string; gs_Command : string;
  gs_Output : string; gs_Error : string; gs_SubmitTime : Z; gs_StartTime : Z; gs_EndTime : Z;
  gs_GroupId : string
}.

Record JobInfo := {
  ji_JobId : string; ji_State : string; ji_Command : string; ji_Requirement : string;
  ji_WorkerNode : string; ji_Priority : Z; ji_User : string; ji_SubmitTime : Z; ji_GroupId : string
}.

Record ReportResultRequest := {
  rr_JobId : string; rr_WorkerNode : string; rr_Success : bool; rr_Output : string;
  rr_Error : string
}.

Section Handlers.
Context {C : CEL} {B : Bolt} `{GoArch} `{Zone} `{MapOrder}.

Definition WorkerStatus : M World (gmap string string) := gets (λ w,
  fold_left (λ nodes member,
    if (0 <? String.length (Node.Meta member))%nat
    then <[Node.Name member := Node.Meta member]> nodes else nodes) (disc w) ∅).

Definition default_priority (p : Z) : Z := if p =? 0 then 10 else p.
Definition default_user (u : string) : string := if String.eqb u "" then "anonymous" else u.

(** The job SubmitJob enqueues. *)
Definition submitted_job (req : SubmitJobRequest) (jobID user : string) (effectivePriority retries : Z)
    (now : Time) : Job :=
  let '(cpus, mem) := parseCELRequirement (sj_CelRequirement req) in
  Job.zero
    <| Job.ID := jobID |> <| Job.Requirement := sj_CelRequirement req |>
    <| Job.Command := sj_Command req |> <| Job.SubmitTime := now |>
    <| Job.Priority := effectivePriority |> <| Job.User := user |>
    <| Job.WalltimeSeconds := sj_WalltimeSeconds req |>
    <| Job.GPUsRequired := sj_GpusRequired req |>
    <| Job.CPUsRequired := cpus |> <| Job.MemoryRequiredMB := mem |>
    <| Job.EnvVars := sj_EnvVars req |> <| Job.MaxRetries := retries |>.

Definition SubmitJob (req : SubmitJobRequest) : M World (reply SubmitJobResponse) :=
  drain ← gets draining;
  if drain : bool
  then mret (inr (Unavailable, "master is draining, not accepting new jobs"))
  else
    id ← uuid_New;
    let jobID := String.substring 0 8 id in
    let priority := default_priority (sj_Priority req) in
    let user := default_user (sj_User req) in
    penalty ← gets (λ w, CalculatePenalty user (fairshare w));
    let effectivePriority := priority +ᵢ penalty in
    now ← time_Now;
    retries ← gets (λ w, Config.MaxRetries (cfg w));
    let job := submitted_job req jobID user effectivePriority retries now in
    l ← on_queue (new_job job);
    err ← on_queue (Enqueue l);
    match err with
    | Some e => mret (inr (ResourceExhausted, "queue full: " +:+ e))
    | None =>
        observe (jobsSubmittedTotal user 1);;
        appendLog jobID "INFO" ("Job queued | Priority: " +:+ Itoa effectivePriority +:+
          " | GPUs: " +:+ Itoa (sj_GpusRequired req) +:+ " | Retries: " +:+ Itoa retries +:+
          " | Expr: '" +:+ sj_CelRequirement req +:+ "'");;
        mret (inl {| sjr_JobId := jobID; sjr_Status := "QUEUED" |})
    end.

(** The environment of one rank. *)
Definition rank_env (req : SubmitDistributedJobRequest) (rank numNodes masterPort gpusPerNode : Z) :
    gmap string string :=
  <["NPROC_PER_NODE" := Itoa gpusPerNode]> (<["LOCAL_RANK" := "0"]>
    (<["MASTER_PORT" := Itoa masterPort]> (<["WORLD_SIZE" := Itoa numNodes]>
      (<["RANK" := Itoa rank]> (default ∅ (sd_EnvVars req)))))).

Definition rank_job (req : SubmitDistributedJobRequest) (jobID groupID user : string)
    (rank priority numNodes masterPort : Z) (now : Time) : Job :=
  let '(cpus, mem) := parseCELRequirement (sd_CelRequirement req) in
  Job.zero
    <| Job.ID := jobID |> <| Job.GroupID := groupID |>
    <| Job.Requirement := sd_CelRequirement req |> <| Job.Command := sd_Command req |>
    <| Job.SubmitTime := now |> <| Job.Priority := priority |> <| Job.User := user |>
    <| Job.WalltimeSeconds := sd_WalltimeSeconds req |>
    <| Job.GPUsRequired := sd_GpusPerNode req |>
    <| Job.CPUsRequired := cpus |> <| Job.MemoryRequiredMB := mem |>
    <| Job.EnvVars := Some (rank_env req rank numNodes masterPort (sd_GpusPerNode req)) |>
    <| Job.MaxRetries := 0 |>.

(** [for rank := ...; rank < numNodes; rank++]; the IDs queued so far, and the
    error that ended the loop. *)
Fixpoint submit_ranks (n : nat) (rank : Z) (req : SubmitDistributedJobRequest)
    (groupID user : string) (priority numNodes masterPort : Z) (jobIDs : list string) :
    M World (list string + string) :=
  match n with
  | O => mret (inl jobIDs)
  | S n =>
      let jobID := groupID +:+ "-r" +:+ Itoa rank in
      now ← time_Now;
      let job := rank_job req jobID groupID user rank priority numNodes masterPort now in
      l ← on_queue (new_job job);
      err ← on_queue (Enqueue l);
      match err with
      | Some e => mret (inr e)
      | None =>
          appendLog jobID "INFO" ("Distributed job rank " +:+ Itoa rank +:+ "/" +:+ Itoa numNodes +:+
            " queued in group " +:+ groupID);;
          submit_ranks n (rank +ᵢ 1) req groupID user priority numNodes masterPort (jobIDs ++ [jobID])
      end
  end.

Definition SubmitDistributedJob (req : SubmitDistributedJobRequest) :
    M World (reply SubmitDistributedJobResponse) :=
  drain ← gets draining;
  if drain : bool then mret (inr (Unavailable, "master is draining"))
  else
    id ← uuid_New;
    let groupID := "dj-" +:+ String.substring 0 8 id in
    let masterPort := if sd_MasterPort req =? 0 then 29500 else sd_MasterPort req in
    let priority := default_priority (sd_Priority req) in
    let user := default_user (sd_User req) in
    let numNodes := if sd_NumNodes req <? 1 then 1 else sd_NumNodes req in
    ranks ← submit_ranks (Z.to_nat numNodes) 0 req groupID user priority numNodes masterPort [];
    match ranks with
    | inr e => mret (inr (ResourceExhausted, "queue full: " +:+ e))
    | inl jobIDs =>
        now ← time_Now;
        g ← on_queue (new_group (JobGroup.mk groupID jobIDs numNodes (sd_GpusPerNode req)
          masterPort "PENDING" now));
        on_queue_ (RegisterGroup g);;
        observe (jobsSubmittedTotal user numNodes);;
        mret (inl {| sdr_GroupId := groupID; sdr_JobIds := jobIDs; sdr_Status := "QUEUED" |})
    end.

(** Give back what a cancelled job holds and tell its worker. *)
Definition release_and_kill (job : Job) : M World () :=
  when (negb (String.eqb (Job.WorkerNode job) "")) (Release_job job (Job.WorkerNode job));;
  when (negb (String.eqb (Job.WorkerNode job) ""))
    (pub_Send (cancel_payload (Job.WorkerNode job) (Job.ID job))).

Definition CancelJob (jobId : string) : M World CancelJobResponse :=
  '(job, ok) ← queue_Cancel jobId;
  match ok, job with
  | false, Some j =>
      mret {| cj_JobId := jobId; cj_Status := Job.State j; cj_Message := "Already " +:+ Job.State j |}
  | false, None =>
      mret {| cj_JobId := jobId; cj_Status := "NOT_FOUND"; cj_Message := "Job not found" |}
  | true, None => panic
  | true, Some j =>
      release_and_kill j;;
      appendLog jobId "INFO" "Job cancelled by user";;
      mret {| cj_JobId := jobId; cj_Status := "CANCELLED"; cj_Message := "Cancelled" |}
  end.

Definition job_status (j : Job) : GetJobStatusResponse := {|
  gs_JobId := Job.ID j; gs_State := Job.State j; gs_WorkerNode := Job.WorkerNode j;
  gs_Command := Job.Command j; gs_Output := Job.Output j; gs_Error := Job.Error j;
  gs_SubmitTime := Unix (Job.SubmitTime j);
  gs_StartTime := if IsZero (Job.StartTime j) then 0 else Unix (Job.StartTime j);
  gs_EndTime := if IsZero (Job.EndTime j) then 0 else Unix (Job.EndTime j);
  gs_GroupId := Job.GroupID j
|}.

Definition not_found_status (jobId : string) : GetJobStatusResponse := {|
  gs_JobId := jobId; gs_State := "NOT_FOUND"; gs_WorkerNode := ""; gs_Command := "";
  gs_Output := ""; gs_Error := ""; gs_SubmitTime := 0; gs_StartTime := 0; gs_EndTime := 0;
  gs_GroupId := ""
|}.

Definition GetJobStatus (jobId : string) : M World GetJobStatusResponse := gets (λ w,
  match GetJob jobId (sched w) with
  | Some job => job_status job
  | None =>
      match store w with
      | None => not_found_status jobId
      | Some d =>
          match store_GetJob jobId d with
          | Some j => job_status j
          | None =>
              match GetDeadLetter jobId d with
              | Some j => job_status j
              | None => not_found_status jobId
              end
          end
      end
  end).

Definition job_info (j : Job) : JobInfo := {|
  ji_JobId := Job.ID j; ji_State := Job.State j; ji_Command := Job.Command j;
  ji_Requirement := Job.Requirement j; ji_WorkerNode := Job.WorkerNode j;
  ji_Priority := int32 (Job.Priority j); ji_User := Job.User j;
  ji_SubmitTime := Unix (Job.SubmitTime j); ji_GroupId := Job.GroupID j
|}.

(** The handler; LoadDeadLetters fails only when the database does. *)
Definition server_ListJobs (filter : string) : M World (list JobInfo) := gets (λ w,
  let stateFilter := ToUpper filter in
  if String.eqb stateFilter "DEAD_LETTER" then
    match store w with
    | Some d => map job_info (LoadDeadLetters d)
    | None => []
    end
  else map job_info (ListJobs stateFilter (sched w))).

(** ** StreamLogs

    The handler replays the stored entries, then registers a channel, then
    forwards what arrives; the three phases are separate steps because other
    goroutines run between them. *)

Definition StreamLogs_replay (jobID : string) : M World (list LogMessage) :=
  gets (λ w, default [] (logStore w !! jobID)).

Definition StreamLogs_subscribe (jobID : string) : M World chan := λ w,
  let ch := fresh (dom (chans w)) in
  Some (ch, w <| chans ::= <[ch := []]> |>
              <| logChannels ::= λ m, <[jobID := default [] (m !! jobID) ++ [ch]]> m |>).

Definition StreamLogs_recv (ch : chan) : M World (option LogMessage) := λ w,
  match chans w !! ch with
  | Some (entry :: rest) => Some (Some entry, w <| chans ::= <[ch := rest]> |>)
  | _ => Some (None, w)
  end.

Fixpoint remove_first (ch : chan) (l : list chan) : list chan :=
  match l with
  | [] => []
  | c :: l' => if decide (c = ch) then l' else c :: remove_first ch l'
  end.

Definition StreamLogs_close (jobID : string) (ch : chan) : M World () := modify (λ w,
  w <| logChannels ::= λ m, <[jobID := remove_first ch (default [] (m !! jobID))]> m |>
    <| chans ::= delete ch |>).

(** ** ReportResult *)

Definition truncate (s : string) (maxLen : nat) : string :=
  if (String.length s <=? maxLen)%nat then s else String.substring 0 maxLen s +:+ "...".

Fixpoint all_done (ids : list string) (gs : GlobalScheduler) : bool :=
  match ids with
  | [] => true
  | jid :: ids =>
      match GetJob jid gs with
      | None => all_done ids gs
      | Some j =>
          if String.eqb (Job.State j) StateQueued || String.eqb (Job.State j) StateRunning
          then false else all_done ids gs
      end
  end.

Definition handleGroupCompletion (groupID completedJobID : string) (success : bool) : M World () :=
  group ← gets (λ w, GetGroup groupID (sched w));
  match group with
  | None => mret tt
  | Some group =>
      if String.eqb (JobGroup.State group) "COMPLETED" || String.eqb (JobGroup.State group) "FAILED"
      then mret tt
      else if negb success then
        for_each (JobGroup.JobIDs group) (λ jid,
          if String.eqb jid completedJobID then mret tt
          else
            '(job, ok) ← queue_Cancel jid;
            match ok, job with
            | true, Some job => release_and_kill job
            | _, _ => mret tt
            end);;
        on_queue_ (SetGroupState groupID "FAILED")
      else
        allDone ← gets (λ w, all_done (JobGroup.JobIDs group) (sched w));
        when allDone (on_queue_ (SetGroupState groupID "COMPLETED"))
  end.

(** A failure that is the job's own doing, not the node's. *)
Definition isUserError (err : string) : bool :=
  HasPrefix err "exit status" || String.eqb err "cancelled" || Contains err "walltime exceeded".

Definition record_outcome (req : ReportResultRequest) : M World () :=
  if rr_Success req then modify (λ w, w <| cb ::= RecordSuccess (rr_WorkerNode req) |>)
  else when (negb (isUserError (rr_Error req)))
    (now ← time_Now;
     modify (λ w, w <| cb ::= RecordFailure now (rr_WorkerNode req) (rr_JobId req) |>)).

(** [time.Duration(n*n*10) * time.Second] *)
Definition retry_backoff (nextRetryCount : Z) : Duration :=
  (nextRetryCount *ᵢ nextRetryCount *ᵢ 10) *ᵢ Second.

Definition schedule_retry (jobID : string) (job : Job) : M World () :=
  let nextRetryCount := Job.RetryCount job +ᵢ 1 in
  let backoff := retry_backoff nextRetryCount in
  appendLog jobID "WARN" ("Retry " +:+ Itoa nextRetryCount +:+ "/" +:+ Itoa (Job.MaxRetries job) +:+
    " in " +:+ Duration_String backoff);;
  now ← time_Now;
  modify (λ w, w <| timers ::= λ l, l ++ [(Add now backoff, jobID)] |>).

Definition dead_letter (jobID : string) (job : Job) : M World () := λ w,
  match store w with
  | None => Some (tt, w)
  | Some d =>
      appendLog jobID "ERROR" ("All " +:+ Itoa (Job.MaxRetries job) +:+
        " retries exhausted, moved to dead letter queue")
        (w <| store := Some (default d (SaveDeadLetter job d)) |>)
  end.

Definition ReportResult (req : ReportResultRequest) : M World () :=
  queue_MarkCompleted (rr_JobId req) (rr_Success req) (rr_Output req) (rr_Error req);;
  found ← queue_GetJob (rr_JobId req);
  match found with
  | None => mret tt
  | Some job =>
      when (negb (String.eqb (Job.WorkerNode job) "")) (Release_job job (Job.WorkerNode job));;
      record_outcome req;;
      let dur := Seconds (Sub (Job.EndTime job) (Job.StartTime job)) in
      when (float64.ltb float64.zero dur)
        (modify (λ w, w <| fairshare ::= RecordUsage (Job.User job) dur |>));;
      if negb (rr_Success req) && String.eqb (Job.GroupID job) "" &&
         (Job.RetryCount job <? Job.MaxRetries job)
      then schedule_retry (rr_JobId req) job
      else
        when (negb (rr_Success req) && (Job.MaxRetries job <=? Job.RetryCount job) &&
              (0 <? Job.MaxRetries job)) (dead_letter (rr_JobId req) job);;
        when (negb (String.eqb (Job.GroupID job) ""))
          (handleGroupCompletion (Job.GroupID job) (rr_JobId req) (rr_Success req));;
        let resultStatus := if rr_Success req then "COMPLETED" else "FAILED" in
        observe (jobsCompletedTotal (Job.User job) resultStatus);;
        when (float64.ltb float64.zero dur) (observe (jobDuration (Job.User job) resultStatus dur));;
        appendLog (rr_JobId req) "INFO" ("Job " +:+ resultStatus +:+ " on worker " +:+
          rr_WorkerNode req +:+ " | Output: " +:+ truncate (rr_Output req) 200);;
        when (negb (String.eqb (rr_Error req) "")) (appendLog (rr_JobId req) "ERROR" (rr_Error req))
  end.

(** The goroutine of the [i]th pending retry: a select between its timer and the
    end of the master's context.  When both are ready Go picks either one:
    [stop] says which. *)
Definition retry_fire (i : nat) (stop : bool) : M World () :=
  pending ← gets (λ w, timers w !! i);
  match pending with
  | None => mret tt
  | Some (deadline, jobID) =>
      ended ← gets ctx_done;
      now ← time_Now;
      if ended && stop then modify (λ w, w <| timers ::= delete i |>)
      else if Before now deadline then mret tt
      else
        modify (λ w, w <| timers ::= delete i |>);;
        on_queue (Requeue jobID true);; mret tt
  end.
End Handlers.
