(* ===== verification/Dispatch.v ===== *)
(** * internal/daemon/master.go: the scheduling loops

    One turn of [dispatchLoop], [walltimeEnforcer] and [dispatchTimeoutEnforcer],
    what they call, and the HTTP handlers. *)

From S2P Require Import Prelude GoStd GoJson GoTime Queue Messaging Fairshare CircuitBreaker.
From S2P Require Import Tracker Matchmaker Store Config World Server.
#[local] Open Scope string_scope.
#[local] Open Scope list_scope.
#[local] Open Scope Z_scope.

Definition gangTimeout : Duration := 5 * Minute.

Section Dispatch.
Context {C : CEL} {B : Bolt} `{GoArch} `{Zone} `{MapOrder}.

Definition nodeGPUCount (memberMeta : string) : Z :=
  match Unmarshal_map memberMeta with
  | (ad, true) => int_of_float (get_float ad "gpu_count")
  | (_, false) => 0
  end.

Definition nodeMatchesGPU (memberMeta : string) (gpusRequired : Z) : bool :=
  if gpusRequired <=? 0 then true else gpusRequired <=? nodeGPUCount memberMeta.

(** One resource: the advertised total and what the tracker leaves free both
    cover the request. *)
Definition enough (ad : option (gmap string json)) (key : string) (required : Z)
    (available : Z → Z) : bool :=
  if 0 <? required then
    let total := int_of_float (get_float ad key) in
    negb (total <? required) && negb (available total <? required)
  else true.

Definition canDispatchResources (gt : gpuTracker) (member : Node) (job : Job) : bool :=
  let ad := if (0 <? String.length (Node.Meta member))%nat
            then (Unmarshal_map (Node.Meta member)).1 else None in
  enough ad "gpu_count" (Job.GPUsRequired job)
    (λ total, AvailableGPUs (Node.Name member) total gt) &&
  enough ad "cpu_cores" (Job.CPUsRequired job)
    (λ total, AvailableCPUs (Node.Name member) total gt) &&
  enough ad "total_memory_mb" (Job.MemoryRequiredMB job)
    (λ total, AvailableMemory (Node.Name member) total gt).

(** ** dispatchJob *)

Definition set_default (k v : string) (m : gmap string string) : gmap string string :=
  match m !! k with Some _ => m | None => <[k := v]> m end.

(** ["0,1,...,n-1"] *)
Definition device_list (n : Z) : string :=
  Join (map (λ i, Itoa (Z.of_nat i)) (seq 0 (Z.to_nat n))) ",".

Definition gpu_vendor (members : list Node) (nodeName : string) : string :=
  match List.find (λ m, String.eqb (Node.Name m) nodeName && (0 <? String.length (Node.Meta m))%nat)
          members with
  | None => ""
  | Some m =>
      match Unmarshal_map (Node.Meta m) with
      | (ad, true) => default "" (get_string ad "gpu_vendor")
      | (_, false) => ""
      end
  end.

(** The variables that pin the devices; the user's own settings win. *)
Definition gpu_env (vendor : string) (gpus : Z) (env : gmap string string) : gmap string string :=
  if String.eqb vendor "intel" then
    let val := "level_zero:" +:+ device_list gpus in
    set_default "SYCL_DEVICE_FILTER" val (set_default "ONEAPI_DEVICE_SELECTOR" val env)
  else if String.eqb vendor "apple" then
    set_default "METAL_DEVICE_INDEX" (device_list gpus) env
  else
    set_default (if String.eqb vendor "amd" then "HIP_VISIBLE_DEVICES" else "CUDA_VISIBLE_DEVICES")
      (device_list gpus) env.

Definition dispatchJob (job : Job) (nodeName : string) : M World () :=
  dispatchStart ← time_Now;
  queue_MarkRunning (Job.ID job) nodeName;;
  now ← time_Now;
  modify (λ w, w <| dispatchPending ::= <[Job.ID job := now]> |>);;
  on_tracker (Allocate nodeName (Job.GPUsRequired job) (Job.CPUsRequired job) (Job.MemoryRequiredMB job));;
  members ← gets disc;
  let envVars := default ∅ (Job.EnvVars job) in
  let envVars :=
    if 0 <? Job.GPUsRequired job
    then gpu_env (gpu_vendor members nodeName) (Job.GPUsRequired job) envVars
    else envVars in
  pub_Send (DispatchPayload.mk nodeName (Job.ID job) (Job.Command job) (Job.WalltimeSeconds job)
    "execute" (Some envVars));;
  finished ← time_Now;
  observe (dispatchDuration (Seconds (Sub finished dispatchStart)));;
  appendLog (Job.ID job) "INFO" ("Dispatched to node " +:+ nodeName).

(** ** Gang scheduling *)

(** The first member that can take [job], of those not used yet. *)
Fixpoint find_member (job : Job) (usedNodes : gset string) (members : list Node) :
    M World (option Node) :=
  match members with
  | [] => mret None
  | member :: members =>
      if decide (Node.Name member ∈ usedNodes) then find_member job usedNodes members
      else if (String.length (Node.Meta member) =? 0)%nat then find_member job usedNodes members
      else
        blocked ← cb_IsBlocked (Node.Name member);
        if blocked : bool then find_member job usedNodes members
        else
          gt ← gets tracker;
          if negb (canDispatchResources gt member job) then find_member job usedNodes members
          else
            '(m, err) ← eval_Match (Job.Requirement job) (Node.Meta member);
            match err with
            | None => if m : bool then mret (Some member) else find_member job usedNodes members
            | Some _ => find_member job usedNodes members
            end
  end.

(** A member for each job, all different; [None] when some job finds none. *)
Fixpoint match_members (queuedJobs : list Job) (usedNodes : gset string) (members : list Node) :
    M World (option (list Node)) :=
  match queuedJobs with
  | [] => mret (Some [])
  | job :: jobs =>
      found ← find_member job usedNodes members;
      match found with
      | None => mret None
      | Some member =>
          rest ← match_members jobs ({[Node.Name member]} ∪ usedNodes) members;
          mret (match rest with Some l => Some (member :: l) | None => None end)
      end
  end.

Definition queued_ranks (ids : list string) (gs : GlobalScheduler) : list Job :=
  omap (λ jid,
    match GetJob jid gs with
    | Some job => if String.eqb (Job.State job) StateQueued then Some job else None
    | None => None
    end) ids.

(** The loop over the matched ranks.  Writing to a nil environment panics. *)
Fixpoint dispatch_ranks (i : Z) (jobs : list Job) (nodes : list Node) (rank0Addr : string) :
    M World () :=
  match jobs, nodes with
  | job :: jobs, node :: nodes =>
      match Job.EnvVars job with
      | None => panic
      | Some env =>
          let job := job <| Job.EnvVars := Some (<["MASTER_ADDR" := rank0Addr]> env) |> in
          on_queue (RemoveByID (Job.ID job));;
          dispatchJob job (Node.Name node);;
          appendLog (Job.ID job) "INFO" ("Gang-scheduled: rank " +:+ Itoa i +:+
            " " +:+ String (byte 226) (String (byte 134) (String (byte 146) " ")) +:+
            Node.Name node +:+ " (master=" +:+ rank0Addr +:+ ")");;
          dispatch_ranks (i +ᵢ 1) jobs nodes rank0Addr
      end
  | [], _ => mret tt
  | _ :: _, [] => panic
  end.

Definition tryDispatchGroup (group : JobGroup) : M World () :=
  queuedJobs ← gets (λ w, queued_ranks (JobGroup.JobIDs group) (sched w));
  if negb (Z.of_nat (length queuedJobs) =? JobGroup.NumNodes group) then mret tt
  else
    members ← gets disc;
    matched ← match_members queuedJobs ∅ members;
    match matched with
    | None => mret tt
    | Some [] => panic
    | Some ((m0 :: _) as nodes) =>
        dispatch_ranks 0 queuedJobs nodes (Node.Addr m0);;
        on_queue_ (SetGroupState (JobGroup.GroupID group) "RUNNING")
    end.

(** ** One turn of dispatchLoop *)

Definition expire_group (group : JobGroup) : M World () :=
  for_each (JobGroup.JobIDs group) (λ jid,
    queue_Cancel jid;;
    appendLog jid "ERROR" ("Gang group timed out waiting for " +:+ Itoa (JobGroup.NumNodes group) +:+
      " nodes"));;
  on_queue_ (SetGroupState (JobGroup.GroupID group) "FAILED").

Definition gang_phase : M World () :=
  groups ← gets (λ w, PendingGroups (sched w));
  for_each groups (λ group,
    if IsZero (JobGroup.CreatedAt group) then tryDispatchGroup group
    else
      now ← time_Now;
      if gangTimeout <? Sub now (JobGroup.CreatedAt group)
      then expire_group group else tryDispatchGroup group).

(** May [job] go to [member]: the predicate handed to Backfill. *)
Definition backfill_match (member : Node) (job : Job) : M World bool :=
  if negb (String.eqb (Job.GroupID job) "") then mret false
  else
    gt ← gets tracker;
    if negb (canDispatchResources gt member job) then mret false
    else
      '(m, err) ← eval_Match (Job.Requirement job) (Node.Meta member);
      mret (match err with None => m | Some _ => false end).

Definition queue_Backfill (member : Node) : M World (option Job) :=
  gs ← gets sched;
  '(job, gs) ← Backfill (backfill_match member) gs;
  modify (λ w, w <| sched := gs |>);; mret job.

Fixpoint backfill_phase (members : list Node) : M World () :=
  match members with
  | [] => mret tt
  | member :: members =>
      if (String.length (Node.Meta member) =? 0)%nat then backfill_phase members
      else
        blocked ← cb_IsBlocked (Node.Name member);
        if blocked : bool then backfill_phase members
        else
          found ← queue_Backfill member;
          match found with
          | None => backfill_phase members
          | Some job =>
              appendLog (Job.ID job) "INFO" ("Backfilled onto " +:+ Node.Name member);;
              dispatchJob job (Node.Name member)
          end
  end.

Definition update_gauges : M World () :=
  gs ← gets sched; members ← gets disc;
  observe (queueDepth (Z.of_nat (QueueLen gs)));;
  observe (runningJobs (Z.of_nat (length (RunningJobs gs))));;
  observe (clusterNodes (Z.of_nat (length members)));;
  observe (groupsPending (Z.of_nat (length (PendingGroups gs)))).

Definition dispatch_tick : M World () :=
  update_gauges;;
  gang_phase;;
  top ← gets (λ w, Peek (sched w));
  match top with
  | None => mret tt
  | Some topJob =>
      if negb (String.eqb (Job.GroupID topJob) "") then mret tt
      else
        members ← gets disc;
        selected ← find_member topJob ∅ members;
        let selectedNode := match selected with Some member => Node.Name member | None => "" end in
        if negb (String.eqb selectedNode "") then
          job ← on_queue Dequeue;
          match job with
          | Some job => dispatchJob job selectedNode
          | None => mret tt
          end
        else backfill_phase members
  end.

(** ** The enforcers *)

Definition walltime_tick : M World () :=
  jobs ← gets (λ w, RunningJobs (sched w));
  for_each jobs (λ job,
    if Job.WalltimeSeconds job <=? 0 then mret tt
    else
      now ← time_Now;
      when (After now (Add (Job.StartTime job) (Job.WalltimeSeconds job *ᵢ Second)))
        (observe walltimeKillsTotal;;
         queue_Cancel (Job.ID job);;
         when (negb (String.eqb (Job.WorkerNode job) "")) (Release_job job (Job.WorkerNode job));;
         pub_Send (cancel_payload (Job.WorkerNode job) (Job.ID job));;
         appendLog (Job.ID job) "WARN" ("Walltime exceeded (" +:+ Itoa (Job.WalltimeSeconds job) +:+ "s)"))).

Definition timed_out (now : Time) (pending : gmap string Time) : list string :=
  omap (λ '(jobID, dispatchedAt),
    if 10 * Second <? Sub now dispatchedAt then Some jobID else None) (range pending).

Definition dispatch_timeout_tick : M World () :=
  now ← time_Now;
  ids ← gets (λ w, timed_out now (dispatchPending w));
  modify (λ w, w <| dispatchPending ::= λ p, fold_left (λ p id, delete id p) ids p |>);;
  for_each ids (λ jobID,
    found ← queue_GetJob jobID;
    match found with
    | None => mret tt
    | Some job =>
        if negb (String.eqb (Job.State job) StateRunning) then mret tt
        else
          appendLog jobID "WARN" "Dispatch handshake timed out, re-queueing";;
          '(_, requeued) ← on_queue (RequeueRunningJob jobID);
          when (requeued && negb (String.eqb (Job.WorkerNode job) ""))
            (Release_job job (Job.WorkerNode job))
    end).

(** ** HTTP handlers *)

Definition job_id_field : list (string * (json → string → option string)) := [("job_id", dec_string)].

(** The first JSON value of the body. *)
Definition decode_body (body : string) : option string :=
  '(v, _) ← parse_value (S (String.length body)) 0 (runes body);
  decode_struct job_id_field v "".

(** The status and the body of the response. *)
Definition acknowledge_start (method body : string) : M World (Z * string) :=
  if negb (String.eqb method "POST") then mret (405, "")
  else
    match decode_body body with
    | None => mret (400, print (JObj [("error", JStr "invalid request")]))
    | Some jobID =>
        if String.eqb jobID "" then mret (400, print (JObj [("error", JStr "invalid request")]))
        else
          exists_ ← gets (λ w, bool_decide (is_Some (dispatchPending w !! jobID)));
          if exists_ : bool then
            modify (λ w, w <| dispatchPending ::= delete jobID |>);;
            mret (200, print (JObj [("status", JStr "acknowledged")]))
          else mret (404, print (JObj [("status", JStr "not_found")]))
    end.

Definition ready : M World (Z * json) := gets (λ w,
  if (length (disc w) =? 0)%nat
  then (503, JObj [("status", JStr "not_ready"); ("reason", JStr "no cluster members")])
  else (200, JObj [("draining", JBool (draining w)); ("members", JInt (Z.of_nat (length (disc w))));
                   ("queue_depth", JInt (Z.of_nat (QueueLen (sched w)))); ("status", JStr "ready")])).
End Dispatch.
