(* ===== verification/Master.v ===== *)
(** * internal/daemon/master.go: StartMaster and the running master

    The state StartMaster builds from the database, the goroutines it starts,
    and the master as a transition system: a step is one handler call, one turn
    of a loop, one expired retry timer, one membership event or one write of the
    database goroutine. *)

From S2P Require Import Prelude GoStd GoJson GoTime Queue Messaging Fairshare CircuitBreaker.
From S2P Require Import Tracker Matchmaker Store Config World Server Dispatch.
#[local] Open Scope string_scope.
#[local] Open Scope list_scope.
#[local] Open Scope Z_scope.

Section Master.
Context {C : CEL} {B : Bolt} `{GoArch} `{Zone} `{MapOrder}.

(** ** Restoring the state

    Only the database, the queue and the calculator exist at this point; the
    hooks are installed before the restore. *)

Definition db_save_job (job : Job) (d : DB) : DB := default d (SaveJob job d).
Definition db_save_group (g : JobGroup) (d : DB) : DB := default d (SaveGroup g d).

Definition restore_job (now : Time) (job : Job) (s : GlobalScheduler * DB) : GlobalScheduler * DB :=
  let '(gs, d) := s in
  if String.eqb (Job.State job) StateQueued then
    let '(l, gs) := new_job job gs in
    ((Enqueue l gs).2, d)
  else if String.eqb (Job.State job) StateRunning then
    (gs, db_save_job (job <| Job.State := StateFailed |> <| Job.Error := "master restarted" |>
                          <| Job.EndTime := now |>) d)
  else (gs, d).

Definition restore_group (g : JobGroup) (s : GlobalScheduler * DB) : GlobalScheduler * DB :=
  let '(gs, d) := s in
  let active := String.eqb (JobGroup.State g) "PENDING" || String.eqb (JobGroup.State g) "RUNNING" in
  let g := if active then g <| JobGroup.State := "FAILED" |> else g in
  let d := if active then db_save_group g d else d in
  let '(l, gs) := new_group g gs in
  (RegisterGroup l gs, d).

(** [times] are the readings of the clock for the jobs, in order. *)
Definition restore (times : nat → Time) (cfg : Config) (d : DB) :
    GlobalScheduler * FairshareCalculator * DB :=
  let gs := NewGlobalScheduler <| GlobalScheduler.MaxQueueSize := Config.MaxQueueSize cfg |>
    <| GlobalScheduler.OnJobChange := true |> <| GlobalScheduler.OnGroupChange := true |> in
  let '(gs, d) := foldl (λ s '(i, job), restore_job (times i) job s) (gs, d)
    (imap (λ i j, (i, j)) (LoadJobs d)) in
  let '(gs, d) := foldl (λ s g, restore_group g s) (gs, d) (LoadGroups d) in
  let fs := match LoadFairshare d with
    | Some usage => if decide (usage = ∅) then NewFairshareCalculator
                    else FairshareCalculator.mk usage
    | None => NewFairshareCalculator
    end in
  (gs, fs, d).

(** The master after StartMaster: nothing is dispatched, blocked or logged yet. *)
Definition StartMaster (times : nat → Time) (cfg : Config) (d : DB)
    (clock : nat → Time) (uuids : nat → string) : World :=
  let '(gs, fs, d) := restore times cfg d in
  mkWorld [] gs NewEvaluator (ZMQPublisher.mk []) fs (Some d) cfg false false newCircuitBreaker
    newGPUTracker ∅ ∅ ∅ ∅ [] [] clock 0 uuids 0.

(** ** The other goroutines *)

(** The database writer takes the oldest send; it reads the job as it is then. *)
Definition db_writer : M World () := λ w,
  match GlobalScheduler.dbWriteChan (sched w), store w with
  | op :: rest, Some d =>
      let d := match op with
        | WriteJob l => db_save_job (deref (sched w) l) d
        | WriteGroup l => db_save_group (gderef (sched w) l) d
        end in
      Some (tt, w <| sched ::= λ gs, gs <| GlobalScheduler.dbWriteChan := rest |> |>
                  <| store := Some d |>)
  | _, _ => Some (tt, w)
  end.

Definition decay_factor : float64.t := float64.of_ratio false 95 100.

Definition fairshare_tick : M World () := modify (λ w,
  let fs := DecayUsage decay_factor (fairshare w) in
  w <| fairshare := fs |>
    <| store ::= fmap (λ d, default d (SaveFairshare (FairshareCalculator.UserUsage fs) d)) |>).

(** The OnLeave hook. *)
Definition OnLeave (nodeName : string) : M World () :=
  jobs ← gets (λ w, RunningJobsOnNode nodeName (sched w));
  match jobs with
  | [] => mret tt
  | _ =>
      observe workerLostTotal;;
      for_each jobs (λ job,
        Release_job job nodeName;;
        queue_MarkCompleted (Job.ID job) false "" "worker node lost";;
        if String.eqb (Job.GroupID job) "" then mret tt
        else
          group ← gets (λ w, GetGroup (Job.GroupID job) (sched w));
          match group with
          | Some g =>
              when (String.eqb (JobGroup.State g) "RUNNING")
                (on_queue_ (SetGroupState (Job.GroupID job) "FAILED"))
          | None => mret tt
          end)
  end.

(** Membership: gossip gives the master a new member list; a departure also
    runs the hook. *)
Definition set_members (members : list Node) : M World () := modify (λ w, w <| disc := members |>).

(** cmd/tasch/main.go sets the flag when it starts to drain; [Cancel] of the
    handle ends the goroutines. *)
Definition start_draining : M World () := modify (λ w, w <| draining := true |>).
Definition shutdown : M World () := modify (λ w, w <| ctx_done := true |>).

(** ** The master as a transition system *)

Inductive event :=
  | ESubmit (req : SubmitJobRequest)
  | ESubmitDistributed (req : SubmitDistributedJobRequest)
  | ECancel (jobId : string)
  | EReport (req : ReportResultRequest)
  | EAcknowledge (method body : string)
  | ESubscribe (jobId : string)
  | EUnsubscribe (jobId : string) (ch : chan)
  | EDispatch
  | EWalltime
  | EDispatchTimeout
  | ERetry (i : nat) (stop : bool)
  | EWriter
  | EDecay
  | EMembers (members : list Node)
  | ELeave (nodeName : string)
  | EDrain
  | EShutdown.

Definition handle (e : event) : M World () :=
  match e with
  | ESubmit req => SubmitJob req;; mret tt
  | ESubmitDistributed req => SubmitDistributedJob req;; mret tt
  | ECancel id => CancelJob id;; mret tt
  | EReport req => ReportResult req
  | EAcknowledge m b => acknowledge_start m b;; mret tt
  | ESubscribe id => StreamLogs_subscribe id;; mret tt
  | EUnsubscribe id ch => StreamLogs_close id ch
  | EDispatch => dispatch_tick
  | EWalltime => walltime_tick
  | EDispatchTimeout => dispatch_timeout_tick
  | ERetry i stop => retry_fire i stop
  | EWriter => db_writer
  | EDecay => fairshare_tick
  | EMembers ms => set_members ms
  | ELeave n => OnLeave n
  | EDrain => start_draining
  | EShutdown => shutdown
  end.

(** A step that panics ends the process: it has no successor. *)
Inductive step : World → event → World → Prop :=
  | step_handle e w w' : handle e w = Some (tt, w') → step w e w'.

Inductive steps : World → list event → World → Prop :=
  | steps_nil w : steps w [] w
  | steps_cons w e w' es w'' : step w e w' → steps w' es w'' → steps w (e :: es) w''.

Fixpoint play (es : list event) : M World () :=
  match es with
  | [] => mret tt
  | e :: es => handle e;; play es
  end.
End Master.
