(* ===== verification/Hoare.v ===== *)
(** * Reasoning about the master's computations

    [keeps P m]: when [m] returns, it re-establishes [P].  [QueueInv] is the
    interface between the scheduler and the server: a property of the scheduler
    that its operations preserve is preserved by every handler that is made of
    them. *)

From S2P Require Import Prelude GoStd GoJson GoTime GoHeap Queue QueueFacts SchedulerSpec.
From S2P Require Import QueueProps JobTable Messaging Fairshare CircuitBreaker Tracker Matchmaker Store.
From S2P Require Import Config World Server Dispatch Master.
#[local] Open Scope string_scope.
#[local] Open Scope list_scope.

(** ** The logic *)

Definition keeps {W A} (P : W → Prop) (m : M W A) : Prop :=
  ∀ w a w', P w → m w = Some (a, w') → P w'.

Create HintDb keeps.

Section Rules.
Context {W : Type} (P : W → Prop).

Lemma keeps_ret {A} (a : A) : keeps P (mret a).
Proof. intros w a' w' H. unfold mret, M_ret. by intros [= _ <-]. Qed.

Lemma keeps_bind {A B} (m : M W A) (f : A → M W B) :
  keeps P m → (∀ a, keeps P (f a)) → keeps P (m ≫= f).
Proof.
  intros Hm Hf w b w'' H. unfold mbind, M_bind. destruct (m w) as [[a w']|] eqn:E; [|done].
  intros Hb. eapply Hf; [|exact Hb]. by eapply Hm.
Qed.

Lemma keeps_gets {A} (f : W → A) : keeps P (gets f).
Proof. intros w a w' H. unfold gets. by intros [= _ <-]. Qed.

Lemma keeps_modify f : (∀ w, P w → P (f w)) → keeps P (modify f).
Proof. intros Hf w a w' H. unfold modify. intros [= _ <-]. by apply Hf. Qed.

Lemma keeps_panic {A} : keeps P (panic : M W A).
Proof. by intros w a w' H. Qed.

Lemma keeps_when b m : keeps P m → keeps P (when b m).
Proof. intros Hm. unfold when. destruct b; [done|apply keeps_ret]. Qed.

Lemma keeps_for_each {A} (l : list A) f : (∀ x, keeps P (f x)) → keeps P (for_each l f).
Proof.
  intros Hf. induction l as [|x l IH]; simpl; [apply keeps_ret|]. by apply keeps_bind.
Qed.

Lemma keeps_state {A} (m : M W A) : (∀ w, P w → match m w with Some (_, w') => P w' | None => True end) →
  keeps P m.
Proof. intros Hm w a w' H E. specialize (Hm w H). by rewrite E in Hm. Qed.
End Rules.

#[export] Hint Resolve keeps_ret keeps_gets keeps_panic keeps_when keeps_for_each : keeps.

(** Follow the structure of a computation. *)
Ltac keeps_step :=
  lazymatch goal with
  | |- keeps _ (mbind _ _) => apply keeps_bind; [|intros]
  | |- keeps _ (match ?x with _ => _ end) => destruct x
  | |- keeps _ (for_each _ _) => apply keeps_for_each; intros
  | |- keeps _ (when _ _) => apply keeps_when
  | |- keeps _ (mret _) => apply keeps_ret
  | |- keeps _ (gets _) => apply keeps_gets
  | |- keeps _ panic => apply keeps_panic
  | |- keeps _ (let _ := _ in _) => cbv zeta
  | |- keeps _ _ => solve [eauto with keeps nocore]
  end.
Ltac solve_keeps := repeat keeps_step.

(** ** What logging and reading the clock leave alone *)

Section Equations.
Context {C : CEL} {B : Bolt}.

(** The state without the clock, the logs and the metrics. *)
Definition core (w : World) :=
  (disc w, sched w, eval w, pub w, fairshare w, store w, cfg w, draining w, ctx_done w,
   (cb w, tracker w, dispatchPending w, timers w, clock w, uuids w)).

Definition logged (id lvl msg : string) (w : World) : World :=
  default w (exec (appendLog id lvl msg) w).

Lemma appendLog_eq id lvl msg w : appendLog id lvl msg w = Some (tt, logged id lvl msg w).
Proof. done. Qed.

Lemma core_logged id lvl msg w : core (logged id lvl msg w) = core w.
Proof. done. Qed.

Lemma time_Now_eq w : time_Now w = Some (clock w (ticks w), w <| ticks ::= S |>).
Proof. done. Qed.

Lemma uuid_New_eq w : uuid_New w = Some (uuids w (uuid_count w), w <| uuid_count ::= S |>).
Proof. done. Qed.

Lemma queue_Cancel_eq id w : queue_Cancel id w =
  let '(r, gs) := Cancel (clock w (ticks w)) id (sched w) in
  Some (r, (w <| ticks ::= S |>) <| sched := gs |>).
Proof. done. Qed.

(** A computation that ends in [w'] when started in [w]. *)
Abbreviation runs m w a w' := (m w = Some (a, w')).

Lemma bind_runs {A A'} (m : M World A) (f : A → M World A') w a w' :
  m w = Some (a, w') → (m ≫= f) w = f a w'.
Proof. apply M_bind_Some. Qed.
End Equations.

(** One step of a computation that is a sequence of calls: logging stays folded,
    the other calls are replaced by their result. *)
Ltac run_step :=
  lazymatch goal with
  | |- context [mbind ?f (appendLog ?i ?l ?s) ?w] =>
      rewrite (bind_runs _ f _ _ _ (appendLog_eq i l s w)); cbv beta
  | |- context [mbind ?f ?m ?w] =>
      let r := eval hnf in (m w) in
      lazymatch r with
      | Some (?a, ?w') => rewrite (bind_runs m f w a w' eq_refl); cbv beta
      end
  end.

(** ** Properties of the scheduler *)

Class QueueInv (Q : GlobalScheduler → Prop) : Prop := {
  qi_op o gs : plain_op o → Q gs → Q (exec_op o gs).2;
  qi_set_state id st gs : st ≠ "PENDING" → Q gs → Q (SetGroupState id st gs);
  qi_heap_remove i gs : (i < Len gs)%nat → Q gs → Q (heap_remove (Z.of_nat i) gs)
}.

(** A property that does not depend on what is still to be written. *)
Class Unwritten (Q : GlobalScheduler → Prop) : Prop :=
  unwritten gs rest : Q gs → Q (gs <| GlobalScheduler.dbWriteChan := rest |>).

(** A property that survives the submission of jobs that are [ok]. *)
Class Accepts (Q : GlobalScheduler → Prop) (ok : Job → Prop) : Prop :=
  accepts_enqueue : ∀ j gs, Q gs → ok j → Q (Enqueue (new_job j gs).1 (new_job j gs).2).2.

(** A property that survives the registration of any group. *)
Class Registers (Q : GlobalScheduler → Prop) : Prop := {
  registers_new_group g gs : Q gs → Q (new_group g gs).2;
  registers_group l gs : Q gs → Q (RegisterGroup l gs)
}.

#[export] Hint Extern 0 (QueueInv _) => apply _ : keeps.
#[export] Hint Extern 0 (Unwritten _) => apply _ : keeps.

#[export] Instance QueueInv_and Q1 Q2 : QueueInv Q1 → QueueInv Q2 → QueueInv (λ gs, Q1 gs ∧ Q2 gs).
Proof.
  intros I1 I2. split; intros *; intros.
  - destruct_and!. split; by apply qi_op.
  - destruct_and!. split; by apply qi_set_state.
  - destruct_and!. split; by apply qi_heap_remove.
Qed.

(** What is asked of the identifiers and the database: it survives the writes
    the handlers make themselves; [DBFree] properties survive the writer too. *)
Class Ambient {B : Bolt} `{Zone} (U : (nat → string) → option DB → Prop) : Prop := {
  ambient_dead uu d j : U uu (Some d) → U uu (Some (default d (SaveDeadLetter j d)));
  ambient_fair uu d u : U uu (Some d) → U uu (Some (default d (SaveFairshare u d)))
}.

Class DBFree {B : Bolt} (U : (nat → string) → option DB → Prop) : Prop :=
  db_free uu d d' : U uu d → U uu d'.

#[export] Instance Ambient_uuids {B : Bolt} `{Zone} (U : (nat → string) → Prop) : Ambient (λ uu _, U uu).
Proof. done. Qed.
#[export] Instance DBFree_uuids {B : Bolt} (U : (nat → string) → Prop) : DBFree (λ uu _, U uu).
Proof. by intros uu d d'. Qed.

Section Keeps.
Context {C : CEL} {B : Bolt} `{GoArch} `{Zone} `{MapOrder}.
Context {Q : GlobalScheduler → Prop} {U : (nat → string) → option DB → Prop} {QI : QueueInv Q}.

(** The property, of the server's scheduler; the cached programs are those of
    their expressions; what the identifiers and the database are like. *)
Definition holds (w : World) : Prop := Q (sched w) ∧ cache_ok (eval w) ∧ U (uuids w) (store w).
Abbreviation keepsQ := (keeps holds).

Lemma keeps_other f :
  (∀ w, sched (f w) = sched w ∧ eval (f w) = eval w ∧ uuids (f w) = uuids w ∧ store (f w) = store w) →
  keepsQ (modify f).
Proof.
  intros Hf. apply keeps_modify. unfold holds. intros w. by destruct (Hf w) as (-> & -> & -> & ->).
Qed.

Lemma keeps_on_queue {A} (f : GlobalScheduler → A * GlobalScheduler) :
  (∀ gs, Q gs → Q (f gs).2) → keepsQ (on_queue f).
Proof.
  intros Hf w a w' [HQ HE]. unfold on_queue. specialize (Hf (sched w) HQ).
  destruct (f (sched w)). by intros [= _ <-].
Qed.

Lemma keeps_on_queue_ f : (∀ gs, Q gs → Q (f gs)) → keepsQ (on_queue_ f).
Proof. intros Hf. apply keeps_modify. intros w [HQ HE]. by split; [apply Hf|]. Qed.

Lemma keeps_time_Now : keepsQ time_Now.
Proof. by intros w a w' HQ [= _ <-]. Qed.
Lemma keeps_uuid_New : keepsQ uuid_New.
Proof. by intros w a w' HQ [= _ <-]. Qed.
Lemma keeps_observe m : keepsQ (observe m).
Proof. by apply keeps_other. Qed.
Lemma keeps_on_tracker f : keepsQ (on_tracker f).
Proof. by apply keeps_other. Qed.
Lemma keeps_on_cb {A} (f : circuitBreaker → A * circuitBreaker) : keepsQ (on_cb f).
Proof. intros w a w' HQ. unfold on_cb. destruct (f (cb w)). by intros [= _ <-]. Qed.
Lemma keeps_eval_Match x ad : keepsQ (eval_Match x ad).
Proof.
  intros w a w' (HQ & HE & HU). unfold eval_Match. pose proof (Match_cache x ad (eval w) HE) as [_ HE'].
  destruct (Match _ _ _). by intros [= _ <-].
Qed.
Lemma keeps_pub_Send p : keepsQ (pub_Send p).
Proof. by apply keeps_other. Qed.

#[local] Hint Resolve keeps_time_Now keeps_uuid_New keeps_observe keeps_on_tracker keeps_on_cb
  keeps_eval_Match keeps_pub_Send : keeps.

Lemma keeps_appendLog id lvl msg : keepsQ (appendLog id lvl msg).
Proof. unfold appendLog. solve_keeps; by apply keeps_other. Qed.

(** One scheduler operation in either of its forms. *)
Lemma keeps_exec {A} (f : GlobalScheduler → A * GlobalScheduler) o :
  (∀ gs, (f gs).2 = (exec_op o gs).2) → plain_op o → keepsQ (on_queue f).
Proof. intros Hf Ho. apply keeps_on_queue. intros gs HQ. rewrite Hf. by apply qi_op. Qed.

Lemma keeps_exec_ f o :
  (∀ gs, f gs = (exec_op o gs).2) → plain_op o → keepsQ (on_queue_ f).
Proof. intros Hf Ho. apply keeps_on_queue_. intros gs HQ. rewrite Hf. by apply qi_op. Qed.

Lemma keeps_Cancel id : keepsQ (queue_Cancel id).
Proof.
  unfold queue_Cancel. solve_keeps. apply (keeps_exec _ (OCancel a id)); [|done..].
  intros gs. simpl. by destruct (Cancel a id gs) as [[??]?].
Qed.
Lemma keeps_MarkRunning id node : keepsQ (queue_MarkRunning id node).
Proof. unfold queue_MarkRunning. solve_keeps. by apply (keeps_exec_ _ (OMarkRunning a id node)). Qed.
Lemma keeps_MarkCompleted id b out err : keepsQ (queue_MarkCompleted id b out err).
Proof.
  unfold queue_MarkCompleted. solve_keeps. by apply (keeps_exec_ _ (OMarkCompleted a id b out err)).
Qed.
Lemma keeps_GetJob id : keepsQ (queue_GetJob id).
Proof. apply keeps_gets. Qed.
Lemma keeps_RemoveByID id : keepsQ (on_queue (RemoveByID id)).
Proof.
  apply (keeps_exec _ (ORemoveByID id)); [|done..]. intros gs. simpl. by destruct (RemoveByID id gs).
Qed.
Lemma keeps_Dequeue : keepsQ (on_queue Dequeue).
Proof. apply (keeps_exec _ ODequeue); [|done..]. intros gs. simpl. by destruct (Dequeue gs). Qed.
Lemma keeps_Requeue id b : keepsQ (on_queue (Requeue id b)).
Proof.
  apply (keeps_exec _ (ORequeue id b)); [|done..]. intros gs. simpl. by destruct (Requeue id b gs) as [[??]?].
Qed.
Lemma keeps_RequeueRunning id : keepsQ (on_queue (RequeueRunningJob id)).
Proof.
  apply (keeps_exec _ (ORequeueRunning id)); [|done..]. intros gs. simpl.
  by destruct (RequeueRunningJob id gs) as [[??]?].
Qed.
Lemma keeps_SetGroupState id st : st ≠ "PENDING" → keepsQ (on_queue_ (SetGroupState id st)).
Proof. intros. apply keeps_on_queue_. intros. by apply qi_set_state. Qed.
Lemma keeps_failed id : keepsQ (on_queue_ (SetGroupState id "FAILED")).
Proof. by apply keeps_SetGroupState. Qed.
Lemma keeps_running id : keepsQ (on_queue_ (SetGroupState id "RUNNING")).
Proof. by apply keeps_SetGroupState. Qed.
Lemma keeps_completed id : keepsQ (on_queue_ (SetGroupState id "COMPLETED")).
Proof. by apply keeps_SetGroupState. Qed.
Lemma keeps_new_group `{!Registers Q} g : keepsQ (on_queue (new_group g)).
Proof. apply keeps_on_queue. intros. by apply registers_new_group. Qed.
Lemma keeps_RegisterGroup `{!Registers Q} l : keepsQ (on_queue_ (RegisterGroup l)).
Proof. apply keeps_on_queue_. intros. by apply registers_group. Qed.
Lemma keeps_Release_job j n : keepsQ (Release_job j n).
Proof. apply keeps_on_tracker. Qed.
Lemma keeps_IsBlocked n : keepsQ (cb_IsBlocked n).
Proof. unfold cb_IsBlocked. solve_keeps. Qed.

(** Allocation and submission of an acceptable job. *)
Lemma keeps_new_enqueue `{!Accepts Q ok} {A} j (k : option string → M World A) :
  ok j → (∀ e, keepsQ (k e)) →
  keepsQ (l ← on_queue (new_job j); e ← on_queue (Enqueue l); k e).
Proof.
  intros Hok Hk w a w' [HQ He]. pose proof (accepts_enqueue j (sched w) HQ Hok) as HE.
  unfold mbind, M_bind, on_queue. unfold new_job in *. cbn [fst snd] in HE.
  change (sched (w <| sched := ?g |>)) with g. destruct (Enqueue _ _) as [e gs'].
  intros E. eapply (Hk e); [|exact E]. by split.
Qed.

Lemma Backfill_scan_removes {W} (p : Job → M W bool) gs i q w r w' :
  Backfill_scan p gs i q w = Some (r, w') →
  match r with Some (k, l) => (i ≤ k < i + length q)%nat | None => True end.
Proof.
  revert i w. induction q as [|l q IH]; intros i w; cbn [Backfill_scan].
  - by intros [= <- _].
  - unfold mbind, M_bind. destruct (p (Copy (deref gs l)) w) as [[[] w1]|]; [..|done].
    + intros [= <- _]. simpl. lia.
    + intros E%IH. destruct r as [[k l']|]; [|done]. simpl. lia.
Qed.

Lemma keeps_scan member gs i q : keepsQ (Backfill_scan (backfill_match member) gs i q).
Proof.
  revert i. induction q as [|l q IH]; intros i; cbn [Backfill_scan]; unfold backfill_match; solve_keeps.
Qed.

Lemma keeps_Backfill member : keepsQ (queue_Backfill member).
Proof.
  intros w a w' HQ. unfold queue_Backfill. unfold mbind at 1, M_bind at 1, gets at 1.
  unfold Backfill. unfold mbind, M_bind.
  destruct (Backfill_scan _ (sched w) 0 _ w) as [[r w1]|] eqn:E; [|done].
  pose proof (keeps_scan _ _ _ _ w r w1 HQ E) as [_ HE].
  apply Backfill_scan_removes in E. destruct HQ as [HQ _].
  destruct r as [[k l]|]; intros [= _ <-]; (split; [|exact HE]); [|exact HQ].
  apply qi_heap_remove; [|exact HQ]. simpl in *. unfold JobQueue.Len. lia.
Qed.
End Keeps.

#[export] Hint Resolve keeps_time_Now keeps_uuid_New keeps_observe keeps_on_tracker keeps_on_cb
  keeps_eval_Match keeps_pub_Send keeps_appendLog keeps_Cancel keeps_MarkRunning keeps_MarkCompleted
  keeps_GetJob keeps_RemoveByID keeps_Dequeue keeps_Requeue keeps_RequeueRunning keeps_failed
  keeps_running keeps_completed keeps_new_group keeps_RegisterGroup keeps_Release_job keeps_IsBlocked keeps_Backfill : keeps.

(** ** The handlers *)

(** As [keeps_step], a submission taken as one. *)
Ltac handler_step :=
  lazymatch goal with
  | |- keeps _ (mbind _ (on_queue (new_job _))) => apply keeps_new_enqueue; [auto|intros]
  | |- _ => keeps_step
  end.
Ltac solve_handler := repeat handler_step.

Lemma substring_length n s : (String.length (String.substring 0 n s) ≤ n)%nat.
Proof. revert n. induction s as [|c s IH]; intros [|n]; simpl; try lia. specialize (IH n). lia. Qed.

Section Submission.
Context {C : CEL} {B : Bolt} `{GoArch} `{Zone} `{MapOrder}.
Context {Q : GlobalScheduler → Prop} {U : (nat → string) → option DB → Prop} {QI : QueueInv Q}.
Context {ok : Job → Prop} {AQ : Accepts Q ok}.
Abbreviation keepsQ := (keeps (holds (Q:=Q) (U:=U))).

(** The jobs the two submit handlers build are acceptable. *)
Lemma keeps_SubmitJob req :
  (∀ id u p r t, (String.length id ≤ 8)%nat → ok (submitted_job req id u p r t)) → keepsQ (SubmitJob req).
Proof.
  intros Hok. pose proof (λ id u p r t, Hok (String.substring 0 8 id) u p r t (substring_length _ _)).
  unfold SubmitJob. solve_handler.
Qed.

Hypothesis rank_ok : ∀ req id g u k p n m t, ok (rank_job req id g u k p n m t).

Lemma keeps_submit_ranks n rank req g u p nn mp ids : keepsQ (submit_ranks n rank req g u p nn mp ids).
Proof.
  revert rank ids. induction n as [|n IH]; intros rank ids; cbn [submit_ranks]; solve_handler.
Qed.

Lemma keeps_SubmitDistributedJob `{!Registers Q} req : keepsQ (SubmitDistributedJob req).
Proof. pose proof keeps_submit_ranks. unfold SubmitDistributedJob. solve_handler. Qed.
End Submission.

Section Handlers.
Context {C : CEL} {B : Bolt} `{GoArch} `{Zone} `{MapOrder}.
Context {Q : GlobalScheduler → Prop} {U : (nat → string) → option DB → Prop} {QI : QueueInv Q}.
Context {UA : Ambient U}.
Abbreviation keepsQ := (keeps (holds (Q:=Q) (U:=U))).

Lemma keeps_release_and_kill job : keepsQ (release_and_kill job).
Proof. unfold release_and_kill. solve_handler. Qed.
#[local] Hint Resolve keeps_release_and_kill : keeps.

Lemma keeps_CancelJob id : keepsQ (CancelJob id).
Proof. unfold CancelJob. solve_handler. Qed.

Lemma keeps_handleGroupCompletion g j b : keepsQ (handleGroupCompletion g j b).
Proof. unfold handleGroupCompletion. solve_handler. Qed.

Lemma keeps_record_outcome req : keepsQ (record_outcome req).
Proof. unfold record_outcome. solve_handler; by apply keeps_other. Qed.

Lemma keeps_schedule_retry id job : keepsQ (schedule_retry id job).
Proof. unfold schedule_retry. solve_handler. by apply keeps_other. Qed.

Lemma keeps_dead_letter id job : keepsQ (dead_letter id job).
Proof.
  intros w a w' (HQ & HE & HU). unfold dead_letter. destruct (store w) as [d|] eqn:E; [|intros [= _ <-]].
  - apply keeps_appendLog. split_and!; [done..|]. by apply ambient_dead.
  - split_and!; [done..|]. by rewrite E.
Qed.
#[local] Hint Resolve keeps_handleGroupCompletion keeps_record_outcome keeps_schedule_retry
  keeps_dead_letter : keeps.

Lemma keeps_ReportResult req : keepsQ (ReportResult req).
Proof. unfold ReportResult. solve_handler. by apply keeps_other. Qed.

Lemma keeps_retry_fire i stop : keepsQ (retry_fire i stop).
Proof. unfold retry_fire. solve_handler; by apply keeps_other. Qed.

(** ** The loops *)

Lemma keeps_dispatchJob job n : keepsQ (dispatchJob job n).
Proof. unfold dispatchJob. solve_handler. by apply keeps_other. Qed.
#[local] Hint Resolve keeps_dispatchJob : keeps.

Lemma keeps_find_member job used ms : keepsQ (find_member job used ms).
Proof. induction ms as [|m ms IH]; cbn [find_member]; solve_handler. Qed.
#[local] Hint Resolve keeps_find_member : keeps.

Lemma keeps_match_members js used ms : keepsQ (match_members js used ms).
Proof.
  revert used. induction js as [|j js IH]; intros used; cbn [match_members]; solve_handler.
Qed.

Lemma keeps_dispatch_ranks i js ns addr : keepsQ (dispatch_ranks i js ns addr).
Proof.
  revert i ns. induction js as [|j js IH]; intros i ns; cbn [dispatch_ranks]; solve_handler.
Qed.
#[local] Hint Resolve keeps_match_members keeps_dispatch_ranks : keeps.

Lemma keeps_tryDispatchGroup g : keepsQ (tryDispatchGroup g).
Proof. unfold tryDispatchGroup. solve_handler. Qed.

Lemma keeps_expire_group g : keepsQ (expire_group g).
Proof. unfold expire_group. solve_handler. Qed.
#[local] Hint Resolve keeps_tryDispatchGroup keeps_expire_group : keeps.

Lemma keeps_gang_phase : keepsQ gang_phase.
Proof. unfold gang_phase. solve_handler. Qed.

Lemma keeps_backfill_phase ms : keepsQ (backfill_phase ms).
Proof. induction ms as [|m ms IH]; cbn [backfill_phase]; solve_handler. Qed.

Lemma keeps_update_gauges : keepsQ update_gauges.
Proof. unfold update_gauges. solve_handler. Qed.
#[local] Hint Resolve keeps_gang_phase keeps_backfill_phase keeps_update_gauges : keeps.

Lemma keeps_dispatch_tick : keepsQ dispatch_tick.
Proof. unfold dispatch_tick. solve_handler. Qed.

Lemma keeps_walltime_tick : keepsQ walltime_tick.
Proof. unfold walltime_tick. solve_handler. Qed.

Lemma keeps_dispatch_timeout_tick : keepsQ dispatch_timeout_tick.
Proof. unfold dispatch_timeout_tick. solve_handler. by apply keeps_other. Qed.

Lemma keeps_OnLeave n : keepsQ (OnLeave n).
Proof. unfold OnLeave. solve_handler. Qed.

Lemma keeps_fairshare_tick : keepsQ fairshare_tick.
Proof.
  apply keeps_modify. intros w (HQ & HE & HU). split_and!; [done..|]. cbn.
  destruct (store w); [by apply ambient_fair|done].
Qed.

Lemma keeps_db_writer `{!Unwritten Q, !DBFree U} : keepsQ db_writer.
Proof.
  intros w a w' HQ. unfold db_writer.
  destruct (GlobalScheduler.dbWriteChan (sched w)) as [|op rest]; [by intros [= _ <-]|].
  destruct (store w) eqn:E; intros [= _ <-]; [|done]. destruct HQ as (HQ & HE & HU).
  split_and!; [by apply unwritten|done|by eapply db_free].
Qed.

(** Every event but the writer's, given that the two submissions keep the
    property. *)
Hypothesis submit : ∀ req, keepsQ (SubmitJob req).
Hypothesis submit_distributed : ∀ req, keepsQ (SubmitDistributedJob req).

#[local] Hint Resolve submit submit_distributed keeps_CancelJob keeps_ReportResult
  keeps_retry_fire keeps_dispatch_tick keeps_walltime_tick keeps_dispatch_timeout_tick keeps_OnLeave
  keeps_fairshare_tick : keeps.

Lemma keeps_handle_but e : e ≠ EWriter → keepsQ (handle e).
Proof.
  intros He.
  destruct e; cbn [handle]; unfold acknowledge_start; try done; solve_handler; try by apply keeps_other.
  intros w a w' HQ [= _ <-]. exact HQ.
Qed.

Lemma keeps_handle `{!Unwritten Q, !DBFree U} e : keepsQ (handle e).
Proof. destruct e; try by apply keeps_handle_but. apply keeps_db_writer. Qed.

Lemma steps_keep `{!Unwritten Q, !DBFree U} w es w' :
  steps w es w' → holds (Q:=Q) (U:=U) w → holds (Q:=Q) (U:=U) w'.
Proof.
  induction 1 as [|w e w' es w'' Hs _ IH]; [done|]. intros HQ. apply IH.
  destruct Hs as [e w w' Hh]. by eapply (keeps_handle e w).
Qed.
End Handlers.

#[export] Hint Resolve keeps_scan keeps_release_and_kill keeps_CancelJob keeps_handleGroupCompletion
  keeps_record_outcome keeps_schedule_retry keeps_dead_letter keeps_ReportResult keeps_retry_fire
  keeps_dispatchJob keeps_find_member keeps_match_members keeps_dispatch_ranks keeps_tryDispatchGroup
  keeps_expire_group keeps_gang_phase keeps_backfill_phase keeps_update_gauges keeps_dispatch_tick
  keeps_walltime_tick keeps_dispatch_timeout_tick keeps_OnLeave keeps_db_writer : keeps.

(** ** Heap order is such a property *)

#[export] Instance heap_inv_queue : QueueInv heap_inv.
Proof.
  split.
  - intros o gs _. apply heap_inv_step.
  - intros id st gs _ HI. apply (heap_inv_step (OSetGroupState id st) gs HI).
  - intros. by apply heap_inv_heap_remove.
Qed.

#[export] Instance heap_inv_unwritten : Unwritten heap_inv.
Proof. intros gs rest HI. by eapply heap_inv_groups. Qed.

#[export] Instance heap_inv_accepts : Accepts heap_inv (λ _, True).
Proof.
  intros j gs HI _. pose proof (heap_inv_step (OEnqueue j) gs HI) as HE. cbn [exec_op] in HE.
  destruct (new_job j gs) as [l gs1]. simpl. by destruct (Enqueue l gs1).
Qed.

#[export] Instance heap_inv_registers : Registers heap_inv.
Proof.
  split.
  - intros g gs HI. by eapply heap_inv_groups.
  - intros l gs HI. unfold RegisterGroup, notifyGroupChange. cbv zeta.
    case_match; by eapply heap_inv_groups.
Qed.
