(* ===== verification/Demo.v ===== *)
(** * A concrete master

    Concrete instances of the parameters (an expression language, a database, a
    clock, a source of UUIDs) and two small clusters, on which the theorems
    about the master are run. *)

From S2P Require Import Prelude GoStd GoJson GoTime Queue Messaging Fairshare CircuitBreaker.
From S2P Require Import Tracker Matchmaker Store Config World Server Dispatch Master.
#[local] Open Scope string_scope.
#[local] Open Scope list_scope.
#[local] Open Scope Z_scope.

#[local] Existing Instances toy_cel bolt_map amd64 utc map_order_canonical.

(** The clock advances a second a reading from 29 February 2024 on. *)
Definition demo_clock (n : nat) : Time := (63844806896 + Z.of_nat n) * Second.
Definition demo_uuids (n : nat) : string := pad_zeros 8 (Itoa (Z.of_nat n)) +:+ "-4000".

Definition demo_master : World := StartMaster demo_clock DefaultConfig ∅ demo_clock demo_uuids.

Definition demo_ad (cores gpus : Z) : string :=
  print (JObj [("cpu_cores", JInt cores); ("gpu_count", JInt gpus); ("total_memory_mb", JInt 8192)]).
Definition demo_nodes : list Node :=
  [Node.mk "n1" "10.0.0.1" (demo_ad 16 2); Node.mk "n2" "10.0.0.2" (demo_ad 16 2)].

Definition demo_request (gpus : Z) : SubmitJobRequest := {|
  sj_CelRequirement := "has:cpu_cores"; sj_Command := "echo hi"; sj_Priority := 0; sj_User := "";
  sj_WalltimeSeconds := 0; sj_GpusRequired := gpus; sj_EnvVars := None |}.

Definition demo_group (n gpus : Z) : SubmitDistributedJobRequest := {|
  sd_CelRequirement := "has:cpu_cores"; sd_Command := "train"; sd_NumNodes := n;
  sd_GpusPerNode := gpus; sd_Priority := 0; sd_User := ""; sd_WalltimeSeconds := 0;
  sd_MasterPort := 0; sd_EnvVars := None |}.

Definition demo_report (id node err : string) : ReportResultRequest := {|
  rr_JobId := id; rr_WorkerNode := node; rr_Success := String.eqb err ""; rr_Output := "";
  rr_Error := err |}.

(** A database with one queued job. *)
Definition demo_db : DB := default (∅ : DB) (SaveJob sample_job ∅).

Lemma demo_db_jobs : LoadJobs demo_db = [stored sample_job].
Proof. vm_compute. reflexivity. Qed.

(** Whether a run ends without a panic, and where. *)
Definition survives {W A} (m : M W A) (w : W) : bool := match m w with Some _ => true | None => false end.
Definition after {W A} (m : M W A) (w : W) : W := match m w with Some (_, w') => w' | None => w end.

Lemma steps_after (es : list event) (w : World) : survives (play es) w = true → steps w es (after (play es) w).
Proof.
  revert w. induction es as [|e es IH]; intros w; [constructor|].
  unfold survives, after. cbn [play]. unfold mbind, M_bind.
  destruct (handle e w) as [[[] w']|] eqn:E; [|done]. intros Hs.
  econstructor; [by constructor|]. specialize (IH w' Hs).
  revert IH Hs. unfold after. by destruct (play es w') as [[]|].
Qed.

(** Two members, two jobs, one turn of the dispatch loop. *)
Definition demo_events : list event :=
  [EMembers demo_nodes; ESubmit (demo_request 1); ESubmit (demo_request 2); EDispatch].
Definition demo_world : World := after (play demo_events) demo_master.

Lemma demo_steps :
  steps (StartMaster demo_clock DefaultConfig ∅ demo_clock demo_uuids) demo_events demo_world.
Proof. apply steps_after. vm_compute. reflexivity. Qed.

Lemma pad_zeros_length n s : (n ≤ String.length (pad_zeros n s))%nat.
Proof.
  induction n as [|n IH]; [lia|]. cbn [pad_zeros].
  destruct (Nat.ltb_spec (String.length s) (S n)); [|done]. simpl. lia.
Qed.

Lemma demo_uuids_long n : (8 ≤ String.length (demo_uuids n))%nat.
Proof.
  unfold demo_uuids. pose proof (pad_zeros_length 8 (Itoa (Z.of_nat n))). rewrite str_app_length. lia.
Qed.
