(* ===== verification/Panics.v ===== *)
(** * The master does not panic

    Most handlers return from every state ([always]).  The code that could panic
    (the first of no matched members, a write to a nil environment) is only
    reached by pending groups, and in the states the master reaches these have
    at least one rank and every rank has an environment. *)

From S2P Require Import Prelude GoStd GoJson GoTime GoHeap Queue QueueFacts SchedulerSpec.
From S2P Require Import QueueProps JobTable Messaging Fairshare CircuitBreaker Tracker Matchmaker.
From S2P Require Import Store Config GoRegexp World Server Dispatch Master Hoare Demo.
Import GlobalScheduler (objs, gobjs, queue, jobs, groups, MaxQueueSize, OnJobChange,
  OnGroupChange, dbWriteChan).
#[local] Open Scope string_scope.
#[local] Open Scope list_scope.

(** ** Computations that never panic *)

Definition always {W A} (m : M W A) : Prop := ∀ w, is_Some (m w).

Create HintDb always.

Section Rules.
Context {W : Type}.

Lemma always_ret {A} (a : A) : always (mret a : M W A).
Proof. by eexists. Qed.

Lemma always_gets {A} (f : W → A) : always (gets f).
Proof. by eexists. Qed.

Lemma always_modify (f : W → W) : always (modify f).
Proof. by eexists. Qed.

Lemma always_bind {A B} (m : M W A) (f : A → M W B) :
  always m → (∀ a, always (f a)) → always (m ≫= f).
Proof.
  intros Hm Hf w. unfold mbind, M_bind. destruct (Hm w) as [[a w'] E]. rewrite E. apply Hf.
Qed.

Lemma always_when b (m : M W ()) : always m → always (when b m).
Proof. intros Hm. unfold when. destruct b; [done|apply always_ret]. Qed.

Lemma always_for_each {A} (l : list A) (f : A → M W ()) :
  (∀ x, always (f x)) → always (for_each l f).
Proof.
  intros Hf. induction l as [|x l IH]; simpl; [apply always_ret|]. by apply always_bind.
Qed.
End Rules.

#[export] Hint Resolve always_ret always_gets always_modify : always.

Ltac always_step :=
  lazymatch goal with
  | |- always (mbind _ _) => apply always_bind; [|intros]
  | |- always (match ?x with _ => _ end) => destruct x
  | |- always (for_each _ _) => apply always_for_each; intros
  | |- always (when _ _) => apply always_when
  | |- always (let _ := _ in _) => cbv zeta
  | |- always _ => solve [eauto with always nocore]
  end.
Ltac solve_always := repeat always_step.

Section Always.
Context {C : CEL} {B : Bolt} `{GoArch} `{Zone} `{MapOrder}.

Lemma always_time_Now : always time_Now.
Proof. by eexists. Qed.
Lemma always_uuid_New : always uuid_New.
Proof. by eexists. Qed.
Lemma always_on_queue {A} (f : GlobalScheduler → A * GlobalScheduler) : always (on_queue f).
Proof. intros w. unfold on_queue. destruct (f (sched w)). by eexists. Qed.
Lemma always_on_queue_ f : always (on_queue_ f).
Proof. apply always_modify. Qed.
Lemma always_on_tracker f : always (on_tracker f).
Proof. apply always_modify. Qed.
Lemma always_on_cb {A} (f : circuitBreaker → A * circuitBreaker) : always (on_cb f).
Proof. intros w. unfold on_cb. destruct (f (cb w)). by eexists. Qed.
Lemma always_eval_Match x ad : always (eval_Match x ad).
Proof. intros w. unfold eval_Match. destruct (Match _ _ _). by eexists. Qed.
Lemma always_observe m : always (observe m).
Proof. apply always_modify. Qed.
Lemma always_pub_Send p : always (pub_Send p).
Proof. apply always_modify. Qed.
Lemma always_appendLog id lvl msg : always (appendLog id lvl msg).
Proof. intros w. rewrite appendLog_eq. by eexists. Qed.
#[local] Hint Resolve always_time_Now always_uuid_New always_on_queue always_on_queue_
  always_on_tracker always_on_cb always_eval_Match always_observe always_pub_Send
  always_appendLog : always.

Lemma always_queue_Cancel id : always (queue_Cancel id).
Proof. unfold queue_Cancel. solve_always. Qed.
Lemma always_MarkRunning id n : always (queue_MarkRunning id n).
Proof. unfold queue_MarkRunning. solve_always. Qed.
Lemma always_MarkCompleted id b o e : always (queue_MarkCompleted id b o e).
Proof. unfold queue_MarkCompleted. solve_always. Qed.
Lemma always_queue_GetJob id : always (queue_GetJob id).
Proof. apply always_gets. Qed.
Lemma always_Release_job j n : always (Release_job j n).
Proof. apply always_modify. Qed.
Lemma always_IsBlocked n : always (cb_IsBlocked n).
Proof. unfold cb_IsBlocked. solve_always. Qed.
#[local] Hint Resolve always_queue_Cancel always_MarkRunning always_MarkCompleted
  always_queue_GetJob always_Release_job always_IsBlocked : always.

Lemma always_SubmitJob req : always (SubmitJob req).
Proof. unfold SubmitJob. solve_always. Qed.

Lemma always_submit_ranks n rank req g u p nn mp ids : always (submit_ranks n rank req g u p nn mp ids).
Proof. revert rank ids. induction n as [|n IH]; intros; cbn [submit_ranks]; solve_always. Qed.
#[local] Hint Resolve always_submit_ranks : always.

Lemma always_SubmitDistributedJob req : always (SubmitDistributedJob req).
Proof. unfold SubmitDistributedJob. solve_always. Qed.

Lemma always_release_and_kill job : always (release_and_kill job).
Proof. unfold release_and_kill. solve_always. Qed.
#[local] Hint Resolve always_release_and_kill : always.

(** The dereference of the cancelled job is guarded by [ok]. *)
Lemma Cancel_ok_job now id gs : (Cancel now id gs).1.2 = true → (Cancel now id gs).1.1 ≠ None.
Proof. unfold Cancel. repeat case_match; done. Qed.

Lemma always_CancelJob id : always (CancelJob id).
Proof.
  intros w. unfold CancelJob. pose proof (Cancel_ok_job (clock w (ticks w)) id (sched w)) as Hj.
  pose proof (queue_Cancel_eq id w) as E. destruct (Cancel _ id (sched w)) as [[j ok] gs].
  rewrite (bind_runs _ _ _ _ _ E). cbn [fst snd] in Hj.
  match goal with |- is_Some (?m ?w') => enough (always m) as Hm by apply Hm end.
  destruct ok, j; solve_always. by destruct (Hj eq_refl).
Qed.

Lemma always_handleGroupCompletion g j b : always (handleGroupCompletion g j b).
Proof. unfold handleGroupCompletion. solve_always. Qed.
Lemma always_record_outcome req : always (record_outcome req).
Proof. unfold record_outcome. solve_always. Qed.
Lemma always_schedule_retry id job : always (schedule_retry id job).
Proof. unfold schedule_retry. solve_always. Qed.
Lemma always_dead_letter id job : always (dead_letter id job).
Proof.
  intros w. unfold dead_letter. destruct (store w); [rewrite appendLog_eq|]; by eexists.
Qed.
#[local] Hint Resolve always_handleGroupCompletion always_record_outcome always_schedule_retry
  always_dead_letter : always.

Lemma always_ReportResult req : always (ReportResult req).
Proof. unfold ReportResult. solve_always. Qed.
Lemma always_retry_fire i stop : always (retry_fire i stop).
Proof. unfold retry_fire. solve_always. Qed.
Lemma always_dispatchJob job n : always (dispatchJob job n).
Proof. unfold dispatchJob. solve_always. Qed.
#[local] Hint Resolve always_dispatchJob : always.

Lemma always_find_member job used ms : always (find_member job used ms).
Proof. induction ms as [|m ms IH]; cbn [find_member]; solve_always. Qed.
#[local] Hint Resolve always_find_member : always.

Lemma always_match_members js used ms : always (match_members js used ms).
Proof. revert used. induction js as [|j js IH]; intros used; cbn [match_members]; solve_always. Qed.

Lemma always_expire_group g : always (expire_group g).
Proof. unfold expire_group. solve_always. Qed.

Lemma always_Backfill_scan (p : Job → M World bool) gs i q :
  (∀ j, always (p j)) → always (Backfill_scan p gs i q).
Proof. intros Hp. revert i. induction q as [|l q IH]; intros i; cbn [Backfill_scan]; solve_always. Qed.

Lemma always_Backfill member : always (queue_Backfill member).
Proof.
  assert (∀ j, always (backfill_match member j)) as Hp by (intros; unfold backfill_match; solve_always).
  pose proof (λ gs i q, always_Backfill_scan _ gs i q Hp). unfold queue_Backfill, Backfill. solve_always.
Qed.
#[local] Hint Resolve always_Backfill : always.

Lemma always_backfill_phase ms : always (backfill_phase ms).
Proof. induction ms as [|m ms IH]; cbn [backfill_phase]; solve_always. Qed.
Lemma always_update_gauges : always update_gauges.
Proof. unfold update_gauges. solve_always. Qed.
Lemma always_walltime_tick : always walltime_tick.
Proof. unfold walltime_tick. solve_always. Qed.
Lemma always_dispatch_timeout_tick : always dispatch_timeout_tick.
Proof. unfold dispatch_timeout_tick. solve_always. Qed.
Lemma always_OnLeave n : always (OnLeave n).
Proof. unfold OnLeave. solve_always. Qed.
Lemma always_acknowledge m b : always (acknowledge_start m b).
Proof. unfold acknowledge_start. solve_always. Qed.
Lemma always_db_writer : always db_writer.
Proof.
  intros w. unfold db_writer. destruct (GlobalScheduler.dbWriteChan (sched w)); [by eexists|].
  destruct (store w); by eexists.
Qed.
End Always.

#[export] Hint Resolve always_time_Now always_uuid_New always_on_queue always_on_queue_
  always_on_tracker always_on_cb always_eval_Match always_observe always_pub_Send
  always_appendLog always_queue_Cancel always_MarkRunning always_MarkCompleted
  always_queue_GetJob always_Release_job always_IsBlocked always_SubmitJob
  always_SubmitDistributedJob always_CancelJob always_ReportResult always_retry_fire
  always_dispatchJob always_find_member always_match_members always_expire_group
  always_backfill_phase always_update_gauges always_walltime_tick always_dispatch_timeout_tick
  always_OnLeave always_acknowledge always_db_writer : always.

(** ** The groups that are pending *)

(** An ID no single job gets, whose job has an environment to write to. *)
Definition good (gs : GlobalScheduler) (id : string) : Prop :=
  (8 < String.length id)%nat ∧ ∀ j, GetJob id gs = Some j → Job.EnvVars j ≠ None.

Definition group_ok (gs : GlobalScheduler) (g : JobGroup) : Prop :=
  (1 ≤ JobGroup.NumNodes g)%Z ∧ Forall (good gs) (JobGroup.JobIDs g).

Definition group_inv (gs : GlobalScheduler) : Prop := ∀ gid l, groups gs !! gid = Some l →
  JobGroup.State (gderef gs l) = "PENDING" → group_ok gs (gderef gs l).

Definition sched_inv (gs : GlobalScheduler) : Prop := heap_inv gs ∧ group_inv gs.

(** The jobs that may be submitted: with a short ID, or with an environment. *)
Definition submittable (j : Job) : Prop := (String.length (Job.ID j) ≤ 8)%nat ∨ Job.EnvVars j ≠ None.

Lemma good_asked gs gs' id : asked gs' id = asked gs id → good gs id → good gs' id.
Proof.
  unfold asked. intros HA [Hl Hg]. split; [done|]. intros j' Hj'. rewrite Hj' in HA.
  destruct (GetJob id gs) as [j|]; [|done]. apply (inj Some) in HA. unfold descriptor in HA.
  specialize (Hg j eq_refl). congruence.
Qed.

Lemma good_frame gs gs' id : job_frame gs gs' → good gs id → good gs' id.
Proof. intros HF. by apply good_asked, asked_frame. Qed.

Lemma good_enqueue gs j id : heap_inv gs → submittable j → good gs id →
  good (Enqueue (new_job j gs).1 (new_job j gs).2).2 id.
Proof.
  intros HI Hj Hg. pose proof (enqueue_new j gs HI) as HE. destruct (Enqueue _ _) as [e gs'].
  destruct HE as (_ & _ & _ & _ & HA). specialize (HA id). cbn [snd].
  destruct e; [by eapply good_asked|]. case_decide as Hid; [|by eapply good_asked].
  subst id. destruct Hg as [Hl _]. split; [done|]. intros j' Hj'. destruct Hj as [|Hj]; [lia|].
  unfold asked in HA. rewrite Hj' in HA. apply (inj Some) in HA. unfold descriptor in HA. congruence.
Qed.

Lemma GetJob_SetGroupState id st gs jid : GetJob jid (SetGroupState id st gs) = GetJob jid gs.
Proof.
  unfold SetGroupState. destruct (groups gs !! id); [|done]. unfold notifyGroupChange. by case_match.
Qed.

(** The groups after [SetGroupState]: one of them may have the new state. *)
Lemma gderef_SetGroupState id st gs l : gderef (SetGroupState id st gs) l = gderef gs l ∨
  gderef (SetGroupState id st gs) l = (gderef gs l) <| JobGroup.State := st |>.
Proof.
  unfold SetGroupState. destruct (groups gs !! id) as [l'|]; [|by left].
  assert (∀ gs0, gderef (notifyGroupChange l' gs0) l = gderef gs0 l) as ->
    by (intros gs0; unfold notifyGroupChange; by case_match).
  unfold gderef, gupdate. cbn [gobjs]. destruct (decide (l' = l)) as [->|Hne].
  - unfold lookup_total, map_lookup_total. simpl. rewrite lookup_alter_eq.
    destruct (gobjs gs !! l); [by right|by left].
  - left. simpl. by apply lookup_total_alter_ne.
Qed.

Lemma groups_SetGroupState id st gs : groups (SetGroupState id st gs) = groups gs.
Proof.
  unfold SetGroupState. destruct (groups gs !! id); [|done]. unfold notifyGroupChange. by case_match.
Qed.

(** What only depends on the jobs' descriptors and the groups. *)
Lemma QueueInv_framed (R : GlobalScheduler → Prop) :
  (∀ gs gs', job_frame gs gs' → R gs → R gs') →
  (∀ id st gs, st ≠ "PENDING" → R gs → R (SetGroupState id st gs)) →
  QueueInv (λ gs, heap_inv gs ∧ R gs).
Proof.
  intros Hf Hs. split; intros *.
  - intros Ho [HI HR]. split; [by apply heap_inv_step|]. eapply Hf; [|done]. by apply job_frame_op.
  - intros Hst [HI HR]. split; [by apply (qi_set_state (Q:=heap_inv))|by apply Hs].
  - intros Hi [HI HR]. split; [by apply (qi_heap_remove (Q:=heap_inv))|]. eapply Hf; [|done].
    apply job_frame_heap, frame_heap_remove; [apply HI|done].
Qed.

Lemma Unwritten_framed (R : GlobalScheduler → Prop) :
  (∀ gs gs', job_frame gs gs' → R gs → R gs') → Unwritten (λ gs, heap_inv gs ∧ R gs).
Proof.
  intros Hf gs rest [HI HR]. split; [by apply (unwritten (Q:=heap_inv))|]. eapply Hf; [|exact HR]. by split.
Qed.

Lemma group_inv_frame gs gs' : job_frame gs gs' → group_inv gs → group_inv gs'.
Proof.
  intros HF HR gid l. rewrite (jf_groups _ _ HF).
  assert (gderef gs' l = gderef gs l) as -> by (unfold gderef; by rewrite (jf_gobjs _ _ HF)).
  intros Hl Hp. destruct (HR gid l Hl Hp) as [Hn Hg]. split; [done|].
  eapply Forall_impl; [exact Hg|]. intros id. by apply good_frame.
Qed.

#[export] Instance sched_inv_unwritten : Unwritten sched_inv.
Proof. apply Unwritten_framed, group_inv_frame. Qed.

#[export] Instance sched_inv_queue : QueueInv sched_inv.
Proof.
  apply QueueInv_framed; [apply group_inv_frame|].
  intros id st gs Hst HR gid l. rewrite groups_SetGroupState. intros Hl Hp.
  destruct (gderef_SetGroupState id st gs l) as [E|E]; rewrite E in *; [|done].
  destruct (HR gid l Hl Hp) as [Hn Hg]. split; [done|].
  eapply Forall_impl; [exact Hg|]. intros jid. apply good_asked. unfold asked.
  by rewrite GetJob_SetGroupState.
Qed.

(** The IDs a loop works on stay good. *)
Definition all_good (ids : list string) (gs : GlobalScheduler) : Prop :=
  heap_inv gs ∧ Forall (good gs) ids.

#[export] Instance good_queue ids : QueueInv (all_good ids).
Proof.
  apply QueueInv_framed.
  - intros gs gs' HF HR. eapply Forall_impl; [exact HR|]. intros id. by apply good_frame.
  - intros id st gs _ HR. eapply Forall_impl; [exact HR|]. intros jid. apply good_asked.
    unfold asked. by rewrite GetJob_SetGroupState.
Qed.

#[export] Instance sched_inv_accepts : Accepts sched_inv submittable.
Proof.
  intros j gs [HI HR] Hj. pose proof (enqueue_new j gs HI) as HE.
  pose proof (λ id, good_enqueue gs j id HI Hj) as HG.
  split; [by apply (accepts_enqueue (ok:=λ _, True))|].
  destruct (Enqueue _ _) as [e gs']. destruct HE as (Hgr & Hgo & _). cbn [snd] in *.
  intros gid l. unfold gderef. rewrite Hgr, Hgo. intros Hl Hp.
  destruct (HR gid l Hl Hp) as [Hn Hg]. split; [done|]. by eapply Forall_impl.
Qed.

(** ** Dispatching a group *)

Section Gang.
Context {C : CEL} {B : Bolt} `{GoArch} `{Zone} `{MapOrder}.

Lemma always_dispatch_ranks i js ns addr : Forall (λ j, Job.EnvVars j ≠ None) js →
  length js = length ns → always (dispatch_ranks i js ns addr).
Proof.
  revert i ns. induction js as [|j js IH]; intros i [|n ns] Hj Hl; simplify_eq/=; [solve_always|].
  apply Forall_cons in Hj as [Hj Hjs]. destruct (Job.EnvVars j) as [env|]; [|done].
  solve_always.
Qed.

Lemma match_members_length js used ms w r w' : match_members js used ms w = Some (Some r, w') →
  length js = length r.
Proof.
  revert used w r w'. induction js as [|j js IH]; intros used w r w'; cbn [match_members].
  { by intros [= <- _]. }
  unfold mbind, M_bind. destruct (find_member j used ms w) as [[[m|] w1]|]; [|done..].
  destruct (match_members js _ ms w1) as [[[r'|] w2]|] eqn:E; [|done..].
  intros [= <- _]. cbn [length]. f_equal. by eapply IH.
Qed.

Lemma queued_ranks_env ids gs : Forall (good gs) ids →
  Forall (λ j, Job.EnvVars j ≠ None) (queued_ranks ids gs).
Proof.
  unfold queued_ranks. induction 1 as [|id ids [_ Hg] _ IH]; [constructor|]. simpl.
  destruct (GetJob id gs) as [j|]; [|done]. destruct (String.eqb _ _); [|done].
  constructor; [by apply Hg|done].
Qed.

Lemma tryDispatchGroup_some g w : (1 ≤ JobGroup.NumNodes g)%Z →
  Forall (good (sched w)) (JobGroup.JobIDs g) → is_Some (tryDispatchGroup g w).
Proof.
  intros Hn Hg%queued_ranks_env. unfold tryDispatchGroup. unfold mbind at 1, M_bind at 1, gets at 1.
  destruct (Z.eqb_spec (Z.of_nat (length (queued_ranks (JobGroup.JobIDs g) (sched w))))
    (JobGroup.NumNodes g)) as [Hl|]; cbn [negb]; [|by eexists].
  unfold mbind at 1, M_bind at 1, gets at 1.
  destruct (always_match_members (queued_ranks (JobGroup.JobIDs g) (sched w)) ∅ (disc w) w)
    as [[r w1] E].
  rewrite (bind_runs _ _ _ _ _ E). destruct r as [nodes|]; [|by eexists].
  apply match_members_length in E. destruct nodes as [|m0 nodes]; [simpl in E; lia|].
  apply always_bind.
  - by apply always_dispatch_ranks.
  - intros _. solve_always.
Qed.

(** ** From states in [P] *)

Definition total {A} (P : World → Prop) (m : M World A) : Prop := ∀ w, P w → is_Some (m w).

Lemma total_bind {A A'} P (m : M World A) (f : A → M World A') :
  total P m → keeps P m → (∀ a, total P (f a)) → total P (m ≫= f).
Proof.
  intros Ht Hk Hf w HP. destruct (Ht w HP) as [[a w'] E]. rewrite (bind_runs _ _ _ _ _ E).
  by eapply Hf, Hk.
Qed.

Lemma total_for_each {A} P (l : list A) f :
  (∀ x, x ∈ l → total P (f x)) → (∀ x, keeps P (f x)) → total P (for_each l f).
Proof.
  intros Hf Hk. induction l as [|x l IH]; simpl; [intros w _; apply always_ret|].
  apply total_bind; [apply Hf; left|done|]. intros _. apply IH. intros. apply Hf. by right.
Qed.

Lemma pending_groups_ok gs : sched_inv gs → Forall (group_ok gs) (PendingGroups gs).
Proof.
  intros [_ HG]. apply Forall_forall. intros g. unfold PendingGroups.
  rewrite list_elem_of_omap. intros ([gid l] & Hl & Hp).
  rewrite range_perm in Hl. apply elem_of_map_to_list in Hl.
  destruct (String.eqb_spec (JobGroup.State (gderef gs l)) "PENDING") as [HS|]; [|done].
  simplify_eq. rewrite CopyGroup_id. by eapply HG.
Qed.

Lemma gang_phase_some w : sched_inv (sched w) → cache_ok (eval w) → is_Some (gang_phase w).
Proof.
  intros [HI HG] He. unfold gang_phase. unfold mbind at 1, M_bind at 1, gets at 1.
  set (gr := PendingGroups (sched w)).
  assert (Hgr : Forall (group_ok (sched w)) gr) by (by apply pending_groups_ok).
  set (ids := concat (JobGroup.JobIDs <$> gr)).
  apply (total_for_each (holds (Q:=all_good ids) (U:=λ _ _, True))).
  - intros g Hg. rewrite Forall_forall in Hgr. destruct (Hgr g Hg) as [Hn _].
    assert (∀ gs, Forall (good gs) ids → Forall (good gs) (JobGroup.JobIDs g)) as Hids.
    { intros gs. rewrite !Forall_forall. intros Hall id Hid. apply Hall. subst ids.
      apply list_elem_of_In, in_concat. exists (JobGroup.JobIDs g).
      rewrite <- !list_elem_of_In. split; [|done]. by apply list_elem_of_fmap_2. }
    destruct (IsZero _); [intros w' [[_ Hw'] _]; by apply tryDispatchGroup_some; auto|].
    apply total_bind; [intros w' _; apply always_time_Now|auto with keeps nocore|]. intros now.
    destruct (_ <? _)%Z; intros w' [[_ Hw'] _]; [by apply always_expire_group|].
    apply tryDispatchGroup_some; auto.
  - intros g. solve_handler.
  - split; [|done]. split; [done|]. subst ids. apply Forall_concat, Forall_fmap.
    eapply Forall_impl; [exact Hgr|]. by intros g [_ Hg].
Qed.

Lemma dispatch_tick_some w : holds (Q:=sched_inv) (U:=λ _ _, True) w → is_Some (dispatch_tick w).
Proof.
  intros Hw. unfold dispatch_tick.
  destruct (always_update_gauges w) as [[[] w1] E1].
  pose proof (keeps_update_gauges w _ w1 Hw E1) as (Hs & He & _). rewrite (bind_runs _ _ _ _ _ E1).
  destruct (gang_phase_some w1 Hs He) as [[[] w2] E2]. rewrite (bind_runs _ _ _ _ _ E2).
  match goal with |- is_Some (?m w2) => enough (always m) as Hm by apply Hm end. solve_always.
Qed.

Lemma handle_some e w : holds (Q:=sched_inv) (U:=λ _ _, True) w → is_Some (handle e w).
Proof.
  intros Hw. destruct e; cbn [handle]; try by apply dispatch_tick_some.
  all: match goal with |- is_Some (?m ?w') => enough (always m) as Hm by apply Hm end.
  all: solve_always; apply always_modify || by eexists.
Qed.

(** ** What the two submissions establish *)

Definition long_ids (uu : nat → string) : Prop := ∀ n, (8 ≤ String.length (uu n))%nat.
Abbreviation holdsG := (holds (Q:=sched_inv) (U:=λ uu _, long_ids uu)).

Lemma keeps_SubmitJob_group req : keeps holdsG (SubmitJob req).
Proof.
  apply (keeps_SubmitJob (ok:=submittable)). intros id u p r t Hid. left.
  unfold submitted_job. by destruct (parseCELRequirement _).
Qed.

Lemma rank_job_id req id g u k p n m t : Job.ID (rank_job req id g u k p n m t) = id.
Proof. unfold rank_job. by destruct (parseCELRequirement _). Qed.

Lemma rank_job_env req id g u k p n m t : Job.EnvVars (rank_job req id g u k p n m t) ≠ None.
Proof. unfold rank_job. by destruct (parseCELRequirement _). Qed.

(** A new group: the others and the jobs are as before. *)
Lemma new_group_spec g gs : let gs' := RegisterGroup (new_group g gs).1 (new_group g gs).2 in
  ∃ l, groups gs' = <[JobGroup.GroupID g := l]> (groups gs) ∧ gderef gs' l = g ∧
    (∀ l', l' ≠ l → gderef gs' l' = gderef gs l') ∧ ∀ id, asked gs' id = asked gs id.
Proof.
  unfold new_group, RegisterGroup. cbn [fst snd]. set (l := fresh _). exists l.
  assert (gderef (gs <| gobjs ::= <[l := g]> |>) l = g) as -> by apply lookup_total_insert_eq.
  assert (∀ gs0, groups (notifyGroupChange l gs0) = groups gs0 ∧ gobjs (notifyGroupChange l gs0) = gobjs gs0
    ∧ ∀ id, asked (notifyGroupChange l gs0) id = asked gs0 id) as HN
    by (intros gs0; unfold notifyGroupChange; by case_match).
  destruct (HN ((gs <| gobjs ::= <[l := g]> |>) <| groups ::= <[JobGroup.GroupID g := l]> |>)) as (E1 & E2 & E3).
  unfold gderef. rewrite E1, E2. split_and!; [done|apply lookup_total_insert_eq| |by intros id; rewrite E3].
  intros l' Hne. by apply lookup_total_insert_ne.
Qed.

Lemma register_group g gs : sched_inv gs → group_ok gs g →
  sched_inv (RegisterGroup (new_group g gs).1 (new_group g gs).2).
Proof.
  intros [HI HG] Hg. split.
  { by apply (registers_group (Q:=heap_inv)), (registers_new_group (Q:=heap_inv)). }
  destruct (new_group_spec g gs) as (l & Hgr & Hl & Hne & HA).
  assert (HT : ∀ g0, group_ok gs g0 → group_ok (RegisterGroup (new_group g gs).1 (new_group g gs).2) g0).
  { intros g0 [Hn0 Hg0]. split; [done|]. eapply Forall_impl; [exact Hg0|]. intros id. by apply good_asked. }
  intros gid l'. rewrite Hgr. destruct (decide (l' = l)) as [->|Hl'].
  - rewrite Hl. auto.
  - rewrite Hne by done. intros [[_ ?]|[_ Hgid]]%lookup_insert_Some Hp; [by simplify_eq|]. by eapply HT, HG.
Qed.

(** One submission, as a step of the state. *)
Lemma submission_runs {A} j (k : option string → M World A) w :
  (l ← on_queue (new_job j); e ← on_queue (Enqueue l); k e) w =
  let '(e, gs) := Enqueue (new_job j (sched w)).1 (new_job j (sched w)).2 in k e (w <| sched := gs |>).
Proof.
  unfold mbind, M_bind, on_queue. unfold new_job. cbn [fst snd].
  change (sched (w <| sched := ?g |>)) with g. by destruct (Enqueue _ _) as [e gs'].
Qed.

Lemma substring_full n s : (n ≤ String.length s)%nat → String.length (String.substring 0 n s) = n.
Proof.
  revert n. induction s as [|c s IH]; intros [|n] Hn; simpl in *; try lia.
  rewrite IH; lia.
Qed.

Definition ranks_inv (ids : list string) (w : World) : Prop :=
  holdsG w ∧ Forall (good (sched w)) ids.

Lemma submit_ranks_good n rank req g u p nn mp ids w r w' : (8 ≤ String.length g)%nat →
  ranks_inv ids w → submit_ranks n rank req g u p nn mp ids w = Some (r, w') →
  match r with inl ids' => ranks_inv ids' w' | inr _ => holdsG w' end.
Proof.
  intros Hg. revert rank ids w. induction n as [|n IH]; intros rank ids w HR; cbn [submit_ranks].
  { by intros [= <- <-]. }
  destruct HR as [(Hs & He & Hu) Hids]. set (id := g +:+ "-r" +:+ Itoa rank).
  rewrite (bind_runs _ _ _ _ _ (time_Now_eq w)), submission_runs.
  change (sched (w <| ticks ::= S |>)) with (sched w).
  set (job := rank_job req id g u rank p nn mp _).
  assert (Hne : Job.EnvVars job ≠ None) by apply rank_job_env.
  assert (Hid : Job.ID job = id) by apply rank_job_id.
  assert (Hj : submittable job) by (by right).
  pose proof (accepts_enqueue job (sched w) Hs Hj) as Hs'.
  pose proof (enqueue_new job (sched w) (proj1 Hs)) as HE.
  pose proof (λ id, good_enqueue (sched w) job id (proj1 Hs) Hj) as HG.
  destruct (Enqueue _ _) as [[e|] gs']; cbn [snd] in *; [by intros [= <- <-]|].
  rewrite (bind_runs _ _ _ _ _ (appendLog_eq _ _ _ _)). apply IH. split; [by split|].
  change (sched (logged _ _ _ (?w0 <| sched := gs' |>))) with gs'.
  apply Forall_app. split; [by eapply Forall_impl|]. apply Forall_singleton. split.
  - subst id. rewrite !str_app_length. simpl. lia.
  - intros j' Hj'. destruct HE as (_ & _ & _ & _ & HA). specialize (HA id).
    rewrite decide_True in HA by done. unfold asked in HA. rewrite Hj' in HA.
    apply (inj Some) in HA. unfold descriptor in HA. congruence.
Qed.

Lemma keeps_SubmitDistributed_group req : keeps holdsG (SubmitDistributedJob req).
Proof.
  unfold SubmitDistributedJob. apply keeps_bind; [apply keeps_gets|]. intros drain.
  destruct drain; [apply keeps_ret|]. intros w a w' Hw.
  rewrite (bind_runs _ _ _ _ _ (uuid_New_eq w)). cbv zeta.
  set (g := "dj-" +:+ _). set (nn := if (sd_NumNodes req <? 1)%Z then 1%Z else sd_NumNodes req).
  set (w1 := w <| uuid_count ::= S |>).
  assert (Hg : (8 ≤ String.length g)%nat).
  { subst g. rewrite str_app_length. destruct Hw as (_ & _ & Hu). specialize (Hu (uuid_count w)).
    rewrite substring_full by done. simpl. lia. }
  destruct (always_submit_ranks (Z.to_nat nn) 0 req g (default_user (sd_User req))
    (default_priority (sd_Priority req)) nn (if (sd_MasterPort req =? 0)%Z then 29500%Z else sd_MasterPort req)
    [] w1) as [[r w2] E].
  rewrite (bind_runs _ _ _ _ _ E). apply (submit_ranks_good _ _ _ _ _ _ _ _ _ _ _ _ Hg) in E;
    [|by split]. destruct r as [ids|e]; [|by intros [= _ <-]].
  destruct E as [(Hs & He & Hu) Hids].
  rewrite (bind_runs _ _ _ _ _ (time_Now_eq w2)). set (grp := JobGroup.mk g ids nn _ _ _ _).
  assert (Hok : group_ok (sched w2) grp).
  { split; [|done]. subst grp nn. simpl. destruct (Z.ltb_spec (sd_NumNodes req) 1); lia. }
  intros [= _ <-]. split; [|by split]. by apply register_group.
Qed.
End Gang.
