(* ===== verification/Restart.v ===== *)
(** * The state after a restart

    What StartMaster makes of the database: the scheduler it restores, the
    invariants every run starts from, and that no run panics. *)

From S2P Require Import Prelude GoStd GoJson GoTime GoHeap Queue QueueFacts SchedulerSpec.
From S2P Require Import QueueProps JobTable Messaging Fairshare CircuitBreaker Tracker Matchmaker.
From S2P Require Import Store Config GoRegexp World Server Dispatch Master Hoare Panics Demo.
Import GlobalScheduler (objs, gobjs, queue, jobs, groups, MaxQueueSize, OnJobChange,
  OnGroupChange, dbWriteChan).
#[local] Open Scope string_scope.
#[local] Open Scope list_scope.
#[local] Open Scope Z_scope.

Section Restart.
Context {C : CEL} {B : Bolt} `{GoArch} `{Zone} `{MapOrder}.

(** ** Induction over the restore *)

Definition empty_scheduler (cfg : Config) : GlobalScheduler :=
  NewGlobalScheduler <| MaxQueueSize := Config.MaxQueueSize cfg |> <| OnJobChange := true |>
    <| OnGroupChange := true |>.

(** [P done gs]: of the jobs loaded, [done] have been looked at. *)
Lemma restore_jobs_ind (P : list Job → GlobalScheduler → Prop) times gs d l :
  P [] gs →
  (∀ done now j gs d, P done gs → P (done ++ [j]) (restore_job now j (gs, d)).1) →
  P l (foldl (λ s '(i, job), restore_job (times i) job s) (gs, d) (imap (λ i j, (i, j)) l)).1.
Proof.
  intros H0' Hj. cut (∀ k pre gs d, P pre gs → P (pre ++ l) (foldl (λ s '(i, job), restore_job (times i) job s)
    (gs, d) (imap (λ i j, ((k + i)%nat, j)) l)).1).
  { intros Hc. apply (Hc O [] gs d H0'). }
  clear H0' gs d. induction l as [|j l IH]; intros k pre gs d HP; [by rewrite app_nil_r|].
  cbn [imap foldl]. rewrite Nat.add_0_r. pose proof (Hj pre (times k) j gs d HP) as HP'.
  destruct (restore_job (times k) j (gs, d)) as [gs' d'].
  specialize (IH (S k) (pre ++ [j]) gs' d' HP'). rewrite <- app_assoc in IH. simpl in IH.
  assert (E : imap (λ i j, (S k + i, j)%nat) l = imap ((λ i j, ((k + i)%nat, j)) ∘ S) l).
  { apply imap_ext. intros i x _. simpl. f_equal. lia. }
  rewrite <- E. exact IH.
Qed.

Lemma restore_groups_ind (P : GlobalScheduler → Prop) gs d l :
  P gs → (∀ g gs d, P gs → P (restore_group g (gs, d)).1) →
  P (foldl (λ s g, restore_group g s) (gs, d) l).1.
Proof.
  intros HP Hg. revert gs d HP. induction l as [|g l IH]; intros gs d HP; [done|]. cbn [foldl].
  pose proof (Hg g gs d HP). destruct (restore_group g (gs, d)). by apply IH.
Qed.

(** A property of the restored scheduler, from one that follows the jobs. *)
Lemma restore_ind (P : list Job → GlobalScheduler → Prop) times cfg d :
  P [] (empty_scheduler cfg) →
  (∀ done now j gs d, P done gs → P (done ++ [j]) (restore_job now j (gs, d)).1) →
  (∀ done g gs d, P done gs → P done (restore_group g (gs, d)).1) →
  P (LoadJobs d) (restore times cfg d).1.1.
Proof.
  intros H0' Hj Hg. unfold restore. cbv zeta. fold (empty_scheduler cfg).
  pose proof (restore_jobs_ind P times (empty_scheduler cfg) d (LoadJobs d) H0' Hj) as H1'.
  destruct (foldl _ (empty_scheduler cfg, d) _) as [gs1 d1].
  pose proof (restore_groups_ind (P (LoadJobs d)) gs1 d1 (LoadGroups d1) H1' (Hg (LoadJobs d))) as H2'.
  by destruct (foldl _ (gs1, d1) _) as [gs2 d2].
Qed.

(** ** The restored scheduler *)

(** After looking at the jobs [seen]: only queued jobs are tracked, each from the
    database; no group is in flight; with an unbounded queue, every queued job
    of the database is tracked. *)
Record restored (m : Z) (seen : list Job) (gs : GlobalScheduler) : Prop := {
  rs_heap : heap_inv gs;
  rs_max : MaxQueueSize gs = m;
  rs_queued id j : GetJob id gs = Some j → Job.State j = StateQueued;
  rs_groups gid l : groups gs !! gid = Some l →
    JobGroup.State (gderef gs l) ≠ "PENDING" ∧ JobGroup.State (gderef gs l) ≠ "RUNNING";
  rs_from id x : asked gs id = Some x →
    ∃ j, j ∈ seen ∧ Job.State j = StateQueued ∧ Job.ID j = id ∧ descriptor j = x;
  rs_all : m ≤ 0 → NoDup (Job.ID <$> seen) →
    ∀ j, j ∈ seen → Job.State j = StateQueued → asked gs (Job.ID j) = Some (descriptor j)
}.

Lemma restored_start cfg : restored (Config.MaxQueueSize cfg) [] (empty_scheduler cfg).
Proof.
  split; try done.
  - apply (wf_heap_inv (started 0 false)), wf_started.
  - intros _ _ j Hj. by apply not_elem_of_nil in Hj.
Qed.

(** A job that is not queued adds nothing. *)
Lemma restored_skip m seen j gs : restored m seen gs → Job.State j ≠ StateQueued →
  restored m (seen ++ [j]) gs.
Proof.
  intros [] Hj. split; try done.
  - intros id x Hx. destruct (rs_from0 id x Hx) as (j' & ? & ?). exists j'. split; [set_solver|done].
  - intros Hm Hnd j' Hj' Hs. rewrite fmap_app in Hnd. apply NoDup_app in Hnd as [Hnd _].
    apply elem_of_app in Hj' as [Hj'| ->%list_elem_of_singleton]; [by apply rs_all0|done].
Qed.

Lemma restored_enqueue m seen j gs : restored m seen gs → Job.State j = StateQueued →
  restored m (seen ++ [j]) (Enqueue (new_job j gs).1 (new_job j gs).2).2.
Proof.
  intros [HI Hmax Hq Hg Hf Ha] Hj. pose proof (enqueue_new j gs HI) as HE.
  pose proof (λ id, enqueue_state j gs id HI) as HS.
  pose proof (accepts_enqueue (Q:=heap_inv) j gs HI I) as HI'.
  destruct (Enqueue _ _) as [e gs']. cbn [fst snd] in *. destruct HE as (Egr & Ego & Ec & Ee & HA).
  assert (Em : MaxQueueSize gs' = MaxQueueSize gs) by (unfold config_of in Ec; congruence).
  split; [done|congruence|..].
  - intros id j' Hj'. specialize (HS id). rewrite Hj' in HS. simpl in HS.
    assert (Job.State <$> GetJob id gs = Some (Job.State j') → Job.State j' = StateQueued) as Hold.
    { destruct (GetJob id gs) as [j0|] eqn:E; [|done]. intros [= <-]. by eapply Hq. }
    destruct e; [by apply Hold|]. case_decide; [by simplify_eq|by apply Hold].
  - intros gid l. unfold gderef. rewrite Egr, Ego. apply Hg.
  - intros id x. rewrite HA. intros Hx.
    assert (asked gs id = Some x → ∃ j0, j0 ∈ seen ++ [j] ∧ Job.State j0 = StateQueued ∧ Job.ID j0 = id ∧
      descriptor j0 = x) as Hold.
    { intros (j0 & ? & ?)%Hf. exists j0. split; [set_solver|done]. }
    destruct e; [by apply Hold|]. case_decide; [|by apply Hold]. simplify_eq. exists j. split; [set_solver|done].
  - intros Hm Hnd j' Hj' Hs. destruct (Z.ltb_spec 0 (MaxQueueSize gs)); [lia|]. cbn [andb] in Ee. subst e. rewrite HA.
    rewrite fmap_app in Hnd. apply NoDup_app in Hnd as (Hnd & Hd & _).
    apply elem_of_app in Hj' as [Hj'| ->%list_elem_of_singleton]; [|by rewrite decide_True].
    rewrite decide_False; [by apply Ha|]. intros Hid. apply (Hd (Job.ID j')); [by apply list_elem_of_fmap_2|].
    rewrite Hid. simpl. by left.
Qed.

Lemma restored_job m seen now j gs d : restored m seen gs →
  restored m (seen ++ [j]) (restore_job now j (gs, d)).1.
Proof.
  intros HR. unfold restore_job. destruct (String.eqb_spec (Job.State j) StateQueued) as [Hj|Hj].
  - exact (restored_enqueue m seen j gs HR Hj).
  - destruct (String.eqb _ StateRunning); by apply restored_skip.
Qed.

Lemma restored_group m seen g gs d : restored m seen gs → restored m seen (restore_group g (gs, d)).1.
Proof.
  intros [HI Hmax Hq Hg Hf Ha]. unfold restore_group. cbv zeta.
  set (active := String.eqb _ "PENDING" || String.eqb _ "RUNNING").
  set (g' := if active then _ else g).
  assert (Hg' : JobGroup.State g' ≠ "PENDING" ∧ JobGroup.State g' ≠ "RUNNING").
  { subst g' active. destruct (String.eqb_spec (JobGroup.State g) "PENDING"); [done|].
    by destruct (String.eqb_spec (JobGroup.State g) "RUNNING"). }
  destruct (new_group_spec g' gs) as (l & Egr & El & Ene & HA).
  pose proof (registers_group (Q:=heap_inv) (new_group g' gs).1 _ (registers_new_group (Q:=heap_inv) g' gs HI)) as HI'.
  assert (HC : config_of (RegisterGroup (new_group g' gs).1 (new_group g' gs).2) = config_of gs)
    by (unfold RegisterGroup; by rewrite config_gnotify).
  assert (HJ : ∀ id, GetJob id (RegisterGroup (new_group g' gs).1 (new_group g' gs).2) = GetJob id gs).
  { intros id. unfold RegisterGroup, notifyGroupChange. by case_match. }
  destruct (new_group g' gs) as [l0 gs0]. cbn [fst snd] in *.
  assert (Em : MaxQueueSize (RegisterGroup l0 gs0) = MaxQueueSize gs) by (unfold config_of in HC; congruence).
  split; [done|congruence|..].
  - intros id j. rewrite HJ. apply Hq.
  - intros gid l'. rewrite Egr. destruct (decide (l' = l)) as [->|Hl']; [by rewrite El|].
    rewrite Ene by done. intros [[_ ?]|[_ Hgid]]%lookup_insert_Some; [by simplify_eq|]. by eapply Hg.
  - intros id x. rewrite HA. apply Hf.
  - intros Hm Hnd j Hj Hs. rewrite HA. by apply Ha.
Qed.

Lemma restore_restored times cfg d :
  restored (Config.MaxQueueSize cfg) (LoadJobs d) (restore times cfg d).1.1.
Proof.
  apply (restore_ind (restored (Config.MaxQueueSize cfg))); [apply restored_start| |].
  - intros. by apply restored_job.
  - intros. by apply restored_group.
Qed.

Lemma sched_StartMaster times cfg d clk uu :
  sched (StartMaster times cfg d clk uu) = (restore times cfg d).1.1.
Proof. unfold StartMaster. by destruct (restore times cfg d) as [[??]?]. Qed.

Lemma holds_StartMaster (U : (nat → string) → Prop) times cfg d clk uu :
  U uu → holds (Q:=sched_inv) (U:=λ uu _, U uu) (StartMaster times cfg d clk uu).
Proof.
  intros HU. split; [|split].
  - rewrite sched_StartMaster. destruct (restore_restored times cfg d) as [HI _ _ Hg _ _].
    split; [done|]. intros gid l Hl Hp. by destruct (Hg gid l Hl).
  - unfold StartMaster. destruct (restore times cfg d) as [[??]?]. apply cache_ok_new.
  - unfold StartMaster. by destruct (restore times cfg d) as [[??]?].
Qed.

Lemma reachable_holds times cfg d clk uu es w :
  steps (StartMaster times cfg d clk uu) es w → holds (Q:=heap_inv) (U:=λ _ _, True) w.
Proof.
  intros Hs. eapply steps_keep; [..|exact Hs|]; try apply _.
  - intros req. by apply (keeps_SubmitJob (ok:=λ _, True)).
  - intros req. apply (keeps_SubmitDistributedJob (ok:=λ _, True)); [done|apply _].
  - by destruct (holds_StartMaster (λ _, True) times cfg d clk uu I) as ([HI _] & He & _).
Qed.

Lemma reachable_groups times cfg d clk uu es w : long_ids uu →
  steps (StartMaster times cfg d clk uu) es w → holds (Q:=sched_inv) (U:=λ uu _, long_ids uu) w.
Proof.
  intros HU Hs. eapply steps_keep; [..|exact Hs|by apply holds_StartMaster]; try apply _.
  - intros req. apply keeps_SubmitJob_group.
  - intros req. apply keeps_SubmitDistributed_group.
Qed.

(** The master never panics: from any database and with identifiers at least
    eight characters long (a UUID has 36), whatever has happened so far, every
    request, timer, membership change and turn of a loop is handled to its end
    (no index out of range, no write to a nil map). *)
Theorem master_never_panics times cfg d clk uu es w e : long_ids uu →
  steps (StartMaster times cfg d clk uu) es w → ∃ w', step w e w'.
Proof.
  intros HU Hs. destruct (reachable_groups _ _ _ _ _ _ _ HU Hs) as (HQ & He & _).
  destruct (handle_some e w) as [[[] w'] E]; [by split; [|split]|].
  exists w'. by constructor.
Qed.

(** C12: after a restart the tracked jobs are the queued jobs of the database,
    each with the fields its submitter chose, all of them when the queue is
    unbounded; no job is running and no group is in flight. *)
Theorem restart_restores_queue times cfg d clk uu :
  let gs := sched (StartMaster times cfg d clk uu) in
  (∀ id j, GetJob id gs = Some j → Job.State j = StateQueued ∧
    ∃ j0, j0 ∈ LoadJobs d ∧ Job.State j0 = StateQueued ∧ Job.ID j0 = id ∧ descriptor j0 = descriptor j) ∧
  (Config.MaxQueueSize cfg ≤ 0 → NoDup (Job.ID <$> LoadJobs d) →
    ∀ j0, j0 ∈ LoadJobs d → Job.State j0 = StateQueued →
      ∃ j, GetJob (Job.ID j0) gs = Some j ∧ descriptor j = descriptor j0) ∧
  ∀ gid g, GetGroup gid gs = Some g → JobGroup.State g ≠ "PENDING" ∧ JobGroup.State g ≠ "RUNNING".
Proof.
  intros gs. subst gs. rewrite sched_StartMaster.
  destruct (restore_restored times cfg d) as [HI _ Hq Hg Hf Ha]. split; [|split].
  - intros id j Hj. split; [by eapply Hq|]. destruct (Hf id (descriptor j)) as (j0 & ? & ? & ? & ?).
    { unfold asked. by rewrite Hj. }
    by exists j0.
  - intros Hm Hnd j0 Hj0 Hs. specialize (Ha Hm Hnd j0 Hj0 Hs). unfold asked in Ha.
    destruct (GetJob (Job.ID j0) _) as [j|]; [|done]. apply (inj Some) in Ha. by exists j.
  - intros gid g. unfold GetGroup. destruct (groups _ !! gid) as [l|] eqn:E; [|done].
    rewrite CopyGroup_id. intros [= <-]. by apply (Hg gid).
Qed.
End Restart.

Section Witnesses.
#[local] Existing Instances toy_cel bolt_map amd64 utc map_order_canonical.

Lemma master_never_panics_witness :
  ∃ w', step demo_world (ESubmitDistributed (demo_group 2 1)) w'.
Proof.
  exact (master_never_panics demo_clock DefaultConfig ∅ demo_clock demo_uuids demo_events demo_world
    (ESubmitDistributed (demo_group 2 1)) demo_uuids_long demo_steps).
Defined.

Lemma restart_restores_queue_witness :
  ∃ j, GetJob (Job.ID sample_job)
      (sched (StartMaster demo_clock (DefaultConfig <| Config.MaxQueueSize := 0 |>) demo_db demo_clock demo_uuids))
    = Some j ∧ descriptor j = descriptor (stored sample_job).
Proof.
  destruct (restart_restores_queue demo_clock (DefaultConfig <| Config.MaxQueueSize := 0 |>) demo_db
    demo_clock demo_uuids) as (_ & Hall & _).
  apply (Hall (Z.le_refl 0) ltac:(rewrite demo_db_jobs; apply NoDup_singleton) (stored sample_job)).
  - rewrite demo_db_jobs. left.
  - reflexivity.
Defined.
End Witnesses.
