(* ===== verification/MasterProps.v ===== *)
(** * What the master guarantees

    The theorems about the handlers and loops of internal/daemon/master.go. *)

From S2P Require Import Prelude GoStd GoJson GoTime GoHeap Queue QueueFacts SchedulerSpec.
From S2P Require Import QueueProps JobTable Messaging Fairshare CircuitBreaker Tracker Matchmaker Store.
From S2P Require Import Config GoRegexp World Server Dispatch Master Hoare Panics Restart Demo.
Import GlobalScheduler (objs, gobjs, queue, jobs, groups, MaxQueueSize, OnJobChange,
  OnGroupChange, dbWriteChan).
#[local] Open Scope string_scope.
#[local] Open Scope list_scope.
#[local] Open Scope Z_scope.

Section Props.
Context {C : CEL} {B : Bolt} `{GoArch} `{Zone} `{MapOrder}.

(** C11: in every state the master can reach from any database, whatever the
    clients, workers, timers, members and the database writer do, the queue is
    heap ordered, Peek shows a job no queued job precedes, and Dequeue hands out
    that very job. *)
Theorem master_serves_in_priority_order times cfg d clk uu es w :
  steps (StartMaster times cfg d clk uu) es w →
  ordered (sched w) ∧
  match Peek (sched w) with
  | None => queue (sched w) = [] ∧ Dequeue (sched w) = (None, sched w)
  | Some j => (∃ j' gs', Dequeue (sched w) = (Some j', gs') ∧ erase j' = erase j) ∧
      ∀ l, l ∈ queue (sched w) → JobQueue.job_less (deref (sched w) l) j = false
  end.
Proof.
  intros Hs. pose proof (reachable_holds _ _ _ _ _ _ _ Hs) as [(HO & _) _]. split; [done|].
  unfold Peek, Dequeue. change (Len (sched w)) with (length (queue (sched w))).
  destruct (queue (sched w)) as [|l q] eqn:E; [done|]. cbn [length Nat.eqb].
  destruct (heap_pop_spec (sched w) l q HO E) as (gs' & -> & HR & _ & Hmin).
  pose proof (frame_removed _ _ _ _ HR) as HF. rewrite !Copy_id, <- E. split.
  - exists (deref gs' l), gs'. split; [done|]. apply (hf_obj _ _ HF).
  - intros l' Hl'. by rewrite <- (Hmin l' Hl'), key_lt_less.
Qed.

(** ** Where a job may go *)

Lemma int_of_float_range x z : float64.trunc x = Some z → in_int64 z → int_of_float x = z.
Proof.
  intros Hz Hr. unfold int_of_float. rewrite Hz. unfold in_int64 in Hr.
  destruct (Z.leb_spec (- 2 ^ 63) z); [|lia]. destruct (Z.ltb_spec z (2 ^ 63)); [done|lia].
Qed.

(** A counter leaves room for one more request. *)
Lemma room_for m node required total : 0 ≤ used m node < 2 ^ 63 → 0 < required → total < 2 ^ 63 →
  required ≤ total → required ≤ total -ᵢ used m node →
  0 ≤ total -ᵢ used (map_add node required m) node.
Proof.
  intros Hu Hr Ht Hrt Ha. rewrite int_sub_small in Ha by (unfold in_int64; lia).
  rewrite used_add, decide_True by (done || (unfold in_int64; lia)).
  rewrite int_sub_small by (unfold in_int64; lia). lia.
Qed.

(** What a node advertises for a resource. *)
Definition advertised (member : Node) (key : string) : Z :=
  int_of_float (get_float (Unmarshal_map (Node.Meta member)).1 key).

Lemma enough_sound ad key r av : enough ad key r av = true → 0 < r →
  r ≤ int_of_float (get_float ad key) ∧ r ≤ av (int_of_float (get_float ad key)).
Proof.
  unfold enough. intros He Hr. destruct (Z.ltb_spec 0 r); [|lia]. to_prop. lia.
Qed.

Definition tracker_ok (gt : gpuTracker) : Prop := ∀ node,
  0 ≤ used (gpuTracker.gpusAllocated gt) node < 2 ^ 63 ∧
  0 ≤ used (gpuTracker.cpusAllocated gt) node < 2 ^ 63 ∧
  0 ≤ used (gpuTracker.memAllocated gt) node < 2 ^ 63.

(** [int(total)] of a class ad, when it fits. *)
Definition totals_fit (member : Node) : Prop :=
  advertised member "gpu_count" < 2 ^ 63 ∧ advertised member "cpu_cores" < 2 ^ 63 ∧
  advertised member "total_memory_mb" < 2 ^ 63.

(** C18: the capacity check is sound: once a job it accepted is allocated, no
    resource the job asks for is promised beyond what the node advertises. *)
Theorem accepted_job_fits gt member job :
  Node.Meta member ≠ "" → tracker_ok gt → totals_fit member →
  canDispatchResources gt member job = true →
  let node := Node.Name member in
  let gt' := Allocate node (Job.GPUsRequired job) (Job.CPUsRequired job) (Job.MemoryRequiredMB job) gt in
  (0 < Job.GPUsRequired job → 0 ≤ AvailableGPUs node (advertised member "gpu_count") gt') ∧
  (0 < Job.CPUsRequired job → 0 ≤ AvailableCPUs node (advertised member "cpu_cores") gt') ∧
  (0 < Job.MemoryRequiredMB job →
    0 ≤ AvailableMemory node (advertised member "total_memory_mb") gt').
Proof.
  intros Hm Hgt (Tg & Tc & Tm) Hc node gt'. destruct (Hgt node) as (Ug & Uc & Um).
  unfold canDispatchResources in Hc.
  assert (0 < String.length (Node.Meta member))%nat as HL by (destruct (Node.Meta member); [done|simpl; lia]).
  destruct (Nat.ltb_spec 0 (String.length (Node.Meta member))); [|lia].
  apply andb_true_iff in Hc as [[Hg Hcp]%andb_true_iff Hmem].
  split; [|split]; intros Hr.
  - destruct (enough_sound _ _ _ _ Hg Hr). by apply room_for.
  - destruct (enough_sound _ _ _ _ Hcp Hr). by apply room_for.
  - destruct (enough_sound _ _ _ _ Hmem Hr). by apply room_for.
Qed.

(** ** The search for a member *)

(** What the breaker knows of the node [n]. *)
Definition entry (b : circuitBreaker) (n : string) : option Z * option Time * option string :=
  (circuitBreaker.failures b !! n, circuitBreaker.blocked b !! n, circuitBreaker.lastFailedJob b !! n).

(** The block of [n] had ended, or not, at a reading of the clock between [w]
    and [w']. *)
Definition read_after (ended : bool) (t : Time) (w w' : World) : Prop :=
  ∃ k, (ticks w ≤ k < ticks w')%nat ∧ After (clock w k) t = ended.

(** [w'] is [w] after a search: the clock has been read, programs may have been
    cached, and blocks that had ended may have been dropped.  Nothing else has
    changed. *)
Record same (w w' : World) : Prop := {
  sm_frame : w' = w <| eval := eval w' |> <| cb := cb w' |> <| ticks := ticks w' |>;
  sm_ticks : (ticks w ≤ ticks w')%nat;
  sm_breaker n : entry (cb w') n = entry (cb w) n ∨
    entry (cb w') n = (None, None, None) ∧
      ∃ t, circuitBreaker.blocked (cb w) !! n = Some t ∧ read_after true t w w'
}.

Lemma same_clock w w' : same w w' → clock w' = clock w.
Proof. by intros [-> _ _]. Qed.
Lemma same_parts w w' : same w w' →
  sched w' = sched w ∧ tracker w' = tracker w ∧ disc w' = disc w ∧ pub w' = pub w.
Proof. by intros [-> _ _]. Qed.

(** A block that is still there was there before. *)
Lemma same_blocked w w' n t : same w w' → circuitBreaker.blocked (cb w') !! n = Some t →
  circuitBreaker.blocked (cb w) !! n = Some t.
Proof. intros [_ _ Hb] Ht. destruct (Hb n) as [E|[E _]]; unfold entry in E; congruence. Qed.

Lemma same_refl w : same w w.
Proof. split; [by destruct w|done|by left]. Qed.

#[export] Instance same_preorder : PreOrder same.
Proof.
  split; [exact same_refl|]. intros w0 w1 w2 H01 H12. pose proof H01 as [F1 T1 B1]. pose proof H12 as [F2 T2 B2].
  split; [|lia|].
  - rewrite F2 at 1. by rewrite F1 at 1.
  - assert (HR : ∀ ended t, read_after ended t w0 w1 ∨ read_after ended t w1 w2 → read_after ended t w0 w2).
    { intros ended t [(k & Hk & E)|(k & Hk & E)]; exists k; [by split; [lia|]|].
      rewrite <- (same_clock _ _ H01). by split; [lia|]. }
    intros n. destruct (B2 n) as [->|(-> & t & Ht & Hr)].
    + destruct (B1 n) as [?|(-> & t & Ht & Hr)]; [by left|right]. split; [done|]. exists t. auto.
    + right. split; [done|]. exists t. split; [by eapply same_blocked|auto].
Qed.

Definition eval_ok (w : World) : Prop := cache_ok (eval w).

(** [m]'s breaker is open: some reading of the clock finds its block not ended. *)
Definition is_open (w w' : World) (m : Node) : Prop := ∃ t,
  circuitBreaker.blocked (cb w) !! Node.Name m = Some t ∧ read_after false t w w'.
(** It has no block, or one that has ended. *)
Definition not_open (w w' : World) (m : Node) : Prop := ∀ t,
  circuitBreaker.blocked (cb w) !! Node.Name m = Some t → read_after true t w w'.

Lemma cb_IsBlocked_spec m w : ∃ b w', cb_IsBlocked (Node.Name m) w = Some (b, w') ∧ same w w' ∧
  eval w' = eval w ∧ (if b then is_open w w' m else not_open w w' m).
Proof.
  unfold cb_IsBlocked. rewrite (bind_runs _ _ _ _ _ (time_Now_eq w)). unfold on_cb, IsBlocked.
  change (cb (w <| ticks ::= S |>)) with (cb w). set (n := Node.Name m).
  assert (HR : ∀ t b (w' : World), After (clock w (ticks w)) t = b → ticks w' = S (ticks w) → read_after b t w w').
  { intros t b w' E Hw. exists (ticks w). split; [lia|exact E]. }
  destruct (circuitBreaker.blocked (cb w) !! n) as [t|] eqn:E; [destruct (After (clock w (ticks w)) t) eqn:Ea|];
    eexists _, _; (split; [reflexivity|]).
  - split; [|split; [done|]].
    + split; [done|cbn; lia|]. intros n'. destruct (decide (n' = n)) as [->|Hne].
      * right. split; [unfold entry; cbn; by rewrite !lookup_delete_eq|]. exists t. split; [done|]. by apply HR.
      * left. unfold entry. cbn. by rewrite !lookup_delete_ne.
    + intros t' Ht'. fold n in Ht'. rewrite E in Ht'. injection Ht' as <-. by apply HR.
  - split; [split; [done|cbn; lia|by left]|]. split; [done|]. exists t. split; [exact E|]. by apply HR.
  - split; [split; [done|cbn; lia|by left]|]. split; [done|]. intros t' Ht'. fold n in Ht'. congruence.
Qed.

Lemma eval_Match_spec x ad w : eval_ok w → ∃ w', eval_Match x ad w = Some ((Match x ad NewEvaluator).1, w') ∧
  same w w' ∧ eval_ok w'.
Proof.
  intros Hok. unfold eval_Match. destruct (Match_cache x ad (eval w) Hok) as [He Hok'].
  destruct (Match x ad (eval w)) as [r e]. simpl in *. subst r.
  eexists. split; [reflexivity|]. split; [|done]. by split; [|done|left].
Qed.

(** [m] is fit to run the job, its breaker apart. *)
Definition suits (job : Job) (usedNodes : gset string) (w : World) (m : Node) : Prop :=
  (Node.Name m ∉ usedNodes) ∧ Node.Meta m ≠ "" ∧ canDispatchResources (tracker w) m job = true ∧
  (Match (Job.Requirement job) (Node.Meta m) NewEvaluator).1 = (true, None).

(** The search passes over a member that does not suit or whose breaker is open. *)
Definition passed_over (job : Job) (usedNodes : gset string) (w w' : World) (m : Node) : Prop :=
  suits job usedNodes w m → is_open w w' m.

(** The first of the members that is not to be passed over. *)
Definition selected (job : Job) (usedNodes : gset string) (w : World) (members : list Node) (m : Node)
    (w' : World) : Prop :=
  ∃ before after, members = before ++ m :: after ∧ Forall (passed_over job usedNodes w w') before ∧
    suits job usedNodes w m ∧ not_open w w' m.

Lemma passed_over_later job used w w1 w2 m : same w w1 → same w1 w2 →
  passed_over job used w w1 m → passed_over job used w w2 m.
Proof.
  intros H01 H12 Hp Hs. destruct (Hp Hs) as (t & Ht & k & Hk & E). exists t. split; [done|].
  exists k. pose proof (sm_ticks _ _ H12). split; [lia|done].
Qed.

Lemma passed_over_earlier job used w w1 w2 m : same w w1 → passed_over job used w1 w2 m → passed_over job used w w2 m.
Proof.
  intros H01 Hp (Hu & Hm & Hc & HM). destruct (same_parts _ _ H01) as (_ & Ht & _).
  destruct Hp as (t & Hb & k & Hk & E); [unfold suits; by rewrite Ht|].
  exists t. split; [by eapply same_blocked|]. exists k. pose proof (sm_ticks _ _ H01).
  rewrite <- (same_clock _ _ H01). split; [lia|done].
Qed.

Lemma not_open_later w w1 w2 m : same w w1 → same w1 w2 → not_open w w1 m → not_open w w2 m.
Proof.
  intros H01 H12 Hn t Ht. destruct (Hn t Ht) as (k & Hk & E). exists k. pose proof (sm_ticks _ _ H12). split; [lia|done].
Qed.

Lemma not_open_earlier w w1 w2 m : same w w1 → same w1 w2 → not_open w1 w2 m → not_open w w2 m.
Proof.
  intros H01 H12 Hn t Ht. pose proof (sm_ticks _ _ H01). pose proof (sm_ticks _ _ H12).
  destruct (sm_breaker _ _ H01 (Node.Name m)) as [E|(_ & t' & Ht' & k & Hk & Ek)].
  - destruct (Hn t) as (k & Hk & Ek); [unfold entry in E; congruence|].
    exists k. rewrite <- (same_clock _ _ H01). split; [lia|done].
  - exists k. rewrite Ht in Ht'. injection Ht' as <-. split; [lia|done].
Qed.

Lemma find_member_spec job usedNodes members w : eval_ok w →
  ∃ r w', find_member job usedNodes members w = Some (r, w') ∧ same w w' ∧ eval_ok w' ∧
  match r with
  | Some m => selected job usedNodes w members m w'
  | None => Forall (passed_over job usedNodes w w') members
  end.
Proof.
  revert w. induction members as [|m ms IH]; intros w Hok; cbn [find_member].
  { exists None, w. split_and!; [done..|constructor]. }
  assert (Hrest : ∀ w1, same w w1 → eval_ok w1 → passed_over job usedNodes w w1 m →
    ∃ r w', find_member job usedNodes ms w1 = Some (r, w') ∧ same w w' ∧ eval_ok w' ∧
      match r with
      | Some m' => selected job usedNodes w (m :: ms) m' w'
      | None => Forall (passed_over job usedNodes w w') (m :: ms)
      end).
  { intros w1 Hs Hok1 Hp. destruct (IH w1 Hok1) as (r & w' & E & Hs' & Hok' & Hr).
    exists r, w'. split; [done|]. split; [by etrans|]. split; [done|].
    assert (HF : ∀ l, Forall (passed_over job usedNodes w1 w') l → Forall (passed_over job usedNodes w w') l).
    { intros l Hl. eapply Forall_impl; [exact Hl|]. intros x. by apply passed_over_earlier. }
    pose proof (passed_over_later _ _ _ _ _ _ Hs Hs' Hp) as Hp'.
    destruct r as [m'|]; [|constructor; auto]. destruct Hr as (b & a & -> & Hb & (Hu & Hm & Hc & HM) & Hn).
    exists (m :: b), a. destruct (same_parts _ _ Hs) as (_ & Ht & _).
    split; [done|]. split; [constructor; auto|]. split; [|by eapply not_open_earlier]. unfold suits. by rewrite <- Ht. }
  destruct (decide (Node.Name m ∈ usedNodes)) as [|Hu]; [apply Hrest; [done|done|by intros [? _]]|].
  destruct (Nat.eqb_spec (String.length (Node.Meta m)) 0) as [Hz|Hm].
  { apply Hrest; [done|done|]. intros (_ & Hm & _). destruct (Node.Meta m); [done|discriminate Hz]. }
  destruct (cb_IsBlocked_spec m w) as (b & w1 & E1 & Hs1 & He1 & Hb).
  rewrite (bind_runs _ _ _ _ _ E1).
  assert (Hok1 : eval_ok w1) by (unfold eval_ok; by rewrite He1).
  destruct b; [apply Hrest; [done|done|by intros _]|].
  unfold mbind at 1, M_bind at 1, gets at 1. destruct (same_parts _ _ Hs1) as (_ & Ht & _). rewrite Ht.
  destruct (canDispatchResources (tracker w) m job) eqn:Ec; cbn [negb];
    [|apply Hrest; [done|done|intros (_ & _ & Hc & _); congruence]].
  destruct (eval_Match_spec (Job.Requirement job) (Node.Meta m) w1 Hok1) as (w2 & E2 & Hs2 & Hok2).
  rewrite (bind_runs _ _ _ _ _ E2).
  destruct (Match (Job.Requirement job) (Node.Meta m) NewEvaluator).1 as [mt err] eqn:EM.
  assert (Hs12 : same w w2) by (by etrans).
  destruct err as [e|]; [apply Hrest; [done|done|intros (_ & _ & _ & HM); congruence]|].
  destruct mt; [|apply Hrest; [done|done|intros (_ & _ & _ & HM); congruence]].
  exists (Some m), w2. split; [done|]. split; [done|]. split; [done|]. exists [], ms. split; [done|]. split; [by apply Forall_nil|].
  split; [|by apply (not_open_later w w1 w2)]. split_and!; try done. intros Hz. apply Hm. by rewrite Hz.
Qed.

(** C19: on a master whose cached programs are those of their expressions (every
    reachable one's are), the search of phase 1 always ends, without a panic, and selects the first
    member that will do: a current member with a class ad that satisfies the job's
    requirement, with free resources that cover it, and whose breaker has no block
    or one that a reading of the clock during the search finds ended.  Each member
    before it, or every member when none is selected, fails one of these, its block
    not yet ended at such a reading.  The search changes nothing but the clock's
    readings, the program cache (whose programs stay those of their expressions)
    and the breaker, from which it drops only blocks that had ended. *)
Theorem selected_member_can_run_the_job job w : eval_ok w →
  ∃ r w', find_member job ∅ (disc w) w = Some (r, w') ∧ same w w' ∧ eval_ok w' ∧
  match r with
  | Some m => selected job ∅ w (disc w) m w'
  | None => Forall (passed_over job ∅ w w') (disc w)
  end.
Proof. exact (find_member_spec job ∅ (disc w) w). Qed.
End Props.

(** ** On the concrete master *)

Section Witnesses.
#[local] Existing Instances toy_cel bolt_map amd64 utc map_order_canonical.

Lemma master_serves_in_priority_order_witness :
  ordered (sched demo_world) ∧ Job.ID <$> Peek (sched demo_world) = Some "00000001".
Proof.
  destruct (master_serves_in_priority_order demo_clock DefaultConfig ∅ demo_clock demo_uuids
    demo_events demo_world demo_steps) as [HO _].
  split; [exact HO|]. vm_compute. reflexivity.
Defined.

Definition demo_job : Job :=
  Job.zero <| Job.ID := "j" |> <| Job.GPUsRequired := 2 |> <| Job.CPUsRequired := 8 |>
    <| Job.Requirement := "has:cpu_cores" |>.
Definition demo_node : Node := Node.mk "n1" "10.0.0.1" (demo_ad 16 2).

Lemma tracker_ok_new : tracker_ok newGPUTracker.
Proof. intros node. unfold used. simpl. rewrite !lookup_empty. simpl. lia. Qed.

Lemma accepted_job_fits_witness :
  canDispatchResources newGPUTracker demo_node demo_job = true ∧
  0 ≤ AvailableGPUs "n1" (advertised demo_node "gpu_count") (Allocate "n1" 2 8 0 newGPUTracker).
Proof.
  assert (canDispatchResources newGPUTracker demo_node demo_job = true) as Hc
    by (vm_compute; reflexivity).
  split; [exact Hc|].
  refine (proj1 (accepted_job_fits newGPUTracker demo_node demo_job _ tracker_ok_new _ Hc) _).
  - vm_compute. discriminate.
  - repeat split; vm_compute; reflexivity.
  - vm_compute. reflexivity.
Defined.

Lemma eval_ok_demo : eval_ok demo_world.
Proof.
  apply (reachable_holds demo_clock DefaultConfig ∅ demo_clock demo_uuids demo_events).
  exact demo_steps.
Qed.

Lemma selected_member_can_run_the_job_witness :
  ∃ r w', find_member demo_job ∅ (disc demo_world) demo_world = Some (r, w') ∧
    same demo_world w' ∧ Node.Name <$> r = Some "n2".
Proof.
  destruct (selected_member_can_run_the_job demo_job demo_world eval_ok_demo) as (r & w' & E & Hs & _ & _).
  exists r, w'. split; [exact E|]. split; [exact Hs|].
  assert ((λ x : option Node * World, Node.Name <$> x.1) <$>
    find_member demo_job ∅ (disc demo_world) demo_world = Some (Some "n2")) as HN
    by (vm_compute; reflexivity).
  rewrite E in HN. simpl in HN. congruence.
Defined.
End Witnesses.
