(* ===== verification/Gang.v ===== *)
(** * Dispatching

    What [dispatchJob] does to the master, and that a gang is dispatched as a
    whole, on distinct members, or not at all. *)

From S2P Require Import Prelude GoStd GoJson GoTime GoHeap Queue QueueFacts SchedulerSpec.
From S2P Require Import QueueProps JobTable Messaging Fairshare CircuitBreaker Tracker Matchmaker.
From S2P Require Import Store Config GoRegexp World Server Dispatch Master Hoare Panics Restart Demo.
From S2P Require Import MasterProps.
Import GlobalScheduler (objs, gobjs, queue, jobs, groups, MaxQueueSize, OnJobChange,
  OnGroupChange, dbWriteChan).
#[local] Open Scope string_scope.
#[local] Open Scope list_scope.
#[local] Open Scope Z_scope.

(** ** Every job is tracked under its own ID *)

Definition table_inv (gs : GlobalScheduler) : Prop := heap_inv gs ∧ ids_ok gs.

Lemma ids_ok_from gs gs' : ids_ok gs →
  (∀ id, asked gs' id = asked gs id ∨ ∃ j, asked gs' id = Some (descriptor j) ∧ Job.ID j = id) → ids_ok gs'.
Proof.
  rewrite !ids_ok_asked. intros HI HA id j Hj. specialize (HA id). unfold asked in HA. rewrite Hj in HA.
  destruct HA as [HA|(j0 & HA & <-)].
  - destruct (GetJob id gs) as [j0|] eqn:E; [|done]. apply (inj Some) in HA.
    rewrite <- (HI id j0 E). unfold descriptor in HA. congruence.
  - apply (inj Some) in HA. unfold descriptor in HA. congruence.
Qed.

#[export] Instance table_queue : QueueInv table_inv.
Proof.
  apply QueueInv_framed; [intros; by eapply ids_ok_frame|].
  intros id st gs _ HI. eapply ids_ok_from; [exact HI|]. intros jid. left. unfold asked.
  by rewrite GetJob_SetGroupState.
Qed.

#[export] Instance table_unwritten : Unwritten table_inv.
Proof. apply Unwritten_framed. intros. by eapply ids_ok_frame. Qed.

#[export] Instance table_accepts : Accepts table_inv (λ _, True).
Proof.
  intros j gs [HI Hids] _. pose proof (enqueue_new j gs HI) as HE.
  split; [by apply (accepts_enqueue (ok:=λ _, True))|].
  destruct (Enqueue _ _) as [e gs']. destruct HE as (_ & _ & _ & _ & HA). cbn [snd].
  apply (ids_ok_from gs); [done|]. intros id. rewrite HA. destruct e; [by left|]. case_decide; [|by left].
  right. by exists j.
Qed.

#[export] Instance table_registers : Registers table_inv.
Proof.
  split.
  - intros g gs [HI Hids]. split; [by apply (registers_new_group (Q:=heap_inv))|done].
  - intros l gs [HI Hids]. split; [by apply (registers_group (Q:=heap_inv))|].
    unfold RegisterGroup, notifyGroupChange. cbv zeta. by case_match.
Qed.

Section Gang.
Context {C : CEL} {B : Bolt} `{GoArch} `{Zone} `{MapOrder}.

(** The message that starts [job] on a node, given the members. *)
Definition start_payload (members : list Node) (job : Job) (nodeName : string) : DispatchPayload :=
  let envVars := default ∅ (Job.EnvVars job) in
  DispatchPayload.mk nodeName (Job.ID job) (Job.Command job) (Job.WalltimeSeconds job) "execute"
    (Some (if 0 <? Job.GPUsRequired job
           then gpu_env (gpu_vendor members nodeName) (Job.GPUsRequired job) envVars else envVars)).

Record dispatched (job : Job) (nodeName : string) (w w' : World) : Prop := {
  dp_sched : ∃ now, sched w' = MarkRunning now (Job.ID job) nodeName (sched w);
  dp_tracker : tracker w' = Allocate nodeName (Job.GPUsRequired job) (Job.CPUsRequired job)
    (Job.MemoryRequiredMB job) (tracker w);
  dp_pub : pub w' = Send (MarshalPayload (start_payload (disc w) job nodeName)) (pub w);
  dp_pending : ∃ now, dispatchPending w' = <[Job.ID job := now]> (dispatchPending w);
  dp_disc : disc w' = disc w;
  dp_eval : eval w' = eval w;
  dp_timers : timers w' = timers w
}.

Lemma dispatchJob_runs job nodeName w :
  ∃ w', dispatchJob job nodeName w = Some (tt, w') ∧ dispatched job nodeName w w'.
Proof.
  unfold dispatchJob. eexists. split.
  - repeat run_step. apply appendLog_eq.
  - split; try reflexivity; by eexists.
Qed.

(** ** Placing the ranks *)

(** [m] can take [job] in the state [w]. *)
Definition placed (w : World) (members : list Node) (job : Job) (m : Node) : Prop :=
  m ∈ members ∧ Node.Meta m ≠ "" ∧ canDispatchResources (tracker w) m job = true ∧
  (Match (Job.Requirement job) (Node.Meta m) NewEvaluator).1 = (true, None).

Lemma placed_same w w' members job m : same w w' → placed w' members job m → placed w members job m.
Proof. intros (_ & Ht & _)%same_parts. unfold placed. by rewrite Ht. Qed.

Lemma match_members_spec jobs used members w : eval_ok w →
  ∃ r w', match_members jobs used members w = Some (r, w') ∧ same w w' ∧ eval_ok w' ∧
  match r with
  | Some nodes => Forall2 (placed w members) jobs nodes ∧ NoDup (Node.Name <$> nodes) ∧
      Forall (λ m, Node.Name m ∉ used) nodes
  | None => True
  end.
Proof.
  revert used w. induction jobs as [|job jobs IH]; intros used w Hok; cbn [match_members].
  { eexists (Some []), w. split_and!; try done; constructor. }
  destruct (find_member_spec job used members w Hok) as (r & w1 & E & Hs & Hok1 & Hr).
  rewrite (bind_runs _ _ _ _ _ E). destruct r as [m|]; [|by exists None, w1].
  destruct (IH ({[Node.Name m]} ∪ used) w1 Hok1) as (r & w2 & E2 & Hs2 & Hok2 & Hr2).
  rewrite (bind_runs _ _ _ _ _ E2). exists (match r with Some l => Some (m :: l) | None => None end), w2.
  split_and!; [done|by etrans|done|]. destruct r as [nodes|]; [|done].
  destruct Hr2 as (Hp & Hnd & Hu). destruct Hr as (before & after & -> & _ & (H2' & H3' & H4' & H5') & _).
  assert (H1' : m ∈ before ++ m :: after) by (apply elem_of_app; right; left). split_and!.
  - constructor; [done|]. eapply Forall2_impl; [exact Hp|]. intros j n. by apply placed_same.
  - cbn. constructor; [|done]. intros (n & Hn & Hin)%list_elem_of_fmap.
    rewrite Forall_forall in Hu. specialize (Hu n Hin). set_solver.
  - constructor; [done|]. eapply Forall_impl; [exact Hu|]. intros n. set_solver.
Qed.

(** ** Sending the ranks off *)

Definition with_master (addr : string) (job : Job) : Job :=
  job <| Job.EnvVars := (λ env, <["MASTER_ADDR" := addr]> env) <$> Job.EnvVars job |>.

Definition rank_messages (members : list Node) (addr : string) (jobs : list Job) (nodes : list Node) :
    list string :=
  zip_with (λ job m, MarshalPayload (start_payload members (with_master addr job) (Node.Name m)))
    jobs nodes.

Fixpoint allocate_ranks (jobs : list Job) (nodes : list Node) (gt : gpuTracker) : gpuTracker :=
  match jobs, nodes with
  | job :: jobs, m :: nodes => allocate_ranks jobs nodes
      (Allocate (Node.Name m) (Job.GPUsRequired job) (Job.CPUsRequired job) (Job.MemoryRequiredMB job) gt)
  | _, _ => gt
  end.

(** Each job runs on the member at its place. *)
Definition all_running (gs : GlobalScheduler) : list Job → list Node → Prop :=
  Forall2 (λ job m, running_on gs (Job.ID job) (Node.Name m)).

Record sent_off (jobs : list Job) (nodes : list Node) (addr : string) (w w' : World) : Prop := {
  so_pub : ZMQPublisher.sent (pub w') = ZMQPublisher.sent (pub w) ++ rank_messages (disc w) addr jobs nodes;
  so_tracker : tracker w' = allocate_ranks jobs nodes (tracker w);
  so_disc : disc w' = disc w;
  so_running : all_running (sched w') jobs nodes;
  so_others id n : running_on (sched w) id n → id ∉ Job.ID <$> jobs → running_on (sched w') id n
}.

Lemma dispatch_rank_step gs now id node : heap_inv gs → ids_ok gs →
  let gs' := MarkRunning now id node (RemoveByID id gs).2 in
  heap_inv gs' ∧ ids_ok gs' ∧ job_frame gs gs' ∧ (GetJob id gs ≠ None → running_on gs' id node) ∧
  ∀ id' n, id' ≠ id → running_on gs id' n → running_on gs' id' n.
Proof.
  intros HI Hids. pose proof (RemoveByID_frame id gs HI) as HF.
  assert (HI1 : heap_inv (RemoveByID id gs).2).
  { pose proof (heap_inv_step (ORemoveByID id) gs HI) as HE. cbn [exec_op] in HE.
    by destruct (RemoveByID id gs). }
  pose proof (ids_ok_frame _ _ (job_frame_heap _ _ HF) Hids) as Hids1.
  set (gs1 := (RemoveByID id gs).2) in *. cbv zeta.
  pose proof (job_frame_op (OMarkRunning now id node) gs1 I HI1) as HF2. cbn [exec_op snd] in HF2.
  split_and!.
  - exact (heap_inv_step (OMarkRunning now id node) gs1 HI1).
  - by eapply ids_ok_frame.
  - etrans; [by apply job_frame_heap|done].
  - intros Hid. apply MarkRunning_runs; [done|]. by eapply GetJob_frame_some, Hid; apply job_frame_heap.
  - intros id' n Hne Hr. destruct (running_on_frame _ _ _ _ HF Hr) as (j & Hj & Hs & Hn).
    exists j. by rewrite MarkRunning_others.
Qed.

Lemma on_queue_eq {A} (f : GlobalScheduler → A * GlobalScheduler) w :
  on_queue f w = Some ((f (sched w)).1, w <| sched := (f (sched w)).2 |>).
Proof. unfold on_queue. by destruct (f (sched w)). Qed.

Lemma dispatch_ranks_runs i jobs nodes addr w :
  heap_inv (sched w) → ids_ok (sched w) → length jobs = length nodes →
  Forall (λ j, Job.EnvVars j ≠ None ∧ GetJob (Job.ID j) (sched w) ≠ None) jobs →
  NoDup (Job.ID <$> jobs) →
  ∃ w', dispatch_ranks i jobs nodes addr w = Some (tt, w') ∧ sent_off jobs nodes addr w w'.
Proof.
  revert i nodes w. induction jobs as [|job jobs IH]; intros i [|m nodes] w HI Hids; intros; simplify_eq/=.
  { exists w. split; [done|]. split; try done. - by rewrite app_nil_r. - constructor. }
  match goal with H : Forall _ _ |- _ => apply Forall_cons in H as [[He Hid] Hj] end.
  match goal with H : NoDup _ |- _ => apply NoDup_cons in H as [Hnin Hnd] end.
  destruct (Job.EnvVars job) as [env|] eqn:Eenv; [|done]. cbv zeta.
  set (job' := job <| Job.EnvVars := Some (<["MASTER_ADDR" := addr]> env) |>).
  rewrite (bind_runs _ _ _ _ _ (on_queue_eq (RemoveByID (Job.ID job')) w)).
  set (w1 := w <| sched := (RemoveByID (Job.ID job) (sched w)).2 |>).
  destruct (dispatchJob_runs job' (Node.Name m) w1) as (w2 & E2 & HD). rewrite (bind_runs _ _ _ _ _ E2).
  rewrite (bind_runs _ _ _ _ _ (appendLog_eq _ _ _ _)).
  destruct (dp_sched _ _ _ _ HD) as [now Hs2].
  destruct (dispatch_rank_step (sched w) now (Job.ID job) (Node.Name m) HI Hids) as (HI2 & Hids2 & HF & Hrun & Hoth).
  change (MarkRunning now (Job.ID job) (Node.Name m) (RemoveByID (Job.ID job) (sched w)).2)
    with (MarkRunning now (Job.ID job') (Node.Name m) (sched w1)) in *.
  rewrite <- Hs2 in *.
  edestruct (IH (i +ᵢ 1) nodes (logged (Job.ID job') "INFO" ("Gang-scheduled: rank " +:+ Itoa i +:+ " " +:+
    String (byte 226) (String (byte 134) (String (byte 146) " ")) +:+ Node.Name m +:+ " (master=" +:+
    addr +:+ ")") w2)) as (w' & E' & [Hp Ht Hd Hr Ho]); try done.
  { eapply Forall_impl; [exact Hj|]. intros j [? Hg]. split; [done|]. by eapply GetJob_frame_some. }
  exists w'. split; [exact E'|].
  match type of Hp with _ = ZMQPublisher.sent (pub ?w3) ++ _ =>
    change (pub w3) with (pub w2) in Hp; change (disc w3) with (disc w2) in Hp, Hd;
    change (tracker w3) with (tracker w2) in Ht; change (sched w3) with (sched w2) in Ho end.
  split.
  - assert (Hj' : with_master addr job = job') by (unfold with_master; rewrite Eenv; reflexivity).
    rewrite Hp, (dp_pub _ _ _ _ HD), (dp_disc _ _ _ _ HD).
    change (rank_messages (disc w) addr (job :: jobs) (m :: nodes)) with
      (MarshalPayload (start_payload (disc w) (with_master addr job) (Node.Name m))
       :: rank_messages (disc w) addr jobs nodes).
    rewrite Hj'. symmetry. apply (app_assoc _ [_]).
  - by rewrite Ht, (dp_tracker _ _ _ _ HD).
  - by rewrite Hd, (dp_disc _ _ _ _ HD).
  - constructor; [|done]. apply Ho; [by apply Hrun|done].
  - intros id n Hn Hid'. apply not_elem_of_cons in Hid' as [Hne Hid']. apply Ho; [|done]. by apply Hoth.
Qed.
Lemma queued_ranks_elem ids gs j : j ∈ queued_ranks ids gs → ∃ id, id ∈ ids ∧ GetJob id gs = Some j.
Proof.
  unfold queued_ranks. rewrite list_elem_of_omap. intros (id & Hid & E). exists id. split; [done|].
  destruct (GetJob id gs) as [x|]; [|done]. case_match; congruence.
Qed.

Lemma queued_ranks_ids ids gs : ids_ok gs → NoDup ids → NoDup (Job.ID <$> queued_ranks ids gs).
Proof.
  rewrite ids_ok_asked. intros Hids. induction 1 as [|id ids Hn _ IH]; [constructor|].
  unfold queued_ranks. cbn [omap list_omap]. destruct (GetJob id gs) as [j|] eqn:E; [|done].
  case_match; [|done]. assert (t = j) as -> by (case_match; congruence). cbn.
  constructor; [|done]. rewrite (Hids id j E). intros (j' & Hj' & Hin)%list_elem_of_fmap.
  destruct (queued_ranks_elem ids gs j' Hin) as (id' & Hid' & E').
  apply Hn. rewrite Hj'. by rewrite (Hids id' j' E').
Qed.

Lemma running_on_SetGroupState gid st gs id n : running_on gs id n → running_on (SetGroupState gid st gs) id n.
Proof. unfold running_on. by setoid_rewrite GetJob_SetGroupState. Qed.

(** In the states the master reaches. *)
Lemma reachable_table times cfg d clk uu es w :
  steps (StartMaster times cfg d clk uu) es w → ids_ok (sched w).
Proof.
  intros Hs. enough (holds (Q:=table_inv) (U:=λ _ _, True) w) as ([_ ?] & _) by done.
  eapply steps_keep; [..|exact Hs|]; try apply _.
  - intros req. by apply (keeps_SubmitJob (ok:=λ _, True)).
  - intros req. apply (keeps_SubmitDistributedJob (ok:=λ _, True)); [done|apply _].
  - destruct (holds_StartMaster (λ _, True) times cfg d clk uu I) as ([HI _] & He & _).
    split; [|done]. split; [done|]. rewrite sched_StartMaster.
    destruct (restore_restored times cfg d) as [_ _ _ _ Hf _]. rewrite ids_ok_asked.
    intros id j Hj. destruct (Hf id (descriptor j)) as (j0 & _ & _ & <- & Hd).
    { unfold asked. by rewrite Hj. }
    unfold descriptor in Hd. congruence.
Qed.

Lemma try_gang g w :
  heap_inv (sched w) → ids_ok (sched w) → eval_ok w → group_ok (sched w) g → NoDup (JobGroup.JobIDs g) →
  let jobs := queued_ranks (JobGroup.JobIDs g) (sched w) in
  ∃ w', tryDispatchGroup g w = Some (tt, w') ∧
  (same w w' ∨
   ∃ m0 ms, let nodes := m0 :: ms in
     Z.of_nat (length jobs) = JobGroup.NumNodes g ∧
     Forall2 (placed w (disc w)) jobs nodes ∧ NoDup (Node.Name <$> nodes) ∧
     sent_off jobs nodes (Node.Addr m0) w w' ∧
     ∃ gs, sched w' = SetGroupState (JobGroup.GroupID g) "RUNNING" gs).
Proof.
  intros HI Hids Hev [Hn Hg] Hnd. cbv zeta. set (jobs := queued_ranks _ _).
  unfold tryDispatchGroup. rewrite (bind_runs _ _ w jobs w eq_refl).
  destruct (Z.eqb_spec (Z.of_nat (length jobs)) (JobGroup.NumNodes g)) as [Hl|]; cbn [negb].
  2:{ exists w. split; [done|by left]. }
  rewrite (bind_runs _ _ w (disc w) w eq_refl).
  destruct (match_members_spec jobs ∅ (disc w) w Hev) as (r & w1 & E & Hs & _ & Hr).
  rewrite (bind_runs _ _ _ _ _ E). destruct r as [nodes|]; [|exists w1; split; [done|by left]].
  pose proof (match_members_length _ _ _ _ _ _ E) as Hlen. destruct Hr as (Hp & Hdist & _).
  destruct nodes as [|m0 ms]; [simpl in Hlen; lia|].
  assert (Hsched : sched w1 = sched w ∧ tracker w1 = tracker w ∧ disc w1 = disc w ∧ pub w1 = pub w).
  { by apply same_parts. }
  destruct Hsched as (Es & Et & Ed & Ep).
  destruct (dispatch_ranks_runs 0 jobs (m0 :: ms) (Node.Addr m0) w1) as (w2 & E2 & [Hp2 Ht2 Hd2 Hr2 Ho2]);
    rewrite ?Es; try done.
  { pose proof (queued_ranks_env _ _ Hg) as Henv. rewrite Forall_forall in Henv |- *.
    intros j Hj. split; [by apply Henv|].
    destruct (queued_ranks_elem _ _ _ Hj) as (id & _ & Eid).
    rewrite ids_ok_asked in Hids. by rewrite (Hids id j Eid), Eid. }
  { by apply queued_ranks_ids. }
  rewrite (bind_runs _ _ _ _ _ E2). eexists. split; [reflexivity|]. right. exists m0, ms.
  split_and!; [done..| |by eexists].
  rewrite Ep, Ed, Et, Es in *. split; [done..| |].
  - eapply Forall2_impl; [exact Hr2|]. intros j m. apply running_on_SetGroupState.
  - intros id n Hrun Hid. by apply running_on_SetGroupState, Ho2.
Qed.

(** C9: whatever has happened so far, a turn for a pending gang (its rank IDs
    distinct, identifiers at least eight characters long) either changes
    nothing but the evaluator's program cache, the readings of the clock and the
    ended blocks of the breaker, or starts every rank: as many as
    the group asks for, on distinct members that each fit and satisfy the
    requirement, one start message each carrying rank 0's address, their
    resources reserved, their records RUNNING on those members and the group
    RUNNING.  It never starts a part of a gang. *)
Theorem gang_all_or_nothing times cfg d clk uu es w gid l : long_ids uu →
  steps (StartMaster times cfg d clk uu) es w → groups (sched w) !! gid = Some l →
  let g := gderef (sched w) l in
  JobGroup.State g = "PENDING" → NoDup (JobGroup.JobIDs g) →
  let jobs := queued_ranks (JobGroup.JobIDs g) (sched w) in
  ∃ w', tryDispatchGroup g w = Some (tt, w') ∧
  (same w w' ∨
   ∃ m0 ms, let nodes := m0 :: ms in
     Z.of_nat (length jobs) = JobGroup.NumNodes g ∧
     Forall2 (placed w (disc w)) jobs nodes ∧ NoDup (Node.Name <$> nodes) ∧
     sent_off jobs nodes (Node.Addr m0) w w' ∧
     ∃ gs, sched w' = SetGroupState (JobGroup.GroupID g) "RUNNING" gs).
Proof.
  intros HU Hs Hl g Hp Hnd jobs.
  destruct (reachable_groups _ _ _ _ _ _ _ HU Hs) as ([HI HG] & He & _).
  apply try_gang; try done; [by eapply reachable_table|by apply (HG gid)].
Qed.
End Gang.

(** ** On the concrete master *)

Section Witnesses.
#[local] Existing Instances toy_cel bolt_map amd64 utc map_order_canonical.

Definition gang_events : list event := [EMembers demo_nodes; ESubmitDistributed (demo_group 2 1)].
Definition gang_world : World := after (play gang_events) demo_master.
Definition gang_group : loc := default 1%positive (groups (sched gang_world) !! "dj-00000000").

Lemma gang_steps : steps (StartMaster demo_clock DefaultConfig ∅ demo_clock demo_uuids) gang_events gang_world.
Proof. apply steps_after. vm_compute. reflexivity. Qed.

(** Both ranks start. *)
Lemma gang_all_or_nothing_witness :
  ∃ w', tryDispatchGroup (gderef (sched gang_world) gang_group) gang_world = Some (tt, w') ∧
    length (ZMQPublisher.sent (pub w')) = 2%nat.
Proof.
  destruct (gang_all_or_nothing demo_clock DefaultConfig ∅ demo_clock demo_uuids gang_events gang_world
    "dj-00000000" gang_group demo_uuids_long gang_steps) as (w' & E & _).
  - vm_compute. reflexivity.
  - vm_compute. reflexivity.
  - apply (bool_decide_unpack _). vm_compute. exact I.
  - exists w'. split; [exact E|].
    assert ((λ x : () * World, length (ZMQPublisher.sent (pub x.2))) <$>
      tryDispatchGroup (gderef (sched gang_world) gang_group) gang_world = Some 2%nat) as HN
      by (vm_compute; reflexivity).
    rewrite E in HN. cbn [fmap option_fmap option_map snd] in HN. congruence.
Defined.
End Witnesses.
