(* ===== verification/Persist.v ===== *)
(** * The database catches up

    The scheduler is the source of truth and the database follows it through
    [dbWriteChan].  [synced] relates the two: the last write pending for a
    tracked job is of its own object, and when none is pending the database has
    the job as it is.  Every event of the master keeps it, so a shutdown, which
    writes what is pending, leaves the database with every tracked job. *)

From S2P Require Import Prelude GoStd GoJson GoJsonFacts GoTime GoHeap Queue QueueFacts SchedulerSpec.
From S2P Require Import QueueProps JobTable Messaging Fairshare CircuitBreaker Tracker Matchmaker.
From S2P Require Import Store Config GoRegexp World Server Dispatch Master Hoare Panics Demo Restart.
Import GlobalScheduler (objs, gobjs, queue, jobs, groups, MaxQueueSize, OnJobChange,
  OnGroupChange, dbWriteChan).
#[local] Open Scope string_scope.
#[local] Open Scope list_scope.

(** ** Shutting the database down *)

Section Clean.
Context {C : CEL} {B : Bolt} `{Zone}.

(** [cleanDB] closes the channel and waits for the writer to have taken all that
    is in it. *)
Definition cleanDB : M World () :=
  pending ← gets (λ w, dbWriteChan (sched w));
  for_each pending (λ _, db_writer).
End Clean.

(** ** The relation *)

(** The object of the last pending write of the job [id]. *)
Definition write_of (gs : GlobalScheduler) (id : string) (op : dbWriteOp) : option loc :=
  match op with
  | WriteJob l => if String.eqb (Job.ID (deref gs l)) id then Some l else None
  | WriteGroup _ => None
  end.
Definition last_write (gs : GlobalScheduler) (id : string) : option loc :=
  last (omap (write_of gs id) (dbWriteChan gs)).

Section Synced.
Context `{Zone}.

(** A job that JSON and a key of the database can hold. *)
Definition saveable (j : Job) : Prop :=
  job_ok j ∧ ∃ data, MarshalJob j = Some data ∧ puttable (Job.ID j) data.

(** [V] is what the database has of each job. *)
Definition written (V : string → option Job) (j : Job) : Prop :=
  saveable j → V (Job.ID j) = Some (stored j).

(** [x] is an object that has changed and is not notified yet. *)
Record synced_but (x : option loc) (V : string → option Job) (gs : GlobalScheduler) : Prop := {
  sy_hook : OnJobChange gs = true;
  sy_sent l : WriteJob l ∈ dbWriteChan gs → l ∈ dom (objs gs);
  sy_dom id l : jobs gs !! id = Some l → l ∈ dom (objs gs);
  sy_id id l : jobs gs !! id = Some l → Job.ID (deref gs l) = id;
  sy_last id l : jobs gs !! id = Some l → x ≠ Some l →
    last_write gs id = Some l ∨ last_write gs id = None ∧ written V (deref gs l)
}.
Definition synced := synced_but None.

Lemma saveable_erase j j' : erase j = erase j' → saveable j → saveable j'.
Proof.
  intros HE [Hok Hm]. destruct j, j'. injection HE. intros. subst. destruct Hok. by split; [split|].
Qed.

Lemma written_erase V j j' : erase j = erase j' → written V j → written V j'.
Proof.
  intros HE Hw Hs. pose proof (saveable_erase _ _ (eq_sym HE) Hs) as Hs'. specialize (Hw Hs').
  destruct j, j'. injection HE. intros. subst. exact Hw.
Qed.

(** The last write depends on the channel and on the IDs of the objects in it. *)
Lemma omap_last_write gs gs' id (q : list dbWriteOp) : (∀ l, WriteJob l ∈ q → Job.ID (deref gs' l) = Job.ID (deref gs l)) →
  omap (write_of gs' id) q = omap (write_of gs id) q.
Proof.
  intros Hq. apply list_omap_ext, Forall_Forall2_diag, Forall_forall. intros [l|l] Hl; [|done].
  unfold write_of. by rewrite Hq.
Qed.

Lemma last_write_ext gs gs' id : dbWriteChan gs' = dbWriteChan gs →
  (∀ l, WriteJob l ∈ dbWriteChan gs → Job.ID (deref gs' l) = Job.ID (deref gs l)) →
  last_write gs' id = last_write gs id.
Proof. intros Hc Hq. unfold last_write. rewrite Hc. f_equal. by apply omap_last_write. Qed.

Lemma last_write_snoc gs gs' id o : dbWriteChan gs' = dbWriteChan gs ++ [o] →
  objs gs' = objs gs →
  last_write gs' id = match write_of gs id o with Some l => Some l | None => last_write gs id end.
Proof.
  intros Hc Ho. unfold last_write. rewrite Hc, omap_app.
  assert (∀ q : list dbWriteOp, omap (write_of gs' id) q = omap (write_of gs id) q) as Hq.
  { intros q. apply omap_last_write. intros l _. unfold deref. by rewrite Ho. }
  rewrite !Hq. cbn [omap list_omap]. destruct (write_of gs id o); [by rewrite last_snoc|by rewrite app_nil_r].
Qed.

Lemma deref_new l j gs l' : l ∉ dom (objs gs) → l' ∈ dom (objs gs) →
  deref (gs <| objs ::= <[l := j]> |>) l' = deref gs l'.
Proof. intros Hl Hd. unfold deref. simpl. apply lookup_total_insert_ne. congruence. Qed.

Lemma synced_frame x V gs gs' : heap_frame gs gs' → synced_but x V gs → synced_but x V gs'.
Proof.
  intros HF []. pose proof (hf_proj Job.ID gs gs') as HI. pose proof HF as [].
  assert (∀ l, Job.ID (deref gs' l) = Job.ID (deref gs l)) as HID by (intros l; by apply HI).
  split.
  - congruence.
  - rewrite hf_chan, hf_dom. auto.
  - rewrite hf_jobs, hf_dom. auto.
  - intros id l. rewrite hf_jobs, HID. auto.
  - intros id l. rewrite hf_jobs. intros Hl Hx. rewrite (last_write_ext gs) by auto.
    destruct (sy_last0 id l Hl Hx) as [|[? Hw]]; [by left|right]. split; [done|].
    by eapply written_erase, Hw.
Qed.

Lemma synced_update x V l f gs : (∀ j, Job.ID (f j) = Job.ID j) → x = None ∨ x = Some l →
  synced_but x V gs → synced_but (Some l) V (update l f gs).
Proof.
  intros Hf Hx []. assert (∀ l', Job.ID (deref (update l f gs) l') = Job.ID (deref gs l')) as HID
    by (intros; by apply deref_update_proj).
  split; rewrite ?dom_update; auto.
  - intros id l'. rewrite HID. auto.
  - intros id l' Hl Hne. rewrite (last_write_ext gs) by auto. rewrite deref_update_ne by congruence.
    apply sy_last0; [done|]. destruct Hx as [-> | ->]; congruence.
Qed.

Lemma synced_notify V l gs : synced_but (Some l) V gs → l ∈ dom (objs gs) →
  (∀ id, Job.ID (deref gs l) = id → jobs gs !! id = Some l) → synced V (notifyJobChange l gs).
Proof.
  intros [] Hd Hl. unfold notifyJobChange. rewrite sy_hook0. split; auto.
  - intros l'. simpl. rewrite elem_of_app, list_elem_of_singleton. intros [?|[= ->]]; [by apply sy_sent0|done].
  - intros id l'. change (jobs (_ <| dbWriteChan ::= _ |>)) with (jobs gs). intros Hl' _.
    erewrite (last_write_snoc gs) by done. cbn [write_of].
    destruct (String.eqb_spec (Job.ID (deref gs l)) id) as [E|E].
    + left. rewrite (Hl id E) in Hl'. congruence.
    + apply sy_last0; [done|]. intros [= <-]. by rewrite (sy_id0 _ _ Hl') in E.
Qed.

(** The writes of the scheduler's methods. *)
Lemma synced_write V id l f gs : (∀ j, Job.ID (f j) = Job.ID j) → jobs gs !! id = Some l →
  synced V gs → synced V (notifyJobChange l (update l f gs)).
Proof.
  intros Hf Hl HS. apply synced_notify; [apply (synced_update None); auto| |].
  - rewrite dom_update. by eapply sy_dom.
  - intros id'. rewrite (deref_update_proj Job.ID), (sy_id _ _ _ HS _ _ Hl) by done. by intros <-.
Qed.

Lemma synced_push V id l f gs : (∀ j, Job.ID (f j) = Job.ID j) → jobs gs !! id = Some l →
  synced V gs → synced V (notifyJobChange l (heap.Push l (update l f gs))).
Proof.
  intros Hf Hl HS. pose proof (frame_heap_Push l (update l f gs)) as HF.
  apply synced_notify; [eapply synced_frame; [done|]; apply (synced_update None); auto| |].
  - rewrite (hf_dom _ _ HF), dom_update. by eapply sy_dom.
  - intros id'. rewrite (hf_proj Job.ID _ _ _ HF), (hf_jobs _ _ HF) by done.
    rewrite (deref_update_proj Job.ID), (sy_id _ _ _ HS _ _ Hl) by done. by intros <-.
Qed.

Lemma synced_alloc x V l j gs : l ∉ dom (objs gs) → synced_but x V gs →
  synced_but x V (gs <| objs ::= <[l := j]> |>).
Proof.
  intros Hl []. split; [done| | | |]; [intros l' Hl'|intros id l' Hl'..].
  - cbn. rewrite dom_insert. set_solver.
  - cbn. rewrite dom_insert. set_solver.
  - rewrite deref_new by eauto. auto.
  - intros Hx. rewrite (last_write_ext gs), deref_new by (done || (intros; rewrite deref_new by auto; done) || eauto).
    auto.
Qed.

Lemma synced_enqueue V j gs : synced V gs → synced V (Enqueue (new_job j gs).1 (new_job j gs).2).2.
Proof.
  intros HS. pose proof (Enqueue_new_eq j gs) as HE. unfold new_job in *. cbn [fst snd].
  set (l := fresh _) in *. assert (Hl : l ∉ dom (objs gs)) by apply is_fresh. rewrite HE.
  destruct (_ && _); [by apply synced_alloc|]. cbn [snd].
  pose proof (frame_heap_Push l (tracked l (queued j) gs)) as HF.
  assert (HT : synced_but (Some l) V (tracked l (queued j) gs)).
  { destruct (synced_alloc _ _ l (queued j) _ Hl HS) as [Hh Hc Hd Hi Hw].
    split; [done|done|..]; intros id l';
      change (jobs (tracked _ _ _)) with (<[Job.ID (queued j) := l]> (jobs gs)).
    - intros [[_ <-]|[_ Hl']]%lookup_insert_Some; [cbn; rewrite dom_insert; set_solver|eauto].
    - intros [[<- <-]|[_ Hl']]%lookup_insert_Some; [by rewrite tracked_deref|by apply Hi].
    - intros [[_ <-]|[_ Hl']]%lookup_insert_Some Hne; [done|by apply Hw]. }
  apply synced_notify; [by eapply synced_frame| |].
  - rewrite (hf_dom _ _ HF). cbn. rewrite dom_insert. set_solver.
  - intros id. rewrite (hf_proj Job.ID _ _ _ HF), (hf_jobs _ _ HF), tracked_deref by done.
    intros <-. apply lookup_insert_eq.
Qed.

Definition synced_inv (V : string → option Job) (gs : GlobalScheduler) : Prop := heap_inv gs ∧ synced V gs.

Lemma ID_of_descriptor (f : Job → Job) : (∀ j, descriptor (f j) = descriptor j) → ∀ j, Job.ID (f j) = Job.ID j.
Proof. intros Hf j. specialize (Hf j). unfold descriptor in Hf. congruence. Qed.

Lemma synced_op V o gs : plain_op o → ordered gs → synced V gs → synced V (exec_op o gs).2.
Proof.
  intros Ho HO HS. destruct (plain_op_effect o gs Ho HO) as [gs' HF|gs1 id l f HF Hl Hf|id l f Hl Hf].
  - by eapply synced_frame.
  - eapply synced_write; [by apply ID_of_descriptor|by rewrite (hf_jobs _ _ HF)|by eapply synced_frame].
  - eapply synced_push; [by apply ID_of_descriptor|done..].
Qed.

(** Groups have their own objects and writes. *)
Lemma synced_groups V gs gs' : objs gs' = objs gs → jobs gs' = jobs gs → OnJobChange gs' = OnJobChange gs →
  dbWriteChan gs' = dbWriteChan gs ∨ (∃ l, dbWriteChan gs' = dbWriteChan gs ++ [WriteGroup l]) →
  synced V gs → synced V gs'.
Proof.
  intros Ho Hj Hh Hc []. assert (HD : ∀ l, deref gs' l = deref gs l) by (intros l; unfold deref; by rewrite Ho).
  assert (HL : ∀ id, last_write gs' id = last_write gs id).
  { intros id. destruct Hc as [Hc|[l Hc]]; [apply last_write_ext; [done|intros; by rewrite HD]|].
    by rewrite (last_write_snoc gs _ _ _ Hc Ho). }
  split; [congruence|..].
  - intros l Hl. rewrite Ho. apply sy_sent0. destruct Hc as [Hc|[l' Hc]]; rewrite Hc in Hl; [done|].
    apply elem_of_app in Hl as [?|?%list_elem_of_singleton]; [done|discriminate].
  - intros id l. rewrite Hj, Ho. apply sy_dom0.
  - intros id l. rewrite Hj, HD. auto.
  - intros id l. rewrite Hj, HL, HD. auto.
Qed.

Lemma synced_notify_group V l gs gs' : objs gs' = objs gs → jobs gs' = jobs gs →
  OnJobChange gs' = OnJobChange gs → dbWriteChan gs' = dbWriteChan gs →
  synced V gs → synced V (notifyGroupChange l gs').
Proof.
  intros Ho Hj Hh Hc HS. apply (synced_groups _ gs); [..|done]; unfold notifyGroupChange;
    case_match; cbn; try done; [right|by left]. exists l. by rewrite Hc.
Qed.

#[export] Instance synced_queue V : QueueInv (synced_inv V).
Proof.
  split; intros *.
  - intros Ho [HI HS]. split; [by apply heap_inv_step|]. apply synced_op; [done|apply HI|done].
  - intros Hst [HI HS]. split; [by apply (qi_set_state (Q:=heap_inv))|].
    unfold SetGroupState. destruct (groups gs !! id); [|done]. by apply (synced_notify_group _ _ gs).
  - intros Hi [HI HS]. split; [by apply (qi_heap_remove (Q:=heap_inv))|].
    eapply synced_frame; [|done]. apply frame_heap_remove; [apply HI|done].
Qed.

#[export] Instance synced_accepts V : Accepts (synced_inv V) (λ _, True).
Proof.
  intros j gs [HI HS] _. split; [by apply (accepts_enqueue (ok:=λ _, True))|by apply synced_enqueue].
Qed.

#[export] Instance synced_registers V : Registers (synced_inv V).
Proof.
  split.
  - intros g gs [HI HS]. split; [by apply (registers_new_group (Q:=heap_inv))|].
    apply (synced_groups _ gs); [done..|by left|done].
  - intros l gs [HI HS]. split; [by apply (registers_group (Q:=heap_inv))|].
    unfold RegisterGroup. by apply (synced_notify_group _ _ gs).
Qed.
End Synced.

(** ** The master keeps it *)

Section Master.
Context {C : CEL} {B : Bolt} `{GoArch} `{Zone} `{MapOrder}.
Context {BL : BoltLaws B}.

Definition view (w : World) (id : string) : option Job := store w ≫= store_GetJob id.

Definition view_is (V : string → option Job) (_ : nat → string) (d : option DB) : Prop :=
  is_Some d ∧ ∀ id, (d ≫= store_GetJob id) = V id.

(** A write that fails or goes to another bucket. *)
Lemma other_bucket (f : DB → option DB) d id :
  (∀ d', f d = Some d' → Get bucketJobs id d' = Get bucketJobs id d) →
  store_GetJob id (default d (f d)) = store_GetJob id d.
Proof. intros Hf. destruct (f d) as [d'|]; [|done]. unfold store_GetJob. simpl. by rewrite Hf. Qed.

Lemma put_other {A} (x : option A) (b k : string) (v : A → string) d d' id :
  (b, k) ≠ (bucketJobs, id) → (a ← x; Put b k (v a) d) = Some d' →
  Get bucketJobs id d' = Get bucketJobs id d.
Proof. intros Hne. destruct x; [|done]. intros E. eapply get_put_ne; [exact E|congruence]. Qed.

#[export] Instance Ambient_view V : Ambient (view_is V).
Proof.
  split; intros uu d x [_ Hd]; (split; [by eexists|]); intros id; rewrite <- (Hd id); cbn [mbind option_bind].
  - apply (other_bucket (SaveDeadLetter x)). intros d'. by apply put_other.
  - apply (other_bucket (SaveFairshare x)). intros d'. by apply put_other.
Qed.

Definition caught_up (w : World) : Prop :=
  holds (Q:=synced_inv (view w)) (U:=view_is (view w)) w.

Lemma synced_ext V V' gs : (∀ id, V id = V' id) → synced V gs → synced V' gs.
Proof.
  intros HV []. split; auto. intros id l Hl Hx. destruct (sy_last0 id l Hl Hx) as [?|[? Hw]]; [by left|right].
  split; [done|]. intros Hs. rewrite <- HV. by apply Hw.
Qed.

Lemma caught_up_but e w w' : e ≠ EWriter → caught_up w → handle e w = Some (tt, w') → caught_up w'.
Proof.
  intros He Hw E.
  assert (holds (Q:=synced_inv (view w)) (U:=view_is (view w)) w') as ([HI HS] & Hc & Hd & HV).
  { eapply (keeps_handle_but (Q:=synced_inv (view w)) (U:=view_is (view w)));
      [| |exact He|exact Hw|exact E]; intros req.
    - by apply (keeps_SubmitJob (ok:=λ _, True)).
    - apply (keeps_SubmitDistributedJob (ok:=λ _, True)); [done|apply _]. }
  split; [split; [done|]|by split; [|split]]. eapply synced_ext; [|exact HS]. intros id. by rewrite <- HV.
Qed.

(** The disk takes the writes: Put fails only for a key or a value it documents to
    refuse. *)
Hypothesis put_ok : ∀ k v d, puttable k v → is_Some (Put bucketJobs k v d).

(** What taking the oldest write does to the jobs in the database. *)
Lemma save_job_view j d id :
  store_GetJob id (db_save_job j d) =
    if decide (id = Job.ID j ∧ is_Some (MarshalJob j)) then store_GetJob id (db_save_job j d)
    else store_GetJob id d.
Proof.
  destruct (decide _) as [|Hne]; [done|]. apply (other_bucket (SaveJob j)). unfold SaveJob.
  destruct (MarshalJob j) as [data|]; [|done]. intros d'. apply (put_other (Some data) _ _ (λ x, x)).
  intros [= <-]. apply Hne. split; [done|by eexists].
Qed.

Lemma save_job_saved j d : saveable j → store_GetJob (Job.ID j) (db_save_job j d) = Some (stored j).
Proof.
  intros (Hok & data & Hm & Hput). unfold db_save_job, SaveJob. rewrite Hm. cbn [mbind option_bind].
  destruct (put_ok (Job.ID j) data d Hput) as [d' Hp]. rewrite Hp. unfold store_GetJob. simpl.
  rewrite (get_put _ _ _ _ _ Hp). by apply MarshalJob_roundtrip.
Qed.

Lemma save_group_view g d id : store_GetJob id (db_save_group g d) = store_GetJob id d.
Proof. apply (other_bucket (SaveGroup g)). intros d'. by apply put_other. Qed.

Lemma last_write_cons gs op rest id : dbWriteChan gs = op :: rest →
  last_write gs id = match last_write (gs <| dbWriteChan := rest |>) id with
    Some l => Some l | None => write_of gs id op end.
Proof.
  intros Hc. unfold last_write at 1. rewrite Hc. cbn [omap list_omap].
  change (list_omap _ _ (write_of gs id) rest) with (omap (write_of (gs <| dbWriteChan := rest |>) id) rest).
  change (omap _ rest) with (omap (write_of (gs <| dbWriteChan := rest |>) id) (dbWriteChan (gs <| dbWriteChan := rest |>))).
  fold (last_write (gs <| dbWriteChan := rest |>) id). unfold last_write.
  destruct (write_of gs id op); [rewrite last_cons|]; by case_match.
Qed.

(** The database after the oldest write, as [db_writer] has it. *)
Definition save_op (gs : GlobalScheduler) (op : dbWriteOp) (d : DB) : DB :=
  match op with
  | WriteJob l => db_save_job (deref gs l) d
  | WriteGroup l => db_save_group (gderef gs l) d
  end.

Lemma db_writer_runs w op rest d : dbWriteChan (sched w) = op :: rest → store w = Some d →
  db_writer w = Some (tt, w <| sched ::= λ gs, gs <| dbWriteChan := rest |> |>
                            <| store := Some (save_op (sched w) op d) |>).
Proof. intros Hc Hd. unfold db_writer. by rewrite Hc, Hd. Qed.

(** A job whose write was the only one pending is in the database afterwards;
    one without a pending write stays there. *)
Lemma written_save V gs op d l : (∀ id, store_GetJob id d = V id) →
  write_of gs (Job.ID (deref gs l)) op = Some l ∨
    write_of gs (Job.ID (deref gs l)) op = None ∧ written V (deref gs l) →
  written (λ id, store_GetJob id (save_op gs op d)) (deref gs l).
Proof.
  intros HV Hop Hs. destruct op as [l'|g]; cbn [save_op write_of] in *.
  - destruct (String.eqb_spec (Job.ID (deref gs l')) (Job.ID (deref gs l))) as [E|E].
    + destruct Hop as [[= ->]|[? _]]; [by apply save_job_saved|done].
    + destruct Hop as [?|[_ Hw]]; [done|]. rewrite save_job_view, decide_False by naive_solver.
      rewrite HV. by apply Hw.
  - destruct Hop as [?|[_ Hw]]; [done|]. rewrite save_group_view, HV. by apply Hw.
Qed.

Lemma caught_up_writer w w' : caught_up w → db_writer w = Some (tt, w') → caught_up w'.
Proof.
  intros ([HI HS] & He & [d Hd] & _). destruct (dbWriteChan (sched w)) as [|op rest] eqn:Hc.
  { unfold db_writer. rewrite Hc. intros [= <-]. split; [by split|]. split; [done|]. by split; [eexists|]. }
  rewrite (db_writer_runs _ _ _ _ Hc Hd). intros [= <-].
  split; [|split; [done|by split; [eexists|]]]. split; [by apply (unwritten (Q:=heap_inv))|].
  destruct HS. split; [done| |done|done|].
  - intros l Hl. apply sy_sent0. rewrite Hc. by right.
  - intros id l Hl _. specialize (sy_last0 id l Hl ltac:(done)). rewrite (last_write_cons _ _ _ _ Hc) in sy_last0.
    cbn [sched]. destruct (last_write _ id) as [l'|]; [by left; destruct sy_last0 as [|[? _]]|right].
    split; [done|]. rewrite <- (sy_id0 id l Hl) in sy_last0.
    apply (written_save (view w) (sched w) op d); [|exact sy_last0]. intros id'. unfold view. by rewrite Hd.
Qed.

Lemma caught_up_handle e w w' : caught_up w → handle e w = Some (tt, w') → caught_up w'.
Proof. destruct e; try by apply caught_up_but. apply caught_up_writer. Qed.

Lemma caught_up_start times cfg d clk uu : caught_up (StartMaster times cfg d clk uu).
Proof.
  assert (HQ : ∀ V, synced_inv V (sched (StartMaster times cfg d clk uu))).
  { intros V. rewrite sched_StartMaster. apply (restore_ind (λ _, synced_inv V)).
    - split; [apply (wf_heap_inv (started 0 false)), wf_started|]. split; try done.
      by intros l ?%not_elem_of_nil.
    - intros _ now j gs d' HQ. unfold restore_job. destruct (String.eqb _ _); [|by destruct (String.eqb _ _)].
      by apply (accepts_enqueue (Q:=synced_inv V) (ok:=λ _, True)).
    - intros _ g gs d' HQ. by apply (registers_group (Q:=synced_inv V)), (registers_new_group (Q:=synced_inv V)). }
  split; [apply HQ|]. destruct (holds_StartMaster (λ _, True) times cfg d clk uu I) as (_ & He & _).
  split; [done|]. split; [|done]. unfold StartMaster. destruct (restore times cfg d) as [[??]?]. by eexists.
Qed.

Lemma caught_up_steps w es w' : steps w es w' → caught_up w → caught_up w'.
Proof.
  induction 1 as [|w e w' es w'' Hs _ IH]; [done|]. intros HQ. apply IH. destruct Hs as [e w w' Hh].
  by eapply caught_up_handle.
Qed.

(** The writer alone empties the channel. *)
Lemma flush_runs w q : caught_up w → dbWriteChan (sched w) = q →
  ∃ w', for_each q (λ _, db_writer) w = Some (tt, w') ∧ caught_up w' ∧ dbWriteChan (sched w') = [] ∧
    ∀ id, GetJob id (sched w') = GetJob id (sched w).
Proof.
  revert w. induction q as [|op q IH]; intros w Hw Hc; [by exists w|]. cbn [for_each].
  pose proof Hw as (_ & _ & [d Hd] & _). pose proof (db_writer_runs _ _ _ _ Hc Hd) as E.
  rewrite (M_bind_Some _ _ _ _ _ E). pose proof (caught_up_writer _ _ Hw E) as Hw1.
  destruct (IH _ Hw1 eq_refl) as (w' & E' & Hw' & Hc' & HG). by exists w'.
Qed.

Lemma shutdown_saves w : caught_up w →
  ∃ w' d', cleanDB w = Some (tt, w') ∧ dbWriteChan (sched w') = [] ∧ store w' = Some d' ∧
    ∀ id j, GetJob id (sched w) = Some j → saveable j → store_GetJob id d' = Some (stored j).
Proof.
  intros Hw. destruct (flush_runs w _ Hw eq_refl) as (w' & E & ([_ HS] & _ & [d' Hd'] & _) & Hc & HG).
  exists w', d'. split; [exact E|]. split; [done|]. split; [done|]. intros id j. rewrite <- HG.
  intros (l & Hl & <-)%GetJob_Some Hj. destruct (sy_last _ _ _ HS _ _ Hl) as [Hlast|[_ Hw']]; [done| |].
  - unfold last_write in Hlast. by rewrite Hc in Hlast.
  - specialize (Hw' Hj). unfold view in Hw'. by rewrite Hd', (sy_id _ _ _ HS _ _ Hl) in Hw'.
Qed.

(** C2: the database catches up: whatever has happened since the master
    started, shutting the database down writes all that is pending and leaves
    every tracked job in it exactly as the scheduler has it, if JSON and an entry of
    the database can hold the job (valid text, a key that is not blank) and the disk
    takes the writes. *)
Theorem shutdown_saves_every_job times cfg d clk uu es w :
  steps (StartMaster times cfg d clk uu) es w →
  ∃ w' d', cleanDB w = Some (tt, w') ∧ dbWriteChan (sched w') = [] ∧ store w' = Some d' ∧
    ∀ id j, GetJob id (sched w) = Some j → saveable j → store_GetJob id d' = Some (stored j).
Proof.
  intros Hs. eapply shutdown_saves, caught_up_steps, caught_up_start. exact Hs.
Qed.

(** C7: a clean restart loses no pending job that could be saved: a job that is
    QUEUED when the master is shut down is tracked and QUEUED again by the master that
    starts on the database left behind, with all its submitter chose, if JSON and an
    entry of the database can hold the job (its text is valid UTF-8, its ID is not
    blank, its key and its encoding are within the sizes Put documents), the disk
    takes the writes (Put fails for nothing else), the new queue is unbounded and the
    database's entries have different IDs.  A write that fails is only logged by the
    code, and the job is then not there after the restart. *)
Theorem clean_restart_keeps_pending times cfg d clk uu es w w' d' times' cfg' clk' uu' id j :
  steps (StartMaster times cfg d clk uu) es w → cleanDB w = Some (tt, w') → store w' = Some d' →
  GetJob id (sched w) = Some j → Job.State j = StateQueued → saveable j →
  (Config.MaxQueueSize cfg' ≤ 0)%Z → NoDup (Job.ID <$> LoadJobs d') →
  ∃ j', GetJob id (sched (StartMaster times' cfg' d' clk' uu')) = Some j' ∧
    Job.State j' = StateQueued ∧ descriptor j' = descriptor (stored j).
Proof.
  intros Hs Hc Hd' Hj Hq Hsave Hm Hnd.
  destruct (shutdown_saves w (caught_up_steps _ _ _ Hs (caught_up_start times cfg d clk uu)))
    as (w1 & d1 & E & _ & Hd1 & Hall).
  rewrite Hc in E. injection E as <-. rewrite Hd' in Hd1. injection Hd1 as <-.
  specialize (Hall id j Hj Hsave). unfold store_GetJob in Hall.
  destruct (Get bucketJobs id d') as [data|] eqn:Hg; [|done].
  pose proof (elem_of_LoadJobs _ _ _ _ Hg Hall) as Hin.
  assert (Hid : Job.ID (stored j) = id).
  { destruct (caught_up_steps _ _ _ Hs (caught_up_start times cfg d clk uu)) as ([_ HS] & _).
    apply GetJob_Some in Hj as (l & Hl & <-). by apply (sy_id _ _ _ HS). }
  rewrite sched_StartMaster. destruct (restore_restored times' cfg' d') as [_ _ HQ _ _ Ha].
  specialize (Ha Hm Hnd (stored j) Hin Hq). rewrite Hid in Ha. unfold asked in Ha.
  destruct (GetJob id (restore _ _ _).1.1) as [j'|] eqn:Ej; [|done]. exists j'. split; [done|].
  split; [by eapply HQ|].
  by apply (inj Some) in Ha.
Qed.
End Master.

(** ** Witnesses *)

(** A concrete job can be saved. *)
Ltac solve_saveable :=
  lazymatch goal with |- saveable ?j =>
    split; [|eexists; split; [vm_compute; reflexivity|split; [done|split; apply Z.leb_le; vm_compute; reflexivity]]];
    split; lazymatch goal with
      | |- valid _ => vm_compute; reflexivity
      | |- in_int64 _ => unfold in_int64; simpl; lia
      | |- _ => done
      end
  end.

Section Witnesses.
#[local] Existing Instances toy_cel bolt_map bolt_map_laws amd64 utc map_order_canonical.

Lemma bolt_map_put k v (d : DB) : puttable k v → is_Some (Put bucketJobs k v d).
Proof. intros _. by eexists. Qed.

(** One job submitted, none dispatched. *)
Definition pending_events : list event := [ESubmit (demo_request 1)].
Definition pending_world : World := after (play pending_events) demo_master.

Lemma pending_steps :
  steps (StartMaster demo_clock DefaultConfig ∅ demo_clock demo_uuids) pending_events pending_world.
Proof. apply steps_after. vm_compute. reflexivity. Qed.

Definition pending_job : Job :=
  Job.mk "00000000" "has:cpu_cores" "echo hi" (demo_clock 0) 10 "anonymous" 0 1 0 0 None 3 0 "" StateQueued ""
    zeroTime zeroTime "" "" 0.

Lemma pending_tracked : GetJob "00000000" (sched pending_world) = Some pending_job.
Proof. vm_compute. reflexivity. Qed.

Lemma pending_saveable : saveable pending_job.
Proof. solve_saveable. Qed.

Lemma shutdown_saves_every_job_witness : ∃ d' : DB,
  store (after cleanDB pending_world) = Some d' ∧ store_GetJob "00000000" d' = Some (stored pending_job).
Proof.
  destruct (shutdown_saves_every_job bolt_map_put demo_clock DefaultConfig ∅ demo_clock demo_uuids
    pending_events pending_world pending_steps) as (w' & d' & E & _ & Hd & Hall).
  exists d'. unfold after. rewrite E. split; [exact Hd|].
  exact (Hall _ _ pending_tracked pending_saveable).
Defined.

Lemma clean_runs : cleanDB pending_world = Some (tt, after cleanDB pending_world).
Proof.
  assert (survives cleanDB pending_world = true) as Hs by (vm_compute; reflexivity).
  revert Hs. unfold survives, after. by destruct (cleanDB pending_world) as [[[] w']|].
Qed.

Definition left_behind : DB := default (∅ : DB) (store (after cleanDB pending_world)).

Lemma left_behind_store : store (after cleanDB pending_world) = Some left_behind.
Proof.
  unfold left_behind. assert (bool_decide (is_Some (store (after cleanDB pending_world))) = true) as Hs
    by (vm_compute; reflexivity).
  by apply bool_decide_eq_true in Hs as [d ->].
Qed.

Lemma left_behind_jobs : Job.ID <$> LoadJobs left_behind = ["00000000"].
Proof. vm_compute. reflexivity. Qed.

Lemma clean_restart_keeps_pending_witness : ∃ j',
  GetJob "00000000" (sched (StartMaster demo_clock (DefaultConfig <| Config.MaxQueueSize := 0%Z |>) left_behind
    demo_clock demo_uuids)) = Some j' ∧ Job.State j' = StateQueued ∧ descriptor j' = descriptor (stored pending_job).
Proof.
  apply (clean_restart_keeps_pending bolt_map_put demo_clock DefaultConfig ∅ demo_clock demo_uuids
    pending_events pending_world (after cleanDB pending_world) left_behind).
  - exact pending_steps.
  - exact clean_runs.
  - exact left_behind_store.
  - exact pending_tracked.
  - reflexivity.
  - exact pending_saveable.
  - done.
  - rewrite left_behind_jobs. apply NoDup_singleton.
Defined.
End Witnesses.
