(* ===== verification/Stall.v ===== *)
(** * A rank without its group stalls the master

    Ranks are dispatched with their group, single jobs from the head of the
    queue; a turn that finds a rank at the head does nothing more, backfilling
    included.  After a restart no group is pending any more, but its ranks are
    queued again. *)

From S2P Require Import Prelude GoStd GoJson GoTime GoHeap Queue QueueFacts SchedulerSpec.
From S2P Require Import QueueProps JobTable Messaging Fairshare CircuitBreaker Tracker Matchmaker.
From S2P Require Import Store Config GoRegexp World Server Dispatch Master Hoare Panics Demo Restart.
Import GlobalScheduler (objs, gobjs, queue, jobs, groups, MaxQueueSize, OnJobChange,
  OnGroupChange, dbWriteChan).
#[local] Open Scope string_scope.
#[local] Open Scope list_scope.
#[local] Open Scope Z_scope.

Section Stall.
Context {C : CEL} {B : Bolt} `{GoArch} `{Zone} `{MapOrder}.

(** The head of the queue is a rank and no group is pending. *)
Definition orphaned (gs : GlobalScheduler) : Prop :=
  PendingGroups gs = [] ∧ ∃ j, Peek gs = Some j ∧ Job.GroupID j ≠ "".

Lemma dispatch_tick_orphaned w : orphaned (sched w) →
  ∃ w', dispatch_tick w = Some (tt, w') ∧ sched w' = sched w ∧ pub w' = pub w.
Proof.
  intros (Hg & j & Hp & Hj). unfold dispatch_tick. destruct (always_update_gauges w) as [[[] w1] E].
  assert (Hw1 : sched w1 = sched w ∧ pub w1 = pub w).
  { revert E. unfold update_gauges. repeat run_step. by intros [= <-]. }
  destruct Hw1 as [Hs Hpub]. rewrite (M_bind_Some _ _ _ _ _ E).
  assert (HG : gang_phase w1 = Some (tt, w1)).
  { unfold gang_phase. unfold mbind at 1, M_bind at 1, gets at 1. by rewrite Hs, Hg. }
  rewrite (M_bind_Some _ _ _ _ _ HG). unfold mbind at 1, M_bind at 1, gets at 1. rewrite Hs, Hp.
  rewrite (proj2 (String.eqb_neq _ _) Hj). by exists w1.
Qed.

Lemma restored_no_pending times cfg d : PendingGroups (restore times cfg d).1.1 = [].
Proof.
  destruct (restore_restored times cfg d) as [_ _ _ Hg _ _]. unfold PendingGroups.
  assert (HP : ∀ l, Forall (λ '(gid, l0), groups (restore times cfg d).1.1 !! gid = Some l0) l →
    omap (λ '(_, l0), let g := gderef (restore times cfg d).1.1 l0 in
      if String.eqb (JobGroup.State g) "PENDING" then Some (CopyGroup g) else None) l = []).
  { induction 1 as [|[gid l0] l Hl _ IH]; [done|]. simpl.
    destruct (Hg gid l0 Hl) as [Hp _]. rewrite (proj2 (String.eqb_neq _ _) Hp). exact IH. }
  apply HP, Forall_forall. intros [gid l0]. rewrite range_perm. by intros ?%elem_of_map_to_list.
Qed.

Definition idle_event (e : event) : Prop := e = EDispatch ∨ ∃ members, e = EMembers members.

Lemma orphaned_steps w es w' : steps w es w' → Forall idle_event es → orphaned (sched w) →
  sched w' = sched w ∧ pub w' = pub w.
Proof.
  induction 1 as [|w e w' es w'' Hs _ IH]; [done|]. intros [He Hes]%Forall_cons Ho.
  assert (sched w' = sched w ∧ pub w' = pub w) as [Es Ep].
  { destruct Hs as [e w w' E]. destruct He as [->|[members ->]]; [|by injection E as <-].
    destruct (dispatch_tick_orphaned w Ho) as (w1 & E1 & ? & ?). cbn [handle] in E.
    rewrite E1 in E. by injection E as <-. }
  rewrite <- Es, <- Ep. apply IH; [done|]. by rewrite Es.
Qed.

(** C25: a master that restarts while a rank of a distributed job is first in its
    queue dispatches nothing any more: however many turns its loop makes and
    whatever members join, the queue stays as it is and no message is sent, not
    even for the single jobs behind the rank. *)
Theorem restored_rank_stalls_the_master times cfg d clk uu j es w' :
  let w := StartMaster times cfg d clk uu in
  Peek (sched w) = Some j → Job.GroupID j ≠ "" → Forall idle_event es → steps w es w' →
  sched w' = sched w ∧ ZMQPublisher.sent (pub w') = [].
Proof.
  intros w Hp Hj Hes Hs.
  assert (Ho : orphaned (sched w)).
  { split; [|by exists j]. subst w. rewrite sched_StartMaster. apply restored_no_pending. }
  destruct (orphaned_steps w es w' Hs Hes Ho) as [-> ->]. split; [done|].
  subst w. unfold StartMaster. by destruct (restore times cfg d) as [[??]?].
Qed.
End Stall.

Section Witnesses.
#[local] Existing Instances toy_cel bolt_map amd64 utc map_order_canonical.

(** A database with a rank of a distributed job and a single job. *)
Definition rank_of_group : Job := sample_job <| Job.ID := "dj-1-r0" |> <| Job.GroupID := "dj-1" |>.
Definition single_behind : Job := sample_job <| Job.ID := "00000001" |> <| Job.Priority := 10 |>.
Definition crashed_db : DB :=
  default (∅ : DB) (SaveJob rank_of_group ∅ ≫= SaveJob single_behind).
Abbreviation stalled_master := (StartMaster demo_clock DefaultConfig crashed_db demo_clock demo_uuids).
Definition idle_turns : list event := [EMembers demo_nodes; EDispatch; EDispatch].

Lemma rank_first : match Peek (sched stalled_master) with
  | Some j => String.eqb (Job.GroupID j) "dj-1" | None => false end = true.
Proof. vm_compute. reflexivity. Qed.

(** Two idle members with room for both jobs, two turns, and nothing is sent. *)
Lemma restored_rank_stalls_the_master_witness :
  length idle_turns = 3%nat ∧ ZMQPublisher.sent (pub (after (play idle_turns) stalled_master)) = [].
Proof.
  split; [reflexivity|]. pose proof rank_first as HP.
  destruct (Peek (sched stalled_master)) as [j|] eqn:E; [|discriminate HP].
  apply (restored_rank_stalls_the_master demo_clock DefaultConfig crashed_db demo_clock demo_uuids j idle_turns).
  - exact E.
  - intros Hj. rewrite Hj in HP. discriminate HP.
  - repeat (constructor; [unfold idle_event; eauto|]). constructor.
  - apply steps_after. vm_compute. reflexivity.
Defined.
End Witnesses.
