(* ===== verification/GoText.v ===== *)
(** * Text handling of the worker, the profiler and the command line

    More of Go's [strings], [strconv] and [fmt]: trimming, splitting, lower
    case, padding.  Strings are byte strings. *)

From S2P Require Import Prelude GoStd GoJson GoRegexp.
#[local] Open Scope string_scope.
#[local] Open Scope list_scope.
#[local] Open Scope nat_scope.

Definition newline : string := String (byte 10) "".

(** ** White space

    The UTF-8 encodings of the runes for which [unicode.IsSpace] holds. *)
Definition space_runes : list string :=
  map (λ r, utf8 r) [9; 10; 11; 12; 13; 32; 133; 160; 5760; 8192; 8193; 8194; 8195; 8196; 8197;
    8198; 8199; 8200; 8201; 8202; 8232; 8233; 8239; 8287; 12288]%Z.

Fixpoint rev_string (acc s : string) : string :=
  match s with "" => acc | String c s' => rev_string (String c acc) s' end.

Fixpoint strip_any (ps : list string) (s : string) : option string :=
  match ps with
  | [] => None
  | p :: ps' => match strip p s with Some r => Some r | None => strip_any ps' s end
  end.

(** Every turn takes a byte at least: the length is enough fuel. *)
Fixpoint strip_all (n : nat) (ps : list string) (s : string) : string :=
  match n with
  | O => s
  | S n => match strip_any ps s with Some r => strip_all n ps r | None => s end
  end.

Definition TrimLeftSpace (s : string) : string := strip_all (String.length s) space_runes s.
Definition TrimRightSpace (s : string) : string :=
  rev_string "" (strip_all (String.length s) (map (rev_string "") space_runes) (rev_string "" s)).
Definition TrimSpace (s : string) : string := TrimRightSpace (TrimLeftSpace s).

Definition TrimPrefix (s p : string) : string := default s (strip p s).

(** ** Splitting *)

(** [strings.Cut]: around the first [sep]. *)
Fixpoint Cut (s sep : string) : option (string * string) :=
  match strip sep s with
  | Some rest => Some ("", rest)
  | None =>
      match s with
      | "" => None
      | String c s' =>
          match Cut s' sep with Some (a, b) => Some (String c a, b) | None => None end
      end
  end.

(** At most [n] cuts, for a [sep] that is not empty. *)
Fixpoint cuts (n : nat) (s sep : string) : list string :=
  match n with
  | O => [s]
  | S n => match Cut s sep with Some (a, b) => a :: cuts n b sep | None => [s] end
  end.

Definition SplitN (s sep : string) (n : nat) : list string := cuts (n - 1) s sep.
Definition Split (s sep : string) : list string := cuts (String.length s) s sep.
Definition ReplaceAll (s old new : string) : string := Join (Split s old) new.

(** [strings.LastIndex(s, c)], -1 when there is none. *)
Fixpoint last_index (i : Z) (best : Z) (c : ascii) (s : string) : Z :=
  match s with
  | "" => best
  | String c' s' => last_index (i + 1)%Z (if Ascii.eqb c c' then i else best) c s'
  end.
Definition LastIndex (s : string) (c : ascii) : Z := last_index 0 (-1)%Z c s.

(** ** Lower case

    As for [ToUpper], the two other runes with an ASCII lower case are the
    dotted I (U+0130) and the Kelvin sign (U+212A). *)
Definition lower_ascii (c : ascii) : ascii :=
  let n := Ascii.nat_of_ascii c in
  if (65 <=? n) && (n <=? 90) then Ascii.ascii_of_nat (n + 32) else c.

Fixpoint lower_toks (l : list tok) : string :=
  match l with
  | [] => ""
  | t :: l' =>
      (match t with
       | Asc c => String (lower_ascii c) ""
       | _ =>
           if String.eqb (bytes_of t) (utf8 304) then "i"
           else if String.eqb (bytes_of t) (utf8 8490) then "k"
           else bytes_of t
       end) +:+ lower_toks l'
  end.
Definition ToLower (s : string) : string := lower_toks (runes s).

(** [strconv.ParseInt(s, 10, 64)] *)
Definition ParseInt (s : string) : Z * bool := Atoi s.

(** ** fmt *)

Fixpoint Repeat (s : string) (n : nat) : string :=
  match n with O => "" | S n => s +:+ Repeat s n end.

(** [%-ns]: the width counts runes. *)
Definition pad_right (n : nat) (s : string) : string := s +:+ Repeat " " (n - length (runes s)).

Example trim1 : TrimSpace (" a b" +:+ utf8 160 +:+ utf8 8239 +:+ String (byte 10) "") = "a b".
Proof. vm_compute. reflexivity. Qed.
Example split1 : Split "a,,b," "," = ["a"; ""; "b"; ""]. Proof. reflexivity. Qed.
Example split2 : SplitN "K=a=b" "=" 2 = ["K"; "a=b"]. Proof. reflexivity. Qed.
Example split3 : Split "" "," = [""]. Proof. reflexivity. Qed.
Example replace1 : ReplaceAll "a,b,c" "," "; " = "a; b; c". Proof. reflexivity. Qed.
Example lower1 : ToLower "NVIDIA GeForce" = "nvidia geforce". Proof. vm_compute. reflexivity. Qed.
Example last1 : LastIndex "/a/b" "/" = 2%Z. Proof. reflexivity. Qed.
Example pad1 : pad_right 4 ("a" +:+ utf8 233) = "a" +:+ utf8 233 +:+ "  ". Proof. vm_compute. reflexivity. Qed.

(** ** Cutting and joining *)

Lemma strip_Some l s r : strip l s = Some r ↔ s = l +:+ r.
Proof.
  revert s. induction l as [|c l IH]; intros s; cbn [strip String.append].
  { split; congruence. }
  destruct s as [|c' s]; [done|]. destruct (Ascii.eqb_spec c c') as [->|Hne].
  - rewrite IH. split; congruence.
  - split; [done|]. congruence.
Qed.

Lemma Cut_Some s sep a b : Cut s sep = Some (a, b) → s = a +:+ sep +:+ b.
Proof.
  revert a. induction s as [|c s IH]; intros a; cbn [Cut].
  - destruct (strip sep "") as [r|] eqn:E; [|done]. intros [= <- <-]. by apply strip_Some in E.
  - destruct (strip sep (String c s)) as [r|] eqn:E.
    + intros [= <- <-]. by apply strip_Some in E.
    + destruct (Cut s sep) as [[a' b']|]; [|done]. intros [= <- <-]. cbn. by rewrite (IH a').
Qed.

Lemma cuts_some n s sep : cuts n s sep ≠ [].
Proof. destruct n as [|n]; cbn [cuts]; [done|]. by destruct (Cut s sep) as [[]|]. Qed.

Lemma cuts_join n s sep : Join (cuts n s sep) sep = s.
Proof.
  revert s. induction n as [|n IH]; intros s; [done|]. cbn [cuts].
  destruct (Cut s sep) as [[a b]|] eqn:E; [|done]. rewrite (Cut_Some _ _ _ _ E). specialize (IH b).
  pose proof (cuts_some n b sep). destruct (cuts n b sep) as [|x l]; [done|].
  change (Join (a :: x :: l) sep) with (a +:+ sep +:+ Join (x :: l) sep). by rewrite IH.
Qed.

(** The separator is not in the first part. *)
Lemma Cut_first s sep a b : Cut s sep = Some (a, b) → sep ≠ "" → Cut a sep = None.
Proof.
  intros E Hs. revert a E. induction s as [|c s IH]; intros a; cbn [Cut].
  - destruct (strip sep "") as [r|] eqn:E; [|done]. intros [= <- _].
    destruct sep; [done|]. done.
  - destruct (strip sep (String c s)) as [r|] eqn:E.
    + intros [= <- _]. by destruct sep.
    + destruct (Cut s sep) as [[a' b']|] eqn:Ec; [|done]. intros [= <- <-]. cbn [Cut].
      rewrite (IH a' eq_refl). destruct (strip sep (String c a')) as [r|] eqn:E'; [|done].
      apply strip_Some in E'. exfalso. apply Cut_Some in Ec. subst s.
      enough (strip sep (String c (a' +:+ sep +:+ b')) = Some (r +:+ sep +:+ b')) by congruence.
      apply strip_Some. change (String c (a' +:+ sep +:+ b')) with (String c a' +:+ sep +:+ b').
      by rewrite E', str_app_assoc.
Qed.
