(* ===== verification/GoFloat.v ===== *)
(** * Integers as float64

    An integer below [2 ^ 53] written in decimal is read as the float64 of that
    very value, and converting it back to [int] gives the integer. *)

From S2P Require Import Prelude GoStd GoJson GoJsonFacts.
#[local] Open Scope string_scope.
#[local] Open Scope list_scope.
#[local] Open Scope Z_scope.

Lemma digits2_log2 p : Zpos (digits2_pos p) = Z.log2 (Zpos p) + 1.
Proof.
  induction p as [p IH|p IH|]; [..|done]; cbn [digits2_pos]; rewrite Pos2Z.inj_succ, IH.
  - rewrite Pos2Z.inj_xI, Z.log2_succ_double by lia. lia.
  - rewrite Pos2Z.inj_xO, Z.log2_double by lia. lia.
Qed.

Lemma Zdigits2_log2 z : 0 < z → Zdigits2 z = Z.log2 z + 1.
Proof. destruct z as [|p|p]; [lia| |lia]. intros _. apply digits2_log2. Qed.

(** A mantissa of 53 bits stays as it is. *)
Lemma shr_none m e : 0 < m → Z.log2 m = 52 → -1074 ≤ e →
  shr_fexp float64.prec float64.emax m e loc_Exact = (Build_shr_record m false false, e).
Proof.
  intros Hm Hl He. unfold shr_fexp. rewrite Zdigits2_log2, Hl by done.
  unfold fexp, emin, float64.prec, float64.emax.
  replace (Z.max (52 + 1 + e - 53) (3 - 1024 - 53) - e) with 0 by lia. done.
Qed.

(** One of 54 bits whose last bit is zero loses that bit. *)
Lemma shr_one m e : 0 < m → Z.log2 m = 52 → -1074 ≤ e →
  shr_fexp float64.prec float64.emax (2 * m) e loc_Exact = (Build_shr_record m false false, e + 1).
Proof.
  intros Hm Hl He. unfold shr_fexp. rewrite Zdigits2_log2, Z.log2_double, Hl by lia.
  unfold fexp, emin, float64.prec, float64.emax.
  replace (Z.max (Z.succ 52 + 1 + e - 53) (3 - 1024 - 53) - e) with 1 by lia.
  destruct m as [|p|p]; [lia|done|lia].
Qed.

Lemma of_ratio_int p : Zpos p < 2 ^ 53 → ∃ m e, float64.of_ratio false p 1 = S754_finite false m e ∧
  -52 ≤ e ≤ 0 ∧ Zpos m = Zpos p * 2 ^ (- e).
Proof.
  intros Hp. set (d := Z.log2 (Zpos p)). assert (Hd : 0 ≤ d ≤ 52).
  { split; [apply Z.log2_nonneg|]. enough (d < 53) by lia. apply Z.log2_lt_pow2; lia. }
  set (m := Zpos p * 2 ^ (52 - d)). assert (Hm : 0 < m) by (apply Z.mul_pos_pos; [lia|apply Z.pow_pos_nonneg; lia]).
  assert (Hlm : Z.log2 m = 52) by (unfold m; rewrite Z.log2_mul_pow2 by lia; fold d; lia).
  assert (E : SFdiv_core_binary float64.prec float64.emax (Zpos p) 0 1 0 = (2 * m, d - 53, loc_Exact)).
  { unfold SFdiv_core_binary. rewrite !Zdigits2_log2 by lia. fold d. change (Z.log2 1) with 0.
    unfold fexp, emin, float64.prec, float64.emax.
    replace (Z.min (Z.max (d + 1 + 0 - (0 + 1 + 0) - 53) (3 - 1024 - 53)) (0 - 0)) with (d - 53) by lia.
    cbv zeta. replace (0 - 0 - (d - 53)) with (53 - d) by lia.
    assert (Hs : (match 53 - d with 0 => Zpos p | Zpos _ => Z.shiftl (Zpos p) (53 - d) | Zneg _ => 0 end) = 2 * m).
    { destruct (53 - d) as [|s|s] eqn:Es; [lia| |lia]. rewrite <- Es, Z.shiftl_mul_pow2 by lia. unfold m.
      replace (53 - d) with (Z.succ (52 - d)) by lia. rewrite Z.pow_succ_r by lia. lia. }
    rewrite Hs. pose proof (Z.div_1_r (2 * m)) as Hq. pose proof (Z.mod_1_r (2 * m)) as Hr.
    unfold Z.div, Z.modulo in Hq, Hr. destruct (Z.div_eucl (2 * m) 1) as [q r]. by subst. }
  destruct m as [|m'|m'] eqn:Em; [lia| |lia].
  exists m', (d - 52). split; [|split; [lia|]].
  - unfold float64.of_ratio. rewrite E. unfold binary_round_aux.
    rewrite (shr_one (Zpos m')) by lia. cbn [shr_m loc_of_shr_record round_nearest_even].
    rewrite shr_none by lia. cbn [shr_m]. unfold float64.prec, float64.emax.
    destruct (Z.leb_spec (d - 53 + 1) (1024 - 53)); [|lia]. f_equal. lia.
  - rewrite <- Em. unfold m. do 2 f_equal. lia.
Qed.

Lemma trunc_of_ratio p : Zpos p < 2 ^ 53 → float64.trunc (float64.of_ratio false p 1) = Some (Zpos p).
Proof.
  intros Hp. destruct (of_ratio_int p Hp) as (m & e & -> & He & Hm). cbn [float64.trunc]. f_equal.
  destruct (Z.leb_spec 0 e).
  - assert (e = 0) as -> by lia. lia.
  - rewrite Hm, Z.div_mul; [done|]. apply Z.pow_nonzero; lia.
Qed.

(** ** Reading a decimal number *)

Lemma split_Itoa z : 0 ≤ z → split_number (Itoa z) = (false, Itoa z, "", 0).
Proof.
  intros Hz. destruct (Itoa_decimal z) as (d & [_ (c & d' & -> & Hc & _) Hall] & ->).
  destruct (Z.ltb_spec z 0); [lia|]. cbn [String.append]. unfold split_number.
  pose proof (take_digits_app (String c d') "") as HT. rewrite str_app_nil in HT.
  assert (Hd : Forall (λ c, is_digit c = true) (String.list_ascii_of_string (String c d'))).
  { eapply Forall_impl; [exact Hall|]. apply is_digit_of. }
  specialize (HT Hd Logic.I). apply is_digit_of in Hc.
  rewrite runes_ascii in * by (by apply number_head_facts; unfold number_head; rewrite Hc, orb_true_r).
  assert (Hne : c ≠ "-"%char) by (by intros ->).
  destruct c as [[] [] [] [] [] [] [] []]; try done; by rewrite HT.
Qed.

Lemma ParseFloat_Itoa z : 0 ≤ z < 2 ^ 53 → ∃ x, ParseFloat (Itoa z) = Some x ∧ float64.trunc x = Some z.
Proof.
  intros Hz. unfold ParseFloat. rewrite split_Itoa, str_app_nil by lia.
  destruct (Itoa_decimal z) as (d & [Hdig _ _] & HI). specialize (Hdig 0 ""). rewrite str_app_nil in Hdig.
  destruct (Z.ltb_spec z 0); [lia|]. cbn [String.append] in HI. rewrite HI, Hdig, Z.abs_eq by lia.
  rewrite Z.mul_0_l, Z.add_0_l. cbn [digits]. destruct z as [|p|p]; [by exists (S754_zero false)| |lia].
  change (0 - Z.of_nat (String.length "")) with 0.
  assert (Hl : 0 ≤ Z.log2 (Zpos p) < 53) by (split; [apply Z.log2_nonneg|apply Z.log2_lt_pow2; lia]).
  destruct (Z.ltb_spec 400 (0 + Z.log2 (Zpos p) / 4)); [lia|].
  destruct (Z.ltb_spec (0 + Z.log2 (Zpos p) / 3 + 1) (-400)); [lia|].
  change (p * Z.to_pos (10 ^ 0))%positive with (p * 1)%positive. rewrite Pos.mul_1_r.
  destruct (of_ratio_int p) as (m & e & E & _); [lia|]. cbv zeta iota.
  change (0 <=? 0) with true. cbv iota. rewrite E. exists (S754_finite false m e). split; [done|].
  rewrite <- E. apply trunc_of_ratio. lia.
Qed.

Lemma int_of_float_Itoa `{GoArch} z x : 0 ≤ z < 2 ^ 53 → float64.trunc x = Some z → int_of_float x = z.
Proof.
  intros Hz Hx. unfold int_of_float. rewrite Hx.
  destruct (Z.leb_spec (- 2 ^ 63) z); [|lia]. destruct (Z.ltb_spec z (2 ^ 63)); [done|lia].
Qed.
