(* ===== verification/Discovery.v ===== *)
(** * pkg/discovery: membership

    hashicorp/memberlist is a parameter: [Memberlist] says whether Create and
    Join succeed.  Modelled are the configuration handed to it, the delegates it
    calls back, and the choice of the local address. *)

From S2P Require Import Prelude GoStd.
#[local] Open Scope string_scope.
#[local] Open Scope list_scope.
#[local] Open Scope Z_scope.

(** [metaDelegate]: the class ad, whatever the limit asked for. *)
Module metaDelegate.
Record t := mk { meta : string }.
End metaDelegate.
Abbreviation metaDelegate := metaDelegate.t.
Definition NodeMeta (m : metaDelegate) (limit : Z) : string := metaDelegate.meta m.

(** The hooks of a client, over the state [W] they act on. *)
Section Hooks.
Context {W : Type}.

Record EventHooks := { OnJoin : option (string → M W ()); OnLeave : option (string → M W ()) }.
Record eventDelegate := { onJoin : option (string → M W ()); onLeave : option (string → M W ()) }.

Definition NotifyJoin (e : eventDelegate) (name : string) : M W () :=
  match onJoin e with Some f => f name | None => mret tt end.
Definition NotifyLeave (e : eventDelegate) (name : string) : M W () :=
  match onLeave e with Some f => f name | None => mret tt end.
Definition NotifyUpdate (e : eventDelegate) (name : string) : M W () := mret tt.

(** [memberlist.Config]: the fields that are set.  The address and port to
    advertise are unset ("" and the library's default) without an address. *)
Record list_config := {
  lc_Name : string;
  lc_BindPort : Z;
  lc_Advertise : option (string * Z);
  lc_Delegate : option metaDelegate;
  lc_Events : option eventDelegate
}.

Definition discovery_config (nodeName : string) (bindPort : Z) (meta : option string)
    (advertiseAddr : string) (advertisePort : Z) (hooks : option EventHooks) : list_config := {|
  lc_Name := nodeName;
  lc_BindPort := bindPort;
  lc_Advertise :=
    if String.eqb advertiseAddr "" then None
    else Some (advertiseAddr, if 0 <? advertisePort then advertisePort else bindPort);
  lc_Delegate := metaDelegate.mk <$> meta;
  lc_Events := (λ h, {| onJoin := OnJoin h; onLeave := OnLeave h |}) <$> hooks
|}.

(** [memberlist.Create] gives the list or an error, [Join] the number of nodes
    reached or an error. *)
Record Memberlist := {
  Create_err : list_config → option string;
  Join_res : list string → Z + string
}.

(** A [NodeDiscovery] is known by its configuration. *)
Definition NewNodeDiscovery (ml : Memberlist) (nodeName : string) (bindPort : Z) (meta : option string)
    (advertiseAddr : string) (advertisePort : Z) (hooks : option EventHooks) : list_config + string :=
  let config := discovery_config nodeName bindPort meta advertiseAddr advertisePort hooks in
  match Create_err ml config with
  | Some err => inr ("failed to create memberlist: " +:+ err)
  | None => inl config
  end.

Definition discovery_Join (ml : Memberlist) (existingNodes : list string) : option string :=
  match Join_res ml existingNodes with
  | inr err => Some err
  | inl _ => None
  end.
End Hooks.
Arguments EventHooks : clear implicits.
Arguments eventDelegate : clear implicits.
Arguments list_config : clear implicits.
Arguments Memberlist : clear implicits.

(** ** GetLocalIP *)

(** An interface address: an IP network, with what [net.IP] says of it, or
    another kind. *)
Inductive if_addr :=
  | IPNet (text : string) (loopback v4 : bool)
  | OtherAddr.

Definition usable_addr (a : if_addr) : bool :=
  match a with IPNet _ loopback v4 => negb loopback && v4 | OtherAddr => false end.

Fixpoint first_usable (addrs : list if_addr) : string :=
  match addrs with
  | [] => ""
  | a :: addrs =>
      match a with
      | IPNet text loopback v4 => if negb loopback && v4 then text else first_usable addrs
      | OtherAddr => first_usable addrs
      end
  end.

(** [None]: the addresses cannot be listed. *)
Definition GetLocalIP (InterfaceAddrs : option (list if_addr)) : string :=
  match InterfaceAddrs with
  | None => ""
  | Some addrs => first_usable addrs
  end.

Lemma GetLocalIP_usable addrs : GetLocalIP addrs ≠ "" → ∃ l, addrs = Some l ∧
  IPNet (GetLocalIP addrs) false true ∈ l.
Proof.
  destruct addrs as [l|]; [|done]. cbn [GetLocalIP]. intros Hne. exists l.
  split; [done|]. induction l as [|a l IH]; [done|]. cbn [first_usable] in *.
  destruct a as [text [] []|]; cbn [negb andb] in *; try (right; by apply IH). left.
Qed.
