(* ===== verification/Worker.v ===== *)
(** * internal/daemon/worker.go: the worker agent

    A worker is a transition system: a step is one turn of the subscriber's
    goroutine, one message taken from its channel, or one stage of the goroutine
    that runs a job.  What the outside decides (whether a connection succeeds,
    what is received, how a command ends, whether a report reaches the master)
    is the step's argument.  Console output is left out. *)

From S2P Require Import Prelude GoStd GoJson Queue Messaging Config World Server Discovery.
#[local] Open Scope string_scope.
#[local] Open Scope list_scope.
#[local] Open Scope Z_scope.

(** [if backoff < cap { backoff *= 2 }] *)
Definition next_backoff (cap : Duration) (backoff : Duration) : Duration :=
  if backoff <? cap then backoff *ᵢ 2 else backoff.

(** ** subscribeWithReconnect *)

Module Subscriber.
Inductive phase := Connecting | Sleeping | Receiving | Sending (msg : string) | Closed.
Record t := mk { state : phase; backoff : Duration; ch : list string }.
End Subscriber.
Abbreviation Subscriber := Subscriber.t.
Import Subscriber (Connecting, Sleeping, Receiving, Sending, Closed).

#[export] Instance eta_Subscriber : Eta Subscriber := λ s,
  Subscriber.mk (Subscriber.state s) (Subscriber.backoff s) (Subscriber.ch s).

(** The capacity of the channel. *)
Definition msg_chan_cap : nat := 100.

Definition newSubscriber : Subscriber := Subscriber.mk Connecting (1 * Second) [].

(** [SConnect] and [SReceive] carry what the socket answers.  [SWake stop] ends a sleep; when the context is done too, [stop] says which
    branch of the select runs.  [SSend] is the send on the channel, which waits
    while it is full. *)
Inductive sub_event :=
  | SConnect (Dial SetOption : option string)
  | SWake (stop : bool)
  | SReceive (Recv : list string + string)
  | SSend.

Definition subscribeWithReconnect (endpoint : string) (ctx_done : bool) (e : sub_event) (s : Subscriber) :
    Subscriber :=
  match Subscriber.state s, e with
  | Connecting, SConnect dial opt =>
      match NewZMQSubscriber (λ _, dial) (λ _, opt) endpoint with
      | inr _ => s <| Subscriber.state := if ctx_done then Closed else Sleeping |>
      | inl _ => s <| Subscriber.backoff := 1 * Second |> <| Subscriber.state := Receiving |>
      end
  | Sleeping, SWake stop =>
      if ctx_done && stop then s <| Subscriber.state := Closed |>
      else s <| Subscriber.backoff ::= next_backoff (30 * Second) |> <| Subscriber.state := Connecting |>
  | Receiving, SReceive r =>
      match Receive r with
      | (_, Some _) => s <| Subscriber.state := if ctx_done then Closed else Connecting |>
      | (msg, None) => s <| Subscriber.state := Sending msg |>
      end
  | Sending msg, SSend =>
      if (length (Subscriber.ch s) <? msg_chan_cap)%nat
      then s <| Subscriber.ch ::= λ l, l ++ [msg] |> <| Subscriber.state := Receiving |>
      else s
  | _, _ => s
  end.

(** ** Running a job *)

(** [context.Context] with its cancel function: why it is done, if it is. *)
Inductive ctx_err := Canceled | DeadlineExceeded.
Module Context.
Record t := mk { deadline : option Time; err : option ctx_err }.
End Context.
Abbreviation context := Context.t.
Definition WithTimeout (now : Time) (d : Duration) : context :=
  Context.mk (Some (Add now d)) (if d <=? 0 then Some DeadlineExceeded else None).
Definition WithCancel : context := Context.mk None None.
(** Cancelling, and the timer of the deadline: the first one counts. *)
Definition end_context (why : ctx_err) (c : context) : context :=
  match Context.err c with
  | Some _ => c
  | None => Context.mk (Context.deadline c) (Some why)
  end.

(** [exec.Cmd]: no environment means the worker's own. *)
Module Cmd.
Record t := mk { Args : list string; Env : option (list string) }.
End Cmd.
Abbreviation Cmd := Cmd.t.

(** exec_unix.go and exec_windows.go *)
Class Shell := prepareCommand : string → list string.
Definition unix_shell : Shell := λ cmdStr, ["sh"; "-c"; cmdStr].
Definition windows_shell : Shell := λ cmdStr, ["cmd.exe"; "/d"; "/c"; cmdStr].

(** The report of a worker: the request with its two times. *)
Module WorkerReport.
Record t := mk { request : ReportResultRequest; StartTime : Z; EndTime : Z }.
End WorkerReport.
Abbreviation WorkerReport := WorkerReport.t.

(** The goroutine of a job: it announces the start, runs the command under its
    context, and reports, sleeping between attempts. *)
Module Task.
Inductive stage :=
  | Acking
  | Running (ctx : nat) (startTime : Time) (cmd : Cmd)
  | Reporting (ctx : nat) (r : WorkerReport) (backoff : Duration)
  | Waiting (ctx : nat) (r : WorkerReport) (backoff : Duration)
  | Done.
Record t := mk { payload : DispatchPayload; state : stage }.
End Task.
Abbreviation Task := Task.t.
Import Task (Acking, Running, Reporting, Waiting, Done).

Record Worker := mkWorker {
  nodeName : string;
  masterHost : string;
  metricsPort : Z;
  subEndpoint : string;
  Environ : list string;
  subscriber : Subscriber;
  subCtx_done : bool;
  cancelFuncs : gmap string nat;
  ctxs : list context;
  tasks : list Task;
  delivered : list WorkerReport
}.

#[export] Instance eta_Worker : Eta Worker := λ w,
  mkWorker (nodeName w) (masterHost w) (metricsPort w) (subEndpoint w) (Environ w) (subscriber w) (subCtx_done w)
    (cancelFuncs w) (ctxs w) (tasks w) (delivered w).

(** ** acknowledgeStart

    The status of each answer, [None] for an error: how many times the request
    is posted, and how often the goroutine sleeps half a second. *)
Fixpoint ack_posts (n : nat) (answers : nat → option Z) : nat * nat :=
  match n with
  | O => (0, 0)%nat
  | S n =>
      if decide (answers 0%nat = Some 200) then (1, 0)%nat
      else let '(posts, sleeps) := ack_posts n (λ i, answers (S i)) in (S posts, S sleeps)
  end.

Definition ack_url (masterHost : string) (port : Z) : string :=
  "http://" +:+ masterHost +:+ ":" +:+ Itoa port +:+ "/acknowledge_start".
Definition ack_body (jobID : string) : string := print (JObj [("job_id", JStr jobID)]).

(** The requests, in order: the same one each time. *)
Definition acknowledgeStart (masterHost : string) (port : Z) (jobID : string)
    (answers : nat → option Z) : list (string * string) :=
  replicate (ack_posts 3 answers).1 (ack_url masterHost port, ack_body jobID).

(** ** The message loop *)

Definition cancel_context (c : nat) (w : Worker) : Worker :=
  w <| ctxs ::= alter (end_context Canceled) c |>.

Definition on_message (msg : string) (w : Worker) : Worker :=
  match UnmarshalPayload msg with
  | None => w
  | Some p =>
      if negb (String.eqb (DispatchPayload.TargetNode p) (nodeName w)) then w
      else if String.eqb (DispatchPayload.Action p) "cancel" then
        match cancelFuncs w !! DispatchPayload.JobID p with
        | Some cf => cancel_context cf w
        | None => w
        end
      else if String.eqb (DispatchPayload.Action p) "execute" || String.eqb (DispatchPayload.Action p) ""
      then w <| tasks ::= λ l, l ++ [Task.mk p Acking] |>
      else w
  end.

(** [for msg := range msgCh] *)
Definition consume (w : Worker) : Worker :=
  match Subscriber.ch (subscriber w) with
  | [] => w
  | msg :: rest => on_message msg (w <| subscriber ::= λ s, s <| Subscriber.ch := rest |> |>)
  end.

(** ** The goroutine of a job *)

Section Tasks.
Context `{Shell} `{MapOrder}.

Definition set_stage (i : nat) (s : Task.stage) (w : Worker) : Worker :=
  w <| tasks ::= alter (λ t, Task.mk (Task.payload t) s) i |>.

Definition command_of (environ : list string) (p : DispatchPayload) : Cmd :=
  Cmd.mk (prepareCommand (DispatchPayload.Command p))
    match DispatchPayload.EnvVars p with
    | Some m => if decide (m = ∅) then None
                else Some (environ ++ map (λ '(k, v), k +:+ "=" +:+ v) (range m))
    | None => None
    end.

(** After the announcement: the context, its registration and the command. *)
Definition begin_task (i : nat) (now startTime : Time) (w : Worker) : Worker :=
  match tasks w !! i with
  | Some (Task.mk p Acking) =>
      let ctx := if 0 <? DispatchPayload.WalltimeSeconds p
                 then WithTimeout now (DispatchPayload.WalltimeSeconds p *ᵢ Second) else WithCancel in
      let c := length (ctxs w) in
      let w := w <| ctxs ::= λ l, l ++ [ctx] |> in
      let w := w <| cancelFuncs ::= <[DispatchPayload.JobID p := c]> |> in
      set_stage i (Running c startTime (command_of (Environ w) p)) w
  | _ => w
  end.

(** What is reported when [cmd.Run] has returned [execErr]. *)
Definition error_message (p : DispatchPayload) (ctx : option context) (execErr : option string) : string :=
  match execErr with
  | None => ""
  | Some err =>
      match ctx ≫= Context.err with
      | Some DeadlineExceeded =>
          "walltime exceeded (" +:+ Itoa (DispatchPayload.WalltimeSeconds p) +:+ "s)"
      | Some Canceled => "cancelled"
      | None => err
      end
  end.

Definition job_report (node : string) (p : DispatchPayload) (ctx : option context)
    (startTime endTime : Time) (stdout : string) (execErr : option string) : WorkerReport :=
  WorkerReport.mk
    {| rr_JobId := DispatchPayload.JobID p; rr_WorkerNode := node;
       rr_Success := bool_decide (execErr = None); rr_Output := stdout;
       rr_Error := error_message p ctx execErr |}
    (Unix startTime) (Unix endTime).

Definition exit_task (i : nat) (endTime : Time) (stdout stderr : string) (execErr : option string)
    (w : Worker) : Worker :=
  match tasks w !! i with
  | Some (Task.mk p (Running c startTime _)) =>
      set_stage i (Reporting c (job_report (nodeName w) p (ctxs w !! c) startTime endTime stdout execErr)
        (1 * Second)) w
  | _ => w
  end.

(** The deferred function. *)
Definition finish_task (i c : nat) (w : Worker) : Worker :=
  match tasks w !! i with
  | Some t =>
      let w := cancel_context c w in
      let w := w <| cancelFuncs ::= delete (DispatchPayload.JobID (Task.payload t)) |> in
      set_stage i Done w
  | None => w
  end.

(** One attempt of [reportWithRetry]: the master answered; it handled the
    report but the answer was lost; it never saw it. *)
Inductive attempt := Answered | AnswerLost | NotSent.

Definition report_attempt (i : nat) (a : attempt) (w : Worker) : Worker :=
  match tasks w !! i with
  | Some (Task.mk _ (Reporting c r backoff)) =>
      let w := match a with NotSent => w | _ => w <| delivered ::= λ l, l ++ [r] |> end in
      match a with
      | Answered => finish_task i c w
      | _ => if subCtx_done w then finish_task i c w else set_stage i (Waiting c r backoff) w
      end
  | _ => w
  end.

(** The select after a failed attempt. *)
Definition report_wake (i : nat) (stop : bool) (w : Worker) : Worker :=
  match tasks w !! i with
  | Some (Task.mk _ (Waiting c r backoff)) =>
      if subCtx_done w && stop then finish_task i c w
      else set_stage i (Reporting c r (next_backoff (60 * Second) backoff)) w
  | _ => w
  end.

(** The timer of a context's deadline. *)
Definition expire_context (c : nat) (now : Time) (w : Worker) : Worker :=
  match ctxs w !! c ≫= Context.deadline with
  | Some d => if Before now d then w else w <| ctxs ::= alter (end_context DeadlineExceeded) c |>
  | None => w
  end.

(** ** The worker as a transition system *)

Inductive worker_event :=
  | WSubscriber (e : sub_event)
  | WConsume
  | WBegin (i : nat) (now startTime : Time)
  | WExpire (c : nat) (now : Time)
  | WExit (i : nat) (endTime : Time) (stdout stderr : string) (execErr : option string)
  | WAttempt (i : nat) (a : attempt)
  | WWake (i : nat) (stop : bool)
  | WStop.

Definition worker_step (e : worker_event) (w : Worker) : Worker :=
  match e with
  | WSubscriber e => w <| subscriber ::= subscribeWithReconnect (subEndpoint w) (subCtx_done w) e |>
  | WConsume => consume w
  | WBegin i now startTime => begin_task i now startTime w
  | WExpire c now => expire_context c now w
  | WExit i t out err r => exit_task i t out err r w
  | WAttempt i a => report_attempt i a w
  | WWake i stop => report_wake i stop w
  | WStop => w <| subCtx_done := true |>
  end.

Definition worker_run (es : list worker_event) (w : Worker) : Worker := fold_left (λ w e, worker_step e w) es w.
End Tasks.

(** ** StartWorker

    What the start needs from outside, and the calls on the member list it
    makes. *)
Record Setup := {
  su_profile : string + string;
  su_Getenv : string → string;
  su_addrs : option (list if_addr);
  su_list : Memberlist Worker;
  su_tls : string → option string;
  su_dial : string → option string;
  su_Environ : list string
}.

Inductive list_call := Created (c : list_config Worker) | Joined (addrs : list string) | Shutdown.

Definition host_port (host : string) (port : Z) : string := host +:+ ":" +:+ Itoa port.

Definition advertise_addr (su : Setup) (masterHost : string) : string :=
  let advertiseAddr := su_Getenv su "TASCH_ADVERTISE_ADDR" in
  if String.eqb advertiseAddr "" && negb (String.eqb masterHost "127.0.0.1")
  then GetLocalIP (su_addrs su) else advertiseAddr.

Definition grpc_addr (su : Setup) (cfg : Config) : string :=
  let grpcAddr := su_Getenv su "TASCH_GRPC_ADDR" in
  if String.eqb grpcAddr "" then host_port (Config.MasterAddr cfg) (PortConfig.GRPC (Config.Ports cfg))
  else grpcAddr.

Definition newWorker (cfg : Config) (su : Setup) : Worker :=
  mkWorker (Config.NodeName cfg) (Config.MasterAddr cfg) (PortConfig.Metrics (Config.Ports cfg))
    ("tcp://" +:+ host_port (Config.MasterAddr cfg) (PortConfig.ZMQ (Config.Ports cfg)))
    (su_Environ su) newSubscriber false ∅ [] [] [].

Definition StartWorker (cfg : Config) (su : Setup) : (Worker + string) * list list_call :=
  match su_profile su with
  | inr err => (inr ("hardware profiling: " +:+ err), [])
  | inl ad =>
      match NewNodeDiscovery (su_list su) (Config.NodeName cfg) 0 (Some ad)
              (advertise_addr su (Config.MasterAddr cfg)) 0 None with
      | inr err => (inr ("discovery: " +:+ err), [])
      | inl disc =>
          let joinAddr := host_port (Config.MasterAddr cfg) (PortConfig.Gossip (Config.Ports cfg)) in
          match discovery_Join (su_list su) [joinAddr] with
          | Some err => (inr ("cluster join at " +:+ joinAddr +:+ ": " +:+ err), [Created disc; Shutdown])
          | None =>
              let calls := [Created disc; Joined [joinAddr]] in
              let tls := Config.TLS cfg in
              let creds := if TLSConfig.Enabled tls && negb (String.eqb (TLSConfig.CAFile tls) "")
                           then su_tls su (TLSConfig.CAFile tls) else None in
              match creds with
              | Some err => (inr ("TLS: " +:+ err), calls ++ [Shutdown])
              | None =>
                  match su_dial su (grpc_addr su cfg) with
                  | Some err => (inr ("gRPC connect: " +:+ err), calls ++ [Shutdown])
                  | None => (inl (newWorker cfg su), calls)
                  end
              end
          end
      end
  end.
