(* ===== verification/WorkerProps.v ===== *)
(** * Properties of the worker

    What the worker runs, reports and waits for, whatever it receives and
    however its connections, commands and reports turn out. *)

From S2P Require Import Prelude GoStd GoJson Queue Messaging Config World Server Discovery Worker.
Import Subscriber (Connecting, Sleeping, Receiving, Sending, Closed).
Import Task (Acking, Running, Reporting, Waiting, Done).
#[local] Open Scope string_scope.
#[local] Open Scope list_scope.
#[local] Open Scope Z_scope.

(** ** Backing off *)






(** ** Well-formed workers

    The contexts that are named exist, and the waiting times are bounded. *)







Section Steps.
Context `{Shell} `{MapOrder}.







Lemma worker_run_cons e es w : worker_run (e :: es) w = worker_run es (worker_step e w).
Proof. done. Qed.


(** ** The table of cancel functions *)

(** The task [i] runs or reports the job [id], under the context [c]. *)
Definition live_ctx (t : Task) : option nat :=
  match Task.state t with Running c _ _ | Reporting c _ _ | Waiting c _ _ => Some c | Acking | Done => None end.
Definition live (w : Worker) (i : nat) (id : string) (c : nat) : Prop :=
  ∃ t, tasks w !! i = Some t ∧ DispatchPayload.JobID (Task.payload t) = id ∧ live_ctx t = Some c.

(** No run of a job begins while another run of it is live. *)
Definition begins_apart (e : worker_event) (w : Worker) : Prop :=
  match e with
  | WBegin i _ _ => ∀ t j c, tasks w !! i = Some t → ¬ live w j (DispatchPayload.JobID (Task.payload t)) c
  | _ => True
  end.
Fixpoint apart (es : list worker_event) (w : Worker) : Prop :=
  match es with
  | [] => True
  | e :: es => begins_apart e w ∧ apart es (worker_step e w)
  end.

Definition no_begin (e : worker_event) : Prop := match e with WBegin _ _ _ => False | _ => True end.
Lemma apart_snoc es e w w' : Forall no_begin es → worker_run es w = w' → begins_apart e w' → apart (es ++ [e]) w.
Proof.
  intros Hes <-. revert w. induction Hes as [|e' es He _ IH]; intros w Hb; [by split|].
  split; [by destruct e'|]. by apply IH.
Qed.

(** [one]: runs of a job do not overlap. *)
Record table_ok (one : Prop) (w : Worker) : Prop := {
  tk_entry id c : cancelFuncs w !! id = Some c → ∃ i, live w i id c;
  tk_live i id c : one → live w i id c → cancelFuncs w !! id = Some c;
  tk_own i id j id' c : live w i id c → live w j id' c → i = j;
  tk_open c x : ctxs w !! c = Some x → Context.err x = None → ∃ i id, live w i id c;
  tk_exists i id c : live w i id c → (c < length (ctxs w))%nat
}.

Lemma live_fun w i id c id' c' : live w i id c → live w i id' c' → id = id' ∧ c = c'.
Proof. intros (t & E & <- & Hc) (t' & E' & <- & Hc'). split; congruence. Qed.

(** A step that ends contexts at most. *)
Lemma table_keep one w w' : table_ok one w → (∀ i id c, live w' i id c ↔ live w i id c) →
  cancelFuncs w' = cancelFuncs w → length (ctxs w') = length (ctxs w) →
  (∀ c x, ctxs w' !! c = Some x → Context.err x = None → ∃ y, ctxs w !! c = Some y ∧ Context.err y = None) →
  table_ok one w'.
Proof.
  intros [He Hl Ho Hop Hx] HL Hc Hlen Hctx. split.
  - intros id c. rewrite Hc. setoid_rewrite HL. apply He.
  - intros i id c. rewrite Hc, HL. apply Hl.
  - intros i id j id' c. rewrite !HL. apply Ho.
  - intros c x E Hex. setoid_rewrite HL. destruct (Hctx c x E Hex) as (y & Ey & Hy). by eapply Hop.
  - intros i id c. rewrite HL, Hlen. apply Hx.
Qed.

(** The stage of a task is set. *)
Lemma live_set i s w t : tasks w !! i = Some t → ∀ j id c, live (set_stage i s w) j id c ↔
  (if decide (j = i) then DispatchPayload.JobID (Task.payload t) = id ∧
     live_ctx (Task.mk (Task.payload t) s) = Some c else live w j id c).
Proof.
  intros E j id c. unfold live. change (tasks (set_stage i s w)) with (alter (λ t, Task.mk (Task.payload t) s) i (tasks w)).
  destruct (decide (j = i)) as [->|Hne].
  - rewrite list_lookup_alter_eq, E. cbn. split; [by intros (t' & [= <-] & ?)|intros ?; by eexists].
  - by rewrite list_lookup_alter_ne.
Qed.

Lemma table_stage one i s w t c : table_ok one w → tasks w !! i = Some t → live_ctx t = Some c →
  live_ctx (Task.mk (Task.payload t) s) = Some c → table_ok one (set_stage i s w).
Proof.
  intros HT E Hc Hs. apply (table_keep one w); [done| |done|done|by eauto].
  intros j id c'. rewrite (live_set i s w t E). destruct (decide (j = i)) as [->|]; [|done]. rewrite Hs.
  unfold live. rewrite E. split; [intros [? [= <-]]; by exists t|intros (t' & [= <-] & ? & ?); split; congruence].
Qed.

Lemma ended_contexts why c (l : list context) c' x : alter (end_context why) c l !! c' = Some x →
  Context.err x = None → l !! c' = Some x ∧ c' ≠ c.
Proof.
  destruct (decide (c = c')) as [->|Hne].
  - rewrite list_lookup_alter_eq. destruct (l !! c') as [y|]; [|done]. intros [= <-]. unfold end_context.
    by destruct (Context.err y) eqn:E; cbn; rewrite ?E.
  - rewrite list_lookup_alter_ne by done. by split.
Qed.

Lemma table_end one why c w : table_ok one w → table_ok one (w <| ctxs ::= alter (end_context why) c |>).
Proof.
  intros HT. apply (table_keep one w); [done..|by cbn; rewrite length_alter|].
  intros c' x E Hx. destruct (ended_contexts _ _ _ _ _ E Hx) as [? _]. by eauto.
Qed.

Lemma table_message one msg w : table_ok one w → table_ok one (on_message msg w).
Proof.
  intros HT. unfold on_message. destruct (UnmarshalPayload msg) as [p|]; [|done].
  destruct (negb _); [done|]. destruct (String.eqb _ "cancel").
  { destruct (cancelFuncs w !! _); [|done]. by apply table_end. }
  destruct (_ || _); [|done]. apply (table_keep one w); [done| |done|done|by eauto].
  intros i id c. unfold live. cbn [tasks]. split; intros (t & E & Ht).
  - apply lookup_app_Some in E as [?|[_ E]]; [by exists t|]. apply list_lookup_singleton_Some in E as [_ <-]. by destruct Ht.
  - exists t. split; [by apply lookup_app_l_Some|done].
Qed.

Lemma table_begin one i now start w : table_ok one w → (one → begins_apart (WBegin i now start) w) →
  table_ok one (begin_task i now start w).
Proof.
  intros HT Ha. unfold begin_task. destruct (tasks w !! i) as [t|] eqn:E; [|done].
  pose proof E as E'. destruct t as [p []]; try done. cbn [begins_apart] in Ha.
  cbv zeta. lazymatch goal with |- context [w <| ctxs ::= λ l, l ++ [?x] |>] => set (ctx := x) end.
  set (id := DispatchPayload.JobID p).
  set (w1 := _ <| cancelFuncs ::= _ |>). set (c := length (ctxs w)).
  assert (HL : ∀ j id' c', live (set_stage i (Running c start (command_of (Environ w1) p)) w1) j id' c' ↔
    (if decide (j = i) then id = id' ∧ c = c' else live w j id' c')).
  { intros j id' c'. rewrite (live_set i _ w1 (Task.mk p Acking) E). case_decide; [|done]. cbn. naive_solver. }
  assert (Hi : ∀ id' c', ¬ live w i id' c') by (intros id' c' (t & Et & _ & Hc); rewrite E in Et; by injection Et as <-).
  destruct HT as [He Hl Ho Hop Hx]. split.
  - intros id' c'. change (cancelFuncs _) with (<[id := c]> (cancelFuncs w)).
    intros [[<- <-]|[Hne Hc]]%lookup_insert_Some; [exists i; by rewrite HL, decide_True|].
    destruct (He _ _ Hc) as [j Hj]. exists j. rewrite HL. case_decide; [subst; by destruct (Hi id' c')|done].
  - intros j id' c' H1. rewrite HL. change (cancelFuncs _) with (<[id := c]> (cancelFuncs w)). case_decide.
    + intros [<- <-]. apply lookup_insert_eq.
    + intros Hj. rewrite lookup_insert_ne; [by eapply Hl|]. intros <-. by eapply (Ha H1).
  - intros j id1 k id2 c'. rewrite !HL. repeat case_decide; try congruence; [| |by apply Ho].
    + intros [_ <-] Hk%Hx. unfold c in Hk. lia.
    + intros Hk%Hx [_ <-]. unfold c in Hk. lia.
  - intros c' x. change (ctxs _) with (ctxs w ++ [ctx]). setoid_rewrite HL. rewrite lookup_app_Some.
    intros [Hc|[Hge Hc]] Hex.
    + destruct (Hop c' x Hc Hex) as (j & id' & Hj). exists j, id'. case_decide; [subst; by destruct (Hi id' c')|done].
    + apply list_lookup_singleton_Some in Hc as [Hz _]. exists i, id. rewrite decide_True by done. split; [done|].
      unfold c. lia.
  - intros j id' c'. rewrite HL. change (ctxs _) with (ctxs w ++ [ctx]). rewrite length_app. simpl. case_decide.
    + intros [_ <-]. unfold c. lia.
    + intros Hj%Hx. lia.
Qed.

Lemma table_finish one i c w t : table_ok one w → tasks w !! i = Some t → live_ctx t = Some c →
  table_ok one (finish_task i c w).
Proof.
  intros HT E Hc. unfold finish_task. rewrite E. set (id := DispatchPayload.JobID (Task.payload t)). cbv zeta.
  set (w1 := _ <| cancelFuncs ::= _ |>).
  assert (HL : ∀ j id' c', live (set_stage i Done w1) j id' c' ↔ j ≠ i ∧ live w j id' c').
  { intros j id' c'. rewrite (live_set i Done w1 t E). case_decide; [|naive_solver]. cbn. naive_solver. }
  assert (Hi : live w i id c) by (by exists t). destruct HT as [He Hl Ho Hop Hx]. split.
  - intros id' c'. change (cancelFuncs _) with (delete id (cancelFuncs w)). intros [Hne Hd]%lookup_delete_Some.
    destruct (He _ _ Hd) as [j Hj]. exists j. rewrite HL. split; [|done]. intros ->.
    by destruct (live_fun _ _ _ _ _ _ Hi Hj).
  - intros j id' c' H1. rewrite HL. intros [Hne Hj]. change (cancelFuncs _) with (delete id (cancelFuncs w)).
    rewrite lookup_delete_ne; [by eapply Hl|]. intros <-. pose proof (Hl _ _ _ H1 Hj) as E1.
    rewrite (Hl _ _ _ H1 Hi) in E1. injection E1 as <-. by apply Hne, (Ho _ _ _ _ _ Hj Hi).
  - intros j id1 k id2 c'. rewrite !HL. intros [_ H1] [_ H2]. by eapply Ho.
  - intros c' x. change (ctxs _) with (alter (end_context Canceled) c (ctxs w)). intros Hc' Hex.
    destruct (ended_contexts _ _ _ _ _ Hc' Hex) as [Hw Hne]. destruct (Hop c' x Hw Hex) as (j & id' & Hj).
    exists j, id'. rewrite HL. split; [|done]. intros ->. by destruct (live_fun _ _ _ _ _ _ Hi Hj).
  - intros j id' c'. rewrite HL. change (ctxs _) with (alter (end_context Canceled) c (ctxs w)). rewrite length_alter.
    intros [_ Hj]. by eapply Hx.
Qed.

Lemma table_delivered one r w : table_ok one w → table_ok one (w <| delivered ::= λ l, l ++ [r] |>).
Proof. intros HT. by apply (table_keep one w); [..|eauto]. Qed.

Lemma table_step one e w : (one → begins_apart e w) → table_ok one w → table_ok one (worker_step e w).
Proof.
  intros Ha HT. destruct e as [e| |i now start|c now|i t out err r|i a|i stop|]; cbn [worker_step].
  - by apply (table_keep one w); [..|eauto].
  - unfold consume. destruct (Subscriber.ch (subscriber w)); [done|]. apply table_message.
    by apply (table_keep one w); [..|eauto].
  - by apply table_begin.
  - unfold expire_context. destruct (_ ≫= _) as [d|]; [|done]. destruct (Before now d); [done|]. by apply table_end.
  - unfold exit_task. destruct (tasks w !! i) as [[p []]|] eqn:E; try done. by eapply table_stage.
  - unfold report_attempt. destruct (tasks w !! i) as [[p []]|] eqn:E; try done. cbv zeta.
    assert (HD := table_delivered one r w HT).
    destruct a; [by eapply table_finish|..]; (destruct (subCtx_done _); [by eapply table_finish|by eapply table_stage]).
  - unfold report_wake. destruct (tasks w !! i) as [[p []]|] eqn:E; try done.
    destruct (_ && _); [by eapply table_finish|by eapply table_stage].
  - by apply (table_keep one w); [..|eauto].
Qed.

Lemma table_run one es w : (one → apart es w) → table_ok one w → table_ok one (worker_run es w).
Proof.
  revert w. induction es as [|e es IH]; intros w Ha HT; [done|]. rewrite worker_run_cons. apply IH.
  - intros H1. by apply Ha.
  - apply table_step; [intros H1; by apply Ha|done].
Qed.

(** C30: the table of cancel functions is right: whatever a worker receives and
    however its jobs end, each entry is that of a job that is still running or
    reporting, with the context of that very run; a context that is not done is that
    of such a run, so a job that has ended leaves none open; no two runs share a
    context; and as long as no run of a job begins on this worker while another run of
    the same job is live there, every such run has its entry, so a cancel message
    reaches it.  (When runs of a job overlap, the end of one deletes the entry of the
    other.) *)
Theorem cancel_table_is_what_runs es cfg su : let w0 := newWorker cfg su in let w := worker_run es w0 in
  (∀ id c, cancelFuncs w !! id = Some c → ∃ i, live w i id c) ∧
  (∀ c x, ctxs w !! c = Some x → Context.err x = None → ∃ i id, live w i id c) ∧
  (∀ i id j id' c, live w i id c → live w j id' c → i = j) ∧
  (apart es w0 → ∀ i id c, live w i id c → cancelFuncs w !! id = Some c).
Proof.
  intros w0 w. assert (HT : table_ok (apart es w0) w).
  { apply table_run; [done|]. assert (Hno : ∀ i id c, ¬ live w0 i id c) by (by intros i id c (t & E & _)).
    split; [done|..|done| ].
    - by intros i id c _ ?%Hno.
    - by intros i id j id' c ?%Hno.
    - by intros i id c ?%Hno. }
  destruct HT as [He Hl Ho Hop _]. split_and!; [done..|]. intros Ha i id c. by apply Hl.
Qed.

(** ** How long a worker waits *)






(** ** The messages a worker acts on *)

(** What [e] receives from the socket, and what it takes from the channel. *)
Definition arrives (e : worker_event) (w : Worker) : list string :=
  match e, Subscriber.state (subscriber w) with
  | WSubscriber (SReceive r), Receiving => match Receive r with (msg, None) => [msg] | _ => [] end
  | _, _ => []
  end.
Definition takes (e : worker_event) (w : Worker) : list string :=
  match e, Subscriber.ch (subscriber w) with
  | WConsume, msg :: _ => [msg]
  | _, _ => []
  end.

Fixpoint along (f : worker_event → Worker → list string) (es : list worker_event) (w : Worker) : list string :=
  match es with
  | [] => []
  | e :: es => f e w ++ along f es (worker_step e w)
  end.

(** Received but not taken yet. *)
Definition held (w : Worker) : list string :=
  Subscriber.ch (subscriber w) ++
  match Subscriber.state (subscriber w) with Sending msg => [msg] | _ => [] end.

(** The job a message asks [node] to run. *)
Definition job_for (node msg : string) : option DispatchPayload :=
  p ← UnmarshalPayload msg;
  if String.eqb (DispatchPayload.TargetNode p) node &&
     (String.eqb (DispatchPayload.Action p) "execute" || String.eqb (DispatchPayload.Action p) "")
  then Some p else None.

Lemma payloads_set_stage i s w : Task.payload <$> tasks (set_stage i s w) = Task.payload <$> tasks w.
Proof.
  cbn. apply list_eq. intros k. rewrite !list_lookup_fmap. destruct (decide (i = k)) as [->|Hne].
  - rewrite list_lookup_alter_eq. by destruct (tasks w !! k).
  - by rewrite list_lookup_alter_ne.
Qed.

Lemma payloads_finish i c w : Task.payload <$> tasks (finish_task i c w) = Task.payload <$> tasks w.
Proof. unfold finish_task. destruct (tasks w !! i); [|done]. by rewrite payloads_set_stage. Qed.

Lemma on_message_payloads msg w : nodeName (on_message msg w) = nodeName w ∧
  subscriber (on_message msg w) = subscriber w ∧
  Task.payload <$> tasks (on_message msg w) =
    (Task.payload <$> tasks w) ++ omap (job_for (nodeName w)) [msg].
Proof.
  unfold on_message. cbn [omap list_omap]. unfold job_for. destruct (UnmarshalPayload msg) as [p|]; cbn;
    [|by rewrite app_nil_r].
  destruct (String.eqb_spec (DispatchPayload.TargetNode p) (nodeName w)); cbn [negb andb];
    [|by rewrite app_nil_r].
  destruct (String.eqb_spec (DispatchPayload.Action p) "cancel") as [->|]; cbn [String.eqb orb].
  { rewrite app_nil_r. by destruct (cancelFuncs w !! _). }
  destruct (_ || _); cbn; [by rewrite fmap_app|by rewrite app_nil_r].
Qed.

Lemma worker_step_messages e w : nodeName (worker_step e w) = nodeName w ∧
  held w ++ arrives e w = takes e w ++ held (worker_step e w) ∧
  Task.payload <$> tasks (worker_step e w) =
    (Task.payload <$> tasks w) ++ omap (job_for (nodeName w)) (takes e w).
Proof.
  destruct e as [e| |i now start|c now|i t out err r|i a|i stop|]; cbn [worker_step takes arrives];
    rewrite ?app_nil_r.
  - split; [done|]. split; [|cbn; by rewrite ?app_nil_r]. unfold held, subscribeWithReconnect. cbn [subscriber].
    change (subscriber (w <| subscriber ::= ?f |>)) with (f (subscriber w)). cbv beta.
    destruct (subscriber w) as [st b ch]. cbn [Subscriber.state Subscriber.ch Subscriber.backoff].
    destruct st, e as [dial opt|stop|r|]; cbn -[NewZMQSubscriber Receive]; rewrite ?app_nil_r; try done.
    + by destruct (NewZMQSubscriber _ _ _), (subCtx_done w); cbn; rewrite ?app_nil_r.
    + destruct (subCtx_done w && stop); cbn; by rewrite app_nil_r.
    + by destruct (Receive r) as [? []], (subCtx_done w); cbn; rewrite ?app_nil_r.
    + destruct (length ch <=? 99)%nat; cbn; by rewrite ?app_nil_r.
  - unfold consume, held. destruct (Subscriber.ch (subscriber w)) as [|msg rest] eqn:E.
    { split; [done|]. split; [by rewrite E|]. cbn. by rewrite app_nil_r. }
    set (w1 := w <| subscriber ::= _ |>). destruct (on_message_payloads msg w1) as (Hn & Hs & Hp).
    rewrite Hn, Hs, Hp. done.
  - unfold begin_task. destruct (tasks w !! i) as [[p []]|]; cbn [omap list_omap]; rewrite ?app_nil_r; try done.
    split; [done|]. split; [done|]. by rewrite payloads_set_stage.
  - unfold expire_context. destruct (_ ≫= _) as [d|]; [destruct (Before now d)|]; cbn; by rewrite ?app_nil_r.
  - unfold exit_task. destruct (tasks w !! i) as [[p []]|]; cbn [omap list_omap]; rewrite ?app_nil_r; try done.
    split; [done|]. split; [done|]. by rewrite payloads_set_stage.
  - unfold report_attempt. cbn [omap list_omap]. rewrite ?app_nil_r.
    destruct (tasks w !! i) as [[p []]|]; try done. cbv zeta.
    assert (HF : ∀ w1, nodeName (finish_task i ctx w1) = nodeName w1 ∧ held (finish_task i ctx w1) = held w1)
      by (intros w1; unfold finish_task; by destruct (tasks w1 !! i)).
    destruct a; [|destruct (subCtx_done _)..]; rewrite ?payloads_finish, ?payloads_set_stage; try done;
      by destruct (HF (w <| delivered ::= λ l, l ++ [r] |>)), (HF w).
  - unfold report_wake. cbn [omap list_omap]. rewrite ?app_nil_r.
    destruct (tasks w !! i) as [[p []]|]; try done.
    assert (HF : ∀ w1, nodeName (finish_task i ctx w1) = nodeName w1 ∧ held (finish_task i ctx w1) = held w1)
      by (intros w1; unfold finish_task; by destruct (tasks w1 !! i)).
    destruct (_ && _); rewrite ?payloads_finish, ?payloads_set_stage; [|done]. by destruct (HF w).
  - cbn. by rewrite ?app_nil_r.
Qed.

(** C26: the messages a worker acts on are those it received, in the order they
    came, none twice and none left out but the ones still waiting in its channel;
    and the jobs it runs are exactly the execute messages among them that name it
    as their target, in that order, once each. *)
Theorem worker_runs_what_it_is_sent es cfg su :
  let w0 := newWorker cfg su in let w := worker_run es w0 in
  along arrives es w0 = along takes es w0 ++ held w ∧
  Task.payload <$> tasks w = omap (job_for (Config.NodeName cfg)) (along takes es w0).
Proof.
  intros w0 w. subst w.
  enough (∀ w1, nodeName w1 = Config.NodeName cfg →
    held w1 ++ along arrives es w1 = along takes es w1 ++ held (worker_run es w1) ∧
    Task.payload <$> tasks (worker_run es w1) =
      (Task.payload <$> tasks w1) ++ omap (job_for (Config.NodeName cfg)) (along takes es w1)) as HA
    by exact (HA w0 eq_refl).
  induction es as [|e es IH]; intros w1 Hn; cbn [along omap list_omap]; rewrite ?app_nil_r; [done|].
  destruct (worker_step_messages e w1) as (Hn' & Hh & Hp). rewrite worker_run_cons.
  destruct (IH (worker_step e w1)) as [IH1 IH2]; [congruence|]. rewrite IH2, Hp, Hn, omap_app, (app_assoc (held w1)), Hh.
  rewrite <- !app_assoc, IH1. done.
Qed.

(** ** Stages *)

Lemma stage_set i s w t : tasks w !! i = Some t →
  tasks (set_stage i s w) !! i = Some (Task.mk (Task.payload t) s).
Proof. intros E. cbn. rewrite list_lookup_alter_eq, E. done. Qed.

Lemma stage_finish i c w t : tasks w !! i = Some t →
  tasks (finish_task i c w) !! i = Some (Task.mk (Task.payload t) Done) ∧
  delivered (finish_task i c w) = delivered w ∧
  cancelFuncs (finish_task i c w) = delete (DispatchPayload.JobID (Task.payload t)) (cancelFuncs w) ∧
  ctxs (finish_task i c w) = alter (end_context Canceled) c (ctxs w).
Proof. intros E. unfold finish_task. rewrite E. split; [by apply stage_set|done]. Qed.

(** ** Reporting until it succeeds *)

(** The report [r] of the task [i] is not yet answered. *)
Definition unanswered (i : nat) (p : DispatchPayload) (c : nat) (r : WorkerReport) (w : Worker) : Prop :=
  ∃ b, tasks w !! i = Some (Task.mk p (Reporting c r b)) ∨ tasks w !! i = Some (Task.mk p (Waiting c r b)).
(** It has been answered: the report was delivered and the goroutine has ended. *)
Definition answered_report (i : nat) (p : DispatchPayload) (r : WorkerReport) (w : Worker) : Prop :=
  tasks w !! i = Some (Task.mk p Done) ∧ r ∈ delivered w.

Lemma set_stage_other i j s w : i ≠ j → tasks (set_stage j s w) !! i = tasks w !! i.
Proof. intros Hne. cbn. by rewrite list_lookup_alter_ne. Qed.

Lemma finish_other i j c w : i ≠ j → tasks (finish_task j c w) !! i = tasks w !! i.
Proof. intros Hne. unfold finish_task. destruct (tasks w !! j); [by rewrite set_stage_other|done]. Qed.

Lemma on_message_task msg w i t : tasks w !! i = Some t → tasks (on_message msg w) !! i = Some t ∧
  delivered (on_message msg w) = delivered w ∧ subCtx_done (on_message msg w) = subCtx_done w.
Proof.
  intros E. unfold on_message. destruct (UnmarshalPayload msg) as [p|]; [|done].
  destruct (negb _); [done|]. destruct (String.eqb _ "cancel"); [by destruct (cancelFuncs w !! _)|].
  destruct (_ || _); [|done]. split; [|done]. by apply lookup_app_l_Some.
Qed.

(** What a step leaves of a task that reports or has ended, when the event is not
    one of its own. *)
Definition concerns (i : nat) (e : worker_event) : Prop :=
  match e with WBegin j _ _ | WExit j _ _ _ _ | WAttempt j _ | WWake j _ => i = j | _ => False end.

Lemma step_other i t e w : ¬ concerns i e → e ≠ WStop → tasks w !! i = Some t →
  tasks (worker_step e w) !! i = Some t ∧ subCtx_done (worker_step e w) = subCtx_done w ∧
  ∃ l, delivered (worker_step e w) = delivered w ++ l.
Proof.
  intros Hc Hs E. assert (HF : ∀ j c w1, delivered (finish_task j c w1) = delivered w1 ∧
    subCtx_done (finish_task j c w1) = subCtx_done w1) by (intros j c w1; unfold finish_task; by destruct (tasks w1 !! j)).
  assert (HN : ∀ w1, delivered w1 = delivered w → ∃ l, delivered w1 = delivered w ++ l) by (intros w1 ->; exists []; by rewrite app_nil_r).
  destruct e as [e| |j now start|c now|j endt out err r|j a|j stop|]; cbn [worker_step concerns] in *; try done.
  - split_and!; [done..|by apply HN].
  - unfold consume. destruct (Subscriber.ch (subscriber w)); [split_and!; [done..|by apply HN]|].
    set (w1 := w <| subscriber ::= _ |>). destruct (on_message_task s w1 i t E) as (? & Hd & ?).
    split_and!; [done..|by apply HN].
  - unfold begin_task. destruct (tasks w !! j) as [[p []]|]; try (split_and!; [done..|by apply HN]).
    split_and!; [by rewrite set_stage_other|done|by apply HN].
  - unfold expire_context. destruct (_ ≫= _) as [d|]; [destruct (Before now d)|]; (split_and!; [done..|by apply HN]).
  - unfold exit_task. destruct (tasks w !! j) as [[p []]|]; try (split_and!; [done..|by apply HN]).
    split_and!; [by rewrite set_stage_other|done|by apply HN].
  - unfold report_attempt. destruct (tasks w !! j) as [[p []]|]; try (split_and!; [done..|by apply HN]). cbv zeta.
    destruct a; [|destruct (subCtx_done _) eqn:Ed..];
      rewrite ?finish_other, ?set_stage_other by done; rewrite ?(proj1 (HF _ _ _)), ?(proj2 (HF _ _ _));
      (split_and!; [done..|]); first [by exists [r]|by apply HN].
  - unfold report_wake. destruct (tasks w !! j) as [[p []]|]; try (split_and!; [done..|by apply HN]).
    destruct (_ && _); rewrite ?finish_other, ?set_stage_other by done; rewrite ?(proj1 (HF _ _ _)), ?(proj2 (HF _ _ _));
      (split_and!; [done..|by apply HN]).
Qed.

(** Until it is answered, the task keeps its report. *)
Lemma report_kept i p c r e w : subCtx_done w = false → e ≠ WStop →
  unanswered i p c r w ∨ answered_report i p r w →
  subCtx_done (worker_step e w) = false ∧
  (unanswered i p c r (worker_step e w) ∨ answered_report i p r (worker_step e w)).
Proof.
  intros Hd Hs HU. assert (HO : ¬ concerns i e → subCtx_done (worker_step e w) = false ∧
    (unanswered i p c r (worker_step e w) ∨ answered_report i p r (worker_step e w))).
  { intros Hc. destruct HU as [(b & [E|E])|[E Hin]]; destruct (step_other i _ e w Hc Hs E) as (E' & -> & l & Hl);
      (split; [done|]); [left; exists b; by left|left; exists b; by right|right]. split; [done|]. rewrite Hl.
    apply elem_of_app. by left. }
  destruct e as [e| |j now start|k now|j endt out err q|j a|j stop|];
    [by apply HO; intros []|by apply HO; intros []| |by apply HO; intros []| | | |done];
    (destruct (decide (i = j)) as [<-|]; [|by apply HO]); clear HO.
  - cbn [worker_step]. unfold begin_task. destruct HU as [(b & [E|E])|[E Hin]]; rewrite E;
      (split; [done|]); [left; exists b; by left|left; exists b; by right|by right].
  - cbn [worker_step]. unfold exit_task. destruct HU as [(b & [E|E])|[E Hin]]; rewrite E;
      (split; [done|]); [left; exists b; by left|left; exists b; by right|by right].
  - cbn [worker_step]. unfold report_attempt. destruct HU as [(b & [E|E])|[E Hin]]; rewrite E; cbv zeta.
    + destruct a; change (subCtx_done (w <| delivered ::= ?f |>)) with (subCtx_done w); rewrite ?Hd.
      * set (w2 := w <| delivered ::= _ |>). destruct (stage_finish i c w2 _ E) as (E' & Hdel & _).
        split; [unfold finish_task; change (tasks w2) with (tasks w); by rewrite E|]. right. split; [exact E'|]. rewrite Hdel. apply elem_of_app. right. left.
      * split; [done|]. left. exists b. right. by apply (stage_set i _ (w <| delivered ::= λ l, l ++ [r] |>) _ E).
      * split; [done|]. left. exists b. right. by apply (stage_set i _ w _ E).
    + split; [done|]. left. exists b. by right.
    + split; [done|by right].
  - cbn [worker_step]. unfold report_wake. destruct HU as [(b & [E|E])|[E Hin]]; rewrite E, ?Hd; cbn [andb].
    + split; [done|]. left. exists b. by left.
    + split; [done|]. left. eexists. left. by apply (stage_set i _ w _ E).
    + split; [done|by right].
Qed.

Lemma report_kept_run i p c r es w : subCtx_done w = false → WStop ∉ es →
  unanswered i p c r w ∨ answered_report i p r w → let w' := worker_run es w in
  subCtx_done w' = false ∧ (unanswered i p c r w' ∨ answered_report i p r w').
Proof.
  revert w. induction es as [|e es IH]; intros w Hd Hs HU; [done|]. cbv zeta. rewrite worker_run_cons.
  apply not_elem_of_cons in Hs as [He Hs]. destruct (report_kept i p c r e w Hd (not_eq_sym He) HU) as [Hd' HU'].
  by apply IH.
Qed.

(** C27: while the worker is not shut down, a finished job's report is never given
    up: whatever else the worker does, and however many attempts fail or have their
    answer lost on the way back, the task goes on with the same report until an
    attempt is answered, and it only ends with the report delivered.  From any such
    state one more attempt that the master answers, after the wait, delivers the
    report, ends the job's context, forgets its cancel function and ends the
    goroutine.  (If answers were lost, the report has been delivered before: it may
    arrive more than once.) *)
Theorem report_is_delivered_in_the_end i es w p c r b : subCtx_done w = false → WStop ∉ es →
  tasks w !! i = Some (Task.mk p (Reporting c r b)) →
  let w1 := worker_run es w in
  answered_report i p r w1 ∨
  unanswered i p c r w1 ∧
  let w2 := worker_run [WWake i false; WAttempt i Answered] w1 in
  delivered w2 = delivered w1 ++ [r] ∧ tasks w2 !! i = Some (Task.mk p Done) ∧
  cancelFuncs w2 = delete (DispatchPayload.JobID p) (cancelFuncs w1) ∧
  ctxs w2 = alter (end_context Canceled) c (ctxs w1).
Proof.
  intros Hd Hs E w1. destruct (report_kept_run i p c r es w Hd Hs) as [Hd1 [HU|HA]]; [left; exists b; by left| |by left].
  fold w1 in Hd1, HU. right. split; [done|]. cbv zeta.
  assert (∃ b' w', worker_step (WWake i false) w1 = w' ∧ tasks w' !! i = Some (Task.mk p (Reporting c r b')) ∧
    delivered w' = delivered w1 ∧ cancelFuncs w' = cancelFuncs w1 ∧ ctxs w' = ctxs w1) as
    (b' & w' & E1 & E2 & <- & <- & <-).
  { destruct HU as (b' & [E1|E1]); cbn [worker_step]; unfold report_wake; rewrite E1, ?Hd1.
    - by exists b', w1.
    - eexists _, _. split; [reflexivity|]. split; [by apply (stage_set i _ w1 _ E1)|done]. }
  rewrite worker_run_cons, E1. cbn [worker_run fold_left worker_step]. unfold report_attempt. rewrite E2. cbv zeta.
  set (w2 := w' <| delivered ::= _ |>). destruct (stage_finish i c w2 _ E2) as (H1' & H2' & H3' & H4'). done.
Qed.

(** [n] failed attempts, each followed by its wait. *)
Fixpoint failures (i n : nat) : list worker_event :=
  match n with
  | O => []
  | S n => WAttempt i NotSent :: WWake i false :: failures i n
  end.



(** ** What is reported *)

Definition stopped_by (w : Worker) (c : nat) : option ctx_err := ctxs w !! c ≫= Context.err.

Lemma Contains_prefix p s : Contains (p +:+ s) p = true.
Proof.
  assert (String.prefix p (p +:+ s) = true) as HP.
  { induction p as [|c p IH]; [by destruct s|]. cbn. rewrite IH. by destruct (ascii_dec c c). }
  unfold Contains. destruct (p +:+ s); by rewrite HP.
Qed.

(** The report of a job names the job and the worker, carries what the
    command wrote to its output, and is a success with no error text exactly when
    the command ended without an error; a job ended by its walltime or by a
    cancellation says so, and the master takes neither for a fault of the node. *)
Theorem report_tells_the_outcome i w p c start cmd endTime out err execErr :
  tasks w !! i = Some (Task.mk p (Running c start cmd)) →
  ∃ r, tasks (exit_task i endTime out err execErr w) !! i = Some (Task.mk p (Reporting c r (1 * Second))) ∧
  let q := WorkerReport.request r in
  rr_JobId q = DispatchPayload.JobID p ∧ rr_WorkerNode q = nodeName w ∧ rr_Output q = out ∧
  (rr_Success q = true ↔ execErr = None) ∧ (rr_Success q = true → rr_Error q = "") ∧
  (rr_Success q = false → match stopped_by w c with
    | Some Canceled => rr_Error q = "cancelled" ∧ isUserError (rr_Error q) = true
    | Some DeadlineExceeded =>
        rr_Error q = "walltime exceeded (" +:+ Itoa (DispatchPayload.WalltimeSeconds p) +:+ "s)" ∧
        isUserError (rr_Error q) = true
    | None => execErr = Some (rr_Error q)
    end).
Proof.
  intros E. unfold exit_task. rewrite E. eexists. split; [by apply (stage_set i _ w _ E)|].
  unfold job_report, stopped_by. cbn [WorkerReport.request rr_JobId rr_WorkerNode rr_Output rr_Success rr_Error].
  split_and!; try done.
  - apply bool_decide_eq_true.
  - intros ->%bool_decide_eq_true. done.
  - intros Hf%bool_decide_eq_false. destruct execErr as [e|]; [|done]. unfold error_message.
    destruct (ctxs w !! c ≫= Context.err) as [[]|]; [by split| |done]. split; [done|].
    unfold isUserError. rewrite orb_true_iff. right.
    apply (Contains_prefix "walltime exceeded" (" (" +:+ Itoa (DispatchPayload.WalltimeSeconds p) +:+ "s)")).
Qed.

(** ** One report per job *)

Definition done_id (t : Task) : option string :=
  match Task.state t with Done => Some (DispatchPayload.JobID (Task.payload t)) | _ => None end.
Definition done_ids (w : Worker) : list string := omap done_id (tasks w).
Definition reported_ids (w : Worker) : list string :=
  (λ r, rr_JobId (WorkerReport.request r)) <$> delivered w.

(** A report is about the job of its task. *)
Definition report_ok (t : Task) : Prop :=
  match Task.state t with
  | Reporting _ r _ | Waiting _ r _ =>
      rr_JobId (WorkerReport.request r) = DispatchPayload.JobID (Task.payload t)
  | _ => True
  end.

Definition once (w : Worker) : Prop :=
  reported_ids w ⊆+ done_ids w ∧ Forall report_ok (tasks w).

Lemma done_alter (f : Task → Task) i t l : l !! i = Some t → done_id t = None →
  omap done_id (alter f i l) ≡ₚ option_list (done_id (f t)) ++ omap done_id l.
Proof.
  revert i. induction l as [|x l IH]; intros [|i] E Ht; simplify_eq/=.
  - rewrite Ht. by destruct (done_id (f t)).
  - destruct (done_id x) as [id|]; [|by apply IH]. rewrite IH by done. by rewrite Permutation_middle.
Qed.

Lemma once_move i s t w : tasks w !! i = Some t → done_id t = None → once w → s ≠ Done →
  report_ok (Task.mk (Task.payload t) s) → once (set_stage i s w).
Proof.
  intros E Ht [Hs Hr] Hne Hok. split.
  - change (reported_ids (set_stage i s w)) with (reported_ids w). etrans; [exact Hs|].
    unfold done_ids. change (tasks (set_stage i s w)) with (alter (λ t, Task.mk (Task.payload t) s) i (tasks w)).
    rewrite (done_alter _ _ _ _ E Ht). apply submseteq_inserts_l. done.
  - change (tasks (set_stage i s w)) with (alter (λ t, Task.mk (Task.payload t) s) i (tasks w)).
    apply Forall_alter; [done|]. intros x Hx _. congruence.
Qed.

(** A task that ends may have reported once more. *)
Lemma once_finish i c t w ids : tasks w !! i = Some t → done_id t = None → once w →
  ids ⊆+ [DispatchPayload.JobID (Task.payload t)] →
  ids ++ reported_ids w ⊆+ done_ids (finish_task i c w) ∧ Forall report_ok (tasks (finish_task i c w)).
Proof.
  intros E Ht [Hs Hr] Hids. unfold finish_task. rewrite E. split.
  - unfold done_ids. change (tasks (set_stage i Done ?w1)) with (alter (λ t, Task.mk (Task.payload t) Done) i (tasks w)).
    rewrite (done_alter _ _ _ _ E Ht). by apply submseteq_app.
  - change (tasks (set_stage i Done ?w1)) with (alter (λ t, Task.mk (Task.payload t) Done) i (tasks w)).
    by apply Forall_alter.
Qed.

Definition answer_lost (e : worker_event) : Prop := match e with WAttempt _ AnswerLost => True | _ => False end.

Lemma once_step e w : ¬ answer_lost e → once w → once (worker_step e w).
Proof.
  intros Hlost HO. destruct e as [e| |i now start|c now|i t out err r|i a|i stop|]; cbn [worker_step];
    try exact HO.
  - unfold consume. destruct (Subscriber.ch (subscriber w)) as [|msg rest]; [done|].
    set (w1 := w <| subscriber ::= _ |>). assert (HO1 : once w1) by exact HO. clearbody w1.
    unfold on_message. destruct (UnmarshalPayload msg) as [p|]; [|done].
    destruct (negb _); [done|]. destruct (String.eqb _ "cancel"); [by destruct (cancelFuncs w1 !! _)|].
    destruct (_ || _); [|done]. destruct HO1 as [Hs Hr]. split.
    + change (reported_ids _) with (reported_ids w1). unfold done_ids.
      change (tasks _) with (tasks w1 ++ [Task.mk p Acking]). by rewrite omap_app, app_nil_r.
    + change (tasks _) with (tasks w1 ++ [Task.mk p Acking]). apply Forall_app. split; [done|].
      by repeat constructor.
  - unfold begin_task. destruct (tasks w !! i) as [[p []]|] eqn:E; try done.
    set (w1 := _ <| cancelFuncs ::= _ |>). by apply (once_move i _ (Task.mk p Acking) w1).
  - unfold expire_context. destruct (_ ≫= _) as [d|]; [|done]. by destruct (Before now d).
  - unfold exit_task. destruct (tasks w !! i) as [[p []]|] eqn:E; try done.
    by eapply once_move.
  - unfold report_attempt. destruct (tasks w !! i) as [[p []]|] eqn:E; try done.
    pose proof (Forall_lookup_1 _ _ _ _ (proj2 HO) E) as Hr. cbn in Hr. destruct a; [|done|]; cbv zeta.
    + set (w1 := w <| delivered ::= _ |>).
      destruct (once_finish i ctx _ w [rr_JobId (WorkerReport.request r)] E) as [H1' H2']; [done..| |].
      { by rewrite Hr. }
      assert (Ef : tasks (finish_task i ctx w1) = tasks (finish_task i ctx w)).
      { unfold finish_task. change (tasks w1) with (tasks w). by rewrite E. }
      split; [|by rewrite Ef]. unfold done_ids. rewrite Ef.
      assert (reported_ids (finish_task i ctx w1) = reported_ids w ++ [rr_JobId (WorkerReport.request r)]) as ->.
      { unfold finish_task. change (tasks w1) with (tasks w). rewrite E. unfold reported_ids. cbn.
        by rewrite fmap_app. }
      rewrite (Permutation_app_comm _ [_]). exact H1'.
    + destruct (subCtx_done w).
      * destruct (once_finish i ctx _ w [] E) as [H1' H2']; [done..|apply submseteq_nil_l|].
        split; [|done]. unfold finish_task in *. rewrite E in *. exact H1'.
      * by eapply once_move.
  - unfold report_wake. destruct (tasks w !! i) as [[p []]|] eqn:E; try done.
    pose proof (Forall_lookup_1 _ _ _ _ (proj2 HO) E) as Hr. cbn in Hr. destruct (_ && _).
    + destruct (once_finish i ctx _ w [] E) as [H1' H2']; [done..|apply submseteq_nil_l|].
      split; [|done]. unfold finish_task in *. rewrite E in *. exact H1'.
    + by eapply once_move.
Qed.

(** C28: as long as no answer of the master is lost on the way, no job that ran is
    reported twice: the jobs reported are among the jobs that ended, counted with
    their repetitions. *)
Theorem each_run_reports_once es cfg su : Forall (λ e, ¬ answer_lost e) es →
  let w := worker_run es (newWorker cfg su) in reported_ids w ⊆+ done_ids w.
Proof.
  intros Hes w. enough (∀ w0, once w0 → once (worker_run es w0)) as HO.
  { apply (HO (newWorker cfg su)). split; constructor. }
  induction Hes as [|e es He _ IH]; intros w0 HO; [done|]. rewrite worker_run_cons. apply IH.
  by apply once_step.
Qed.

(** ** Cancelling *)

Lemma cancel_payload_ok node id : sanitize node = node → sanitize id = id → payload_ok (cancel_payload node id).
Proof. intros Hn Hi. by repeat split. Qed.

Lemma on_cancel node id w : nodeName w = node → sanitize node = node → sanitize id = id →
  on_message (MarshalPayload (cancel_payload node id)) w =
    match cancelFuncs w !! id with Some c => cancel_context c w | None => w end.
Proof.
  intros Hn Hsn Hsi. unfold on_message. rewrite Unmarshal_MarshalPayload by (by apply cancel_payload_ok).
  cbn. by rewrite Hn, String.eqb_refl.
Qed.

(** C29: the master's cancel message ends the context of the job registered under
    that ID, and no other job: when its command then ends with an error, whatever
    the error, the worker reports the job as cancelled. *)
Theorem cancel_stops_the_job i w p c x start cmd endTime out err e :
  sanitize (nodeName w) = nodeName w → sanitize (DispatchPayload.JobID p) = DispatchPayload.JobID p →
  tasks w !! i = Some (Task.mk p (Running c start cmd)) →
  cancelFuncs w !! DispatchPayload.JobID p = Some c → ctxs w !! c = Some x → Context.err x = None →
  let w1 := on_message (MarshalPayload (cancel_payload (nodeName w) (DispatchPayload.JobID p))) w in
  (∀ c', c' ≠ c → ctxs w1 !! c' = ctxs w !! c') ∧
  ∃ r, tasks (exit_task i endTime out err (Some e) w1) !! i = Some (Task.mk p (Reporting c r (1 * Second))) ∧
    rr_Success (WorkerReport.request r) = false ∧ rr_Error (WorkerReport.request r) = "cancelled".
Proof.
  intros Hn Hi E Hc Hx Hex. cbv zeta. rewrite on_cancel, Hc by done. split.
  { intros c' Hne. cbn. by rewrite list_lookup_alter_ne. }
  unfold exit_task. change (tasks (cancel_context c w)) with (tasks w). rewrite E. eexists.
  split; [by apply (stage_set i _ (cancel_context c w) _ E)|]. split; [done|].
  cbn -[cancel_context]. unfold error_message.
  change (ctxs (cancel_context c w)) with (alter (end_context Canceled) c (ctxs w)).
  rewrite list_lookup_alter_eq, Hx. cbn. unfold end_context. by rewrite Hex.
Qed.

(** A cancel message that arrives while the worker is still announcing the
    start of the job finds no cancel function and is lost: the job then starts as
    if it had never been cancelled. *)
Theorem early_cancel_is_lost i w p now start :
  sanitize (nodeName w) = nodeName w → sanitize (DispatchPayload.JobID p) = DispatchPayload.JobID p →
  tasks w !! i = Some (Task.mk p Acking) → cancelFuncs w !! DispatchPayload.JobID p = None →
  let w1 := on_message (MarshalPayload (cancel_payload (nodeName w) (DispatchPayload.JobID p))) w in
  let w2 := begin_task i now start w1 in
  tasks w2 !! i = Some (Task.mk p (Running (length (ctxs w)) start (command_of (Environ w) p))) ∧
  stopped_by w2 (length (ctxs w)) ≠ Some Canceled.
Proof.
  intros Hn Hi E Hc. cbv zeta. rewrite on_cancel, Hc by done. unfold begin_task. rewrite E. split.
  - match goal with |- tasks (set_stage _ ?s ?w0) !! _ = _ => apply (stage_set i s w0 _ E) end.
  - unfold stopped_by.
    match goal with |- context [ctxs (set_stage _ _ (_ <| ctxs ::= λ l, l ++ [?x] |> <| cancelFuncs ::= _ |>))] =>
      change (ctxs (set_stage _ _ _)) with (ctxs w ++ [x]) end.
    rewrite list_lookup_middle by done. change (Some ?x ≫= Context.err) with (Context.err x).
    destruct (0 <? _); [cbn [Context.err WithTimeout]|done]. by destruct (_ <=? 0).
Qed.

(** ** The environment of a command *)

(** A command runs under the shell with the job's command line; when the
    message carries variables, the command sees the worker's environment followed
    by one setting for each of them, so that they take precedence. *)
Theorem command_sees_the_variables environ p m k v :
  DispatchPayload.EnvVars p = Some m → m !! k = Some v →
  Cmd.Args (command_of environ p) = prepareCommand (DispatchPayload.Command p) ∧
  ∃ settings, Cmd.Env (command_of environ p) = Some (environ ++ settings) ∧
    k +:+ "=" +:+ v ∈ settings ∧ length settings = size m.
Proof.
  intros Hm Hk. split; [done|]. unfold command_of. rewrite Hm. cbn [Cmd.Env].
  destruct (decide (m = ∅)) as [->|]; [by rewrite lookup_empty in Hk|]. eexists. split; [done|].
  pose proof (range_perm m) as HP. split.
  - apply (list_elem_of_fmap_2' (λ '(k, v), k +:+ "=" +:+ v) _ (k, v)); [|done].
    rewrite HP. by apply elem_of_map_to_list.
  - rewrite length_map, HP. apply length_map_to_list.
Qed.
End Steps.

(** ** Announcing the start *)

(** The worker announces the start of a job at most three times, stops as soon
    as an answer is 200, and sleeps half a second after each other answer. *)
Theorem acknowledge_gives_up answers :
  let '(posts, sleeps) := ack_posts 3 answers in
  (1 ≤ posts ≤ 3)%nat ∧ (posts - 1 ≤ sleeps ≤ 3)%nat ∧
  (∀ i, (i < posts - 1)%nat → answers i ≠ Some 200) ∧
  ((sleeps < posts)%nat ↔ answers (posts - 1)%nat = Some 200).
Proof.
  cbn [ack_posts]. destruct (decide (answers 0%nat = Some 200)) as [H0|H0].
  { split_and!; [lia..| |]; [intros; lia|]. split; [done|lia]. }
  destruct (decide (answers 1%nat = Some 200)) as [H1|H1].
  { split_and!; [lia..| |]; [|split; [done|lia]]. intros [|i] ?; [done|lia]. }
  destruct (decide (answers 2%nat = Some 200)) as [H2|H2].
  { split_and!; [lia..| |]; [|split; [done|lia]]. intros [|[|i]] ?; [done..|lia]. }
  split_and!; [lia..| |]; [|split; [lia|done]]. intros [|[|i]] ?; [done..|lia].
Qed.

(** ** Starting *)

(** A worker that fails to start leaves no member behind: it has joined no
    cluster, or has shut its membership down; one that starts has joined through
    the master's gossip port, under its name, with its class ad. *)
Theorem start_joins_or_leaves cfg su :
  match StartWorker cfg su with
  | (inr _, calls) => calls = [] ∨ ∃ l, calls = l ++ [Shutdown]
  | (inl w, calls) => ∃ ad c, su_profile su = inl ad ∧
      calls = [Created c; Joined [host_port (Config.MasterAddr cfg) (PortConfig.Gossip (Config.Ports cfg))]] ∧
      lc_Name c = Config.NodeName cfg ∧ (NodeMeta <$> lc_Delegate c) = Some (λ _, ad) ∧
      nodeName w = Config.NodeName cfg ∧ tasks w = []
  end.
Proof.
  unfold StartWorker, NewNodeDiscovery. destruct (su_profile su) as [ad|err]; [|by left].
  destruct (Create_err _ _); [by left|]. destruct (discovery_Join _ _); [right; by exists [Created (discovery_config
    (Config.NodeName cfg) 0 (Some ad) (advertise_addr su (Config.MasterAddr cfg)) 0 None)]|].
  destruct (if _ && _ then _ else _); [right; by eexists|]. destruct (su_dial _ _); [right; by eexists|].
  by eexists _, _.
Qed.

(** ** A concrete worker *)

Definition demo_setup (ad : string) : Setup := {|
  su_profile := inl ad; su_Getenv := λ _, ""; su_addrs := Some [IPNet "10.0.0.7" false true];
  su_list := {| Create_err := λ _, None; Join_res := λ _, inl 1 |};
  su_tls := λ _, None; su_dial := λ _, None; su_Environ := ["PATH=/bin"] |}.

Definition worker_named (name : string) : Worker :=
  newWorker (DefaultConfig <| Config.NodeName := name |>) (demo_setup "{}").

Definition demo_payload : DispatchPayload :=
  DispatchPayload.mk "n1" "00000000" "echo hi" 60 "execute" (Some {["RANK" := "0"]}).

Section Witnesses.
#[local] Existing Instances map_order_canonical unix_shell.

(** It receives a message that starts a job, and one for another worker. *)
Definition demo_receive : list worker_event :=
  [WSubscriber (SConnect (Some "connection refused") None); WSubscriber (SWake false); WSubscriber (SConnect None None);
   WSubscriber (SReceive (inl [MarshalPayload demo_payload])); WSubscriber SSend;
   WSubscriber (SReceive (inl [MarshalPayload (demo_payload <| DispatchPayload.TargetNode := "n2" |>)]));
   WSubscriber SSend; WConsume; WConsume].
Definition demo_acking : Worker := worker_run demo_receive (worker_named "n1").
Definition demo_running : Worker := worker_run [WBegin 0 0 0] demo_acking.
Definition demo_reporting : Worker := worker_run [WExit 0 5 "" "" (Some "exit status 1")] demo_running.

Lemma demo_acking_task : tasks demo_acking = [Task.mk demo_payload Acking].
Proof. vm_compute. reflexivity. Qed.

Lemma demo_apart : apart (demo_receive ++ [WBegin 0 0 0]) (worker_named "n1").
Proof.
  apply (apart_snoc demo_receive (WBegin 0 0 0) _ demo_acking).
  { unfold demo_receive. repeat (apply Forall_cons; split; [exact I|]). by apply Forall_nil. }
  { unfold demo_acking. reflexivity. }
  intros t j c _ (u & Hu & _ & Hc).
  rewrite demo_acking_task in Hu. destruct j as [|j]; [|done]. by injection Hu as <-.
Qed.

Definition stage_of (w : Worker) : Task.stage := default Done (Task.state <$> tasks w !! 0%nat).
Definition report_of (w : Worker) : WorkerReport :=
  match stage_of w with
  | Reporting _ r _ => r
  | _ => WorkerReport.mk {| rr_JobId := ""; rr_WorkerNode := ""; rr_Success := false; rr_Output := ""; rr_Error := "" |} 0 0
  end.

Lemma demo_running_task : tasks demo_running !! 0%nat =
  Some (Task.mk demo_payload (Running 0 0 (command_of ["PATH=/bin"] demo_payload))).
Proof. vm_compute. reflexivity. Qed.

(** Attempts that fail, one whose answer is lost, and a message in between. *)
Definition demo_trouble : list worker_event :=
  failures 0 2 ++ [WAttempt 0 AnswerLost; WConsume; WWake 0 false; WAttempt 0 NotSent].

Lemma demo_reporting_task : tasks demo_reporting !! 0%nat =
  Some (Task.mk demo_payload (Reporting 0 (report_of demo_reporting) (1 * Second))).
Proof. vm_compute. reflexivity. Qed.

Lemma report_is_delivered_in_the_end_witness :
  let w1 := worker_run demo_trouble demo_reporting in
  answered_report 0 demo_payload (report_of demo_reporting) w1 ∨
  delivered (worker_run [WWake 0 false; WAttempt 0 Answered] w1) = delivered w1 ++ [report_of demo_reporting].
Proof.
  destruct (report_is_delivered_in_the_end 0 demo_trouble demo_reporting demo_payload 0
    (report_of demo_reporting) (1 * Second)) as [H|[_ [H _]]].
  - vm_compute. reflexivity.
  - unfold demo_trouble. cbn [failures app]. repeat (apply not_elem_of_cons; split; [discriminate|]). apply not_elem_of_nil.
  - exact demo_reporting_task.
  - left. exact H.
  - right. exact H.
Defined.


(** A job that runs once: its run is registered. *)
Abbreviation demo_once := (worker_run (demo_receive ++ [WBegin 0 0 0])
  (newWorker (DefaultConfig <| Config.NodeName := "n1" |>) (demo_setup "{}"))).

Lemma demo_once_live : live demo_once 0 "00000000" 0.
Proof.
  exists (Task.mk demo_payload (Running 0 0 (command_of ["PATH=/bin"] demo_payload))).
  split; [vm_compute; reflexivity|]. split; reflexivity.
Qed.

Lemma cancel_table_is_what_runs_witness : cancelFuncs demo_once !! "00000000" = Some 0%nat.
Proof.
  exact (proj2 (proj2 (proj2 (cancel_table_is_what_runs (demo_receive ++ [WBegin 0 0 0])
    (DefaultConfig <| Config.NodeName := "n1" |>) (demo_setup "{}")))) demo_apart 0%nat "00000000" 0%nat demo_once_live).
Defined.

(** The same job is sent twice (its announcements were lost, say), both runs begin,
    and the first ends: the second has lost its entry, and a cancel message does
    not reach it. *)
Definition demo_twice : Worker := worker_run
  (demo_receive ++ [WSubscriber (SReceive (inl [MarshalPayload demo_payload])); WSubscriber SSend; WConsume;
    WBegin 0 0 0; WBegin 1 1 1; WExit 0 5 "" "" None; WAttempt 0 Answered]) (worker_named "n1").

Example second_run_is_not_cancelled :
  let w := on_message (MarshalPayload (cancel_payload "n1" "00000000")) demo_twice in
  (cancelFuncs demo_twice !! "00000000", stopped_by w 1, Task.payload <$> tasks w !! 1%nat) =
    (None, None, Some demo_payload).
Proof. vm_compute. reflexivity. Qed.

Lemma report_tells_the_outcome_witness : ∃ r,
  tasks (exit_task 0 5 "out" "" None demo_running) !! 0%nat = Some (Task.mk demo_payload (Reporting 0 r (1 * Second))) ∧
  rr_JobId (WorkerReport.request r) = "00000000".
Proof.
  destruct (report_tells_the_outcome 0 demo_running demo_payload 0 0 (command_of ["PATH=/bin"] demo_payload)
    5 "out" "" None demo_running_task) as (r & E & Hid & _).
  exists r. split; [exact E|exact Hid].
Defined.

Lemma each_run_reports_once_witness :
  let w := worker_run (demo_receive ++ [WBegin 0 0 0; WExit 0 5 "" "" None; WAttempt 0 Answered])
    (worker_named "n1") in reported_ids w ⊆+ done_ids w.
Proof.
  assert (Hes : Forall (λ e, ¬ answer_lost e)
    (demo_receive ++ [WBegin 0 0 0; WExit 0 5 "" "" None; WAttempt 0 Answered])).
  { repeat (constructor; [intros []|]). constructor. }
  exact (each_run_reports_once _ (DefaultConfig <| Config.NodeName := "n1" |>) (demo_setup "{}") Hes).
Defined.

Lemma cancel_stops_the_job_witness :
  ∃ r, tasks (exit_task 0 5 "" "" (Some "signal: killed")
      (on_message (MarshalPayload (cancel_payload (nodeName demo_running) (DispatchPayload.JobID demo_payload)))
        demo_running)) !! 0%nat =
    Some (Task.mk demo_payload (Reporting 0 r (1 * Second))) ∧ rr_Error (WorkerReport.request r) = "cancelled".
Proof.
  destruct (cancel_stops_the_job 0 demo_running demo_payload 0 (Context.mk (Some (60 * Second)) None) 0
    (command_of ["PATH=/bin"] demo_payload) 5 "" "" "signal: killed") as [_ (r & E & _ & He)].
  - vm_compute. reflexivity.
  - vm_compute. reflexivity.
  - exact demo_running_task.
  - vm_compute. reflexivity.
  - vm_compute. reflexivity.
  - reflexivity.
  - exists r. split; [exact E|exact He].
Defined.

Lemma early_cancel_is_lost_witness :
  stopped_by (begin_task 0 0 0 (on_message (MarshalPayload (cancel_payload (nodeName demo_acking)
    (DispatchPayload.JobID demo_payload))) demo_acking)) (length (ctxs demo_acking)) ≠ Some Canceled.
Proof.
  destruct (early_cancel_is_lost 0 demo_acking demo_payload 0 0) as [_ H].
  - vm_compute. reflexivity.
  - vm_compute. reflexivity.
  - rewrite demo_acking_task. reflexivity.
  - vm_compute. reflexivity.
  - exact H.
Defined.

Lemma command_sees_the_variables_witness :
  Cmd.Args (command_of ["PATH=/bin"] demo_payload) = ["sh"; "-c"; "echo hi"].
Proof.
  exact (proj1 (command_sees_the_variables ["PATH=/bin"] demo_payload {["RANK" := "0"]} "RANK" "0" eq_refl
    (lookup_singleton_eq _ _))).
Defined.
End Witnesses.
