(* ===== verification/Cluster.v ===== *)
(** * Master and worker together

    A dispatched job on its way: the message that starts it, the announcement of
    the start, the report, and what the master makes of it. *)

From S2P Require Import Prelude GoStd GoJson GoJsonFacts GoTime Queue QueueFacts SchedulerSpec.
From S2P Require Import QueueProps JobTable Messaging Fairshare CircuitBreaker Tracker Matchmaker.
From S2P Require Import Store Config GoRegexp World Server Dispatch Master Hoare Panics Restart Demo.
From S2P Require Import Gang Discovery Worker WorkerProps.
Import GlobalScheduler (objs, gobjs, queue, jobs, groups, MaxQueueSize, OnJobChange,
  OnGroupChange, dbWriteChan).
#[local] Open Scope string_scope.
#[local] Open Scope list_scope.
#[local] Open Scope Z_scope.

Section Cluster.
Context {C : CEL} {B : Bolt} `{GoArch} `{Zone} `{MapOrder} `{Shell}.

(** ** Calls that leave the scheduling state alone *)

Definition footprint (w : World) :=
  (sched w, tracker w, timers w, pub w, dispatchPending w, ctx_done w, disc w).

Definition quiet {A} (m : M World A) : Prop :=
  ∀ w, ∃ a w', m w = Some (a, w') ∧ footprint w' = footprint w.

Lemma quiet_bind {A D} (m : M World A) (f : A → M World D) : quiet m → (∀ a, quiet (f a)) → quiet (m ≫= f).
Proof.
  intros Hm Hf w. destruct (Hm w) as (a & w1 & E1 & F1). destruct (Hf a w1) as (b & w2 & E2 & F2).
  exists b, w2. rewrite (bind_runs _ _ _ _ _ E1). split; [done|congruence].
Qed.

Lemma quiet_ret {A} (a : A) : quiet (mret a).
Proof. intros w. by exists a, w. Qed.

Lemma quiet_when b m : quiet m → quiet (when b m).
Proof. intros Hm. destruct b; [done|]. intros w. by exists tt, w. Qed.

Lemma quiet_modify f : (∀ w, footprint (f w) = footprint w) → quiet (modify f).
Proof. intros Hf w. exists tt, (f w). by split. Qed.

Lemma quiet_appendLog id lvl msg : quiet (appendLog id lvl msg).
Proof. intros w. exists tt, (logged id lvl msg w). by rewrite appendLog_eq. Qed.

Lemma quiet_observe m : quiet (observe m).
Proof. by apply quiet_modify. Qed.

Lemma quiet_time_Now : quiet time_Now.
Proof. intros w. by eexists _, _. Qed.

Lemma quiet_record_outcome req : quiet (record_outcome req).
Proof.
  unfold record_outcome. destruct (rr_Success req); [by apply quiet_modify|]. apply quiet_when.
  apply quiet_bind; [apply quiet_time_Now|]. intros now. by apply quiet_modify.
Qed.

Lemma quiet_dead_letter id j : quiet (dead_letter id j).
Proof.
  intros w. unfold dead_letter. destruct (store w) as [d|]; [|by exists tt, w].
  destruct (quiet_appendLog id "ERROR" ("All " +:+ Itoa (Job.MaxRetries j) +:+
        " retries exhausted, moved to dead letter queue") (w <| store := Some (default d (SaveDeadLetter j d)) |>))
    as (a & w' & E & F). exists a, w'. by split.
Qed.

(** ** What a report does to the master *)

(** The reservation a reported job gives back. *)
Definition given_back (j : Job) (gt : gpuTracker) : gpuTracker :=
  if String.eqb (Job.WorkerNode j) "" then gt
  else Release (Job.WorkerNode j) (Job.GPUsRequired j) (Job.CPUsRequired j) (Job.MemoryRequiredMB j) gt.

(** A failed job with retries left. *)
Definition retries (req : ReportResultRequest) (j : Job) : bool :=
  negb (rr_Success req) && (Job.RetryCount j <? Job.MaxRetries j).

(** The report of a single job: [j] is its record after it is completed. *)
Record reported (req : ReportResultRequest) (j : Job) (w w' : World) : Prop := {
  rp_sched : sched w' = MarkCompleted (clock w (ticks w)) (rr_JobId req) (rr_Success req)
    (rr_Output req) (rr_Error req) (sched w);
  rp_tracker : tracker w' = given_back j (tracker w);
  rp_timers : ∃ t, timers w' = timers w ++
    (if retries req j then [(Add t (retry_backoff (Job.RetryCount j +ᵢ 1)), rr_JobId req)] else []);
  rp_pub : pub w' = pub w;
  rp_pending : dispatchPending w' = dispatchPending w;
  rp_ctx : ctx_done w' = ctx_done w
}.

Lemma ReportResult_runs req w j :
  GetJob (rr_JobId req) (MarkCompleted (clock w (ticks w)) (rr_JobId req) (rr_Success req)
    (rr_Output req) (rr_Error req) (sched w)) = Some j → Job.GroupID j = "" →
  ∃ w', ReportResult req w = Some (tt, w') ∧ reported req j w w'.
Proof.
  intros Hj Hg. unfold ReportResult. run_step. run_step.
  set (w1 := _ <| sched ::= _ |>). change (sched w1) with (MarkCompleted (clock w (ticks w)) (rr_JobId req)
    (rr_Success req) (rr_Output req) (rr_Error req) (sched w)). rewrite Hj, Hg.
  set (dur := Seconds _). set (w2 := w1 <| tracker ::= given_back j |>).
  assert (E2 : when (negb (String.eqb (Job.WorkerNode j) "")) (Release_job j (Job.WorkerNode j)) w1 = Some (tt, w2)).
  { subst w2. unfold given_back. by destruct (String.eqb (Job.WorkerNode j) ""). }
  rewrite (bind_runs _ _ _ _ _ E2).
  destruct (quiet_record_outcome req w2) as (a3 & w3 & E3 & F3). rewrite (bind_runs _ _ _ _ _ E3).
  assert (Q4 : quiet (when (float64.ltb float64.zero dur)
    (modify (λ w, w <| fairshare ::= RecordUsage (Job.User j) dur |>)))) by (by apply quiet_when, quiet_modify).
  destruct (Q4 w3) as (a4 & w4 & E4 & F4). rewrite (bind_runs _ _ _ _ _ E4). clear Q4 E2 E3 E4.
  assert (F : footprint w4 = footprint w2) by congruence. clearbody dur. clear w3 F3 F4 a3 a4.
  change (negb (rr_Success req) && String.eqb "" "" && (Job.RetryCount j <? Job.MaxRetries j))
    with (negb (rr_Success req) && true && (Job.RetryCount j <? Job.MaxRetries j)). rewrite andb_true_r.
  change (negb (rr_Success req) && (Job.RetryCount j <? Job.MaxRetries j)) with (retries req j).
  unfold footprint in F. injection F as F1 F2 F3 F4 F5 F6 _.
  destruct (retries req j) eqn:Er.
  - unfold schedule_retry. do 2 run_step. eexists. split; [reflexivity|].
    split; rewrite ?Er; try done. eexists. rewrite <- F3. reflexivity.
  - match goal with |- ∃ w', ?m w4 = _ ∧ _ => assert (Q : quiet m) end.
    { change (when (negb (String.eqb "" "")) ?m) with (@mret (M World) _ () tt).
      repeat first [apply quiet_appendLog | apply quiet_ret | apply quiet_dead_letter | apply quiet_observe | apply quiet_when
        | apply quiet_bind; [|intros ?]]. }
    destruct (Q w4) as ([] & w' & E & F'). exists w'. split; [exact E|]. clear Q E.
    unfold footprint in F'. injection F' as G1 G2 G3 G4 G5 G6 _.
    split; rewrite ?Er, ?G1, ?G2, ?G3, ?G4, ?G5, ?G6; try done. exists 0. by rewrite app_nil_r.
Qed.

(** ** The job itself *)

Definition started (now : Time) (node : string) (j : Job) : Job :=
  j <| Job.State := StateRunning |> <| Job.WorkerNode := node |> <| Job.StartTime := now |>.

Definition finished (now : Time) (success : bool) (out err : string) (j : Job) : Job :=
  j <| Job.State := if success then StateCompleted else StateFailed |>
    <| Job.Output := out |> <| Job.Error := err |> <| Job.EndTime := now |>.

Lemma GetJob_MarkRunning now id node gs j : heap_inv gs → GetJob id gs = Some j →
  GetJob id (MarkRunning now id node gs) = Some (started now node j).
Proof.
  intros HI (l & Hl & <-)%GetJob_Some. unfold MarkRunning. rewrite Hl. by apply GetJob_write.
Qed.

Lemma GetJob_MarkCompleted now id success out err gs j : heap_inv gs → GetJob id gs = Some j →
  Job.State j ≠ StateCancelled →
  GetJob id (MarkCompleted now id success out err gs) = Some (finished now success out err j).
Proof.
  intros HI (l & Hl & <-)%GetJob_Some Hs. unfold MarkCompleted. rewrite Hl.
  destruct (String.eqb_spec (Job.State (deref gs l)) StateCancelled); [done|]. by apply GetJob_write.
Qed.

(** ** Valid messages *)

Lemma ascii_dec_char c : is_Some (digit_of c) → GoJson.code c < 128.
Proof.
  unfold digit_of, GoJson.code. intros [k Hk]. destruct ((48 <=? _) && _) eqn:E; [|done]. to_prop.
  unfold nat_of_ascii in *. lia.
Qed.

Lemma ascii_Itoa z : ascii_only (Itoa z).
Proof.
  destruct (Itoa_decimal z) as (d & [_ _ Hd] & ->). apply ascii_app; [by destruct (z <? 0); repeat constructor|].
  eapply Forall_impl; [exact Hd|]. apply ascii_dec_char.
Qed.

Lemma ascii_device_list n : ascii_only (device_list n).
Proof.
  unfold device_list. induction (seq 0 (Z.to_nat n)) as [|k l IH]; [constructor|]. cbn [map Join].
  destruct l as [|k' l]; [apply ascii_Itoa|]. cbn [map] in *. apply ascii_app; [apply ascii_Itoa|].
  apply ascii_app; [by repeat constructor|exact IH].
Qed.

Lemma valid_set_default k v m : strmap_valid m → sanitize k = k → sanitize v = v → strmap_valid (set_default k v m).
Proof. intros Hm Hk Hv. unfold set_default. destruct (m !! k); [done|]. by apply map_Forall_insert_2. Qed.

Lemma valid_gpu_env vendor n m : strmap_valid m → strmap_valid (gpu_env vendor n m).
Proof.
  intros Hm. unfold gpu_env. assert (HL := sanitize_ascii _ (ascii_device_list n)).
  assert (HZ : sanitize ("level_zero:" +:+ device_list n) = "level_zero:" +:+ device_list n).
  { apply sanitize_ascii, ascii_app; [by repeat constructor|apply ascii_device_list]. }
  repeat case_match; by repeat apply valid_set_default.
Qed.

(** The texts of a job and of its node that a start message carries. *)
Record sendable (job : Job) (node : string) : Prop := {
  se_node : valid node;
  se_id : valid (Job.ID job);
  se_command : valid (Job.Command job);
  se_walltime : in_int64 (Job.WalltimeSeconds job);
  se_env : match Job.EnvVars job with Some m => strmap_valid m | None => True end
}.

Lemma start_payload_ok members job node : sendable job node → payload_ok (start_payload members job node).
Proof.
  intros [Hn Hi Hc Hw He]. split_and!; try done. cbn.
  assert (Hv : strmap_valid (default ∅ (Job.EnvVars job))) by (destruct (Job.EnvVars job); [done|apply map_Forall_empty]).
  destruct (0 <? Job.GPUsRequired job); [by apply valid_gpu_env|done].
Qed.

(** What a worker makes of the start message. *)
Lemma on_start members job node x : sendable job node → let p := start_payload members job node in
  on_message (MarshalPayload p) x =
    if String.eqb node (nodeName x)
    then x <| tasks ::= λ l, l ++ [Task.mk (p <| DispatchPayload.EnvVars ::= drop_empty |>) Task.Acking] |>
    else x.
Proof.
  intros Hs. cbv zeta. unfold on_message. rewrite Unmarshal_MarshalPayload by (by apply start_payload_ok).
  cbn [DispatchPayload.TargetNode set_with start_payload]. by destruct (String.eqb node (nodeName x)).
Qed.

(** ** The announcement *)

Lemma decode_ack id : valid id → decode_body (ack_body id) = Some id.
Proof.
  intros Hid. unfold decode_body, ack_body. set (v := JObj _).
  assert (Hn : numbers_ok v) by done.
  pose proof (parse_value_print (S (String.length (print v))) 0 v "") as HP. rewrite str_app_nil in HP.
  rewrite HP; [|pose proof (weight_print _ v (le_n _) Hn); lia|done|unfold maxNestingDepth; simpl; lia|done].
  cbn. by rewrite Hid.
Qed.

Lemma acknowledge_runs id w : valid id → id ≠ "" → is_Some (dispatchPending w !! id) →
  acknowledge_start "POST" (ack_body id) w =
    Some ((200, print (JObj [("status", JStr "acknowledged")])), w <| dispatchPending ::= delete id |>).
Proof.
  intros Hv Hne Hp. unfold acknowledge_start. change (negb (String.eqb "POST" "POST")) with false.
  cbv iota. rewrite decode_ack by done.
  destruct (String.eqb_spec id ""); [done|]. cbv beta iota. rewrite (bind_runs _ _ w true w); [done|].
  unfold gets. by rewrite bool_decide_true.
Qed.

(** ** From dispatch to report *)

Definition reservation_of (j : Job) (node : string) : reservation :=
  Reservation node (Job.GPUsRequired j) (Job.CPUsRequired j) (Job.MemoryRequiredMB j).

(** The stages of a task that is begun and whose command then ends. *)
Lemma run_task i p now begun ended out err execErr x : tasks x !! i = Some (Task.mk p Task.Acking) →
  ∃ ctx, let r := job_report (nodeName x) p ctx begun ended out execErr in
  delivered (report_attempt i Answered (exit_task i ended out err execErr (begin_task i now begun x))) =
    delivered x ++ [r].
Proof.
  intros E. unfold begin_task. rewrite E.
  match goal with |- context [set_stage i (Task.Running ?c ?b ?m) ?x0] =>
    pose proof (stage_set i (Task.Running c b m) x0 _ E) as E1; set (x1 := set_stage i (Task.Running c b m) x0) in * end.
  cbn [Task.payload] in E1. unfold exit_task. rewrite E1. eexists.
  match goal with |- context [set_stage i (Task.Reporting ?c ?r ?b) x1] =>
    pose proof (stage_set i (Task.Reporting c r b) x1 _ E1) as E2; set (x2 := set_stage i _ x1) in * end.
  cbn [Task.payload] in E2. unfold report_attempt. rewrite E2. cbv zeta.
  match goal with |- delivered (finish_task i ?c ?x3) = _ =>
    destruct (stage_finish i c x3 _ E2) as (_ & -> & _) end. reflexivity.
Qed.

(** C8: a job dispatched to a node runs there and nowhere else, and when its
    command succeeds the master ends up with the job COMPLETED with its output,
    on that node, with the fields its submitter chose, the handshake closed, no
    retry scheduled and the node's resources free again. *)
Theorem job_round_trip w j node x now begun ended out err held :
  heap_inv (sched w) → GetJob (Job.ID j) (sched w) = Some j → Job.GroupID j = "" → Job.ID j ≠ "" →
  node ≠ "" → sendable j node → counts held (tracker w) →
  held_step held (OAllocate (reservation_of j node)) (reservation_of j node :: held) →
  nodeName x = node →
  let i := length (tasks x) in
  ∃ w1 msg rep w2 w3 j3, dispatchJob j node w = Some (tt, w1) ∧
    ZMQPublisher.sent (pub w1) = ZMQPublisher.sent (pub w) ++ [msg] ∧
    (∀ y, nodeName y ≠ node → on_message msg y = y) ∧
    delivered (report_attempt i Answered (exit_task i ended out err None
      (begin_task i now begun (on_message msg x)))) = delivered x ++ [rep] ∧
    fst <$> acknowledge_start "POST" (ack_body (Job.ID j)) w1 =
      Some (200, print (JObj [("status", JStr "acknowledged")])) ∧
    exec (acknowledge_start "POST" (ack_body (Job.ID j))) w1 = Some w2 ∧
    ReportResult (WorkerReport.request rep) w2 = Some (tt, w3) ∧
    GetJob (Job.ID j) (sched w3) = Some j3 ∧ Job.State j3 = StateCompleted ∧ Job.Output j3 = out ∧
    Job.Error j3 = "" ∧ Job.WorkerNode j3 = node ∧ descriptor j3 = descriptor j ∧
    dispatchPending w3 !! Job.ID j = None ∧ timers w3 = timers w ∧ counts held (tracker w3).
Proof.
  intros HI Hj Hg Hid Hne Hsend Hc Hheld Hx i.
  destruct (dispatchJob_runs j node w) as (w1 & E1 & HD). pose proof HD as [[t1 Es] Et Ep [t2 Epd] _ _ Etm].
  set (p := start_payload (disc w) j node) in *. set (p' := p <| DispatchPayload.EnvVars ::= drop_empty |>).
  exists w1, (MarshalPayload p).
  assert (Eon : on_message (MarshalPayload p) x = x <| tasks ::= λ l, l ++ [Task.mk p' Task.Acking] |>).
  { unfold p. rewrite on_start by done. by rewrite Hx, String.eqb_refl. }
  set (x1 := x <| tasks ::= λ l, l ++ [Task.mk p' Task.Acking] |>) in *.
  assert (Ei : tasks x1 !! i = Some (Task.mk p' Task.Acking)) by (by apply list_lookup_middle).
  destruct (run_task i p' now begun ended out err None x1 Ei) as (ctx & Er). cbv zeta in Er.
  set (rep := job_report _ _ _ _ _ _ _) in Er. exists rep.
  set (w2 := w1 <| dispatchPending ::= delete (Job.ID j) |>).
  assert (Eack : acknowledge_start "POST" (ack_body (Job.ID j)) w1 =
    Some ((200, print (JObj [("status", JStr "acknowledged")])), w2)).
  { apply acknowledge_runs; [apply Hsend|done|]. rewrite Epd, lookup_insert_eq. by eexists. }
  assert (HI1 : heap_inv (sched w2)).
  { change (sched w2) with (sched w1). rewrite Es. exact (heap_inv_step (OMarkRunning t1 (Job.ID j) node) _ HI). }
  assert (Hj1 : GetJob (Job.ID j) (sched w2) = Some (started t1 node j)).
  { change (sched w2) with (sched w1). rewrite Es. by apply GetJob_MarkRunning. }
  pose proof (GetJob_MarkCompleted (clock w2 (ticks w2)) (Job.ID j) true out "" (sched w2) _ HI1 Hj1
    ltac:(done)) as Hj2.
  destruct (ReportResult_runs (WorkerReport.request rep) w2 _ Hj2 Hg) as (w3 & E3 & [Rs Rt [t Rtm] _ Rp _]).
  exists w2, w3, (finished (clock w2 (ticks w2)) true out "" (started t1 node j)).
  split_and!; try done.
  - by rewrite Ep.
  - intros y Hy. unfold p. rewrite on_start by done. destruct (String.eqb_spec node (nodeName y)); congruence.
  - by rewrite Eon.
  - by rewrite Eack.
  - unfold exec. by rewrite Eack.
  - rewrite Rs. exact Hj2.
  - rewrite Rp. change (dispatchPending w2) with (delete (Job.ID j) (dispatchPending w1)).
    apply lookup_delete_eq.
  - rewrite Rtm. change (timers w2) with (timers w1). rewrite Etm. apply app_nil_r.
  - rewrite Rt. change (tracker w2) with (tracker w1). rewrite Et. unfold given_back.
    change (Job.WorkerNode _) with node. destruct (String.eqb_spec node ""); [done|].
    apply (counts_step (reservation_of j node :: held) (ORelease (reservation_of j node)) held);
      [by apply held_release|].
    exact (counts_step _ _ _ _ Hheld Hc).
Qed.

(** ** A cancelled job and its late report *)

(** What CancelJob does to a running job. *)
Lemma CancelJob_runs id w j : heap_inv (sched w) → GetJob id (sched w) = Some j →
  Job.State j = StateRunning → Job.WorkerNode j ≠ "" →
  ∃ w', CancelJob id w = Some ({| cj_JobId := id; cj_Status := "CANCELLED"; cj_Message := "Cancelled" |}, w') ∧
    heap_inv (sched w') ∧ GetJob id (sched w') = Some (cancelled (clock w (ticks w)) j) ∧
    tracker w' = given_back j (tracker w) ∧ timers w' = timers w ∧ ctx_done w' = ctx_done w ∧
    dispatchPending w' = dispatchPending w ∧
    pub w' = Send (MarshalPayload (cancel_payload (Job.WorkerNode j) (Job.ID j))) (pub w).
Proof.
  intros HI Hj Hs Hn. unfold CancelJob.
  destruct (Cancel_running (clock w (ticks w)) id (sched w) j HI Hj Hs) as [E1 E2].
  pose proof (heap_inv_step (OCancel (clock w (ticks w)) id) (sched w) HI) as HI'. cbn [exec_op] in HI'.
  destruct (Cancel (clock w (ticks w)) id (sched w)) as [r gs] eqn:EC. cbn [fst snd] in *. subst r.
  rewrite (bind_runs _ _ _ (Some (cancelled (clock w (ticks w)) j), true)
    ((w <| ticks ::= S |>) <| sched := gs |>)) by (by rewrite queue_Cancel_eq, EC).
  cbv iota. unfold release_and_kill. change (Job.WorkerNode (cancelled ?t j)) with (Job.WorkerNode j).
  change (Job.ID (cancelled ?t j)) with (Job.ID j).
  destruct (String.eqb_spec (Job.WorkerNode j) ""); [done|]. unfold when. cbn [negb]. do 2 run_step.
  eexists. split; [reflexivity|]. unfold given_back. destruct (String.eqb_spec (Job.WorkerNode j) ""); [done|].
  split_and!; try reflexivity; done.
Qed.

(** C22: cancelling a running job does not end it for good.  The worker's report
    of the cancellation gives the job's resources back a second time and, when
    the job has retries left, schedules a retry; when that comes due the
    cancelled job is queued again. *)
Theorem cancelled_job_comes_back id w j out : heap_inv (sched w) → GetJob id (sched w) = Some j →
  Job.State j = StateRunning → Job.WorkerNode j ≠ "" → Job.GroupID j = "" →
  Job.RetryCount j < Job.MaxRetries j → timers w = [] → ctx_done w = false →
  let report := {| rr_JobId := id; rr_WorkerNode := Job.WorkerNode j; rr_Success := false;
                   rr_Output := out; rr_Error := "cancelled" |} in
  ∃ w1 w2 due, CancelJob id w = Some ({| cj_JobId := id; cj_Status := "CANCELLED"; cj_Message := "Cancelled" |}, w1) ∧
    (Job.State <$> GetJob id (sched w1)) = Some StateCancelled ∧ tracker w1 = given_back j (tracker w) ∧
    ReportResult report w1 = Some (tt, w2) ∧
    (Job.State <$> GetJob id (sched w2)) = Some StateCancelled ∧
    tracker w2 = given_back j (given_back j (tracker w)) ∧ timers w2 = [(due, id)] ∧
    ∀ k, due ≤ clock w2 k → ∃ w3, retry_fire 0 false (w2 <| ticks := k |>) = Some (tt, w3) ∧
      (Job.State <$> GetJob id (sched w3)) = Some StateQueued ∧
      (Job.RetryCount <$> GetJob id (sched w3)) = Some (Job.RetryCount j +ᵢ 1).
Proof.
  intros HI Hj Hs Hn Hg Hr Ht Hd report.
  destruct (CancelJob_runs id w j HI Hj Hs Hn) as (w1 & E1 & HI1 & Hj1 & T1 & Tm1 & D1 & _ & _).
  set (jc := cancelled (clock w (ticks w)) j) in *.
  assert (Emc : MarkCompleted (clock w1 (ticks w1)) id false out "cancelled" (sched w1) = sched w1)
    by (by eapply MarkCompleted_cancelled).
  destruct (ReportResult_runs report w1 jc) as (w2 & E2 & [Rs Rt [t Rtm] _ _ Rd]).
  { cbn [rr_JobId rr_Success rr_Output rr_Error report]. by rewrite Emc. }
  { exact Hg. }
  cbn [rr_JobId rr_Success rr_Output rr_Error report] in Rs. rewrite Emc in Rs.
  exists w1, w2, (Add t (retry_backoff (Job.RetryCount j +ᵢ 1))).
  assert (Er : retries report jc = true) by (apply Z.ltb_lt; exact Hr).
  rewrite Er, Tm1, Ht in Rtm.
  split_and!; try done.
  - by rewrite Hj1.
  - by rewrite Rs, Hj1.
  - rewrite Rt, T1. done.
  - intros k Hk. unfold retry_fire. run_step. change (timers (w2 <| ticks := k |>)) with (timers w2).
    rewrite Rtm. cbn [lookup list_lookup app]. do 2 run_step. rewrite andb_false_r. cbv iota.
    change (clock (w2 <| ticks := k |>) (ticks (w2 <| ticks := k |>))) with (clock w2 k). unfold Before.
    change (Job.RetryCount jc) with (Job.RetryCount j). change (rr_JobId report) with id.
    destruct (Z.ltb_spec (clock w2 k) (Add t (retry_backoff (Job.RetryCount j +ᵢ 1)))); [lia|].
    run_step.
    destruct (Requeue_any id true (sched w2) jc) as (j' & Hj' & Hej & _); [by rewrite Rs|by rewrite Rs|].
    rewrite (bind_runs _ _ _ _ _ (on_queue_eq (Requeue id true) _)). eexists. split; [reflexivity|].
    match goal with |- _ <$> GetJob id (sched (?w0 <| sched := ?g |>)) = _ ∧ _ =>
      change (sched (w0 <| sched := g |>)) with (Requeue id true (sched w2)).2 end.
    rewrite Hj'. split; cbn [fmap option_fmap option_map]; f_equal.
    + change (Job.State j') with (Job.State (erase j')). by rewrite Hej.
    + change (Job.RetryCount j') with (Job.RetryCount (erase j')). by rewrite Hej.
Qed.

(** A report whose answer is lost is sent again, and the master handles it
    again: the resources of the job are given back twice. *)
Theorem repeated_report_releases_twice req w j : heap_inv (sched w) →
  GetJob (rr_JobId req) (sched w) = Some j → Job.State j = StateRunning → Job.GroupID j = "" →
  ∃ w1 w2, ReportResult req w = Some (tt, w1) ∧ ReportResult req w1 = Some (tt, w2) ∧
    tracker w2 = given_back j (given_back j (tracker w)).
Proof.
  intros HI Hj Hs Hg.
  assert (Hst : ∀ j0 now, Job.State j0 = StateRunning → Job.State (finished now (rr_Success req) (rr_Output req)
    (rr_Error req) j0) ≠ StateCancelled) by (intros j0 now _; by destruct req as [? ? [] ? ?]).
  pose proof (GetJob_MarkCompleted (clock w (ticks w)) _ (rr_Success req) (rr_Output req) (rr_Error req) _ _ HI Hj
    ltac:(by rewrite Hs)) as Hj1.
  destruct (ReportResult_runs req w _ Hj1 Hg) as (w1 & E1 & [S1 T1 _ _ _ _]).
  assert (HI1 : heap_inv (sched w1)).
  { rewrite S1. exact (heap_inv_step (OMarkCompleted _ _ _ _ _) _ HI). }
  rewrite <- S1 in Hj1.
  pose proof (GetJob_MarkCompleted (clock w1 (ticks w1)) _ (rr_Success req) (rr_Output req) (rr_Error req) _ _ HI1 Hj1
    (Hst _ _ Hs)) as Hj2.
  destruct (ReportResult_runs req w1 _ Hj2 Hg) as (w2 & E2 & [_ T2 _ _ _ _]).
  exists w1, w2. split_and!; [done..|]. rewrite T2, T1. done.
Qed.

(** ** The handshake enforcer *)














End Cluster.

(** ** On the concrete master *)

Section Witnesses.
#[local] Existing Instances toy_cel bolt_map amd64 utc map_order_canonical unix_shell.

(** A master with a job on its queue, and with that job running. *)
Definition one_job : World := after (play [EMembers demo_nodes; ESubmit (demo_request 1)]) demo_master.
Definition queued_job : Job := default Job.zero (GetJob "00000000" (sched one_job)).
Definition running : World := after (dispatchJob queued_job "n1") one_job.
Definition running_job : Job := default Job.zero (GetJob "00000000" (sched running)).

Lemma one_job_steps : steps (StartMaster demo_clock DefaultConfig ∅ demo_clock demo_uuids)
  [EMembers demo_nodes; ESubmit (demo_request 1)] one_job.
Proof. apply steps_after. vm_compute. reflexivity. Qed.

Lemma one_job_heap : heap_inv (sched one_job).
Proof. by destruct (reachable_holds _ _ _ _ _ _ _ one_job_steps) as (HI & _). Qed.

Lemma running_heap : heap_inv (sched running).
Proof.
  destruct (dispatchJob_runs queued_job "n1" one_job) as (w & E & [[t Es] _ _ _ _ _ _]).
  assert (running = w) as -> by (unfold running, after; by rewrite E). rewrite Es.
  exact (heap_inv_step (OMarkRunning t (Job.ID queued_job) "n1") _ one_job_heap).
Qed.

Lemma demo_sendable : sendable queued_job "n1".
Proof.
  split.
  - vm_compute. reflexivity.
  - vm_compute. reflexivity.
  - vm_compute. reflexivity.
  - vm_compute. split; [discriminate|reflexivity].
  - vm_compute. exact Logic.I.
Qed.

Lemma job_round_trip_witness : ∃ w1 msg, dispatchJob queued_job "n1" one_job = Some (tt, w1) ∧
  ZMQPublisher.sent (pub w1) = ZMQPublisher.sent (pub one_job) ++ [msg].
Proof.
  destruct (job_round_trip one_job queued_job "n1" (worker_named "n1") 0 1 2 "hi" "" []) as
    (w1 & msg & rep & w2 & w3 & j3 & E & Em & _).
  - exact one_job_heap.
  - vm_compute. reflexivity.
  - vm_compute. reflexivity.
  - vm_compute. discriminate.
  - discriminate.
  - exact demo_sendable.
  - vm_compute. split; [intros r Hr; inversion Hr|intros; reflexivity..|intros; repeat split].
  - constructor; [repeat split; vm_compute; discriminate|vm_compute; reflexivity..].
  - reflexivity.
  - exists w1, msg. split; [exact E|exact Em].
Defined.

Lemma running_job_is : GetJob "00000000" (sched running) = Some running_job.
Proof. vm_compute. reflexivity. Qed.

Lemma cancelled_job_comes_back_witness : ∃ w1 w2 due, CancelJob "00000000" running =
    Some ({| cj_JobId := "00000000"; cj_Status := "CANCELLED"; cj_Message := "Cancelled" |}, w1) ∧
  timers w2 = [(due, "00000000")].
Proof.
  destruct (cancelled_job_comes_back "00000000" running running_job "" running_heap running_job_is)
    as (w1 & w2 & due & E & _ & _ & _ & _ & _ & Ht & _).
  - vm_compute. reflexivity.
  - vm_compute. discriminate.
  - vm_compute. reflexivity.
  - vm_compute. reflexivity.
  - vm_compute. reflexivity.
  - vm_compute. reflexivity.
  - exists w1, w2, due. split; [exact E|exact Ht].
Defined.

Lemma repeated_report_releases_twice_witness : ∃ w1 w2,
  ReportResult (demo_report "00000000" "n1" "") running = Some (tt, w1) ∧
  ReportResult (demo_report "00000000" "n1" "") w1 = Some (tt, w2).
Proof.
  destruct (repeated_report_releases_twice (demo_report "00000000" "n1" "") running running_job running_heap
    running_job_is) as (w1 & w2 & E1 & E2 & _).
  - vm_compute. reflexivity.
  - vm_compute. reflexivity.
  - exists w1, w2. split; [exact E1|exact E2].
Defined.

End Witnesses.
