(* ===== verification/Profiler.v ===== *)
(** * pkg/profiler: the hardware a worker advertises

    The machine is a parameter ([Host]): which tools are installed, what they
    print, which files exist, and what gopsutil says of memory and processors.
    Modelled are the readers of the tools' output on every platform, and the
    class ad. *)

From S2P Require Import Prelude GoStd GoJson GoRegexp GoText.
#[local] Open Scope string_scope.
#[local] Open Scope list_scope.
#[local] Open Scope Z_scope.

Class Host := {
  LookPath : string → option string;
  (** [exec.Command(path, args...).Output()] *)
  Output : string → list string → option string;
  Stat : string → bool;
  ReadTextFile : string → option string;
  (** [mem.VirtualMemory]: total and available bytes. *)
  VirtualMemory : Z * Z + string;
  (** [cpu.Info]: the model names. *)
  cpu_Info : list string + string;
  cpu_Counts : Z;
  GOOS : string;
  GOARCH : string
}.

(** The results of DetectGPUs; a nil slice is the empty list. *)
Module GPUs.
Record t := mk {
  count : Z; models : list string; memoryMB : list Z; version : string; vendor : string
}.
Definition none : t := mk 0 [] [] "" "".
End GPUs.
Abbreviation GPUs := GPUs.t.

Definition len {A} (l : list A) : Z := Z.of_nat (length l).

(** ** Regular expressions *)

Definition digit_or_dot (c : ascii) : bool := is_dec c || Ascii.eqb c ".".

(** [CUDA Version:\s+([\d.]+)] *)
Definition cudaRegex : regexp :=
  Seq (Lit "CUDA Version:") (Seq (Some1 is_space) (Group (Some1 digit_or_dot))).

(** A literal under [(?i)]: K and S also match the Kelvin sign and the long s. *)
Definition fold_char (c : ascii) : regexp :=
  let r := One (λ x, Ascii.eqb (lower_ascii x) (lower_ascii c)) in
  if Ascii.eqb (lower_ascii c) "s" then Alt r (Lit (utf8 383))
  else if Ascii.eqb (lower_ascii c) "k" then Alt r (Lit (utf8 8490)) else r.
Fixpoint fold_lit (s : string) : regexp :=
  match s with "" => Lit "" | String c s' => Seq (fold_char c) (fold_lit s') end.

(** [(?i)driver version:\s+([\d.]+)] *)
Definition driverRegex : regexp :=
  Seq (fold_lit "driver version:") (Seq (Some1 is_space) (Group (Some1 digit_or_dot))).

(** [MemTotal:\s+(\d+)] *)
Definition memTotalRegex : regexp :=
  Seq (Lit "MemTotal:") (Seq (Some1 is_space) (Group (Some1 is_dec))).

(** [if matches := re.FindSubmatch(out); len(matches) > 1 { string(matches[1]) }] *)
Definition submatch (r : regexp) (out : string) : option string :=
  FindStringSubmatch r out ≫= id.

(** One adapter of the Windows query: [AdapterRAM] is any JSON value, nil without one. *)
Module winGPU.
Record t := mk { Name : string; AdapterRAM : option json }.
Definition zero : t := mk "" None.
End winGPU.
Abbreviation winGPU := winGPU.t.

(** The advertisement of a worker. *)
Module ClassAd.
Record t := mk {
  Timestamp : Z; OS : string; Architecture : string; CPUCores : Z; CPUModel : string;
  TotalMemoryMB : Z; AvailableMemMB : Z; HostType : string;
  GPUCount : Z; GPUVendor : string; GPUModels : list string; GPUMemoryMB : list Z;
  CUDAVersion : string; ROCmVersion : string
}.
End ClassAd.
Abbreviation ClassAd := ClassAd.t.
Import ClassAd.

Section Detect.
Context `{GoArch} `{Host}.

(** ** nvidia-smi *)

(** One line of the query's output. *)
Definition smi_line (line : string) : option (string * Z) :=
  let line := TrimSpace line in
  if String.eqb line "" then None
  else
    match SplitN line ", " 2 with
    | [name; mem] => Some (TrimSpace name, (Atoi (TrimSpace mem)).1)
    | _ => None
    end.

Definition smi_lines (out : string) : list (string * Z) :=
  omap smi_line (Split (TrimSpace out) newline).

Definition smi_query (smiPath : string) : option string :=
  Output smiPath ["--query-gpu=name,memory.total"; "--format=csv,noheader,nounits"].

Definition cuda_version (smiPath : string) : string :=
  match Output smiPath [] with
  | Some out => default "" (submatch cudaRegex out)
  | None => ""
  end.

Definition smi_gpus (smiPath : string) : GPUs :=
  match smi_query smiPath with
  | None => GPUs.none
  | Some out =>
      let gpus := smi_lines out in
      GPUs.mk (len gpus) gpus.*1 gpus.*2 (cuda_version smiPath) ""
  end.

Definition detectNVIDIAGPUs : GPUs :=
  match LookPath "nvidia-smi" with
  | None => GPUs.none
  | Some smiPath => smi_gpus smiPath
  end.

(** ** rocm-smi *)

(** The name in one line of the product listing. *)
Definition rocm_name (line : string) : option string :=
  match Split line "," with
  | _ :: f1 :: rest =>
      let name := TrimSpace f1 in
      let name := if String.eqb name "" then
          match rest with f2 :: _ => TrimSpace f2 | [] => name end
        else name in
      if String.eqb name "" then None else Some name
  | _ => None
  end.

Definition rocm_memory (line : string) : option Z :=
  match Split line "," with
  | _ :: f1 :: _ => Some (Z.quot (Z.quot (ParseInt (TrimSpace f1)).1 1024) 1024)
  | _ => None
  end.

(** The lines after the header. *)
Definition csv_rows (out : string) : list string := drop 1 (Split (TrimSpace out) newline).

Definition pad_memory (count : nat) (mem : list Z) : list Z := mem ++ replicate (count - length mem) 0.

Definition fallback_line (line : string) : bool :=
  Contains line "GPU[" || (Contains (ToLower line) "gpu" && Contains line ":").

Definition detectAMDGPUsFallback (smiPath : string) : GPUs :=
  match Output smiPath [] with
  | None => GPUs.none
  | Some out =>
      let n := length (List.filter fallback_line (Split out newline)) in
      GPUs.mk (Z.of_nat n) (replicate n "AMD GPU") (replicate n 0) "" ""
  end.

Definition detectAMDGPUs : GPUs :=
  match LookPath "rocm-smi" with
  | None => GPUs.none
  | Some smiPath =>
      match Output smiPath ["--showproductname"; "--csv"] with
      | None => detectAMDGPUsFallback smiPath
      | Some out =>
          let models := omap rocm_name (csv_rows out) in
          let memoryMB := match Output smiPath ["--showmeminfo"; "vram"; "--csv"] with
            | Some out2 => omap rocm_memory (csv_rows out2)
            | None => []
            end in
          let version := match Output smiPath ["--showdriverversion"] with
            | Some out3 => default "" (submatch driverRegex out3)
            | None => ""
            end in
          GPUs.mk (len models) models (pad_memory (length models) memoryMB) version ""
      end
  end.

(** ** Jetson *)

Definition meminfo_bytes : Z :=
  match ReadTextFile "/proc/meminfo" with
  | Some data =>
      match submatch memTotalRegex data with
      | Some kb => (Atoi kb).1 *ᵢ 1024
      | None => 0
      end
  | None => 0
  end.

Definition detectJetsonGPUS : GPUs :=
  if Stat "/sys/devices/gpu.0/dma_mask" then
    let memBytes := meminfo_bytes in
    let vramMB := if 0 <? memBytes then Z.quot (Z.quot (Z.quot memBytes 1024) 1024) 2 else 4096 in
    let modelName := match ReadTextFile "/sys/firmware/devicetree/base/model" with
      | Some data => TrimSpace (ReplaceAll data (String (byte 0) "") "")
      | None => "NVIDIA Tegra Embedded GPU"
      end in
    GPUs.mk 1 [modelName] [vramMB] "Jetson Unified" ""
  else GPUs.none.

Definition with_vendor (g : GPUs) (vendor : string) : GPUs :=
  GPUs.mk (GPUs.count g) (GPUs.models g) (GPUs.memoryMB g) (GPUs.version g) vendor.

(** profiler_linux.go *)
Definition DetectGPUs_linux : GPUs :=
  let g := detectNVIDIAGPUs in
  if 0 <? GPUs.count g then with_vendor g "nvidia"
  else
    let g := detectAMDGPUs in
    if 0 <? GPUs.count g then with_vendor g "amd"
    else
      let g := detectJetsonGPUS in
      if 0 <? GPUs.count g then with_vendor g "nvidia" else GPUs.none.

(** profiler_fallback.go *)
Definition DetectGPUs_fallback : GPUs := GPUs.none.

(** ** macOS *)

Definition chipset_model (model line : string) : string :=
  let line := TrimSpace line in
  if HasPrefix line "Chipset Model:" then TrimSpace (TrimPrefix line "Chipset Model:") else model.

Definition darwin_vendor (model : string) : string :=
  let lowerModel := ToLower model in
  if Contains lowerModel "nvidia" then "nvidia"
  else if Contains lowerModel "amd" || Contains lowerModel "radeon" then "amd"
  else if Contains lowerModel "intel" then "intel" else "apple".

Definition darwin_vram : Z :=
  let vramMB := match Output "sysctl" ["-n"; "hw.memsize"] with
    | Some out2 =>
        let bytes := (ParseInt (TrimSpace out2)).1 in
        if 0 <? bytes then Z.quot (Z.quot (Z.quot bytes 1024) 1024 *ᵢ 3) 4 else 0
    | None => 0
    end in
  if vramMB =? 0 then 8192 else vramMB.

(** profiler_darwin.go *)
Definition DetectGPUs_darwin : GPUs :=
  match Output "system_profiler" ["SPDisplaysDataType"] with
  | None => GPUs.none
  | Some out =>
      let model := fold_left chipset_model (Split out newline) "Apple GPU" in
      GPUs.mk 1 [model] [darwin_vram] "Metal API" (darwin_vendor model)
  end.

(** ** Windows *)

(** Decoding goes on after a field of the wrong type; the flag says whether the
    error is nil. *)
Definition win_fields : list (string * (json → winGPU * bool → option (winGPU * bool))) :=
  [("Name", λ v '(g, ok), Some (match v with
      | JStr s => (winGPU.mk s (winGPU.AdapterRAM g), ok)
      | JNull => (g, ok)
      | _ => (g, false)
      end));
   ("AdapterRAM", λ v '(g, ok), Some (match v with
      | JNull => (winGPU.mk (winGPU.Name g) None, ok)
      | _ => if no_overflow v then (winGPU.mk (winGPU.Name g) (Some v), ok) else (g, false)
      end))].

Definition dec_winGPU (v : json) : winGPU * bool :=
  match v with
  | JObj m => default (winGPU.zero, false) (decode_fields win_fields m (winGPU.zero, true))
  | JNull => (winGPU.zero, true)
  | _ => (winGPU.zero, false)
  end.

Definition win_gpus (out : string) : list winGPU :=
  let trimmed := TrimSpace out in
  if HasPrefix trimmed "{" then
    match parse trimmed with
    | Some v => let '(g, ok) := dec_winGPU v in if ok then [g] else []
    | None => []
    end
  else if HasPrefix trimmed "[" then
    match parse trimmed with
    | Some (JArr l) => map (λ v, (dec_winGPU v).1) l
    | _ => []
    end
  else [].

Definition virtual_adapter (lowerName : string) : bool :=
  Contains lowerName "basic display" || Contains lowerName "virtual" ||
  Contains lowerName "remote" || Contains lowerName "citrix".

Definition adapter_ramMB (v : option json) : Z :=
  let ramBytes := match v with
    | Some (JNum t) => match ParseFloat t with Some f => int_of_float f | None => 0 end
    | Some (JStr s) => (ParseInt s).1
    | _ => 0
    end in
  let ramMB := Z.quot (Z.quot ramBytes 1024) 1024 in
  if ramMB <? 0 then 0 else ramMB.

Definition win_gpu (g : winGPU) : option (string * Z) :=
  let name := TrimSpace (winGPU.Name g) in
  if virtual_adapter (ToLower name) then None else Some (name, adapter_ramMB (winGPU.AdapterRAM g)).

Definition win_smi_path : option string :=
  let installed := "C:\Program Files\NVIDIA Corporation\NVSMI\nvidia-smi.exe" in
  match LookPath "nvidia-smi" with
  | Some _ => Some "nvidia-smi"
  | None => if Stat installed then Some installed else None
  end.

Definition getWindowsCUDAVersion : string :=
  match win_smi_path with Some smiPath => cuda_version smiPath | None => "" end.

Definition detectWindowsNVIDIAGPUs : GPUs :=
  match win_smi_path with Some smiPath => smi_gpus smiPath | None => GPUs.none end.

Definition win_vendor (firstLower : string) : string :=
  if Contains firstLower "nvidia" then "nvidia"
  else if Contains firstLower "amd" || Contains firstLower "radeon" then "amd"
  else if Contains firstLower "intel" then "intel"
  else if Contains firstLower "adreno" || Contains firstLower "qualcomm" then "qualcomm"
  else "generic".

Definition wmi_args : list string :=
  ["-NoProfile"; "-NonInteractive"; "-Command";
   "Get-CimInstance Win32_VideoController | Select-Object Name, AdapterRAM | ConvertTo-Json"].

(** profiler_windows.go *)
Definition DetectGPUs_windows : GPUs :=
  let found := match Output "powershell" wmi_args with
    | Some out => omap win_gpu (win_gpus out)
    | None => []
    end in
  match found with
  | (first, _) :: _ =>
      let vendor := win_vendor (ToLower first) in
      let version := if String.eqb vendor "nvidia" then getWindowsCUDAVersion else "" in
      GPUs.mk (len found) found.*1 found.*2 version vendor
  | [] =>
      let g := detectWindowsNVIDIAGPUs in
      if 0 <? GPUs.count g then with_vendor g "nvidia" else GPUs.none
  end.

(** ** The class ad *)

Definition detectHostType : string := if Stat "/.dockerenv" then "container" else "vm_or_baremetal".

(** A nil slice is null. *)
Definition json_slice (l : list json) : json := match l with [] => JNull | _ => JArr l end.

Definition json_of_ad (ad : ClassAd) : json := JObj
  [("timestamp", JInt (Timestamp ad)); ("os", JStr (OS ad)); ("architecture", JStr (Architecture ad));
   ("cpu_cores", JInt (CPUCores ad)); ("cpu_model", JStr (CPUModel ad));
   ("total_memory_mb", JInt (TotalMemoryMB ad)); ("available_mem_mb", JInt (AvailableMemMB ad));
   ("host_type", JStr (HostType ad)); ("gpu_count", JInt (GPUCount ad));
   ("gpu_vendor", JStr (GPUVendor ad)); ("gpu_models", json_slice (map JStr (GPUModels ad)));
   ("gpu_memory_mb", json_slice (map JInt (GPUMemoryMB ad)));
   ("cuda_version", JStr (CUDAVersion ad)); ("rocm_version", JStr (ROCmVersion ad))].

Definition class_ad (now : Time) (memory : Z * Z) (cpuInfo : list string) (g : GPUs) : ClassAd :=
  ClassAd.mk (Unix now) GOOS GOARCH cpu_Counts (match cpuInfo with m :: _ => m | [] => "Unknown" end)
    (memory.1 / 1024 / 1024) (memory.2 / 1024 / 1024) detectHostType
    (GPUs.count g) (GPUs.vendor g) (GPUs.models g) (GPUs.memoryMB g)
    (if String.eqb (GPUs.vendor g) "nvidia" then GPUs.version g else "")
    (if negb (String.eqb (GPUs.vendor g) "nvidia") && String.eqb (GPUs.vendor g) "amd"
     then GPUs.version g else "").

(** [g] is what the platform's DetectGPUs finds. *)
Definition GenerateClassAd (now : Time) (g : GPUs) : string + string :=
  match VirtualMemory with
  | inr err => inr err
  | inl memory =>
      match cpu_Info with
      | inr err => inr err
      | inl cpuInfo => inl (print (json_of_ad (class_ad now memory cpuInfo g)))
      end
  end.
End Detect.
