(* ===== verification/ProfilerProps.v ===== *)
(** * Properties of the profiler

    What a worker advertises is consistent, is read from the tools' output as
    they print it, and is read back by the master as it was. *)

From S2P Require Import Prelude GoStd GoJson GoJsonFacts GoRegexp GoText GoFloat Messaging.
From S2P Require Import Tracker Matchmaker Store Config World Server Dispatch Discovery Profiler.
Import ClassAd.
#[local] Open Scope string_scope.
#[local] Open Scope list_scope.
#[local] Open Scope Z_scope.

(** ** The GPUs that are found *)

Record gpus_ok (vendors : list string) (g : GPUs) : Prop := {
  go_count : GPUs.count g = len (GPUs.models g);
  go_memory : (length (GPUs.models g) ≤ length (GPUs.memoryMB g))%nat;
  go_vendor : GPUs.count g ≠ 0 → GPUs.vendor g ∈ vendors;
  go_none : GPUs.count g = 0 → g = GPUs.none
}.

(** Before the vendor is known. *)
Definition counted (g : GPUs) : Prop :=
  GPUs.count g = len (GPUs.models g) ∧ (length (GPUs.models g) ≤ length (GPUs.memoryMB g))%nat.

Lemma gpus_ok_none vendors : gpus_ok vendors GPUs.none.
Proof. by split. Qed.

Lemma counted_none : counted GPUs.none.
Proof. by split. Qed.

Lemma counted_vendor vendors g v : counted g → 0 < GPUs.count g → v ∈ vendors → gpus_ok vendors (with_vendor g v).
Proof. intros [Hc Hm] Hp Hv. split; cbn; try done. lia. Qed.

Lemma counted_pairs (l : list (string * Z)) version vendor :
  counted (GPUs.mk (len l) l.*1 l.*2 version vendor).
Proof. split; cbn; unfold len; by rewrite !length_fmap. Qed.

Section Detect.
Context `{GoArch} `{Host}.

Lemma counted_smi path : counted (smi_gpus path).
Proof.
  unfold smi_gpus. destruct (smi_query path) as [out|]; [|apply counted_none].
  apply counted_pairs.
Qed.

Lemma counted_amd : counted detectAMDGPUs.
Proof.
  unfold detectAMDGPUs, detectAMDGPUsFallback. destruct (LookPath "rocm-smi") as [path|]; [|apply counted_none].
  destruct (Output path ["--showproductname"; "--csv"]).
  - split; cbn; [done|]. unfold pad_memory. rewrite length_app, length_replicate. lia.
  - destruct (Output path []); [|apply counted_none]. split; cbn; unfold len; rewrite !length_replicate; done.
Qed.

(** On every platform the GPUs a worker finds are as many as their models,
    each with an entry for its memory; there is a vendor exactly when there is a
    GPU, one of those the platform knows. *)
Theorem detected_gpus_consistent :
  gpus_ok ["nvidia"; "amd"] DetectGPUs_linux ∧
  gpus_ok ["nvidia"; "amd"; "intel"; "apple"] DetectGPUs_darwin ∧
  gpus_ok ["nvidia"; "amd"; "intel"; "qualcomm"; "generic"] DetectGPUs_windows ∧
  DetectGPUs_fallback = GPUs.none.
Proof.
  split_and!; [..|done].
  - unfold DetectGPUs_linux.
    assert (HN : counted detectNVIDIAGPUs).
    { unfold detectNVIDIAGPUs. destruct (LookPath _); [apply counted_smi|apply counted_none]. }
    assert (HJ : counted detectJetsonGPUS).
    { unfold detectJetsonGPUS. destruct (Stat _); [by split|apply counted_none]. }
    pose proof counted_amd.
    repeat match goal with |- context [0 <? ?x] => destruct (Z.ltb_spec 0 x) end;
      [apply counted_vendor; [done|done|set_solver]..|apply gpus_ok_none].
  - unfold DetectGPUs_darwin. destruct (Output _ _) as [out|]; [|apply gpus_ok_none]. cbv zeta.
    split; cbn; try done. intros _. unfold darwin_vendor. repeat case_match; set_solver.
  - unfold DetectGPUs_windows. cbv zeta. destruct (match Output _ _ with Some _ => _ | None => _ end) as [|[first m] l] eqn:E.
    + assert (HN : counted detectWindowsNVIDIAGPUs).
      { unfold detectWindowsNVIDIAGPUs. destruct win_smi_path; [apply counted_smi|apply counted_none]. }
      destruct (Z.ltb_spec 0 (GPUs.count detectWindowsNVIDIAGPUs)); [|apply gpus_ok_none].
      apply counted_vendor; [done|done|set_solver].
    + destruct (counted_pairs ((first, m) :: l) (if String.eqb (win_vendor (ToLower first)) "nvidia"
        then getWindowsCUDAVersion else "") (win_vendor (ToLower first))) as [Hc Hm].
      split; [exact Hc|exact Hm|intros _; cbn [GPUs.vendor]|intros Hz; discriminate Hz].
      unfold win_vendor. repeat case_match; set_solver.
Qed.
End Detect.

(** ** The class ad at the master *)

(** Texts are UTF-8; numbers are below [2 ^ 53], as on every real machine. *)
Definition exact (z : Z) : Prop := 0 ≤ z < 2 ^ 53.
Record ad_ok (ad : ClassAd) : Prop := {
  ao_text : valid (OS ad) ∧ valid (Architecture ad) ∧ valid (CPUModel ad) ∧ valid (HostType ad) ∧
    valid (GPUVendor ad) ∧ valid (CUDAVersion ad) ∧ valid (ROCmVersion ad);
  ao_numbers : exact (Timestamp ad) ∧ exact (CPUCores ad) ∧ exact (TotalMemoryMB ad) ∧
    exact (AvailableMemMB ad) ∧ exact (GPUCount ad) ∧ Forall exact (GPUMemoryMB ad)
}.

Lemma no_overflow_int z : exact z → no_overflow (JInt z) = true.
Proof. intros Hz. destruct (ParseFloat_Itoa z Hz) as (x & E & _). cbn. by rewrite E. Qed.

Lemma no_overflow_slice {A} (f : A → json) l : (∀ x, x ∈ l → no_overflow (clean (f x)) = true) →
  no_overflow (clean (json_slice (map f l))) = true.
Proof.
  intros Hl. destruct l as [|x l]; [done|]. cbn [map json_slice].
  change (forallb no_overflow (map clean (map f (x :: l))) = true).
  apply forallb_forall. intros y (z & <- & (a & <- & Ha)%in_map_iff)%in_map_iff. apply Hl.
  by apply list_elem_of_In.
Qed.

Definition ad_members (ad : ClassAd) : list (string * json) :=
  match clean (json_of_ad ad) with JObj m => m | _ => [] end.

Lemma numbers_ad ad : numbers_ok (json_of_ad ad) ∧ (nesting (json_of_ad ad) ≤ 2)%nat.
Proof.
  assert (Hm : ∀ l, numbers_ok (json_slice (map JStr l)) ∧ (nesting (json_slice (map JStr l)) ≤ 1)%nat).
  { intros [|x l]; [split; simpl; lia || done|]. cbn [map json_slice numbers_ok nesting foldr]. split.
    - split; [done|]. by induction l.
    - enough (foldr (λ v n, nesting v `max` n)%nat 0%nat (map JStr l) ≤ 0)%nat by (simpl in *; lia).
      induction l; simpl in *; lia. }
  assert (Hi : ∀ l, numbers_ok (json_slice (map JInt l)) ∧ (nesting (json_slice (map JInt l)) ≤ 1)%nat).
  { intros [|x l]; [split; simpl; lia || done|]. cbn [map json_slice numbers_ok nesting foldr]. split.
    - split; [apply Itoa_number|]. induction l; cbn; [done|]. split; [apply Itoa_number|done].
    - enough (foldr (λ v n, nesting v `max` n)%nat 0%nat (map JInt l) ≤ 0)%nat by (simpl in *; lia).
      induction l; simpl in *; lia. }
  destruct (Hm (GPUModels ad)) as [Hm1 Hm2], (Hi (GPUMemoryMB ad)) as [Hi1 Hi2].
  unfold json_of_ad. set (a := json_slice (map JStr _)) in *.
  set (b := json_slice (map JInt _)) in *. clearbody a b.
  unfold JInt. cbn [numbers_ok nesting foldr]. split; [|lia].
  repeat split; try apply Itoa_number; done.
Qed.

(** The text decodes to the members, none of which overflows. *)
Lemma Unmarshal_ad ad : ad_ok ad →
  Unmarshal_map (print (json_of_ad ad)) = (Some (object_map (ad_members ad)), true).
Proof.
  intros [_ (H1 & H2 & H3 & H4 & H5 & H6)]. destruct (numbers_ad ad) as [Hn Hd]. unfold Unmarshal_map.
  rewrite parse_print by (done || (unfold maxNestingDepth; lia)).
  change (clean (json_of_ad ad)) with (JObj (ad_members ad)). cbv iota. f_equal.
  unfold ad_members. cbn [clean json_of_ad map no_overflow forallb].
  change (clean (JInt ?z)) with (JInt z). rewrite !no_overflow_int, !no_overflow_slice; try done.
  intros z Hz. apply no_overflow_int. rewrite Forall_forall in H6. by apply H6.
Qed.

Lemma ad_lookup ad key v : ad_ok ad → (object_map (ad_members ad)) !! key = Some v →
  map_get (Unmarshal_map (print (json_of_ad ad))).1 key = Some v.
Proof. intros Ha Hv. by rewrite Unmarshal_ad. Qed.

Lemma advertised_int `{GoArch} ad key z : ad_ok ad → exact z →
  (object_map (ad_members ad)) !! key = Some (JInt z) →
  int_of_float (get_float (Unmarshal_map (print (json_of_ad ad))).1 key) = z.
Proof.
  intros Ha Hz Hk. unfold get_float. rewrite (ad_lookup _ _ _ Ha Hk).
  destruct (ParseFloat_Itoa z Hz) as (x & E & Ht). unfold JInt. rewrite E.
  by apply int_of_float_Itoa.
Qed.

Definition ad_keys : list string :=
  ["timestamp"; "os"; "architecture"; "cpu_cores"; "cpu_model"; "total_memory_mb"; "available_mem_mb";
   "host_type"; "gpu_count"; "gpu_vendor"; "gpu_models"; "gpu_memory_mb"; "cuda_version"; "rocm_version"].

Lemma ad_member ad k v : (k, v) ∈ ad_members ad → object_map (ad_members ad) !! k = Some v.
Proof.
  intros Hk. unfold object_map. apply elem_of_list_to_map_1.
  - assert ((rev (ad_members ad)).*1 = rev ad_keys) as -> by reflexivity.
    apply (bool_decide_unpack _). vm_compute. exact Logic.I.
  - apply list_elem_of_In, in_rev. rewrite rev_involutive. by apply list_elem_of_In.
Qed.

Lemma ad_read_back `{GoArch} ad name addr members : ad_ok ad →
  let node := Node.mk name addr (print (json_of_ad ad)) in
  nodeGPUCount (Node.Meta node) = GPUCount ad ∧
  int_of_float (get_float (Unmarshal_map (Node.Meta node)).1 "cpu_cores") = CPUCores ad ∧
  int_of_float (get_float (Unmarshal_map (Node.Meta node)).1 "total_memory_mb") = TotalMemoryMB ad ∧
  gpu_vendor (node :: members) name = GPUVendor ad.
Proof.
  intros Ha node. pose proof Ha as [(_ & _ & _ & _ & Hv & _) (_ & Hc & Hm & _ & Hg & _)].
  cbn [Node.Meta node].
  split_and!.
  - pose proof (advertised_int ad "gpu_count" _ Ha Hg (ad_member _ _ _ ltac:(do 8 right; left))) as E.
    unfold nodeGPUCount. rewrite Unmarshal_ad in * by done. exact E.
  - apply advertised_int; [done..|]. apply ad_member. do 3 right. left.
  - apply advertised_int; [done..|]. apply ad_member. do 5 right. left.
  - unfold gpu_vendor.
    assert (List.find (λ m, String.eqb (Node.Name m) name && (0 <? String.length (Node.Meta m))%nat)
      (node :: members) = Some node) as ->.
    { cbn [List.find]. change (Node.Name node) with name. by rewrite String.eqb_refl. }
    cbn [Node.Meta node]. rewrite Unmarshal_ad by done. unfold get_string, map_get.
    rewrite (ad_member ad "gpu_vendor" (JStr (sanitize (GPUVendor ad)))) by (do 9 right; left).
    cbn. by rewrite Hv.
Qed.

(** C36: what a worker measures and puts into its class ad is what the master reads
    from it: the number of GPUs, of cores, and the memory, exactly, and the GPU
    vendor; so the capacity checks work on the worker's own figures. *)
Theorem class_ad_read_back `{GoArch} `{Host} now g memory cpuInfo meta name addr members :
  VirtualMemory = inl memory → cpu_Info = inl cpuInfo → ad_ok (class_ad now memory cpuInfo g) →
  GenerateClassAd now g = inl meta →
  let node := Node.mk name addr meta in
  nodeGPUCount (Node.Meta node) = GPUs.count g ∧
  int_of_float (get_float (Unmarshal_map (Node.Meta node)).1 "cpu_cores") = cpu_Counts ∧
  int_of_float (get_float (Unmarshal_map (Node.Meta node)).1 "total_memory_mb") = memory.1 / 1024 / 1024 ∧
  gpu_vendor (node :: members) name = GPUs.vendor g.
Proof.
  intros Hm Hc Ha. unfold GenerateClassAd. rewrite Hm, Hc. intros [= <-].
  exact (ad_read_back (class_ad now memory cpuInfo g) name addr members Ha).
Qed.

(** ** The output of nvidia-smi *)

(** Printable and not a blank. *)
Definition solid (c : ascii) : Prop := 33 ≤ GoJson.code c ≤ 126.

Definition head_solid (s : string) : Prop := match s with String c _ => solid c | "" => False end.

Lemma strip_any_solid ps c s : Forall (λ p, match p with String x _ => x ≠ c | "" => False end) ps →
  strip_any ps (String c s) = None.
Proof.
  induction 1 as [|p ps Hp _ IH]; [done|]. cbn [strip_any]. destruct p as [|x p]; [done|]. cbn [strip].
  destruct (Ascii.eqb_spec x c); [done|exact IH].
Qed.

Definition not_solid_head (p : string) : bool :=
  match p with String x _ => (GoJson.code x <=? 32) || (127 <=? GoJson.code x) | "" => false end.

Lemma space_heads c ps : solid c → forallb not_solid_head ps = true →
  Forall (λ p, match p with String x _ => x ≠ c | "" => False end) ps.
Proof.
  intros Hc Hps. apply Forall_forall. intros p Hp%list_elem_of_In. rewrite forallb_forall in Hps.
  specialize (Hps p Hp). destruct p as [|x p]; [done|]. cbn in Hps. intros ->. unfold solid in Hc.
  apply orb_true_iff in Hps as [?|?]; to_prop; lia.
Qed.

Lemma TrimLeft_solid s : head_solid s → TrimLeftSpace s = s.
Proof.
  destruct s as [|c s]; [done|]. intros Hc. unfold TrimLeftSpace. cbn [String.length strip_all].
  by rewrite strip_any_solid by (by apply space_heads).
Qed.

Lemma strip_all_solid n ps s : head_solid s → forallb not_solid_head ps = true → strip_all n ps s = s.
Proof.
  destruct s as [|c s]; [done|]. intros Hc Hps. destruct n; [done|]. cbn [strip_all].
  by rewrite strip_any_solid by (by apply space_heads).
Qed.

Lemma rev_string_app acc s t : rev_string acc (s +:+ t) = rev_string (rev_string acc s) t.
Proof. revert acc. induction s as [|c s IH]; intros acc; [done|]. cbn. apply IH. Qed.

Lemma rev_string_acc acc s : rev_string acc s = rev_string "" s +:+ acc.
Proof.
  revert acc. induction s as [|c s IH]; intros acc; [done|]. cbn. rewrite IH, (IH (String c "")).
  by rewrite str_app_assoc.
Qed.

Lemma rev_string_involutive s : rev_string "" (rev_string "" s) = s.
Proof.
  induction s as [|c s IH]; [done|]. cbn. rewrite (rev_string_acc (String c "") s), rev_string_app, rev_string_acc.
  cbn. by rewrite IH.
Qed.

(** A text whose ends are solid, and the newlines a tool prints after it. *)
Definition solid_text (s : string) : Prop := head_solid s ∧ head_solid (rev_string "" s).

Lemma TrimSpace_solid s t : solid_text s → t = "" ∨ t = newline → TrimSpace (s +:+ t) = s.
Proof.
  intros [Hh Hl] Ht. unfold TrimSpace.
  rewrite TrimLeft_solid by (destruct s; [done|destruct Ht; by subst]). unfold TrimRightSpace.
  rewrite rev_string_app, str_app_length.
  assert (E : strip_all (String.length s + String.length t) (map (rev_string "") space_runes)
    (rev_string (rev_string "" s) t) = rev_string "" s).
  { destruct Ht as [->| ->].
    - cbn [rev_string String.length]. by apply strip_all_solid.
    - change (String.length newline) with 1%nat. rewrite Nat.add_1_r. cbn [strip_all].
      change (rev_string (rev_string "" s) newline) with (String (byte 10) (rev_string "" s)).
      assert (strip_any (map (rev_string "") space_runes) (String (byte 10) (rev_string "" s)) =
        Some (rev_string "" s)) as ->.
      { unfold space_runes. cbn [map strip_any]. by destruct (rev_string "" s). }
      by apply strip_all_solid. }
  rewrite E. apply rev_string_involutive.
Qed.

Definition chars (s : string) : list ascii := String.list_ascii_of_string s.
Definition nl : ascii := byte 10.

Lemma chars_app a b : chars (a +:+ b) = chars a ++ chars b.
Proof. unfold chars. induction a as [|c a IH]; [done|]. cbn. by rewrite IH. Qed.

Lemma chars_rev s : chars (rev_string "" s) ≡ₚ chars s.
Proof.
  induction s as [|c s IH]; [done|]. cbn [rev_string]. rewrite rev_string_acc, chars_app, IH.
  unfold chars. cbn. by rewrite Permutation_app_comm.
Qed.

Lemma solid_all s : s ≠ "" → Forall solid (chars s) → solid_text s.
Proof.
  intros Hne Hs. assert (Hr : Forall solid (chars (rev_string "" s))) by (by rewrite chars_rev).
  split; [destruct s; [done|]; by apply Forall_cons in Hs as [? _]|].
  destruct (rev_string "" s) as [|c r] eqn:E; [|by apply Forall_cons in Hr as [? _]].
  apply Hne. rewrite <- (rev_string_involutive s), E. done.
Qed.

Lemma solid_between a x b : solid_text a → solid_text b → solid_text (a +:+ x +:+ b).
Proof.
  intros [Ha _] [_ Hb]. split; [by destruct a|].
  rewrite !rev_string_app, rev_string_acc. by destruct (rev_string "" b).
Qed.

Lemma Cut_nl_none s : nl ∉ chars s → Cut s newline = None.
Proof.
  induction s as [|c s IH]; [done|]. unfold chars. cbn [String.list_ascii_of_string]. intros Hn.
  apply not_elem_of_cons in Hn as [Hc Hs]. cbn [Cut]. unfold newline at 1. cbn [strip].
  destruct (Ascii.eqb_spec (byte 10) c) as [E|]; [by destruct Hc|]. by rewrite (IH Hs).
Qed.

Lemma Cut_nl a b : nl ∉ chars a → Cut (a +:+ newline +:+ b) newline = Some (a, b).
Proof.
  induction a as [|c a IH]; [by destruct b|]. unfold chars. cbn [String.list_ascii_of_string]. intros Hn.
  apply not_elem_of_cons in Hn as [Hc Ha]. cbn [String.append Cut]. unfold newline at 1. cbn [strip].
  destruct (Ascii.eqb_spec (byte 10) c) as [E|]; [by destruct Hc|]. by rewrite (IH Ha).
Qed.

Lemma Cut_comma a b : Cut a ", " = None → Cut (a +:+ ", " +:+ b) ", " = Some (a, b).
Proof.
  induction a as [|c a IH]; [done|]. intros Hn. cbn [Cut] in Hn.
  destruct (strip ", " (String c a)) as [r|] eqn:E; [done|]. destruct (Cut a ", ") as [[]|]; [done|].
  specialize (IH eq_refl). change (String c a +:+ ", " +:+ b) with (String c (a +:+ ", " +:+ b)). cbn [Cut].
  rewrite IH. cbn [strip] in *. destruct (Ascii.eqb "," c); [|done].
  destruct a as [|d a]; [done|]. cbn [String.append]. by destruct (Ascii.eqb " " d).
Qed.

Lemma cuts_lines n lines : lines ≠ [] → Forall (λ l, nl ∉ chars l) lines → (length lines ≤ S n)%nat →
  cuts n (Join lines newline) newline = lines.
Proof.
  revert n. induction lines as [|a lines IH]; [done|]. intros n _ Hl Hn. apply Forall_cons in Hl as [Ha Hl].
  destruct lines as [|b lines].
  - cbn [Join]. destruct n; [done|]. cbn [cuts]. by rewrite Cut_nl_none.
  - destruct n as [|n]; [cbn in Hn; lia|].
    change (Join (a :: b :: lines) newline) with (a +:+ newline +:+ Join (b :: lines) newline).
    cbn [cuts]. rewrite Cut_nl by done. f_equal. apply IH; [done|done|cbn in *; lia].
Qed.

Lemma lines_length lines : (length lines ≤ S (String.length (Join lines newline)))%nat.
Proof.
  induction lines as [|a [|b lines] IH]; [cbn; lia..|].
  change (Join (a :: b :: lines) newline) with (a +:+ newline +:+ Join (b :: lines) newline).
  rewrite !str_app_length. cbn [length] in *. change (String.length newline) with 1%nat. lia.
Qed.

(** What the tool prints for GPUs of the given names and megabytes. *)
Definition smi_text (l : list (string * Z)) : string :=
  Join (map (λ '(name, mem), name +:+ ", " +:+ Itoa mem) l) newline +:+ newline.

(** A name without surrounding blanks, line breaks or the separator. *)
Definition gpu_line_ok (g : string * Z) : Prop :=
  solid_text g.1 ∧ (nl ∉ chars g.1) ∧ Cut g.1 ", " = None ∧ (0 ≤ g.2 < 2 ^ 63).

Lemma solid_digit c : is_Some (digit_of c) → solid c.
Proof.
  unfold digit_of, solid, GoJson.code. intros [k Hk]. destruct ((48 <=? _) && _) eqn:E; [|done]. to_prop.
  unfold nat_of_ascii in *. lia.
Qed.

Lemma Itoa_solid z : 0 ≤ z → Forall solid (chars (Itoa z)) ∧ Itoa z ≠ "".
Proof.
  intros Hz. destruct (Itoa_decimal z) as (d & [_ (c & d' & -> & _) Hd] & ->).
  destruct (Z.ltb_spec z 0); [lia|]. split; [|done]. eapply Forall_impl; [exact Hd|apply solid_digit].
Qed.

Lemma nl_not_solid s : Forall solid (chars s) → nl ∉ chars s.
Proof. intros Hs Hn. rewrite Forall_forall in Hs. specialize (Hs _ Hn). destruct Hs as [Hs _]. by apply Hs. Qed.

Lemma smi_line_ok name mem : gpu_line_ok (name, mem) → let line := name +:+ ", " +:+ Itoa mem in
  solid_text line ∧ (nl ∉ chars line) ∧ smi_line line = Some (name, mem).
Proof.
  intros (Hs & Hn & Hc & Hm) line. cbn [fst snd] in *. destruct (Itoa_solid mem) as [Hi Hne]; [lia|].
  assert (Hsi : solid_text (Itoa mem)) by (by apply solid_all).
  assert (Hl : solid_text line) by (by apply solid_between). split_and!; [done| |].
  - subst line. rewrite !chars_app, !not_elem_of_app. split; [done|]. split; [|by apply nl_not_solid].
    intros Hx. cbn in Hx. repeat (apply elem_of_cons in Hx as [Hx|Hx]; [discriminate Hx|]). by apply not_elem_of_nil in Hx.
  - assert (HT : ∀ s, solid_text s → TrimSpace s = s).
    { intros s H. pose proof (TrimSpace_solid s "" H (or_introl eq_refl)) as E. by rewrite str_app_nil in E. }
    unfold smi_line. rewrite HT by done. destruct (String.eqb_spec line "") as [E|_].
    { subst line. by destruct name. }
    unfold SplitN. cbn [Nat.sub cuts]. subst line. rewrite Cut_comma by done.
    rewrite !HT by done. rewrite Atoi_Itoa; [done|]. unfold in_int64. lia.
Qed.

(** The profiler reads back every GPU that nvidia-smi lists, names and memory,
    in order, and nothing else. *)
Theorem smi_listing_read_back l : Forall gpu_line_ok l → smi_lines (smi_text l) = l.
Proof.
  intros Hl. unfold smi_lines, smi_text. set (f := λ '(name, mem), name +:+ ", " +:+ Itoa mem).
  assert (HL : ∀ g, g ∈ l → solid_text (f g) ∧ (nl ∉ chars (f g)) ∧ smi_line (f g) = Some g).
  { intros [name mem] Hg. apply smi_line_ok. rewrite Forall_forall in Hl. by apply Hl. }
  destruct (decide (l = [])) as [->|Hne]; [done|].
  assert (HS : solid_text (Join (map f l) newline)).
  { clear Hl. induction l as [|g [|g' l] IH]; [done|apply HL; by left|].
    change (Join (map f (g :: g' :: l)) newline) with (f g +:+ newline +:+ Join (map f (g' :: l)) newline).
    apply solid_between; [apply HL; by left|]. apply IH; [|done]. intros x Hx. apply HL. by right. }
  rewrite (TrimSpace_solid _ newline HS) by (by right). unfold Split. rewrite cuts_lines.
  - clear Hl Hne HS. induction l as [|g l IH]; [done|]. cbn [map omap list_omap].
    destruct (HL g) as (_ & _ & ->); [by left|]. f_equal. apply IH. intros x Hx. apply HL. by right.
  - by destruct l.
  - apply Forall_forall. intros x (g & -> & Hg)%list_elem_of_fmap. by apply HL.
  - apply lines_length.
Qed.

(** ** A concrete machine *)

Section Witnesses.
#[local] Existing Instance amd64.

Definition demo_gpus : list (string * Z) := [("NVIDIA A100-SXM4-80GB", 81920); ("NVIDIA T4", 15360)].

#[local] Instance demo_host : Host := {|
  LookPath := λ t, if String.eqb t "nvidia-smi" then Some "/usr/bin/nvidia-smi" else None;
  Output := λ _ args, match args with
    | [] => Some ("| Driver Version: 550.54.14   CUDA Version: 12.4     |" +:+ newline)
    | _ => Some (smi_text demo_gpus)
    end;
  Stat := λ _, false;
  ReadTextFile := λ _, None;
  VirtualMemory := inl (17179869184, 8589934592);
  cpu_Info := inl ["EPYC"];
  cpu_Counts := 16;
  GOOS := "linux";
  GOARCH := "amd64"
|}.

Lemma demo_gpus_ok : Forall gpu_line_ok demo_gpus.
Proof.
  repeat constructor; try (vm_compute; by (done || discriminate)); apply (bool_decide_unpack _); vm_compute; exact Logic.I.
Qed.

Lemma smi_listing_read_back_witness : smi_lines (smi_text demo_gpus) = demo_gpus.
Proof. exact (smi_listing_read_back demo_gpus demo_gpus_ok). Defined.

Example demo_detect : DetectGPUs_linux =
  GPUs.mk 2 ["NVIDIA A100-SXM4-80GB"; "NVIDIA T4"] [81920; 15360] "12.4" "nvidia".
Proof. vm_compute. reflexivity. Qed.

Definition demo_meta : string :=
  match GenerateClassAd (63844806896 * Second) DetectGPUs_linux with inl s => s | inr _ => "" end.

Definition demo_ad : ClassAd := ClassAd.mk 1709210096 "linux" "amd64" 16 "EPYC" 16384 8192
  "vm_or_baremetal" 2 "nvidia" ["NVIDIA A100-SXM4-80GB"; "NVIDIA T4"] [81920; 15360] "12.4" "".

Lemma demo_ad_ok : ad_ok (class_ad (63844806896 * Second) (17179869184, 8589934592) ["EPYC"] DetectGPUs_linux).
Proof.
  rewrite demo_detect.
  replace (class_ad _ _ _ _) with demo_ad by (vm_compute; reflexivity).
  split; unfold exact; cbn; [by repeat split|].
  repeat (split; [lia|]). repeat constructor; lia.
Qed.

Lemma class_ad_read_back_witness : nodeGPUCount demo_meta = 2 ∧
  gpu_vendor [Node.mk "n1" "10.0.0.1" demo_meta] "n1" = "nvidia".
Proof.
  destruct (@class_ad_read_back amd64 demo_host (63844806896 * Second) DetectGPUs_linux (17179869184, 8589934592) ["EPYC"]
    demo_meta "n1" "10.0.0.1" [] eq_refl eq_refl demo_ad_ok) as (H1 & _ & _ & H4).
  - vm_compute. reflexivity.
  - rewrite demo_detect in H1, H4. split; [exact H1|exact H4].
Defined.

(** memberlist allows 512 bytes of metadata and passes that limit to [NodeMeta],
    which ignores it: the ad of a machine with eight such GPUs is longer. *)
Definition eight_gpus : GPUs :=
  GPUs.mk 8 (replicate 8 "NVIDIA A100-SXM4-80GB") (replicate 8 81920) "12.4" "nvidia".

Lemma eight_gpus_over_limit : ∃ meta, GenerateClassAd (63844806896 * Second) eight_gpus = inl meta ∧
  (512 < String.length (NodeMeta (metaDelegate.mk meta) 512))%nat.
Proof.
  destruct (GenerateClassAd (63844806896 * Second) eight_gpus) as [meta|] eqn:E; [|by discriminate E].
  exists meta. split; [done|].
  assert (HL : match GenerateClassAd (63844806896 * Second) eight_gpus with
    inl s => Nat.ltb 512 (String.length s) | inr _ => false end = true) by (vm_compute; reflexivity).
  rewrite E in HL. by apply Nat.ltb_lt.
Qed.
End Witnesses.
