(* ===== verification/Cli.v ===== *)
(** * internal/cli: the command line

    The requests the commands build from their arguments and flags, and the text
    they print from the answers.  Flag parsing (cobra) and the connection are
    outside; [client A] is the answer to a call, or the error as [%v] prints it. *)

From S2P Require Import Prelude GoStd GoJson GoTime GoText Queue Store Config World Server.
#[local] Open Scope string_scope.
#[local] Open Scope list_scope.
#[local] Open Scope Z_scope.

Abbreviation client A := (A + string)%type.

(** What a command prints, and whether it ends in [log.Fatalf] with a message. *)
Record outcome := { printed : string; fatal : option string }.
Definition prints (s : string) : outcome := {| printed := s; fatal := None |}.
Definition fails (msg : string) : outcome := {| printed := ""; fatal := Some msg |}.

Definition concat_all (l : list string) : string := foldr (λ s t, s +:+ t) "" l.
(** [fmt.Println] *)
Definition line (s : string) : string := s +:+ newline.
Definition when_text (b : bool) (s : string) : string := if b then s else "".

(** [GetClient]: the address it is connected to, or the fatal message.  The
    credentials are insecure whatever the configuration's TLS section says. *)
Definition GetClient (NewClient : string → option string) (cfg : Config) : string + string :=
  let addr := GRPCAddr cfg in
  match NewClient addr with
  | Some err => inr ("Failed to connect to master at " +:+ addr +:+ ": " +:+ err)
  | None => inl addr
  end.

(** ** Flags *)

Definition parseEnvFlags (envFlags : list string) : gmap string string :=
  fold_left (λ result e,
    match SplitN e "=" 2 with
    | [k; v] => <[k := v]> result
    | _ => result
    end) envFlags ∅.

Record submit_flags := {
  submitPriority : Z; submitUser : string; submitWalltime : Z; submitGPUs : Z; submitEnvVars : list string
}.
Definition submit_defaults : submit_flags := {|
  submitPriority := 0; submitUser := ""; submitWalltime := 0; submitGPUs := 0; submitEnvVars := [] |}.

Record train_flags := {
  trainNodes : Z; trainGPUsPerNode : Z; trainRequirement : string; trainPriority : Z; trainUser : string;
  trainWalltime : Z; trainMasterPort : Z; trainEnvVars : list string
}.
Definition train_defaults : train_flags := {|
  trainNodes := 2; trainGPUsPerNode := 1; trainRequirement := "ad.gpu_count >= 1"; trainPriority := 0;
  trainUser := ""; trainWalltime := 0; trainMasterPort := 29500; trainEnvVars := [] |}.

(** An empty map arrives as the nil map: protobuf sends no entries. *)
Definition sent_map (m : gmap string string) : strmap := if decide (m = ∅) then None else Some m.

Definition submit_request (f : submit_flags) (expression command : string) : SubmitJobRequest := {|
  sj_CelRequirement := expression; sj_Command := command; sj_Priority := submitPriority f;
  sj_User := submitUser f; sj_WalltimeSeconds := submitWalltime f; sj_GpusRequired := submitGPUs f;
  sj_EnvVars := sent_map (parseEnvFlags (submitEnvVars f)) |}.

Definition train_request (f : train_flags) (command : string) : SubmitDistributedJobRequest := {|
  sd_CelRequirement := trainRequirement f; sd_Command := command; sd_NumNodes := trainNodes f;
  sd_GpusPerNode := trainGPUsPerNode f; sd_Priority := trainPriority f; sd_User := trainUser f;
  sd_WalltimeSeconds := trainWalltime f; sd_MasterPort := trainMasterPort f;
  sd_EnvVars := sent_map (parseEnvFlags (trainEnvVars f)) |}.

(** ** submit, train, cancel *)

Definition submit_run (f : submit_flags) (answer : client SubmitJobResponse) : outcome :=
  match answer with
  | inr err => fails ("Submit failed: " +:+ err)
  | inl resp => prints (
      line "Job submitted!" +:+ line ("  ID:       " +:+ sjr_JobId resp) +:+
      line ("  Status:   " +:+ sjr_Status resp) +:+
      when_text (0 <? submitGPUs f) (line ("  GPUs:     " +:+ Itoa (submitGPUs f))) +:+
      when_text (0 <? submitWalltime f) (line ("  Walltime: " +:+ Itoa (submitWalltime f) +:+ "s")))
  end.

Definition train_run (f : train_flags) (answer : client SubmitDistributedJobResponse) : outcome :=
  match answer with
  | inr err => fails ("Submit distributed job failed: " +:+ err)
  | inl resp => prints (
      line "Distributed training job submitted!" +:+
      line ("  Group ID:       " +:+ sdr_GroupId resp) +:+
      line ("  Nodes:          " +:+ Itoa (trainNodes f)) +:+
      line ("  GPUs/node:      " +:+ Itoa (trainGPUsPerNode f)) +:+
      line ("  Status:         " +:+ sdr_Status resp) +:+
      line ("  Rank jobs:      " +:+ Join (sdr_JobIds resp) ", ") +:+
      newline +:+ line "Monitor:" +:+
      concat_all (imap (λ i jid,
        line ("  tasch jobs logs " +:+ jid +:+ "    # rank " +:+ Itoa (Z.of_nat i))) (sdr_JobIds resp)))
  end.

(** U+2014 between the status and the message. *)
Definition cancel_run (answer : client CancelJobResponse) : outcome :=
  match answer with
  | inr err => fails ("Cancel failed: " +:+ err)
  | inl resp => prints (line ("Job " +:+ cj_JobId resp +:+ ": " +:+ cj_Status resp +:+ " " +:+ utf8 8212 +:+
      " " +:+ cj_Message resp))
  end.

(** ** Times *)

(** [time.Unix(sec, 0)] and [time.UnixMilli(ms)] *)
Definition of_Unix (sec : Z) : Time := (sec + unixToInternal) * Second.
Definition of_UnixMilli (ms : Z) : Time := (ms + unixToInternal * 1000) * Millisecond.

Definition year_text (y : Z) : string :=
  if y <? 0 then "-" +:+ pad_zeros 4 (Itoa (- y)) else pad_zeros 4 (Itoa y).

(** [Round(m)] of a duration: half way rounds away from zero, and what
    overflows saturates. *)
Definition Round (d m : Duration) : Duration :=
  let r := Z.rem d m in
  if d <? 0 then
    if - r + - r <? m then d - r else if d + r - m <? - 2 ^ 63 then - 2 ^ 63 else d - r - m
  else if r + r <? m then d - r else if 2 ^ 63 <=? d + m - r then 2 ^ 63 - 1 else d + m - r.

Section Local.
Context `{Zone}.

(** [t.Format(time.RFC3339)] *)
Definition Format_RFC3339 (t : Time) : string :=
  let off := offset t in
  let secs := (t + off * 60 * Second) / Second in
  let '(y, m, d) := civil (secs / secs_per_day + day_zero) in
  let tod := secs mod secs_per_day in
  year_text y +:+ "-" +:+ pad2 m +:+ "-" +:+ pad2 d +:+ "T" +:+
    pad2 (tod / 3600) +:+ ":" +:+ pad2 (tod / 60 mod 60) +:+ ":" +:+ pad2 (tod mod 60) +:+ format_offset off.

(** [t.Format("15:04:05.000")] *)
Definition Format_clock (t : Time) : string :=
  let local := t + offset t * 60 * Second in
  let tod := (local / Second) mod secs_per_day in
  pad2 (tod / 3600) +:+ ":" +:+ pad2 (tod / 60 mod 60) +:+ ":" +:+ pad2 (tod mod 60) +:+ "." +:+
    pad_zeros 3 (Itoa ((local mod Second) / Millisecond)).

(** ** status *)

Definition status_run (jobID : string) (answer : client GetJobStatusResponse) : outcome :=
  match answer with
  | inr err => fails ("Failed to get job status: " +:+ err)
  | inl r =>
      if String.eqb (gs_State r) "NOT_FOUND" then prints (line ("Job " +:+ jobID +:+ " not found."))
      else prints (
        line ("Job " +:+ gs_JobId r) +:+ line ("  State:   " +:+ gs_State r) +:+
        line ("  Command: " +:+ gs_Command r) +:+
        when_text (negb (String.eqb (gs_GroupId r) "")) (line ("  Group:   " +:+ gs_GroupId r)) +:+
        when_text (negb (String.eqb (gs_WorkerNode r) "")) (line ("  Worker:  " +:+ gs_WorkerNode r)) +:+
        when_text (0 <? gs_SubmitTime r) (line ("  Submit:  " +:+ Format_RFC3339 (of_Unix (gs_SubmitTime r)))) +:+
        when_text (0 <? gs_StartTime r) (line ("  Start:   " +:+ Format_RFC3339 (of_Unix (gs_StartTime r)))) +:+
        when_text (0 <? gs_EndTime r)
          (line ("  End:     " +:+ Format_RFC3339 (of_Unix (gs_EndTime r))) +:+
           when_text (0 <? gs_StartTime r)
             (line ("  Duration: " +:+
                Duration_String (Round (Sub (of_Unix (gs_EndTime r)) (of_Unix (gs_StartTime r))) Millisecond)))) +:+
        when_text (negb (String.eqb (gs_Output r) ""))
          (line "  Output:" +:+
           line ("    " +:+ ReplaceAll (TrimSpace (gs_Output r)) newline (newline +:+ "    "))) +:+
        when_text (negb (String.eqb (gs_Error r) "")) (line ("  Error:   " +:+ gs_Error r)))
  end.

(** ** logs *)

Definition log_line (entry : LogMessage) : string :=
  line ("[" +:+ Format_clock (of_UnixMilli (LogMessage.Timestamp entry)) +:+ "] [" +:+
    LogMessage.Level entry +:+ "] " +:+ LogMessage.Message entry).

(** The entries of the stream, and how it ended: [None] is io.EOF. *)
Definition logs_run (follow : bool) (stream : client (list LogMessage * option string)) : outcome :=
  match stream with
  | inr err => fails ("Failed to stream logs: " +:+ err)
  | inl (entries, ending) =>
      {| printed := concat_all (map log_line entries);
         fatal := match ending with
           | Some err => if follow then Some ("Stream error: " +:+ err) else None
           | None => None
           end |}
  end.
End Local.

(** ** Listings *)

(** [if len(s) > n { s = s[:n-3] + "..." }] *)
Definition shorten (n : nat) (s : string) : string :=
  if (n <? String.length s)%nat then String.substring 0 (n - 3) s +:+ "..." else s.

Definition list_row (cells : list (nat * string)) (last : string) : string :=
  line (foldr (λ '(n, s) t, pad_right n s +:+ " " +:+ t) last cells).

Definition job_row (j : JobInfo) : string :=
  list_row [(14%nat, ji_JobId j); (12%nat, ji_State j); (10%nat, ji_User j); (15%nat, ji_WorkerNode j);
            (6%nat, Itoa (ji_Priority j));
            (12%nat, if String.eqb (ji_GroupId j) "" then "-" else ji_GroupId j)]
    (shorten 25 (ji_Command j)).

Definition listJobs (answer : client (list JobInfo)) : outcome :=
  match answer with
  | inr err => fails ("Failed to list jobs: " +:+ err)
  | inl [] => prints (line "No jobs found.")
  | inl jobs => prints (
      list_row [(14%nat, "JOB_ID"); (12%nat, "STATE"); (10%nat, "USER"); (15%nat, "WORKER"); (6%nat, "PRI");
                (12%nat, "GROUP")] "COMMAND" +:+
      line (Repeat "-" 100) +:+ concat_all (map job_row jobs))
  end.

(** The jobs of the dead letter queue: from the master, from the local database
    when the master does not answer, or the failed jobs when there is none. *)
Definition dead_row (j : JobInfo) : string :=
  list_row [(14%nat, ji_JobId j); (12%nat, ji_State j); (10%nat, ji_User j); (15%nat, ji_WorkerNode j)]
    (shorten 25 (ji_Command j)).
Definition dead_stored_row (j : Job) : string :=
  list_row [(10%nat, Job.ID j); (10%nat, Job.User j); (6%nat, Itoa (Job.RetryCount j))]
    (shorten 30 (Job.Error j)).

Definition dead_header (n : nat) : string :=
  line ("--- Dead Letter Queue (" +:+ Itoa (Z.of_nat n) +:+ " jobs) ---").

(** [store]: [None] when the database cannot be opened, then the jobs of its
    dead letter bucket, which is empty too when it cannot be read. *)
Definition failed_run (answer : client (list JobInfo)) (store : option (list Job))
    (failed : client (list JobInfo)) : outcome :=
  match answer with
  | inl [] => prints (line "No dead letter jobs found.")
  | inl jobs => prints (dead_header (length jobs) +:+
      list_row [(14%nat, "JOB_ID"); (12%nat, "STATE"); (10%nat, "USER"); (15%nat, "WORKER")] "COMMAND" +:+
      line (Repeat "-" 70) +:+ concat_all (map dead_row jobs))
  | inr _ =>
      match store with
      | None => listJobs failed
      | Some [] => prints (line "No dead letter jobs found.")
      | Some jobs => prints (dead_header (length jobs) +:+
          list_row [(10%nat, "JOB_ID"); (10%nat, "USER"); (6%nat, "TRIES")] "ERROR" +:+
          line (Repeat "-" 60) +:+ concat_all (map dead_stored_row jobs))
      end
  end.

(** ** nodes *)

(** [%v] of a float64: the shortest digits, with an exponent below 1e-4 and from
    1e6 on ([strconv]'s format g with the shortest precision). *)
Definition exponent_text (e : Z) : string :=
  (if e <? 0 then "-" else "+") +:+ pad_zeros 2 (Itoa (Z.abs e)).

Definition fmt_g (x : float64.t) : string :=
  match x with
  | S754_zero s => if s then "-0" else "0"
  | S754_infinity s => if s then "-Inf" else "+Inf"
  | S754_nan => "NaN"
  | S754_finite s m e =>
      let num := if 0 <=? e then Zpos m * 2 ^ e else Zpos m in
      let den := if 0 <=? e then 1 else 2 ^ (- e) in
      let k := float_text.log10 8 num den ((Z.log2 num - Z.log2 den) * 301 / 1000 - 2) in
      let '(d, ex) := float_text.shortest 16 1 (S754_finite false m e) num den k in
      let ds := Itoa d in
      let len := Z.of_nat (String.length ds) in
      let point := len + ex in
      let exp := point - 1 in
      (if s then "-" else "") +:+
      (if (exp <? -4) || (6 <=? exp) then
         String.substring 0 1 ds +:+
         (if len <=? 1 then "" else "." +:+ String.substring 1 (String.length ds) ds) +:+
         "e" +:+ exponent_text exp
       else if 0 <=? ex then ds +:+ float_text.zeros (Z.to_nat ex)
       else if 0 <? point then
         String.substring 0 (Z.to_nat point) ds +:+ "." +:+
         String.substring (Z.to_nat point) (String.length ds) ds
       else "0." +:+ float_text.zeros (Z.to_nat (- point)) +:+ ds)
  end.

Definition entry_le (a b : string * string) : Prop := String.leb a.1 b.1 = true.
#[export] Instance entry_le_dec : RelDecision entry_le.
Proof. intros a b. unfold entry_le. apply _. Defined.
Definition sort_keys (m : gmap string string) : list (string * string) :=
  merge_sort entry_le (map_to_list m).

(** [%v] of a decoded value: numbers as float64, the keys of a map sorted. *)
Fixpoint sprint_v (v : json) : string :=
  match v with
  | JNull => "<nil>"
  | JBool b => if b then "true" else "false"
  | JNum t => match ParseFloat t with Some x => fmt_g x | None => "<nil>" end
  | JStr s => s
  | JArr l => "[" +:+ Join (map sprint_v l) " " +:+ "]"
  | JObj m => "map[" +:+ Join (map (λ '(k, v), k +:+ ":" +:+ v)
      (sort_keys (list_to_map (rev (map (λ '(k, v), (k, sprint_v v)) m))))) " " +:+ "]"
  end.

Section Nodes.
Context `{GoArch} `{MapOrder}.

(** [p["key"]] printed with [%v] *)
Definition field_v (p : option (gmap string json)) (key : string) : string :=
  sprint_v (default JNull (map_get p key)).

Definition get_array (p : option (gmap string json)) (key : string) : option (list json) :=
  match map_get p key with Some (JArr l) => Some l | _ => None end.

Definition gpu_line (mems : option (list json)) (i : nat) (m : json) : string :=
  line ("    GPU " +:+ Itoa (Z.of_nat i) +:+ ": " +:+ sprint_v m +:+
    match mems ≫= (λ l, l !! i) with Some x => " (" +:+ sprint_v x +:+ "MB)" | None => "" end).

Definition node_text (nodeID ad : string) : string :=
  let '(p, ok) := Unmarshal_map ad in
  if negb ok then line ("Node: " +:+ nodeID) +:+ line ("  ClassAd: " +:+ ad)
  else
    let gpuCount := match map_get p "gpu_count" with
      | Some (JNum t) => match ParseFloat t with Some x => int_of_float x | None => 0 end
      | _ => 0
      end in
    line ("Node: " +:+ nodeID) +:+
    line ("  OS: " +:+ field_v p "os" +:+ " | Arch: " +:+ field_v p "architecture" +:+
      " | Cores: " +:+ field_v p "cpu_cores" +:+ " | Memory: " +:+ field_v p "total_memory_mb" +:+
      "MB | GPUs: " +:+ Itoa gpuCount) +:+
    when_text (0 <? gpuCount)
      (match get_array p "gpu_models" with
       | Some models => concat_all (imap (gpu_line (get_array p "gpu_memory_mb")) models)
       | None => ""
       end +:+
       let amd := String.eqb (default "" (get_string p "gpu_vendor")) "amd" in
       let ver := default "" (get_string p (if amd then "rocm_version" else "cuda_version")) in
       when_text (negb (String.eqb ver ""))
         (line ("    " +:+ (if amd then "ROCm" else "CUDA") +:+ ": " +:+ ver))).

Definition nodes_run (answer : client (gmap string string)) : outcome :=
  match answer with
  | inr err => fails ("Failed to get cluster status: " +:+ err)
  | inl workerNodes =>
      prints (line "--- Cluster Nodes ---" +:+
        if decide (workerNodes = ∅) then line "No active workers found."
        else concat_all (map (λ '(nodeID, ad), node_text nodeID ad) (range workerNodes)))
  end.
End Nodes.

Example fmt_g1 : fmt_g (float64.of_Z 16384) = "16384". Proof. vm_compute. reflexivity. Qed.
Example fmt_g2 : fmt_g (float64.of_Z 1048576) = "1.048576e+06". Proof. vm_compute. reflexivity. Qed.
Example fmt_g3 : fmt_g (float64.of_ratio false 5 2) = "2.5". Proof. vm_compute. reflexivity. Qed.
Example sprint1 : sprint_v (JObj [("b", JArr [JNum "1"; JStr "x"]); ("a", JNull)]) = "map[a:<nil> b:[1 x]]".
Proof. vm_compute. reflexivity. Qed.
Example rfc1 : Format_RFC3339 (H:=utc) (of_Unix 1709210096) = "2024-02-29T12:34:56Z".
Proof. vm_compute. reflexivity. Qed.
Example clock1 : Format_clock (H:=utc) (of_UnixMilli 1709210096007) = "12:34:56.007".
Proof. vm_compute. reflexivity. Qed.
Example env1 : parseEnvFlags ["A=1"; "B=x=y"; "C"; "A=2"] = {["A" := "2"; "B" := "x=y"]}.
Proof. vm_compute. reflexivity. Qed.
