(* ===== verification/Submission.v ===== *)
(** * From the command line into the queue

    The request that `tasch jobs submit` builds, handled by the master: which
    answer it gets in which state, and what is tracked afterwards. *)

From S2P Require Import Prelude GoStd GoJson GoTime GoText GoHeap Queue QueueFacts SchedulerSpec.
From S2P Require Import QueueProps JobTable Messaging Fairshare CircuitBreaker Tracker Matchmaker.
From S2P Require Import Store Config GoRegexp World Server Dispatch Master Hoare Panics Demo Restart Cli.
Import GlobalScheduler (objs, gobjs, queue, jobs, groups, MaxQueueSize, OnJobChange,
  OnGroupChange, dbWriteChan).
#[local] Open Scope string_scope.
#[local] Open Scope list_scope.
#[local] Open Scope Z_scope.

Section Submission.
Context {C : CEL} {B : Bolt} `{GoArch} `{Zone} `{MapOrder}.

Definition queue_full (gs : GlobalScheduler) : bool :=
  (0 <? MaxQueueSize gs) && (MaxQueueSize gs <=? Z.of_nat (QueueLen gs)).

(** The ID the next job gets and the job made of the flags and arguments. *)
Definition next_id (w : World) : string := String.substring 0 8 (uuids w (uuid_count w)).
Definition job_of_flags (f : submit_flags) (expression command : string) (w : World) : Job :=
  let user := default_user (submitUser f) in
  submitted_job (submit_request f expression command) (next_id w) user
    (default_priority (submitPriority f) +ᵢ CalculatePenalty user (fairshare w))
    (Config.MaxRetries (cfg w)) (clock w (ticks w)).

(** A submission the master accepts. *)
Lemma submission_accepted f expression command w : heap_inv (sched w) →
  draining w = false → queue_full (sched w) = false →
  ∃ w', SubmitJob (submit_request f expression command) w =
    Some (inl {| sjr_JobId := next_id w; sjr_Status := "QUEUED" |}, w') ∧ heap_inv (sched w') ∧
    (∃ j, GetJob (next_id w) (sched w') = Some j ∧ Job.State j = StateQueued ∧
      descriptor j = descriptor (job_of_flags f expression command w)) ∧
    ∀ id, id ≠ next_id w → asked (sched w') id = asked (sched w) id.
Proof.
  intros HI Ed Ef. unfold SubmitJob. unfold mbind at 1, M_bind at 1, gets at 1. rewrite Ed.
  rewrite (bind_runs _ _ _ _ _ (uuid_New_eq w)). cbv zeta. unfold mbind at 1, M_bind at 1, gets at 1.
  rewrite (bind_runs _ _ _ _ _ (time_Now_eq _)). unfold mbind at 1, M_bind at 1, gets at 1.
  rewrite submission_runs.
  lazymatch goal with |- context [new_job ?j ?gs] =>
    change j with (job_of_flags f expression command w); change gs with (sched w) end.
  pose proof (enqueue_new (job_of_flags f expression command w) (sched w) HI) as HE.
  pose proof (enqueue_state (job_of_flags f expression command w) (sched w) (next_id w) HI) as HS.
  pose proof (heap_inv_step (OEnqueue (job_of_flags f expression command w)) (sched w) HI) as HI'. cbn [exec_op] in HI'.
  assert (HID : Job.ID (job_of_flags f expression command w) = next_id w)
    by (unfold job_of_flags, submitted_job; by destruct (parseCELRequirement _)).
  rewrite HID in *. destruct (new_job _ _) as [l gs0]. cbn [fst snd] in *.
  destruct (Enqueue l gs0) as [e gs']. destruct HE as (_ & _ & _ & He & HA).
  fold (QueueLen (sched w)) in He. fold (queue_full (sched w)) in He. rewrite Ef in He. subst e. cbn [fst snd] in *.
  rewrite decide_True in HS by done. unfold observe at 1. rewrite (M_bind_Some _ _ _ _ _ eq_refl).
  rewrite (bind_runs _ _ _ _ _ (appendLog_eq _ _ _ _)). eexists. split; [reflexivity|].
  change (sched (logged _ _ _ _)) with gs'. split; [exact HI'|]. split.
  - specialize (HA (next_id w)). rewrite decide_True in HA by done. unfold asked in HA.
    destruct (GetJob (next_id w) gs') as [j|]; [|done]. exists j.
    by apply (inj Some) in HA; apply (inj Some) in HS.
  - intros id Hid. by rewrite HA, decide_False.
Qed.

(** ** What was asked for

    Field by field, and without the code that builds the request and the job. *)

Definition no_equals (k : string) : Prop := ∀ a b, k ≠ a +:+ "=" +:+ b.

(** The last of the flags that sets [k] sets it to [v]. *)
Definition last_setting (flags : list string) (k v : string) : Prop := no_equals k ∧
  ∃ before after, flags = before ++ (k +:+ "=" +:+ v) :: after ∧ ∀ v', (k +:+ "=" +:+ v') ∉ after.

Record as_asked (f : submit_flags) (expression command : string) (w : World) (j : Job) : Prop := {
  aa_command : Job.Command j = command;
  aa_requirement : Job.Requirement j = expression;
  aa_hints : (Job.CPUsRequired j, Job.MemoryRequiredMB j) = parseCELRequirement expression;
  aa_gpus : Job.GPUsRequired j = submitGPUs f;
  aa_walltime : Job.WalltimeSeconds j = submitWalltime f;
  aa_user : Job.User j = if decide (submitUser f = "") then "anonymous" else submitUser f;
  aa_priority : Job.Priority j = (if decide (submitPriority f = 0) then 10 else submitPriority f) +ᵢ
    match FairshareCalculator.UserUsage (fairshare w) !! Job.User j with
    | Some usage => int_of_float (float64.div usage (float64.of_Z 100))
    | None => 0
    end;
  aa_env k v : default ∅ (Job.EnvVars j) !! k = Some v ↔ last_setting (submitEnvVars f) k v;
  aa_retries : Job.MaxRetries j = Config.MaxRetries (cfg w);
  aa_time : Job.SubmitTime j = clock w (ticks w);
  aa_group : Job.GroupID j = ""
}.

Lemma Cut_equals k v : no_equals k → Cut (k +:+ "=" +:+ v) "=" = Some (k, v).
Proof.
  induction k as [|c k IH]; intros Hk; [done|]. cbn [Cut String.append].
  destruct (strip "=" (String c (k +:+ String "=" v))) as [r|] eqn:E.
  - apply strip_Some in E. injection E as -> _. by destruct (Hk "" k).
  - change (String "=" v) with ("=" +:+ v). rewrite IH; [done|]. intros a b ->. by destruct (Hk (String c a) b).
Qed.

Lemma Cut_no_equals k : Cut k "=" = None → no_equals k.
Proof.
  intros Hk a b ->. enough (is_Some (Cut (a +:+ "=" +:+ b) "=")) as [x E] by (rewrite E in Hk; done).
  clear Hk. induction a as [|c a [[k v] IH]]; [by eexists|]. cbn [Cut String.append] in *.
  destruct (strip "=" _); [by eexists|]. rewrite IH. by eexists.
Qed.

(** A flag that sets a variable. *)
Lemma setting e k v : SplitN e "=" 2 = [k; v] ↔ no_equals k ∧ e = k +:+ "=" +:+ v.
Proof.
  unfold SplitN. cbn [cuts Nat.sub]. split.
  - destruct (Cut e "=") as [[k' v']|] eqn:E; [|done]. intros [= <- <-].
    split; [by eapply Cut_no_equals, Cut_first|by apply Cut_Some].
  - intros [Hk ->]. by rewrite Cut_equals.
Qed.

Lemma split_two e : (∃ k v, SplitN e "=" 2 = [k; v]) ∨ SplitN e "=" 2 = [e].
Proof. unfold SplitN. cbn [cuts Nat.sub]. destruct (Cut e "=") as [[k v]|]; [left; by exists k, v|by right]. Qed.

Lemma settings_same k k' v v' : no_equals k → no_equals k' → k +:+ "=" +:+ v = k' +:+ "=" +:+ v' → k = k' ∧ v = v'.
Proof.
  intros Hk Hk' E. pose proof (Cut_equals k v Hk) as E1. rewrite E, Cut_equals in E1 by done.
  by injection E1 as -> ->.
Qed.

Lemma parseEnvFlags_last flags k v : parseEnvFlags flags !! k = Some v ↔ last_setting flags k v.
Proof.
  induction flags as [|e flags IH] using rev_ind.
  { split; [done|]. intros (_ & [|] & after & E & _); discriminate E. }
  unfold parseEnvFlags in *. rewrite fold_left_app. cbn [fold_left].
  assert (Hother : (∀ v', no_equals k → e ≠ k +:+ "=" +:+ v') → last_setting flags k v ↔ last_setting (flags ++ [e]) k v).
  { intros He. split; intros (Hk & before & after & E & Ha); (split; [done|]).
    - exists before, (after ++ [e]). rewrite E, <- app_assoc. split; [done|]. intros v'.
      rewrite elem_of_app, list_elem_of_singleton. intros [?|He']; [by apply (Ha v')|]. by apply (He v').
    - destruct after as [|x after] using rev_ind; [apply app_inj_tail in E as [_ ->]; by destruct (He v)|].
      rewrite app_comm_cons, app_assoc in E. apply app_inj_tail in E as [-> ->]. exists before, after.
      split; [done|]. intros v' Hv'. apply (Ha v'). apply elem_of_app. by left. }
  destruct (split_two e) as [(k1 & v1 & E)|E].
  - rewrite E. apply setting in E as [Hk1 ->]. destruct (decide (k1 = k)) as [->|Hne].
    + rewrite lookup_insert_eq. split.
      * intros [= ->]. split; [done|]. exists flags, []. split; [done|]. by intros v' ?%not_elem_of_nil.
      * intros (_ & before & after & E & Ha). destruct after as [|x after _] using rev_ind.
        -- apply app_inj_tail in E as [_ E]. f_equal. by apply settings_same in E as [_ ->].
        -- rewrite app_comm_cons, app_assoc in E. apply app_inj_tail in E as [_ E]. exfalso.
           apply (Ha v1). rewrite E. apply elem_of_app. right. left.
    + rewrite lookup_insert_ne by done. rewrite IH. apply Hother. intros v' Hk E. by apply settings_same in E as [-> _].
  - rewrite E. rewrite IH. apply Hother. intros v' Hk ->.
    assert (SplitN (k +:+ "=" +:+ v') "=" 2 = [k; v']) as E' by (by apply setting). rewrite E' in E. discriminate E.
Qed.

Lemma sent_settings flags k v : default ∅ (sent_map (parseEnvFlags flags)) !! k = Some v ↔ last_setting flags k v.
Proof.
  rewrite <- parseEnvFlags_last. unfold sent_map. destruct (decide (parseEnvFlags flags = ∅)) as [->|]; [|done].
  by rewrite !lookup_empty.
Qed.

Lemma setting_alone k v : no_equals k → last_setting [k +:+ "=" +:+ v] k v.
Proof. intros Hk. split; [done|]. exists [], []. split; [done|]. by intros v' ?%not_elem_of_nil. Qed.

(** The job that is built is the one that was asked for. *)
Lemma job_as_asked f expression command w j :
  descriptor j = descriptor (job_of_flags f expression command w) → as_asked f expression command w j.
Proof.
  unfold job_of_flags, submitted_job. cbn [submit_request sj_CelRequirement].
  destruct (parseCELRequirement expression) as [cpus mem] eqn:Eh. unfold descriptor. cbn.
  intros [= Hid Hr Hc Ht Hp Hu Hw Hg Hcpu Hmem Henv Hret Hgr]. split; try done.
  - by rewrite Eh, Hcpu, Hmem.
  - rewrite Hu. unfold default_user. by destruct (String.eqb_spec (submitUser f) ""), (decide (submitUser f = "")).
  - rewrite Hp, Hu. unfold default_priority, CalculatePenalty.
    by destruct (Z.eqb_spec (submitPriority f) 0), (decide (submitPriority f = 0)).
  - intros k v. rewrite Henv. apply sent_settings.
Qed.

(** C14: `tasch jobs submit`, on every branch, for a master whose scheduler has its
    heap invariant (every reachable one has): a draining master refuses and
    nothing changes; a full queue refuses and no job's descriptor changes;
    otherwise the answer is the new ID with QUEUED, that job is tracked and QUEUED,
    and is what was asked for: the command, the requirement and the hints in it, the
    GPUs and the walltime as typed; the user as typed or "anonymous"; the priority
    as typed, or 10 for none, plus a hundredth of the user's recorded usage; for each
    variable the value of the last flag that sets it, split at the first "="; the
    configured number of retries.  No other job's descriptor changes. *)
Theorem submit_answers f expression command w : heap_inv (sched w) →
  match SubmitJob (submit_request f expression command) w with
  | Some (inr (Unavailable, _), w') => draining w = true ∧ w' = w
  | Some (inr (ResourceExhausted, _), w') => draining w = false ∧ queue_full (sched w) = true ∧
      ∀ id, asked (sched w') id = asked (sched w) id
  | Some (inl resp, w') => draining w = false ∧ queue_full (sched w) = false ∧
      resp = {| sjr_JobId := next_id w; sjr_Status := "QUEUED" |} ∧
      (∃ j, GetJob (next_id w) (sched w') = Some j ∧ Job.State j = StateQueued ∧
        as_asked f expression command w j) ∧
      ∀ id, id ≠ next_id w → asked (sched w') id = asked (sched w) id
  | _ => False
  end.
Proof.
  intros HI. destruct (draining w) eqn:Ed.
  { unfold SubmitJob. unfold mbind at 1, M_bind at 1, gets at 1. by rewrite Ed. }
  destruct (queue_full (sched w)) eqn:Ef.
  2:{ destruct (submission_accepted f expression command w HI Ed Ef) as (w' & -> & _ & (j & Hj & Hs & Hd) & Hn).
    split_and!; [done..| |done]. exists j. split; [done|]. split; [done|]. by apply job_as_asked. }
  unfold SubmitJob. unfold mbind at 1, M_bind at 1, gets at 1. rewrite Ed.
  rewrite (bind_runs _ _ _ _ _ (uuid_New_eq w)). cbv zeta. unfold mbind at 1, M_bind at 1, gets at 1.
  rewrite (bind_runs _ _ _ _ _ (time_Now_eq _)). unfold mbind at 1, M_bind at 1, gets at 1.
  rewrite submission_runs.
  lazymatch goal with |- context [new_job ?j ?gs] =>
    change j with (job_of_flags f expression command w); change gs with (sched w) end.
  pose proof (enqueue_new (job_of_flags f expression command w) (sched w) HI) as HE.
  destruct (Enqueue _ _) as [e gs']. destruct HE as (_ & _ & _ & He & HA).
  fold (QueueLen (sched w)) in He. fold (queue_full (sched w)) in He. rewrite Ef in He. subst e. cbv iota.
  by split_and!.
Qed.
End Submission.

Section Witnesses.
#[local] Existing Instances toy_cel bolt_map amd64 utc map_order_canonical.

Definition typed_flags : submit_flags := {|
  submitPriority := 0; submitUser := ""; submitWalltime := 60; submitGPUs := 1; submitEnvVars := ["EPOCHS=3"] |}.

Definition typed_request : SubmitJobRequest := submit_request typed_flags "has:cpu_cores" "train.sh".

Lemma typed_accepted :
  match SubmitJob typed_request demo_master with Some (inl _, _) => true | _ => false end = true.
Proof. vm_compute. reflexivity. Qed.

Lemma submit_answers_witness : ∃ w' j, SubmitJob typed_request demo_master =
    Some (inl {| sjr_JobId := next_id demo_master; sjr_Status := "QUEUED" |}, w') ∧
  GetJob (next_id demo_master) (sched w') = Some j ∧ Job.Command j = "train.sh" ∧ Job.WalltimeSeconds j = 60 ∧
  Job.Priority j = 10 ∧ last_setting ["EPOCHS=3"] "EPOCHS" "3".
Proof.
  assert (HI : heap_inv (sched demo_master)).
  { apply (reachable_holds demo_clock DefaultConfig ∅ demo_clock demo_uuids []). constructor. }
  pose proof (submit_answers typed_flags "has:cpu_cores" "train.sh" demo_master HI) as HS.
  fold typed_request in HS. pose proof typed_accepted as HT.
  destruct (SubmitJob typed_request demo_master) as [[[resp|] w']|]; [|discriminate HT..].
  destruct HS as (_ & _ & -> & (j & Hj & _ & Hd) & _). exists w', j. split; [reflexivity|]. split; [exact Hj|].
  split; [exact (aa_command _ _ _ _ _ Hd)|]. split; [exact (aa_walltime _ _ _ _ _ Hd)|]. split.
  - rewrite (aa_priority _ _ _ _ _ Hd), (aa_user _ _ _ _ _ Hd). vm_compute. reflexivity.
  - apply (setting_alone "EPOCHS" "3"). apply Cut_no_equals. reflexivity.
Defined.
End Witnesses.
