(* ===== verification/Setup.v ===== *)
(** * internal/setup: the setup wizard

    The interactive wizard reads its answers from standard input, given as the
    text still to be read; the non-interactive one takes flags.  What they print
    is left out, but for the hardware report. *)

From S2P Require Import Prelude GoStd GoJson GoText Config Discovery Profiler.
#[local] Open Scope string_scope.
#[local] Open Scope list_scope.
#[local] Open Scope Z_scope.

(** ** Reading answers *)

(** [reader.ReadString('\n')]: up to and with the newline, or all there is. *)
Definition ReadString (input : string) : string * string :=
  match Cut input newline with
  | Some (l, rest) => (l +:+ newline, rest)
  | None => (input, "")
  end.

(** The answer and what is left of the input. *)
Definition prompt (input defaultVal : string) : string * string :=
  let '(l, rest) := ReadString input in
  let answer := TrimSpace l in
  (if String.eqb answer "" then defaultVal else answer, rest).

Definition promptChoice : string → string → string * string := prompt.

Definition promptInt (input : string) (defaultVal : Z) : Z * string :=
  let '(s, rest) := prompt input (Itoa defaultVal) in
  (match Atoi s with (v, true) => v | _ => defaultVal end, rest).

(** [for cfg.MasterAddr == "" { ... }]: [None] when it never ends, which is when
    the input is used up. *)
Fixpoint require_addr (n : nat) (addr input : string) : option (string * string) :=
  if negb (String.eqb addr "") then Some (addr, input)
  else
    match n with
    | O => None
    | S n => let '(addr, rest) := prompt input "" in require_addr n addr rest
    end.

(** ** The wizards *)

Definition role_of (choice : string) : string :=
  if String.eqb choice "1" then "master" else if String.eqb choice "2" then "worker" else "both".

(** Every turn of the loop reads a line: as many turns as the input has bytes,
    and one at its end, tell whether it ends. *)
Definition RunInteractive (hostname : string) (addrs : option (list if_addr)) (input : string) :
    option Config :=
  let '(choice, input) := promptChoice input "3" in
  let cfg := DefaultConfig <| Config.Role := role_of choice |> in
  let '(name, input) := prompt input hostname in
  let cfg := cfg <| Config.NodeName := name |> in
  let localIP := GetLocalIP addrs in
  let localIP := if String.eqb localIP "" then "127.0.0.1" else localIP in
  '(addr, input) ←
    (if String.eqb (Config.Role cfg) "worker" then
       let '(addr, input) := prompt input "" in require_addr (S (String.length input)) addr input
     else Some (prompt input localIP));
  let '(gossip, input) := promptInt input 7946 in
  let '(grpc, input) := promptInt input 50051 in
  let '(zmq, input) := promptInt input 5555 in
  Some (cfg <| Config.MasterAddr := addr |>
    <| Config.Ports := PortConfig.mk gossip grpc zmq (PortConfig.Metrics (Config.Ports cfg)) |>).

Definition RunNonInteractive (hostname : string) (addrs : option (list if_addr))
    (role nodeName masterAddr : string) (gossipPort grpcPort zmqPort : Z) : Config + string :=
  let cfg := DefaultConfig in
  let cfg := if String.eqb role "" then cfg else cfg <| Config.Role := role |> in
  let cfg := cfg <| Config.NodeName := if String.eqb nodeName "" then hostname else nodeName |> in
  let cfg :=
    if negb (String.eqb masterAddr "") then cfg <| Config.MasterAddr := masterAddr |>
    else if negb (String.eqb (Config.Role cfg) "worker") then cfg <| Config.MasterAddr := GetLocalIP addrs |>
    else cfg in
  let port flag old := if 0 <? flag then flag else old in
  let p := Config.Ports cfg in
  let cfg := cfg <| Config.Ports := PortConfig.mk (port gossipPort (PortConfig.Gossip p))
    (port grpcPort (PortConfig.GRPC p)) (port zmqPort (PortConfig.ZMQ p)) (PortConfig.Metrics p) |> in
  if String.eqb (Config.Role cfg) "worker" && String.eqb (Config.MasterAddr cfg) ""
  then inr "--master-addr is required for worker role"
  else inl cfg.

(** ** The hardware report *)

Section Report.
Context `{Host}.

Definition gpu_entry (memory : list Z) (i : nat) (model : string) : string :=
  "    GPU " +:+ Itoa (Z.of_nat i) +:+ ": " +:+ model +:+
  match memory !! i with Some m => " (" +:+ Itoa m +:+ "MB)" | None => "" end +:+ newline.

(** [g] is what DetectGPUs finds; the errors of gopsutil are ignored. *)
Definition printHardware (g : GPUs) : string :=
  "  Detected hardware:" +:+ newline +:+
  "    CPU:  " +:+ Itoa cpu_Counts +:+ " cores (" +:+
    match cpu_Info with inl (m :: _) => m | _ => "Unknown" end +:+ ")" +:+ newline +:+
  match VirtualMemory with
  | inl (total, _) => "    RAM:  " +:+ Itoa (total / 1024 / 1024 / 1024) +:+ "GB" +:+ newline
  | inr _ => ""
  end +:+
  (if 0 <? GPUs.count g then
     foldr (λ s t, s +:+ t) "" (imap (gpu_entry (GPUs.memoryMB g)) (GPUs.models g)) +:+
     (if String.eqb (GPUs.version g) "" then ""
      else "    " +:+ (if String.eqb (GPUs.vendor g) "amd" then "ROCm" else "CUDA") +:+ ": " +:+
           GPUs.version g +:+ newline)
   else
     "    GPU:  None detected" +:+ newline +:+
     match LookPath "nvidia-smi", LookPath "rocm-smi" with
     | None, None => "          (nvidia-smi and rocm-smi not found)" +:+ newline
     | _, _ => ""
     end) +:+
  "    OS:   " +:+ GOOS +:+ "/" +:+ GOARCH +:+ newline +:+ newline.
End Report.

Definition eol (l : list string) : string := Join l newline +:+ newline.
Example wizard1 : RunInteractive "box" None (eol ["2"; ""; ""; "  "; "10.0.0.1"; "7000"; "x"]) =
  Some (DefaultConfig <| Config.Role := "worker" |> <| Config.NodeName := "box" |>
    <| Config.MasterAddr := "10.0.0.1" |> <| Config.Ports := PortConfig.mk 7000 50051 5555 9090 |>).
Proof. vm_compute. reflexivity. Qed.
Example wizard2 : RunInteractive "box" None (eol ["2"; "w1"; ""]) = None.
Proof. vm_compute. reflexivity. Qed.

(** ** When the wizard ends *)

(** The lines of the input after [n] of them were read. *)
Fixpoint after_lines (n : nat) (input : string) : string :=
  match n with O => input | S n => after_lines n (ReadString input).2 end.

(** The answer of the [n]th line still to be read. *)
Definition answer (n : nat) (input : string) : string := TrimSpace (ReadString (after_lines n input)).1.

Lemma ReadString_shrinks input : input ≠ "" → (String.length (ReadString input).2 < String.length input)%nat.
Proof.
  unfold ReadString. intros Hne. destruct (Cut input newline) as [[l rest]|] eqn:E; cbn [snd].
  - apply Cut_Some in E as ->. rewrite !str_app_length. cbn. lia.
  - destruct input; [done|cbn; lia].
Qed.

Lemma after_end n : after_lines n "" = "".
Proof. induction n as [|n IH]; [done|exact IH]. Qed.

Lemma require_addr_ends n input : (String.length input < n)%nat →
  is_Some (require_addr n "" input) ↔ ∃ k, answer k input ≠ "".
Proof.
  revert input. induction n as [|n IH]; intros input Hn; [lia|]. cbn [require_addr String.eqb negb].
  unfold prompt. destruct (ReadString input) as [l rest] eqn:E.
  assert (Ha : answer 0 input = TrimSpace l) by (unfold answer; cbn [after_lines]; by rewrite E).
  assert (Hs : ∀ k, answer (S k) input = answer k rest) by (intros k; unfold answer; cbn [after_lines]; by rewrite E).
  destruct (String.eqb_spec (TrimSpace l) "") as [Hb|Hb].
  - destruct (decide (input = "")) as [->|Hne].
    + split.
      * assert (rest = "") as -> by (unfold ReadString in E; cbn in E; congruence).
        clear. induction n as [|n IH]; [by intros [? ?]|exact IH].
      * intros [k Hk]. destruct Hk. unfold answer. by rewrite after_end.
    + pose proof (ReadString_shrinks input Hne) as Hl. rewrite E in Hl. cbn [snd] in Hl.
      rewrite IH by lia. split.
      * intros [k Hk]. exists (S k). by rewrite Hs.
      * intros [[|k] Hk]; [congruence|]. exists k. by rewrite <- Hs.
  - assert (HR : require_addr n (TrimSpace l) rest = Some (TrimSpace l, rest)).
    { destruct n; cbn [require_addr]; by rewrite (proj2 (String.eqb_neq _ _) Hb). }
    rewrite HR. split; [intros _; exists 0%nat; congruence|by eexists].
Qed.

Lemma first_address_ends input :
  is_Some (let '(addr, rest) := prompt input "" in require_addr (S (String.length rest)) addr rest) ↔
    ∃ k, answer k input ≠ "".
Proof.
  pose proof (require_addr_ends (S (String.length input)) input ltac:(lia)) as HE.
  cbn [require_addr String.eqb negb] in HE. unfold prompt in *. destruct (ReadString input) as [l rest] eqn:E.
  assert (Ha : answer 0 input = TrimSpace l) by (unfold answer; cbn [after_lines]; by rewrite E).
  destruct (String.eqb_spec (TrimSpace l) "") as [Hb|Hb].
  - rewrite require_addr_ends by lia. split; intros [k Hk].
    + exists (S k). unfold answer in *. cbn [after_lines]. by rewrite E.
    + destruct k as [|k]; [congruence|]. exists k. unfold answer in *. cbn [after_lines] in Hk. by rewrite E in Hk.
  - cbn [require_addr]. rewrite (proj2 (String.eqb_neq _ _) Hb). split; [intros _; exists 0%nat; congruence|by eexists].
Qed.

(** The interactive wizard ends with a configuration exactly when it does not
    set up a worker or some answer from the third on is not blank: a worker's
    master address is asked for again until it is given, and at the end of the
    input for ever. *)
Theorem wizard_ends hostname addrs input :
  is_Some (RunInteractive hostname addrs input) ↔
    role_of (prompt input "3").1 ≠ "worker" ∨ ∃ k, answer (2 + k) input ≠ "".
Proof.
  unfold RunInteractive, promptChoice.
  assert (HP : ∀ s d, prompt s d = ((prompt s d).1, (ReadString s).2)).
  { intros s d. unfold prompt. by destruct (ReadString s). }
  rewrite (HP input "3"). cbn [fst]. set (i1 := (ReadString input).2).
  rewrite (HP i1 hostname). set (i2 := (ReadString i1).2).
  change (Config.Role (_ <| Config.NodeName := _ |>)) with (role_of (prompt input "3").1).
  assert (HT : ∀ (o : option (string * string)) (f : string → Z → Z → Z → Config),
    is_Some ('(addr, input0) ← o; let '(gossip, input) := promptInt input0 7946 in
      let '(grpc, input) := promptInt input 50051 in let '(zmq, _) := promptInt input 5555 in
      Some (f addr gossip grpc zmq)) ↔ is_Some o).
  { intros [[addr r]|] f; cbn; [|done]. destruct (promptInt r 7946) as [g r1], (promptInt r1 50051) as [h r2],
      (promptInt r2 5555). by split; eexists. }
  rewrite HT. assert (Hans : ∀ k, answer (2 + k) input = answer k i2) by done.
  destruct (String.eqb_spec (role_of (prompt input "3").1) "worker") as [Hw|Hw].
  2:{ split; [by left|by eexists]. }
  cbn [fst]. rewrite (first_address_ends i2). split.
  - intros [k Hk]. right. exists k. by rewrite Hans.
  - intros [?|[k Hk]]; [done|]. exists k. by rewrite <- Hans.
Qed.
