(* ===== verification/Process.v ===== *)
(** * The process: cmd/tasch/main.go, internal/daemon/stop.go, starting and
    stopping the master

    [start_master] is StartMaster with what it opens and closes; [start_run] the
    `tasch start` command up to the point where the process waits for a signal,
    [drain_loop] and [shutdown_calls] what it does after one; [StopDaemon] the other
    side, `tasch stop`.  The file system is the map of the files' contents; a
    path that cannot be written keeps its file. *)

From S2P Require Import Prelude GoStd GoText GoTime Queue Messaging Matchmaker Store Config World Server Master.
From S2P Require Import Dispatch Discovery Worker Setup Persist.
#[local] Open Scope string_scope.
#[local] Open Scope list_scope.
#[local] Open Scope Z_scope.

(** ** StartMaster's resources *)

Inductive master_call :=
  | OpenDB (path : string)
  | CloseDB
  | CleanDB
  | CreateList (bindPort : Z)
  | ShutdownList
  | BindPublisher (endpoint : string)
  | ClosePublisher
  | ServeMetrics (port : Z)
  | Goroutines
  | CancelContext
  | ListenGRPC (addr : string)
  | GracefulStop.

(** ** internal/store: opening the database

    What the file system and bbolt answer. *)
Record OpenAnswers {B : Bolt} := {
  oa_MkdirAll : string → option string;
  oa_Open : string → DB + string;
  oa_CreateBucketIfNotExists : string → DB → DB + string
}.

(** [filepath.Dir] *)
Definition Dir (path : string) : string :=
  Clean (String.substring 0 (Z.to_nat (LastIndex path "/" + 1)) path).

Section Open.
Context {B : Bolt}.

(** One transaction: the first bucket that cannot be created ends it. *)
Fixpoint create_buckets (oa : OpenAnswers) (buckets : list string) (db : DB) : DB + string :=
  match buckets with
  | [] => inl db
  | b :: buckets =>
      match oa_CreateBucketIfNotExists oa b db with
      | inr err => inr err
      | inl db => create_buckets oa buckets db
      end
  end.

(** [store.Open] *)
Definition store_Open (oa : OpenAnswers) (path : string) : (DB + string) * list master_call :=
  match oa_MkdirAll oa (Dir path) with
  | Some err => (inr ("create store dir: " +:+ err), [])
  | None =>
      match oa_Open oa path with
      | inr err => (inr ("open store: " +:+ err), [])
      | inl db =>
          match create_buckets oa [bucketJobs; bucketGroups; bucketFairshare; bucketDeadLetters] db with
          | inr err => (inr ("create buckets: " +:+ err), [OpenDB path; CloseDB])
          | inl db => (inl db, [OpenDB path])
          end
      end
  end.
End Open.

(** ** StartMaster

    What the calls outside the master answer. *)
Record MasterSetup {C : CEL} {B : Bolt} := {
  ms_Open : OpenAnswers;
  ms_list : Memberlist World;
  ms_NewEvaluator : option string;
  ms_Bind : string → option string;
  ms_Keys : string → string → option string;
  ms_Listen : string → option string;
  ms_times : nat → Time;
  ms_clock : nat → Time;
  ms_uuids : nat → string
}.

Section Process.
Context {C : CEL} {B : Bolt} `{GoArch} `{Zone} `{MapOrder} `{OS}.

Definition master_hooks : EventHooks World := {| OnJoin := None; OnLeave := Some Master.OnLeave |}.

(** [tls.Enabled && CertFile != "" && KeyFile != ""]: the key pair must load. *)
Definition server_creds (ms : MasterSetup) (tls : TLSConfig) : option string :=
  if TLSConfig.Enabled tls && negb (String.eqb (TLSConfig.CertFile tls) "") &&
     negb (String.eqb (TLSConfig.KeyFile tls) "")
  then ms_Keys ms (TLSConfig.CertFile tls) (TLSConfig.KeyFile tls) else None.

(** The master or the error, with the calls made on the way. *)
Definition start_master (cfg : Config) (ms : MasterSetup) : (World + string) * list master_call :=
  match store_Open (ms_Open ms) StorePath with
  | (inr err, calls) => (inr ("store: " +:+ err), calls)
  | (inl db, calls) =>
      let ports := Config.Ports cfg in
      let world := StartMaster (ms_times ms) cfg db (ms_clock ms) (ms_uuids ms) in
      match NewNodeDiscovery (ms_list ms) "master-node" (PortConfig.Gossip ports) None "" 0 (Some master_hooks) with
      | inr err => (inr ("discovery: " +:+ err), calls ++ [CleanDB])
      | inl disc =>
          let calls := calls ++ [CreateList (PortConfig.Gossip ports)] in
          match ms_NewEvaluator ms with
          | Some err => (inr ("CEL evaluator: " +:+ err), calls ++ [ShutdownList; CleanDB])
          | None =>
              let endpoint := "tcp://*:" +:+ Itoa (PortConfig.ZMQ ports) in
              match NewZMQPublisher (ms_Bind ms) endpoint with
              | inr err => (inr ("ZMQ: " +:+ err), calls ++ [CancelContext; ShutdownList; CleanDB])
              | inl _ =>
                  let calls := calls ++ [BindPublisher endpoint; ServeMetrics (PortConfig.Metrics ports); Goroutines] in
                  let undo := [CancelContext; ShutdownList; ClosePublisher; CleanDB] in
                  match server_creds ms (Config.TLS cfg) with
                  | Some err => (inr ("TLS: " +:+ err), calls ++ undo)
                  | None =>
                      let addr := ":" +:+ Itoa (PortConfig.GRPC ports) in
                      match ms_Listen ms addr with
                      | Some err => (inr ("gRPC listen: " +:+ err), calls ++ undo)
                      | None => (inl world, calls ++ [ListenGRPC addr])
                      end
                  end
              end
          end
      end
  end.

(** [MasterHandle.Cancel]. *)
Definition handle_Cancel : list master_call :=
  [CancelContext; GracefulStop; ClosePublisher; ShutdownList; CleanDB].

(** ** The pid file *)

Abbreviation Files := (gmap string string).

Variable writable : string → bool.

Definition RemoveFile (path : string) (files : Files) : Files :=
  if writable path then delete path files else files.
Definition WriteFile (path data : string) (files : Files) : Files :=
  if writable path then <[path := data]> files else files.

(** The slice [path[:LastIndex(path, "/")]] panics ([None]) without a slash. *)
Definition WritePID (path : string) (pid : Z) (files : Files) : option Files :=
  if LastIndex path "/" <? 0 then None else Some (WriteFile path (Itoa pid) files).

Definition RemovePID (path : string) (files : Files) : Files := RemoveFile path files.

Inductive signal := SIGTERM | Signal0 | SIGKILL.

(** The operating system on the process [pid]: FindProcess fails only on Windows;
    [gone i] says whether the [i]th probe, a second after the one before, fails. *)
Record Proc := { FindProcess : Z → option string; term_err : option string; gone : nat → bool }.

(** [for i := 0; i < 15; i++]: whether the process went, and the probes sent. *)
Fixpoint wait_gone (n i : nat) (p : Proc) : bool * list signal :=
  match n with
  | O => (false, [])
  | S n =>
      if gone p i then (true, [Signal0])
      else let '(r, l) := wait_gone n (S i) p in (r, Signal0 :: l)
  end.

(** The errors, with what their messages print (that of Atoi apart). *)
Inductive stop_error :=
  | NotRunning (path : string)
  | InvalidPIDFile
  | NotFound (pid : Z) (err : string)
  | NotStopped (pid : Z) (err : string).

(** The error, the files and the signals sent. *)
Definition StopDaemon (path : string) (p : Proc) (files : Files) : option stop_error * Files * list signal :=
  match files !! path with
  | None => (Some (NotRunning path), files, [])
  | Some data =>
      match Atoi (TrimSpace data) with
      | (_, false) => (Some InvalidPIDFile, RemoveFile path files, [])
      | (pid, true) =>
          match FindProcess p pid with
          | Some err => (Some (NotFound pid err), RemoveFile path files, [])
          | None =>
              match term_err p with
              | Some err => (Some (NotStopped pid err), RemoveFile path files, [SIGTERM])
              | None =>
                  let '(exited, probes) := wait_gone 15 0 p in
                  if exited then (None, RemoveFile path files, SIGTERM :: probes)
                  else (None, RemoveFile path files, SIGTERM :: probes ++ [SIGKILL])
              end
          end
      end
  end.

(** ** tasch setup *)

Inductive save_error := NoDirectory (err : string) | NoYAML (err : string) | NotWritten.

Definition SaveConfig (MkdirAll : string → option string) (yaml_Marshal : Config → string + string)
    (path : string) (cfg : Config) (files : Files) : option save_error * Files :=
  match MkdirAll (Dir path) with
  | Some err => (Some (NoDirectory err), files)
  | None =>
      match yaml_Marshal cfg with
      | inr err => (Some (NoYAML err), files)
      | inl data => if writable path then (None, WriteFile path data files) else (Some NotWritten, files)
      end
  end.

(** The flags of `tasch setup --non-interactive`. *)
Record setup_flags := {
  sf_role : string; sf_nodeName : string; sf_masterAddr : string;
  sf_gossipPort : Z; sf_grpcPort : Z; sf_zmqPort : Z
}.

Inductive setup_result :=
  | Asking
  | SetupFailed (err : string)
  | NotSaved (err : save_error)
  | Written (cfg : Config) (files : Files).

(** With flags, or with the answers on standard input; [Asking] is the wizard that
    asks for ever. *)
Definition setup_run (MkdirAll : string → option string) (yaml_Marshal : Config → string + string)
    (hostname : string) (addrs : option (list if_addr)) (flags : setup_flags + string)
    (configPath : string) (files : Files) : setup_result :=
  let cfg :=
    match flags with
    | inl f => Some (RunNonInteractive hostname addrs (sf_role f) (sf_nodeName f) (sf_masterAddr f)
                 (sf_gossipPort f) (sf_grpcPort f) (sf_zmqPort f))
    | inr input => inl <$> RunInteractive hostname addrs input
    end in
  match cfg with
  | None => Asking
  | Some (inr err) => SetupFailed ("Setup failed: " +:+ err)
  | Some (inl cfg) =>
      match SaveConfig MkdirAll yaml_Marshal configPath cfg files with
      | (Some err, _) => NotSaved err
      | (None, files) => Written cfg files
      end
  end.

(** ** tasch start *)

Definition loadConfig (yaml_Unmarshal : string → Config → Config + string) (Getenv : string → string)
    (configPath : string) : Config :=
  ApplyEnvOverrides Getenv
    match LoadConfig yaml_Unmarshal configPath with inl cfg => cfg | inr _ => DefaultConfig end.

Inductive start_result :=
  | Exited (message : string) (master_calls : list master_call)
  | Crashed
  | Serving (cfg : Config) (master : option World) (worker : option Worker) (files : Files).

Definition has_role (cfg : Config) (role : string) : bool :=
  String.eqb (Config.Role cfg) role || String.eqb (Config.Role cfg) "both".

(** The command up to the wait for a signal; [log.Fatalf] ends the process. *)
Definition start_run (cfg : Config) (configPath : string) (ms : MasterSetup) (su : Setup) (pid : Z)
    (files : Files) : start_result :=
  match files !! configPath, files !! PidPath with
  | None, _ => Exited "No config found. Run 'tasch setup' first." []
  | Some _, Some old =>
      Exited ("Tasch may already be running (PID file exists: " +:+ old +:+ "). Stop with: tasch stop") []
  | Some _, None =>
      let '(master, calls) :=
        if has_role cfg "master" then
          let '(r, calls) := start_master cfg ms in
          (match r with inl w => inl (Some w) | inr err => inr err end, calls)
        else (inl None, []) in
      match master with
      | inr err => Exited ("Master failed to start: " +:+ err) calls
      | inl master =>
          let worker :=
            if has_role cfg "worker" then
              match (StartWorker cfg su).1 with inl w => inl (Some w) | inr err => inr err end
            else inl None in
          match worker with
          | inr err => Exited ("Worker failed to start: " +:+ err) calls
          | inl worker =>
              match WritePID PidPath pid files with
              | None => Crashed
              | Some files => Serving cfg master worker files
              end
          end
      end
  end.

(** ** The graceful drain *)

(** [time.Now().Add(time.Duration(cfg.DrainTimeout) * time.Second)] *)
Definition drain_deadline (cfg : Config) (now : Time) : Time := Add now (Config.DrainTimeout cfg *ᵢ Second).

(** The loop: at its [i]th turn it is [now i] and the master is [at_turn i]; the
    result is the turn at which it ends. *)
Fixpoint drain_loop (fuel : nat) (deadline : Time) (now : nat → Time) (at_turn : nat → World) (i : nat) : option nat :=
  match fuel with
  | O => None
  | S fuel =>
      if Before (now i) deadline then
        match RunningJobs (sched (at_turn i)) with
        | [] => Some i
        | _ => drain_loop fuel deadline now at_turn (S i)
        end
      else Some i
  end.

(** What follows the drain. *)
Inductive shutdown_call := CancelWorker | CancelMaster | RemovePIDFile.
Definition shutdown_calls (master : option World) (worker : option Worker) : list shutdown_call :=
  match worker with Some _ => [CancelWorker] | None => [] end ++
  match master with Some _ => [CancelMaster] | None => [] end ++ [RemovePIDFile].
End Process.
