(* ===== verification/ProcessProps.v ===== *)
(** * Starting and stopping

    What a failing or finished master leaves open, what the pid file guards,
    that `tasch stop` always ends and clears the way, and that the drain ends in
    time for its own timeout but not for `tasch stop`. *)

From S2P Require Import Prelude GoStd GoText GoTime Queue Messaging Matchmaker Store Config World Server Dispatch.
From S2P Require Import Master Discovery Worker WorkerProps Demo Persist Process.
#[local] Open Scope string_scope.
#[local] Open Scope list_scope.
#[local] Open Scope Z_scope.

#[export] Instance master_call_dec : EqDecision master_call.
Proof. solve_decision. Defined.
#[export] Instance signal_dec : EqDecision signal.
Proof. solve_decision. Defined.

(** ** Resources *)

(** The calls that give back what a call took, one of which is enough (Open
    closes the database itself when it fails after opening it); nothing closes the
    metrics endpoint. *)
Definition given_back_by (c : master_call) (l : list master_call) : Prop :=
  match c with
  | OpenDB _ => CleanDB ∈ l ∨ CloseDB ∈ l
  | CreateList _ => ShutdownList ∈ l
  | BindPublisher _ => ClosePublisher ∈ l
  | Goroutines => CancelContext ∈ l
  | ListenGRPC _ => GracefulStop ∈ l
  | _ => True
  end.

(** Everything taken is given back later, and the database is closed last, when
    nothing else can write to it any more. *)
Fixpoint all_given_back (l : list master_call) : Prop :=
  match l with
  | [] => True
  | c :: l => given_back_by c l ∧ all_given_back l
  end.
Definition database_last (l : list master_call) : Prop :=
  l = [] ∨ last l = Some CleanDB ∨ last l = Some CloseDB.

Lemma store_Open_calls {B : Bolt} (oa : OpenAnswers) path : let '(r, calls) := store_Open oa path in
  calls = match r with inl _ => [OpenDB path] | inr _ => calls end ∧
  (is_Some (match r with inr err => Some err | inl _ => None end) → calls = [] ∨ calls = [OpenDB path; CloseDB]).
Proof.
  unfold store_Open. destruct (oa_MkdirAll oa (Dir path)); [split; [done|by left]|].
  destruct (oa_Open oa path); [|split; [done|by left]].
  destruct (create_buckets _ _ _); [split; [done|by intros [? ?]]|split; [done|by right]].
Qed.

Section Process.
Context {C : CEL} {B : Bolt} `{GoArch} `{Zone} `{MapOrder} `{OS}.

(** C35: nothing leaks: a start of the master that fails at any point, and a start
    that succeeds followed by the handle's Cancel, close all they opened (but the
    metrics endpoint), the database last; the succeeding start is the one that
    listens for gRPC. *)
Theorem master_closes_what_it_opens cfg ms :
  let '(r, calls) := start_master cfg ms in
  let all := match r with inl _ => calls ++ handle_Cancel | inr _ => calls end in
  all_given_back all ∧ database_last all ∧
  (is_Some (match r with inl w => Some w | inr _ => None end) ↔
    ListenGRPC (":" +:+ Itoa (PortConfig.GRPC (Config.Ports cfg))) ∈ calls).
Proof.
  unfold start_master. cbv zeta. pose proof (store_Open_calls (ms_Open ms) StorePath) as HO.
  destruct (store_Open (ms_Open ms) StorePath) as [[db|err] calls]; destruct HO as [E HO]; cbv iota.
  2:{ destruct (HO ltac:(by eexists)) as [->| ->]; (split; [cbn; set_solver|]; split; [unfold database_last; cbn; auto|]);
      split; first [by intros [? ?]|intros; set_solver]. }
  subst calls. destruct (NewNodeDiscovery _ _ _ _ _ _ _);
    [destruct (ms_NewEvaluator ms); [|destruct (NewZMQPublisher _ _); [destruct (server_creds _ _);
      [|destruct (ms_Listen ms _)]|]]|].
  all: split; [cbn; set_solver|]; split; [right; by left|]; split;
    [first [by intros [? ?]|intros _; cbn; set_solver]|first [by eexists|cbn; set_solver]].
Qed.

(** ** The pid file *)

Section Pid.
Variable writable : string → bool.

Lemma wait_gone_spec n i p : let '(r, l) := wait_gone n i p in
  (length l ≤ n)%nat ∧ Forall (λ s, s = Signal0) l ∧
  (r = true ↔ ∃ k, (k < n)%nat ∧ gone p (i + k) = true) ∧ (r = false → length l = n).
Proof.
  revert i. induction n as [|n IH]; intros i; cbn [wait_gone].
  { split_and!; [done|done|split; [done|intros (k & ? & _); lia]|done]. }
  destruct (gone p i) eqn:E.
  { split_and!; [simpl; lia|by repeat constructor| |done]. split; [|done].
    intros _. exists 0%nat. rewrite Nat.add_0_r. split; [lia|done]. }
  specialize (IH (S i)). destruct (wait_gone n (S i) p) as [r l]. destruct IH as (Hl & Hs & Hr & Hf).
  split_and!; [simpl; lia|by constructor| |intros; simpl; by rewrite Hf].
  rewrite Hr. split; intros (k & Hk & Hg).
  - exists (S k). replace (i + S k)%nat with (S i + k)%nat by lia. split; [lia|done].
  - destruct k as [|k]; [rewrite Nat.add_0_r in Hg; congruence|]. exists k.
    replace (S i + k)%nat with (i + S k)%nat by lia. split; [lia|done].
Qed.

(** `tasch stop` always ends, within fifteen probes, and clears the way:
    whatever the operating system answers, the pid file is gone afterwards and no
    other file has changed; the process is asked to terminate at most once, and
    killed exactly when it was asked and every probe still found it. *)
Theorem stop_always_clears path p files : writable path = true →
  let '(err, files', signals) := StopDaemon writable path p files in
  files' = delete path files ∧ (length signals ≤ 17)%nat ∧
  (SIGKILL ∈ signals ↔ err = None ∧ ∀ k, (k < 15)%nat → gone p k = false) ∧
  (err = None → is_Some (files !! path) ∧ term_err p = None ∧ ∃ l, signals = SIGTERM :: l ∧ SIGTERM ∉ l).
Proof.
  intros Hw. assert (HR : RemoveFile writable path files = delete path files) by (unfold RemoveFile; by rewrite Hw).
  assert (HE : ∀ e : stop_error, Some e = None ∧ (∀ k, (k < 15)%nat → gone p k = false) ↔ False) by naive_solver.
  unfold StopDaemon. destruct (files !! path) as [data|] eqn:E.
  2:{ rewrite (delete_id _ _ E). split_and!; [done|simpl; lia|rewrite HE; set_solver|done]. }
  rewrite !HR. destruct (Atoi (TrimSpace data)) as [pid []].
  2:{ split_and!; [done|simpl; lia|rewrite HE; set_solver|done]. }
  destruct (FindProcess p pid); [split_and!; [done|simpl; lia|rewrite HE; set_solver|done]|].
  destruct (term_err p); [split_and!; [done|simpl; lia|rewrite HE; set_solver|done]|].
  pose proof (wait_gone_spec 15 0 p) as HW. destruct (wait_gone 15 0 p) as [exited probes].
  destruct HW as (Hl & Hs & Hr & Hf). rewrite Forall_forall in Hs.
  assert (HP : ∀ s, s ≠ Signal0 → s ∉ probes) by (intros s Hne Hin; by apply Hne, Hs).
  destruct exited; rewrite ?length_app; split_and!; try done; try (simpl; rewrite ?length_app; simpl; lia).
  - split; [|intros [_ Hg]].
    + intros [?|?]%elem_of_cons; [done|by destruct (HP SIGKILL)].
    + destruct (proj1 Hr eq_refl) as (k & Hk & Hg'). by rewrite Hg in Hg'.
  - intros _. split_and!; [by eexists|done|]. exists probes. split; [done|by apply HP].
  - split; [intros _|set_solver]. split; [done|]. intros k Hk. destruct (gone p k) eqn:Eg; [|done].
    assert (false = true) by (apply Hr; by exists k). done.
  - intros _. split_and!; [by eexists|done|]. eexists. split; [done|].
    intros [?|?%list_elem_of_singleton]%elem_of_app; [by destruct (HP SIGTERM)|done].
Qed.

Lemma start_run_serving cfg configPath ms su pid files cfg' m w files' :
  start_run writable cfg configPath ms su pid files = Serving cfg' m w files' →
  is_Some (files !! configPath) ∧ files !! PidPath = None ∧ (LastIndex PidPath "/" <? 0) = false ∧
  files' = WriteFile writable PidPath (Itoa pid) files ∧
  ∀ pid2 files2, is_Some (files2 !! configPath) → files2 !! PidPath = None →
    start_run writable cfg configPath ms su pid2 files2 =
      Serving cfg' m w (WriteFile writable PidPath (Itoa pid2) files2).
Proof.
  unfold start_run. destruct (files !! configPath) as [c|]; [|done].
  destruct (files !! PidPath); [done|]. unfold WritePID.
  destruct (if has_role cfg "master" then _ else _) as [[master|?] calls]; [|done].
  destruct (if has_role cfg "worker" then _ else _) as [worker|?]; [|done].
  destruct (LastIndex PidPath "/" <? 0); [done|]. intros HE. injection HE as <- <- <- <-.
  split_and!; [by eexists|done..|]. by intros pid2 files2 [? ->] ->.
Qed.

Lemma StopDaemon_files path p files data : files !! path = None →
  let '(err, files2, signals) := StopDaemon writable path p (WriteFile writable path data files) in
  files2 = files ∧ (term_err p ≠ None → err ≠ None ∧ SIGKILL ∉ signals).
Proof.
  intros Hp. unfold WriteFile, StopDaemon, RemoveFile. destruct (writable path).
  2:{ rewrite Hp. split; [done|]. intros _. split; [done|]. set_solver. }
  rewrite lookup_insert_eq, delete_insert_id by done.
  destruct (Atoi _) as [pid' []]; [|split; [done|]; intros _; split; [done|set_solver]].
  destruct (FindProcess p pid'); [split; [done|]; intros _; split; [done|set_solver]|].
  destruct (term_err p); [split; [done|]; intros _; split; [done|set_solver]|].
  by destruct (wait_gone 15 0 p) as [[] ?].
Qed.

(** C32: the pid file is what keeps a second instance from starting, and no more than
    that.  Once `tasch start` serves, starting again on the same files is refused
    before anything is opened, if the pid file could be written; if it could not
    (start ignores WritePID's error), the same start serves again beside the first
    wherever what it opens is granted again.  `tasch stop` takes the guard away,
    whatever became of the process: the files are as they were before the start, and
    the same start serves again; also when the process could not be signalled, in
    which case stop says so and has killed nothing. *)
Theorem pid_file_guards_the_start cfg configPath ms su pid files cfg' m w files' :
  start_run writable cfg configPath ms su pid files = Serving cfg' m w files' →
  (writable PidPath = true → ∀ cfg2 ms2 su2 pid2, start_run writable cfg2 configPath ms2 su2 pid2 files' =
    Exited ("Tasch may already be running (PID file exists: " +:+ Itoa pid +:+ "). Stop with: tasch stop") []) ∧
  (writable PidPath = false → files' = files ∧
    ∀ pid2, start_run writable cfg configPath ms su pid2 files' = Serving cfg' m w files) ∧
  ∀ p pid2, let '(err, files2, signals) := StopDaemon writable PidPath p files' in
    files2 = files ∧ (term_err p ≠ None → err ≠ None ∧ SIGKILL ∉ signals) ∧
    start_run writable cfg configPath ms su pid2 files2 =
      Serving cfg' m w (WriteFile writable PidPath (Itoa pid2) files).
Proof.
  intros HS. destruct (start_run_serving _ _ _ _ _ _ _ _ _ _ HS) as ([c Hc] & Hp & _ & -> & Hagain).
  assert (Hne : PidPath ≠ configPath) by congruence. split; [|split].
  - intros Hw cfg2 ms2 su2 pid2. unfold WriteFile, start_run. by rewrite Hw, lookup_insert_ne, Hc, lookup_insert_eq.
  - intros Hw. assert (E : ∀ d, WriteFile writable PidPath d files = files) by (intros d; unfold WriteFile; by rewrite Hw).
    rewrite E. split; [done|]. intros pid2. rewrite (Hagain pid2 files) by (done || by eexists). by rewrite E.
  - intros p pid2. pose proof (StopDaemon_files PidPath p files (Itoa pid) Hp) as HF.
    destruct (StopDaemon _ _ _ _) as [[err files2] signals]. destruct HF as [-> HF]. split_and!; [done..|].
    apply Hagain; [by eexists|done].
Qed.
End Pid.

(** ** The drain *)

Section Drain.
Variables (cfg : Config) (t0 : Time) (now : nat → Time) (at_turn : nat → World).

(** The clock never goes back and every turn sleeps two seconds. *)
Hypothesis starts : t0 ≤ now 0%nat.
Hypothesis sleeps : ∀ i, now i + 2 * Second ≤ now (S i).

Definition drain_timeout : Z := Config.DrainTimeout cfg *ᵢ Second.

(** As many turns as sleeps fit into the timeout, and one more. *)
Definition drain_turns : nat := S (Z.to_nat ((drain_timeout + 2 * Second - 1) / (2 * Second))).

Lemma now_mono i : t0 + 2 * Second * Z.of_nat i ≤ now i.
Proof.
  induction i as [|i IH]; [lia|]. specialize (sleeps i). unfold Second in *. lia.
Qed.

Lemma drain_loop_spec fuel i : drain_deadline cfg t0 ≤ t0 + 2 * Second * Z.of_nat (i + fuel - 1) → (0 < fuel)%nat →
  ∃ k, drain_loop fuel (drain_deadline cfg t0) now at_turn i = Some k ∧ (i ≤ k < i + fuel)%nat ∧
    (∀ j, (i ≤ j < k)%nat → now j < drain_deadline cfg t0 ∧ RunningJobs (sched (at_turn j)) ≠ []) ∧
    (RunningJobs (sched (at_turn k)) = [] ∨ drain_deadline cfg t0 ≤ now k).
Proof.
  revert i. induction fuel as [|fuel IH]; intros i Hd Hf; [lia|]. cbn [drain_loop]. unfold Before.
  destruct (Z.ltb_spec (now i) (drain_deadline cfg t0)) as [Hlt|Hge].
  2:{ exists i. split_and!; [done|lia|lia|lia|by right]. }
  destruct (RunningJobs (sched (at_turn i))) as [|j js] eqn:E.
  { exists i. split_and!; [done|lia|lia|lia|by left]. }
  destruct fuel as [|fuel].
  { pose proof (now_mono i). replace (i + 1 - 1)%nat with i in Hd by lia. lia. }
  destruct (IH (S i)) as (k & Hk & Hi & Hj & He); [by replace (S i + S fuel - 1)%nat with (i + S (S fuel) - 1)%nat by lia|lia|].
  exists k. split_and!; [done|lia|lia| |done]. intros j' Hj'.
  destruct (decide (j' = i)) as [->|]; [by rewrite E|apply Hj; lia].
Qed.

Lemma drain_result : ∃ k, drain_loop drain_turns (drain_deadline cfg t0) now at_turn 0 = Some k ∧
  (k < drain_turns)%nat ∧ (RunningJobs (sched (at_turn k)) = [] ∨ t0 + drain_timeout ≤ now k).
Proof.
  destruct (drain_loop_spec drain_turns 0) as (k & Hk & Hi & _ & He); [|unfold drain_turns; lia|].
  - unfold drain_turns, drain_deadline, Add. fold drain_timeout. unfold Second.
    rewrite Nat.add_0_l, Nat.sub_succ, Nat.sub_0_r. set (t := drain_timeout).
    pose proof (Z.div_mod (t + 2 * 1000000000 - 1) (2 * 1000000000) ltac:(lia)).
    pose proof (Z.mod_pos_bound (t + 2 * 1000000000 - 1) (2 * 1000000000) ltac:(lia)). lia.
  - exists k. split_and!; [done|lia|exact He].
Qed.

(** C33: the drain ends: it looks at the running jobs at most once every two
    seconds of the timeout and once more, and it ends because no job runs any
    more or because the timeout has passed. *)
Theorem drain_ends : ∃ k, drain_loop drain_turns (drain_deadline cfg t0) now at_turn 0 = Some k ∧
  (k < drain_turns)%nat ∧ (RunningJobs (sched (at_turn k)) = [] ∨ t0 + drain_timeout ≤ now k).
Proof.
  exact drain_result.
Qed.

(** C34: `tasch stop` does not wait for the drain: while a job keeps running, a
    process that only ends after its drain, with a drain timeout that is not over
    when the last probe is made (the probes take fifteen seconds; the default
    timeout is sixty), is killed in the middle of the drain, its master and its
    worker never shut down. *)
Theorem stop_kills_the_drain writable path data pid p files (probe : nat → Time) :
  (∀ i, now i < t0 + drain_timeout → RunningJobs (sched (at_turn i)) ≠ []) →
  (∀ i, (i < 15)%nat → probe i < t0 + drain_timeout) →
  (∀ i k, gone p i = true → drain_loop drain_turns (drain_deadline cfg t0) now at_turn 0 = Some k → now k ≤ probe i) →
  files !! path = Some data → Atoi (TrimSpace data) = (pid, true) →
  FindProcess p pid = None → term_err p = None →
  StopDaemon writable path p files =
    (None, RemoveFile writable path files, SIGTERM :: replicate 15 Signal0 ++ [SIGKILL]).
Proof.
  intros Hrun Hprobe Hgone Hd Ha Hf Ht.
  destruct drain_result as (k & Hk & _ & He).
  assert (Hg : ∀ i, (i < 15)%nat → gone p i = false).
  { intros i Hi. destruct (gone p i) eqn:E; [|done]. pose proof (Hgone i k E Hk). pose proof (Hprobe i Hi).
    destruct He as [He|He]; [|lia]. destruct (Hrun k); [lia|done]. }
  unfold StopDaemon. rewrite Hd, Ha, Hf, Ht. pose proof (wait_gone_spec 15 0 p) as HW.
  destruct (wait_gone 15 0 p) as [exited probes]. destruct HW as (_ & Hs & Hr & Hl).
  destruct exited.
  { destruct (proj1 Hr eq_refl) as (i & Hi & Hg'). simpl in Hg'. by rewrite (Hg i Hi) in Hg'. }
  rewrite Forall_forall in Hs. do 3 f_equal. symmetry. apply replicate_as_elem_of. by split; [apply Hl|].
Qed.
End Drain.
End Process.

(** ** Witnesses *)

Section Witnesses.
#[local] Existing Instances toy_cel bolt_map amd64 utc map_order_canonical.

#[local] Instance demo_os : OS := {|
  Stat_ok := λ p, String.eqb p "/var/lib/tasch"; Stat_is_dir := λ _, true; UserHomeDir := None;
  ReadFile := λ _, inr "no such file" |}.

Definition demo_start : MasterSetup := {|
  ms_Open := {| oa_MkdirAll := λ _, None; oa_Open := λ _, inl ∅; oa_CreateBucketIfNotExists := λ _ d, inl d |};
  ms_list := {| Create_err := λ _, None; Join_res := λ _, inl 1 |};
  ms_NewEvaluator := None; ms_Bind := λ _, None; ms_Keys := λ _ _, None; ms_Listen := λ _, None;
  ms_times := demo_clock; ms_clock := demo_clock; ms_uuids := demo_uuids |}.

Definition master_only : Config := DefaultConfig <| Config.Role := "master" |>.
Definition config_files : gmap string string := {["config.yaml" := "role: master"]}.
Definition quiet_proc : Proc := {| FindProcess := λ _, None; term_err := None; gone := λ _, false |}.

Lemma stop_always_clears_witness :
  (StopDaemon (λ _, true) "tasch.pid" quiet_proc (<["tasch.pid" := "77"]> config_files)).1.2 =
    delete "tasch.pid" (<["tasch.pid" := "77"]> config_files).
Proof.
  pose proof (stop_always_clears (λ _, true) "tasch.pid" quiet_proc (<["tasch.pid" := "77"]> config_files) eq_refl) as HS.
  destruct (StopDaemon _ _ _ _) as [[err files'] signals]. exact (proj1 HS).
Defined.

(** The process cannot be signalled. *)
Definition deaf_proc : Proc := {| FindProcess := λ _, None; term_err := Some "operation not permitted"; gone := λ _, false |}.

Lemma pid_file_guards_the_start_witness :
  let '(err, files2, signals) :=
    StopDaemon (λ _, true) PidPath deaf_proc (<["/var/lib/tasch/tasch.pid" := "77"]> config_files) in
  files2 = config_files ∧ SIGKILL ∉ signals.
Proof.
  pose proof (proj2 (proj2 (pid_file_guards_the_start (λ _, true) master_only "config.yaml" demo_start
    (demo_setup "{}") 77 config_files master_only
    (Some (StartMaster demo_clock master_only ∅ demo_clock demo_uuids)) None
    (<["/var/lib/tasch/tasch.pid" := "77"]> config_files) eq_refl)) deaf_proc 78) as HS.
  destruct (StopDaemon _ _ _ _) as [[err files2] signals]. destruct HS as (Hf & Ht & _).
  split; [exact Hf|]. exact (proj2 (Ht ltac:(discriminate))).
Defined.

Definition two_seconds (i : nat) : Time := 2 * Second * Z.of_nat i.

Lemma two_seconds_sleeps i : two_seconds i + 2 * Second ≤ two_seconds (S i).
Proof. unfold two_seconds. lia. Qed.

Lemma demo_world_runs : RunningJobs (sched demo_world) ≠ [].
Proof.
  assert (HN : ∀ l : list Job, (length l =? 1)%nat = true → l ≠ []) by (by intros [|]).
  apply HN. vm_compute. reflexivity.
Qed.

Lemma drain_ends_witness : ∃ k, (k < 31)%nat ∧
  drain_loop 31 (60 * Second) two_seconds (λ _, demo_world) 0 = Some k.
Proof.
  destruct (drain_ends DefaultConfig 0 two_seconds (λ _, demo_world) ltac:(done) two_seconds_sleeps)
    as (k & Hk & Hl & _).
  exists k. split; [exact Hl|exact Hk].
Defined.

Lemma stop_kills_the_drain_witness :
  StopDaemon (λ _, true) "tasch.pid" quiet_proc {["tasch.pid" := "77"]} =
    (None, RemoveFile (λ _, true) "tasch.pid" {["tasch.pid" := "77"]}, SIGTERM :: replicate 15 Signal0 ++ [SIGKILL]).
Proof.
  apply (stop_kills_the_drain DefaultConfig 0 two_seconds (λ _, demo_world) ltac:(done) two_seconds_sleeps
    (λ _, true) "tasch.pid" "77" 77 quiet_proc {["tasch.pid" := "77"]} (λ i, (Z.of_nat i + 1) * Second)).
  - intros _ _. exact demo_world_runs.
  - intros i Hi. change (drain_timeout DefaultConfig) with 60000000000. unfold Second. lia.
  - intros i k Hg. discriminate Hg.
  - reflexivity.
  - reflexivity.
  - reflexivity.
  - reflexivity.
Defined.
End Witnesses.
