(* ===== verification/Threads.v ===== *)
(** * Threads

    The handlers and loops of the master run in goroutines of their own.  A
    thread is a computation cut into its atomic actions ([prog]): a call under
    the scheduler's mutex, a call under another mutex, a send to [dbWriteChan]
    (the methods send after they have released the mutex), and the explicit
    [Lock] and [Unlock] of the one method that calls back while it holds the
    mutex (Backfill).  [run] executes a thread without interference.

    The second half is the logic: [safe] is a rely-guarantee judgement, for an
    invariant of the shared state and a preorder every thread respects, and
    [shape] walks the actions of a thread and checks how it uses the mutex. *)

From S2P Require Import Prelude GoStd Queue Messaging Fairshare CircuitBreaker Tracker Matchmaker.
From S2P Require Import Store Config World.
Import GlobalScheduler (objs, gobjs, queue, jobs, groups, MaxQueueSize, OnJobChange,
  OnGroupChange, dbWriteChan).
#[local] Open Scope list_scope.

Section Threads.
Context {C : CEL} {B : Bolt}.

(** What an action needs of shared memory beyond the state it is a function of:
    nothing, the scheduler's mutex, to write the map [UserUsage] (under the
    calculator's mutex), or to range over it without that mutex, as json.Marshal
    does in SaveFairshare.  A range is not atomic: a thread is in the middle of it
    while it stands before such an action. *)
Inductive access := Free | Mutex | WritesUsage | RangesUsage.

#[export] Instance access_dec : EqDecision access.
Proof. solve_decision. Defined.

Inductive prog (A : Type) : Type :=
  | Ret (a : A)
  | Act {X : Type} (mu : access) (m : M World X) (k : X → prog A)
  | Snd (op : dbWriteOp) (k : prog A)
  | Lock (k : prog A)
  | Unlock (k : prog A).
#[global] Arguments Ret {A} a.
#[global] Arguments Act {A X} mu m k.
#[global] Arguments Snd {A} op k.
#[global] Arguments Lock {A} k.
#[global] Arguments Unlock {A} k.

#[export] Instance prog_ret : MRet prog := @Ret.
#[export] Instance prog_bind : MBind prog := λ A A' f,
  fix bind p :=
    match p with
    | Ret a => f a
    | Act mu m k => Act mu m (λ x, bind (k x))
    | Snd op k => Snd op (bind k)
    | Lock k => Lock (bind k)
    | Unlock k => Unlock (bind k)
    end.

(** ** The actions *)

(** [dbWriteChan <- op] *)
Definition push (op : dbWriteOp) (w : World) : World :=
  w <| sched ::= λ gs, gs <| dbWriteChan ::= λ c, c ++ [op] |> |>.

(** A call that does not touch the scheduler. *)
Definition act {X} (m : M World X) : prog X := Act Free m Ret.

(** A write of [UserUsage], and a range over it: the first action begins it. *)
Definition write_usage {X} (m : M World X) : prog X := Act WritesUsage m Ret.
Definition range_usage {X} (m : M World X) : prog X :=
  Act Free (mret tt) (λ _, Act RangesUsage m Ret).

(** A method of the scheduler up to the release of its mutex: its sends are put
    off. *)
Definition critical {X} (m : M World X) : M World (X * list dbWriteOp) := λ w,
  let c := dbWriteChan (sched w) in
  match m w with
  | Some (x, w') => Some ((x, drop (length c) (dbWriteChan (sched w'))),
      w' <| sched ::= λ gs, gs <| dbWriteChan := c |> |>)
  | None => None
  end.

Fixpoint sends {X} (ops : list dbWriteOp) (x : X) : prog X :=
  match ops with
  | [] => Ret x
  | op :: ops => Snd op (sends ops x)
  end.

(** A whole method. *)
Definition call {X} (m : M World X) : prog X := Act Mutex (critical m) (λ '(x, ops), sends ops x).

Definition lock : prog () := Lock (Ret tt).
Definition unlock : prog () := Unlock (Ret tt).

Definition when_p (b : bool) (p : prog ()) : prog () := if b then p else mret tt.
Fixpoint for_each_p {X} (l : list X) (body : X → prog ()) : prog () :=
  match l with
  | [] => mret tt
  | x :: l' => body x;; for_each_p l' body
  end.

(** ** A thread on its own *)

Fixpoint run {A} (p : prog A) : M World A :=
  match p with
  | Ret a => mret a
  | Act _ m k => x ← m; run (k x)
  | Snd op k => λ w, run k (push op w)
  | Lock k | Unlock k => run k
  end.

(** [p] does what [m] does. *)
Definition alone {A} (p : prog A) (m : M World A) : Prop := ∀ w, run p w = m w.

Lemma alone_ret {A} (a : A) : alone (mret a) (mret a).
Proof. done. Qed.

Lemma run_bind {A A'} (p : prog A) (k : A → prog A') w :
  run (p ≫= k) w = (run p ≫= λ a, run (k a)) w.
Proof.
  revert w. induction p as [a|X mu m f IH|op p IH|p IH|p IH]; intros w.
  - done.
  - change (run (Act mu m f ≫= k) w) with ((x ← m; run (f x ≫= k)) w).
    change (run (Act mu m f) ≫= λ a, run (k a)) with (((m ≫= λ x, run (f x)) ≫= λ a, run (k a))).
    unfold mbind, M_bind. destruct (m w) as [[x w']|]; [|done]. apply IH.
  - apply (IH (push op w)).
  - apply IH.
  - apply IH.
Qed.

Lemma alone_bind {A A'} (p : prog A) (m : M World A) (k : A → prog A') f :
  alone p m → (∀ a, alone (k a) (f a)) → alone (p ≫= k) (m ≫= f).
Proof.
  intros Hp Hk w. rewrite run_bind. unfold mbind, M_bind. rewrite Hp.
  destruct (m w) as [[a w']|]; [|done]. apply Hk.
Qed.

Lemma alone_act {A} (m : M World A) : alone (act m) m.
Proof. intros w. unfold act. cbn [run]. unfold mbind, M_bind. by destruct (m w) as [[??]|]. Qed.

Lemma alone_write_usage {A} (m : M World A) : alone (write_usage m) m.
Proof. exact (alone_act m). Qed.
Lemma alone_range_usage {A} (m : M World A) : alone (range_usage m) m.
Proof. exact (alone_act m). Qed.

Lemma alone_when b p m : alone p m → alone (when_p b p) (when b m).
Proof. intros Hp. by destruct b. Qed.

Lemma alone_for_each {X} (l : list X) p f : (∀ x, alone (p x) (f x)) →
  alone (for_each_p l p) (for_each l f).
Proof. intros Hp. induction l as [|x l IH]; [done|]. by apply alone_bind. Qed.

(** [q] is [p] and then [k]. *)
Inductive continues {A A'} (k : A → prog A') : prog A → prog A' → Prop :=
  | co_ret a : continues k (Ret a) (k a)
  | co_act X mu (m : M World X) f g : (∀ x, continues k (f x) (g x)) → continues k (Act mu m f) (Act mu m g)
  | co_snd op p q : continues k p q → continues k (Snd op p) (Snd op q)
  | co_lock p q : continues k p q → continues k (Lock p) (Lock q)
  | co_unlock p q : continues k p q → continues k (Unlock p) (Unlock q).

Lemma continues_bind {A A'} (k : A → prog A') p : continues k p (p ≫= k).
Proof. induction p; by constructor. Qed.
Lemma continues_then {A A' A''} (k : A → prog A') (g : A' → prog A'') p q :
  continues k p q → continues (λ a, k a ≫= g) p (q ≫= g).
Proof. induction 1; by constructor. Qed.
Lemma continues_end {A} (p : prog A) : continues Ret p p.
Proof. induction p; by constructor. Qed.

(** It does not write [UserUsage]. *)
Fixpoint unwriting {A} (p : prog A) : Prop :=
  match p with
  | Ret _ => True
  | Act mu _ k => mu ≠ WritesUsage ∧ ∀ x, unwriting (k x)
  | Snd _ k | Lock k | Unlock k => unwriting k
  end.

Lemma unwriting_bind {A A'} (p : prog A) (k : A → prog A') :
  unwriting p → (∀ a, unwriting (k a)) → unwriting (p ≫= k).
Proof.
  intros Hp Hk. induction p as [a|X mu m f IH|op p IH|p IH|p IH]; [apply Hk| |by apply IH..].
  destruct Hp as [Hm Hf]. split; [done|]. intros x. by apply IH.
Qed.

Lemma unwriting_act {X} (m : M World X) : unwriting (act m).
Proof. by split. Qed.

Lemma unwriting_call {X} (m : M World X) : unwriting (call m).
Proof. split; [done|]. intros [x ops]. by induction ops. Qed.

Lemma unwriting_when b p : unwriting p → unwriting (when_p b p).
Proof. by destruct b. Qed.

(** A method only adds to the channel. *)
Definition appends {A} (m : M World A) : Prop := ∀ w a w', m w = Some (a, w') →
  ∃ ops, dbWriteChan (sched w') = dbWriteChan (sched w) ++ ops.

Definition pushes (ops : list dbWriteOp) (w : World) : World := foldl (λ w op, push op w) w ops.

Lemma run_sends {X} ops (x : X) w : run (sends ops x) w = Some (x, pushes ops w).
Proof. revert w. induction ops as [|op ops IH]; intros w; [done|]. apply IH. Qed.

Lemma push_chan c ops w :
  pushes ops (w <| sched ::= λ gs, gs <| dbWriteChan := c |> |>) =
  w <| sched ::= λ gs, gs <| dbWriteChan := c ++ ops |> |>.
Proof.
  revert c. induction ops as [|op ops IH]; intros c; [by rewrite app_nil_r|].
  rewrite cons_middle, app_assoc. apply (IH (c ++ [op])).
Qed.

Lemma same_chan w : w <| sched ::= λ gs, gs <| dbWriteChan := dbWriteChan (sched w) |> |> = w.
Proof. destruct w as [? []]. reflexivity. Qed.

Lemma alone_call {A} (m : M World A) : appends m → alone (call m) m.
Proof.
  intros Hm w. unfold call. cbn [run]. unfold mbind, M_bind, critical.
  destruct (m w) as [[a w']|] eqn:E; [|done]. rewrite run_sends, push_chan.
  destruct (Hm _ _ _ E) as [ops Hc]. rewrite Hc, drop_app_length, <- Hc. by rewrite same_chan.
Qed.

(** ** Rely and guarantee

    [I] holds between any two actions; [G] relates the states before and after
    any number of them. *)

Section Logic.
Context (I : World → Prop) (G : relation World) {PG : PreOrder G}.

Fixpoint safe {A} (Φ : A → World → Prop) (p : prog A) (w : World) : Prop :=
  match p with
  | Ret a => Φ a w
  | Act _ m k => ∀ w1, G w w1 → I w1 →
      ∃ x w2, m w1 = Some (x, w2) ∧ I w2 ∧ G w1 w2 ∧ safe Φ (k x) w2
  | Snd op k => ∀ w1, G w w1 → I w1 → I (push op w1) ∧ G w1 (push op w1) ∧ safe Φ k (push op w1)
  | Lock k | Unlock k => safe Φ k w
  end.

(** Other threads may act before the next action. *)
Lemma safe_later {A} (Φ : A → World → Prop) p w w' :
  (∀ a w1 w2, G w1 w2 → Φ a w1 → Φ a w2) → G w w' → safe Φ p w → safe Φ p w'.
Proof.
  intros HΦ HG. induction p as [a|X mu m k _|op k _|k IH|k IH]; cbn [safe]; [by apply HΦ|..| |].
  - intros Hs w1 H1. apply Hs. by etrans.
  - intros Hs w1 H1. apply Hs. by etrans.
  - apply IH.
  - apply IH.
Qed.

Lemma safe_bind {A A'} (Φ : A' → World → Prop) (p : prog A) (k : A → prog A') w :
  safe (λ a, safe Φ (k a)) p w → safe Φ (p ≫= k) w.
Proof.
  revert w. induction p as [a|X mu m f IH|op p IH|p IH|p IH]; intros w.
  - done.
  - intros Hs w1 H1 HI. destruct (Hs w1 H1 HI) as (x & w2 & E & HI2 & HG & Hx).
    exists x, w2. split_and!; try done. by apply IH.
  - intros Hs w1 H1 HI. destruct (Hs w1 H1 HI) as (HI2 & HG & Hx). split_and!; try done. by apply IH.
  - apply IH.
  - apply IH.
Qed.

Lemma safe_mono {A} (Φ Ψ : A → World → Prop) p w :
  (∀ a w', Φ a w' → Ψ a w') → safe Φ p w → safe Ψ p w.
Proof.
  intros HΦ. revert w. induction p as [a|X mu m f IH|op p IH|p IH|p IH]; intros w; cbn [safe].
  - apply HΦ.
  - intros Hs w1 H1 HI. destruct (Hs w1 H1 HI) as (x & w2 & E & HI2 & HG & Hx).
    exists x, w2. split_and!; try done. by apply IH.
  - intros Hs w1 H1 HI. destruct (Hs w1 H1 HI) as (HI2 & HG & Hx). split_and!; try done. by apply IH.
  - apply IH.
  - apply IH.
Qed.
End Logic.

(** ** The shape of a thread *)

(** What it sends next. *)
Fixpoint pend {A} (p : prog A) : list dbWriteOp :=
  match p with
  | Snd op k => op :: pend k
  | _ => []
  end.

Section Shape.
(** Of every action, and of what is sent after it. *)
Context (P : ∀ X, M World X → (X → list dbWriteOp) → Prop).
Hypothesis P_more : ∀ X m (f g : X → list dbWriteOp), (∀ x op, op ∈ f x → op ∈ g x) → P X m f → P X m g.

(** From holding the mutex or not ([h]) to holding it or not ([h']); nothing is
    sent while it is held. *)
Fixpoint shape {A} (h h' : bool) (p : prog A) : Prop :=
  match p with
  | Ret _ => h = h'
  | Act _ m k => P _ m (λ x, pend (k x)) ∧ ∀ x, shape h h' (k x)
  | Snd _ k => h = false ∧ shape h h' k
  | Lock k => h = false ∧ shape true h' k
  | Unlock k => h = true ∧ shape false h' k
  end.

Lemma pend_bind {A A'} (p : prog A) (k : A → prog A') op : op ∈ pend p → op ∈ pend (p ≫= k).
Proof.
  induction p as [a|X mu m f IH|op' p IH|p IH|p IH]; cbn [pend]; try by intros ?%not_elem_of_nil.
  rewrite elem_of_cons. intros [->|?]; [left|right; by apply IH].
Qed.

Lemma shape_bind {A A'} h h1 h2 (p : prog A) (k : A → prog A') :
  shape h h1 p → (∀ a, shape h1 h2 (k a)) → shape h h2 (p ≫= k).
Proof.
  intros Hp Hk. revert h Hp. induction p as [a|X mu m f IH|op p IH|p IH|p IH]; intros h.
  - intros <-. apply Hk.
  - intros [Hm Hf]. split; [|intros x; by apply IH]. eapply P_more; [|exact Hm].
    intros x op. apply pend_bind.
  - intros [? Hp]. split; [done|by apply IH].
  - intros [? Hp]. split; [done|by apply IH].
  - intros [? Hp]. split; [done|by apply IH].
Qed.

Lemma shape_act {X} h (m : M World X) : P _ m (λ _, []) → shape h h (act m).
Proof. done. Qed.

Lemma shape_write_usage {X} h (m : M World X) : P _ m (λ _, []) → shape h h (write_usage m).
Proof. done. Qed.
Lemma shape_range_usage {X} h (m : M World X) : P _ (mret tt) (λ _ : (), []) → P _ m (λ _, []) →
  shape h h (range_usage m).
Proof. done. Qed.

Lemma pend_sends {X} ops (x : X) : pend (sends ops x) = ops.
Proof. induction ops; [done|]. cbn. by f_equal. Qed.

Lemma shape_sends {X} ops (x : X) : shape false false (sends ops x).
Proof. induction ops; by split. Qed.

Lemma shape_call {X} (m : M World X) : P _ (critical m) snd → shape false false (call m).
Proof.
  intros Hm. split; [|intros [x ops]; apply shape_sends].
  eapply P_more; [|exact Hm]. intros [x ops] op. by rewrite pend_sends.
Qed.

Lemma shape_when b p : shape false false p → shape false false (when_p b p).
Proof. by destruct b. Qed.

Lemma shape_for_each {X} (l : list X) p : (∀ x, shape false false (p x)) →
  shape false false (for_each_p l p).
Proof. intros Hp. induction l as [|x l IH]; [done|]. by eapply shape_bind. Qed.
End Shape.

(** A stronger property of the actions. *)
Lemma shape_mono (P P' : ∀ X, M World X → (X → list dbWriteOp) → Prop) {A} h h' (p : prog A) :
  (∀ X m f, P X m f → P' X m f) → shape P h h' p → shape P' h h' p.
Proof.
  intros HP. revert h. induction p as [a|X mu m f IH|op p IH|p IH|p IH]; intros h; cbn [shape]; naive_solver.
Qed.
End Threads.

Ltac unwriting_step :=
  lazymatch goal with
  | |- unwriting (mbind _ _) => apply unwriting_bind; [|intros]
  | |- unwriting (match ?x with _ => _ end) => destruct x
  | |- unwriting (when_p _ _) => apply unwriting_when
  | |- unwriting (mret _) => exact I
  | |- unwriting (act _) => apply unwriting_act
  | |- unwriting (call _) => apply unwriting_call
  | |- unwriting (let _ := _ in _) => cbv zeta
  end.
Ltac solve_unwriting := repeat unwriting_step.
