(* ===== verification/Goroutines.v ===== *)
(** * The goroutines of the master

    Each handler and each turn of a loop of internal/daemon/master.go as a
    thread: the code of Server.v, Dispatch.v and Master.v again, call by call,
    with every place where another goroutine may come in between.  [alone_*]
    shows that a thread without interference is the handler. *)

From S2P Require Import Prelude GoStd GoJson GoTime GoHeap Queue QueueFacts Messaging Fairshare.
From S2P Require Import CircuitBreaker Tracker Matchmaker Store Config World Server Dispatch Master.
From S2P Require Import Hoare Threads.
Import GlobalScheduler (objs, gobjs, queue, jobs, groups, MaxQueueSize, OnJobChange,
  OnGroupChange, dbWriteChan).
#[local] Open Scope string_scope.
#[local] Open Scope list_scope.
#[local] Open Scope Z_scope.

(** What a client is told. *)
Inductive answer :=
  | Nothing
  | Submitted (r : reply SubmitJobResponse)
  | Distributed (r : reply SubmitDistributedJobResponse)
  | Cancelled (r : CancelJobResponse)
  | Acknowledged (r : Z * string)
  | Subscribed (ch : chan).

Section Goroutines.
Context {C : CEL} {B : Bolt} `{GoArch} `{Zone} `{MapOrder}.

(** ** Calls *)

Definition reads {A} (f : GlobalScheduler → A) : prog A := call (gets (λ w, f (sched w))).

Definition appendLog_p (jobID level msg : string) : prog () :=
  now ← act time_Now;
  let entry := LogMessage.mk (UnixMilli now) level msg jobID in
  act (modify (λ w, w <| logStore ::= λ ls, <[jobID := default [] (ls !! jobID) ++ [entry]]> ls |>));;
  act (modify (λ w, w <| chans ::= λ cs,
    fold_left (λ cs ch, try_send entry ch cs) (default [] (logChannels w !! jobID)) cs |>)).

(** A new job is the thread's own until it is in the queue: creating it and
    queueing it are one action. *)
Definition enqueue (job : Job) : M World (option string) :=
  l ← on_queue (new_job job); on_queue (Enqueue l).
Definition register (g : JobGroup) : M World () :=
  l ← on_queue (new_group g); on_queue_ (RegisterGroup l).

(** Cancel copies the job after it has released the mutex and notified. *)
Definition Cancel_p (jobID : string) : prog (option Job * bool) :=
  '(l, (job, ok)) ← call (l ← gets (λ w, jobs (sched w) !! jobID); r ← queue_Cancel jobID; mret (l, r));
  match l with
  | None => mret (job, ok)
  | Some l => job ← act (gets (λ w, Copy (deref (sched w) l))); mret (Some job, ok)
  end.

Definition GetJob_p (jobID : string) : prog (option Job) := reads (GetJob jobID).

(** ** The gRPC handlers *)

Definition SubmitJob_p (req : SubmitJobRequest) : prog (reply SubmitJobResponse) :=
  drain ← act (gets draining);
  if drain : bool
  then mret (inr (Unavailable, "master is draining, not accepting new jobs"))
  else
    id ← act uuid_New;
    let jobID := String.substring 0 8 id in
    let priority := default_priority (sj_Priority req) in
    let user := default_user (sj_User req) in
    penalty ← act (gets (λ w, CalculatePenalty user (fairshare w)));
    let effectivePriority := priority +ᵢ penalty in
    now ← act time_Now;
    retries ← act (gets (λ w, Config.MaxRetries (cfg w)));
    err ← call (enqueue (submitted_job req jobID user effectivePriority retries now));
    match err with
    | Some e => mret (inr (ResourceExhausted, "queue full: " +:+ e))
    | None =>
        act (observe (jobsSubmittedTotal user 1));;
        appendLog_p jobID "INFO" ("Job queued | Priority: " +:+ Itoa effectivePriority +:+
          " | GPUs: " +:+ Itoa (sj_GpusRequired req) +:+ " | Retries: " +:+ Itoa retries +:+
          " | Expr: '" +:+ sj_CelRequirement req +:+ "'");;
        mret (inl {| sjr_JobId := jobID; sjr_Status := "QUEUED" |})
    end.

Fixpoint submit_ranks_p (n : nat) (rank : Z) (req : SubmitDistributedJobRequest)
    (groupID user : string) (priority numNodes masterPort : Z) (jobIDs : list string) :
    prog (list string + string) :=
  match n with
  | O => mret (inl jobIDs)
  | S n =>
      let jobID := groupID +:+ "-r" +:+ Itoa rank in
      now ← act time_Now;
      err ← call (enqueue (rank_job req jobID groupID user rank priority numNodes masterPort now));
      match err with
      | Some e => mret (inr e)
      | None =>
          appendLog_p jobID "INFO" ("Distributed job rank " +:+ Itoa rank +:+ "/" +:+ Itoa numNodes +:+
            " queued in group " +:+ groupID);;
          submit_ranks_p n (rank +ᵢ 1) req groupID user priority numNodes masterPort (jobIDs ++ [jobID])
      end
  end.

Definition SubmitDistributedJob_p (req : SubmitDistributedJobRequest) :
    prog (reply SubmitDistributedJobResponse) :=
  drain ← act (gets draining);
  if drain : bool then mret (inr (Unavailable, "master is draining"))
  else
    id ← act uuid_New;
    let groupID := "dj-" +:+ String.substring 0 8 id in
    let masterPort := if sd_MasterPort req =? 0 then 29500 else sd_MasterPort req in
    let priority := default_priority (sd_Priority req) in
    let user := default_user (sd_User req) in
    let numNodes := if sd_NumNodes req <? 1 then 1 else sd_NumNodes req in
    ranks ← submit_ranks_p (Z.to_nat numNodes) 0 req groupID user priority numNodes masterPort [];
    match ranks with
    | inr e => mret (inr (ResourceExhausted, "queue full: " +:+ e))
    | inl jobIDs =>
        now ← act time_Now;
        call (register (JobGroup.mk groupID jobIDs numNodes (sd_GpusPerNode req) masterPort "PENDING" now));;
        act (observe (jobsSubmittedTotal user numNodes));;
        mret (inl {| sdr_GroupId := groupID; sdr_JobIds := jobIDs; sdr_Status := "QUEUED" |})
    end.

Definition release_and_kill_p (job : Job) : prog () :=
  when_p (negb (String.eqb (Job.WorkerNode job) "")) (act (Release_job job (Job.WorkerNode job)));;
  when_p (negb (String.eqb (Job.WorkerNode job) ""))
    (act (pub_Send (cancel_payload (Job.WorkerNode job) (Job.ID job)))).

Definition CancelJob_p (jobId : string) : prog CancelJobResponse :=
  '(job, ok) ← Cancel_p jobId;
  match ok, job with
  | false, Some j =>
      mret {| cj_JobId := jobId; cj_Status := Job.State j; cj_Message := "Already " +:+ Job.State j |}
  | false, None =>
      mret {| cj_JobId := jobId; cj_Status := "NOT_FOUND"; cj_Message := "Job not found" |}
  | true, None => act panic
  | true, Some j =>
      release_and_kill_p j;;
      appendLog_p jobId "INFO" "Job cancelled by user";;
      mret {| cj_JobId := jobId; cj_Status := "CANCELLED"; cj_Message := "Cancelled" |}
  end.

(** GetJob for each rank. *)
Fixpoint all_done_p (ids : list string) : prog bool :=
  match ids with
  | [] => mret true
  | jid :: ids =>
      found ← GetJob_p jid;
      match found with
      | None => all_done_p ids
      | Some j =>
          if String.eqb (Job.State j) StateQueued || String.eqb (Job.State j) StateRunning
          then mret false else all_done_p ids
      end
  end.

Definition handleGroupCompletion_p (groupID completedJobID : string) (success : bool) : prog () :=
  group ← reads (GetGroup groupID);
  match group with
  | None => mret tt
  | Some group =>
      if String.eqb (JobGroup.State group) "COMPLETED" || String.eqb (JobGroup.State group) "FAILED"
      then mret tt
      else if negb success then
        for_each_p (JobGroup.JobIDs group) (λ jid,
          if String.eqb jid completedJobID then mret tt
          else
            '(job, ok) ← Cancel_p jid;
            match ok, job with
            | true, Some job => release_and_kill_p job
            | _, _ => mret tt
            end);;
        call (on_queue_ (SetGroupState groupID "FAILED"))
      else
        allDone ← all_done_p (JobGroup.JobIDs group);
        when_p allDone (call (on_queue_ (SetGroupState groupID "COMPLETED")))
  end.

Definition record_outcome_p (req : ReportResultRequest) : prog () :=
  if rr_Success req then act (modify (λ w, w <| cb ::= RecordSuccess (rr_WorkerNode req) |>))
  else when_p (negb (isUserError (rr_Error req)))
    (now ← act time_Now;
     act (modify (λ w, w <| cb ::= RecordFailure now (rr_WorkerNode req) (rr_JobId req) |>))).

(** The last action starts the goroutine of the retry. *)
Definition schedule_retry_p (jobID : string) (job : Job) : prog () :=
  let nextRetryCount := Job.RetryCount job +ᵢ 1 in
  let backoff := retry_backoff nextRetryCount in
  appendLog_p jobID "WARN" ("Retry " +:+ Itoa nextRetryCount +:+ "/" +:+ Itoa (Job.MaxRetries job) +:+
    " in " +:+ Duration_String backoff);;
  now ← act time_Now;
  act (modify (λ w, w <| timers ::= λ l, l ++ [(Add now backoff, jobID)] |>)).

(** The dead letter, when there is a database. *)
Definition save_dead_letter (job : Job) : M World bool := λ w,
  match store w with
  | None => Some (false, w)
  | Some d => Some (true, w <| store := Some (default d (SaveDeadLetter job d)) |>)
  end.

Definition dead_letter_p (jobID : string) (job : Job) : prog () :=
  saved ← act (save_dead_letter job);
  when_p saved (appendLog_p jobID "ERROR" ("All " +:+ Itoa (Job.MaxRetries job) +:+
    " retries exhausted, moved to dead letter queue")).

Definition ReportResult_p (req : ReportResultRequest) : prog () :=
  call (queue_MarkCompleted (rr_JobId req) (rr_Success req) (rr_Output req) (rr_Error req));;
  found ← GetJob_p (rr_JobId req);
  match found with
  | None => mret tt
  | Some job =>
      when_p (negb (String.eqb (Job.WorkerNode job) "")) (act (Release_job job (Job.WorkerNode job)));;
      record_outcome_p req;;
      let dur := Seconds (Sub (Job.EndTime job) (Job.StartTime job)) in
      when_p (float64.ltb float64.zero dur)
        (write_usage (modify (λ w, w <| fairshare ::= RecordUsage (Job.User job) dur |>)));;
      if negb (rr_Success req) && String.eqb (Job.GroupID job) "" &&
         (Job.RetryCount job <? Job.MaxRetries job)
      then schedule_retry_p (rr_JobId req) job
      else
        when_p (negb (rr_Success req) && (Job.MaxRetries job <=? Job.RetryCount job) &&
                (0 <? Job.MaxRetries job)) (dead_letter_p (rr_JobId req) job);;
        when_p (negb (String.eqb (Job.GroupID job) ""))
          (handleGroupCompletion_p (Job.GroupID job) (rr_JobId req) (rr_Success req));;
        let resultStatus := if rr_Success req then "COMPLETED" else "FAILED" in
        act (observe (jobsCompletedTotal (Job.User job) resultStatus));;
        when_p (float64.ltb float64.zero dur) (act (observe (jobDuration (Job.User job) resultStatus dur)));;
        appendLog_p (rr_JobId req) "INFO" ("Job " +:+ resultStatus +:+ " on worker " +:+
          rr_WorkerNode req +:+ " | Output: " +:+ truncate (rr_Output req) 200);;
        when_p (negb (String.eqb (rr_Error req) "")) (appendLog_p (rr_JobId req) "ERROR" (rr_Error req))
  end.

(** The goroutine of a pending retry wakes up: it is gone from the pending ones
    in the same action. *)
Definition wake (i : nat) (stop : bool) : M World (option string) :=
  pending ← gets (λ w, timers w !! i);
  match pending with
  | None => mret None
  | Some (deadline, jobID) =>
      ended ← gets ctx_done;
      now ← time_Now;
      if ended && stop then modify (λ w, w <| timers ::= delete i |>);; mret None
      else if Before now deadline then mret None
      else modify (λ w, w <| timers ::= delete i |>);; mret (Some jobID)
  end.

Definition retry_fire_p (i : nat) (stop : bool) : prog () :=
  woken ← act (wake i stop);
  match woken with
  | None => mret tt
  | Some jobID => call (on_queue (Requeue jobID true));; mret tt
  end.

(** ** dispatchLoop *)

Definition update_gauges_p : prog () :=
  n ← reads QueueLen; act (observe (queueDepth (Z.of_nat n)));;
  running ← reads RunningJobs; act (observe (runningJobs (Z.of_nat (length running))));;
  members ← act (gets disc); act (observe (clusterNodes (Z.of_nat (length members))));;
  pending ← reads PendingGroups; act (observe (groupsPending (Z.of_nat (length pending)))).

(** One resource: the tracker is asked when the advertised total covers the
    request. *)
Definition enough_p (ad : option (gmap string json)) (key : string) (required : Z)
    (available : gpuTracker → Z → Z) : prog bool :=
  if 0 <? required then
    let total := int_of_float (get_float ad key) in
    if total <? required then mret false
    else
      free ← act (gets (λ w, available (tracker w) total));
      mret (negb (free <? required))
  else mret true.

Definition canDispatchResources_p (member : Node) (job : Job) : prog bool :=
  let ad := if (0 <? String.length (Node.Meta member))%nat
            then (Unmarshal_map (Node.Meta member)).1 else None in
  gpus ← enough_p ad "gpu_count" (Job.GPUsRequired job)
    (λ gt total, AvailableGPUs (Node.Name member) total gt);
  if negb gpus then mret false
  else
    cpus ← enough_p ad "cpu_cores" (Job.CPUsRequired job)
      (λ gt total, AvailableCPUs (Node.Name member) total gt);
    if negb cpus then mret false
    else enough_p ad "total_memory_mb" (Job.MemoryRequiredMB job)
      (λ gt total, AvailableMemory (Node.Name member) total gt).

Fixpoint find_member_p (job : Job) (usedNodes : gset string) (members : list Node) :
    prog (option Node) :=
  match members with
  | [] => mret None
  | member :: members =>
      if decide (Node.Name member ∈ usedNodes) then find_member_p job usedNodes members
      else if (String.length (Node.Meta member) =? 0)%nat then find_member_p job usedNodes members
      else
        blocked ← act (cb_IsBlocked (Node.Name member));
        if blocked : bool then find_member_p job usedNodes members
        else
          fits ← canDispatchResources_p member job;
          if negb fits then find_member_p job usedNodes members
          else
            '(m, err) ← act (eval_Match (Job.Requirement job) (Node.Meta member));
            match err with
            | None => if m : bool then mret (Some member) else find_member_p job usedNodes members
            | Some _ => find_member_p job usedNodes members
            end
  end.

Definition dispatchJob_p (job : Job) (nodeName : string) : prog () :=
  dispatchStart ← act time_Now;
  call (queue_MarkRunning (Job.ID job) nodeName);;
  act (now ← time_Now; modify (λ w, w <| dispatchPending ::= <[Job.ID job := now]> |>));;
  act (on_tracker (Allocate nodeName (Job.GPUsRequired job) (Job.CPUsRequired job)
    (Job.MemoryRequiredMB job)));;
  members ← act (gets disc);
  let envVars := default ∅ (Job.EnvVars job) in
  let envVars :=
    if 0 <? Job.GPUsRequired job
    then gpu_env (gpu_vendor members nodeName) (Job.GPUsRequired job) envVars
    else envVars in
  act (pub_Send (DispatchPayload.mk nodeName (Job.ID job) (Job.Command job) (Job.WalltimeSeconds job)
    "execute" (Some envVars)));;
  finished ← act time_Now;
  act (observe (dispatchDuration (Seconds (Sub finished dispatchStart))));;
  appendLog_p (Job.ID job) "INFO" ("Dispatched to node " +:+ nodeName).

(** ** Gang scheduling *)

(** GetJob for each rank. *)
Fixpoint queued_ranks_p (ids : list string) : prog (list Job) :=
  match ids with
  | [] => mret []
  | jid :: ids =>
      found ← GetJob_p jid;
      rest ← queued_ranks_p ids;
      mret (match found with
            | Some job => if String.eqb (Job.State job) StateQueued then job :: rest else rest
            | None => rest
            end)
  end.

Fixpoint match_members_p (queuedJobs : list Job) (usedNodes : gset string) (members : list Node) :
    prog (option (list Node)) :=
  match queuedJobs with
  | [] => mret (Some [])
  | job :: jobs =>
      found ← find_member_p job usedNodes members;
      match found with
      | None => mret None
      | Some member =>
          rest ← match_members_p jobs ({[Node.Name member]} ∪ usedNodes) members;
          mret (match rest with Some l => Some (member :: l) | None => None end)
      end
  end.

Fixpoint dispatch_ranks_p (i : Z) (jobs : list Job) (nodes : list Node) (rank0Addr : string) : prog () :=
  match jobs, nodes with
  | job :: jobs, node :: nodes =>
      match Job.EnvVars job with
      | None => act panic
      | Some env =>
          let job := job <| Job.EnvVars := Some (<["MASTER_ADDR" := rank0Addr]> env) |> in
          call (on_queue (RemoveByID (Job.ID job)));;
          dispatchJob_p job (Node.Name node);;
          appendLog_p (Job.ID job) "INFO" ("Gang-scheduled: rank " +:+ Itoa i +:+
            " " +:+ String (byte 226) (String (byte 134) (String (byte 146) " ")) +:+
            Node.Name node +:+ " (master=" +:+ rank0Addr +:+ ")");;
          dispatch_ranks_p (i +ᵢ 1) jobs nodes rank0Addr
      end
  | [], _ => mret tt
  | _ :: _, [] => act panic
  end.

Definition tryDispatchGroup_p (group : JobGroup) : prog () :=
  queuedJobs ← queued_ranks_p (JobGroup.JobIDs group);
  if negb (Z.of_nat (length queuedJobs) =? JobGroup.NumNodes group) then mret tt
  else
    members ← act (gets disc);
    matched ← match_members_p queuedJobs ∅ members;
    match matched with
    | None => mret tt
    | Some [] => act panic
    | Some ((m0 :: _) as nodes) =>
        dispatch_ranks_p 0 queuedJobs nodes (Node.Addr m0);;
        call (on_queue_ (SetGroupState (JobGroup.GroupID group) "RUNNING"))
    end.

Definition expire_group_p (group : JobGroup) : prog () :=
  for_each_p (JobGroup.JobIDs group) (λ jid,
    Cancel_p jid;;
    appendLog_p jid "ERROR" ("Gang group timed out waiting for " +:+ Itoa (JobGroup.NumNodes group) +:+
      " nodes"));;
  call (on_queue_ (SetGroupState (JobGroup.GroupID group) "FAILED")).

Definition gang_phase_p : prog () :=
  groups ← reads PendingGroups;
  for_each_p groups (λ group,
    if IsZero (JobGroup.CreatedAt group) then tryDispatchGroup_p group
    else
      now ← act time_Now;
      if gangTimeout <? Sub now (JobGroup.CreatedAt group)
      then expire_group_p group else tryDispatchGroup_p group).

(** ** Backfill

    Backfill holds the mutex while it asks [backfill_match_p] about one queued
    job after the other; the tracker and the evaluator have their own. *)

Definition backfill_match_p (member : Node) (job : Job) : prog bool :=
  if negb (String.eqb (Job.GroupID job) "") then mret false
  else
    fits ← canDispatchResources_p member job;
    if negb fits then mret false
    else
      '(m, err) ← act (eval_Match (Job.Requirement job) (Node.Meta member));
      mret (match err with None => m | Some _ => false end).

Fixpoint Backfill_scan_p (member : Node) (gs : GlobalScheduler) (i : nat) (q : list loc) :
    prog (option (nat * loc)) :=
  match q with
  | [] => mret None
  | job :: q' =>
      b ← backfill_match_p member (Copy (deref gs job));
      if b : bool then mret (Some (i, job)) else Backfill_scan_p member gs (S i) q'
  end.

(** The job at a place of the queue, taken out. *)
Definition take_at (i : nat) (job : loc) (gs : GlobalScheduler) : Job * GlobalScheduler :=
  let gs := heap_remove (Z.of_nat i) gs in (Copy (deref gs job), gs).

Definition queue_Backfill_p (member : Node) : prog (option Job) :=
  lock;;
  gs ← Act Mutex (gets sched) Ret;
  found ← Backfill_scan_p member gs 0 (queue gs);
  match found with
  | None => unlock;; mret None
  | Some (i, job) => job ← Act Mutex (on_queue (take_at i job)) Ret; unlock;; mret (Some job)
  end.

Fixpoint backfill_phase_p (members : list Node) : prog () :=
  match members with
  | [] => mret tt
  | member :: members =>
      if (String.length (Node.Meta member) =? 0)%nat then backfill_phase_p members
      else
        blocked ← act (cb_IsBlocked (Node.Name member));
        if blocked : bool then backfill_phase_p members
        else
          found ← queue_Backfill_p member;
          match found with
          | None => backfill_phase_p members
          | Some job =>
              appendLog_p (Job.ID job) "INFO" ("Backfilled onto " +:+ Node.Name member);;
              dispatchJob_p job (Node.Name member)
          end
  end.

(** Phase 1, from the member found for the first job on. *)
Definition dispatch_first_p (selectedNode : string) : prog () :=
  job ← call (on_queue Dequeue);
  match job with
  | Some job => dispatchJob_p job selectedNode
  | None => mret tt
  end.

Definition dispatch_tick_p : prog () :=
  update_gauges_p;;
  gang_phase_p;;
  top ← reads Peek;
  match top with
  | None => mret tt
  | Some topJob =>
      if negb (String.eqb (Job.GroupID topJob) "") then mret tt
      else
        members ← act (gets disc);
        selected ← find_member_p topJob ∅ members;
        let selectedNode := match selected with Some member => Node.Name member | None => "" end in
        if negb (String.eqb selectedNode "") then dispatch_first_p selectedNode
        else backfill_phase_p members
  end.

(** ** The enforcers *)

Definition kill_overdue_p (job : Job) : prog () :=
  if Job.WalltimeSeconds job <=? 0 then mret tt
  else
    now ← act time_Now;
    when_p (After now (Add (Job.StartTime job) (Job.WalltimeSeconds job *ᵢ Second)))
      (act (observe walltimeKillsTotal);;
       Cancel_p (Job.ID job);;
       when_p (negb (String.eqb (Job.WorkerNode job) "")) (act (Release_job job (Job.WorkerNode job)));;
       act (pub_Send (cancel_payload (Job.WorkerNode job) (Job.ID job)));;
       appendLog_p (Job.ID job) "WARN" ("Walltime exceeded (" +:+ Itoa (Job.WalltimeSeconds job) +:+ "s)")).

Definition walltime_tick_p : prog () :=
  jobs ← reads RunningJobs; for_each_p jobs kill_overdue_p.

(** The pending entries that have timed out, taken out under their mutex. *)
Definition expire_pending (now : Time) : M World (list string) :=
  ids ← gets (λ w, timed_out now (dispatchPending w));
  modify (λ w, w <| dispatchPending ::= λ p, fold_left (λ p id, delete id p) ids p |>);; mret ids.

Definition dispatch_timeout_tick_p : prog () :=
  now ← act time_Now;
  ids ← act (expire_pending now);
  for_each_p ids (λ jobID,
    found ← GetJob_p jobID;
    match found with
    | None => mret tt
    | Some job =>
        if negb (String.eqb (Job.State job) StateRunning) then mret tt
        else
          appendLog_p jobID "WARN" "Dispatch handshake timed out, re-queueing";;
          '(_, requeued) ← call (on_queue (RequeueRunningJob jobID));
          when_p (requeued && negb (String.eqb (Job.WorkerNode job) ""))
            (act (Release_job job (Job.WorkerNode job)))
    end).

(** ** The other goroutines *)

Definition OnLeave_p (nodeName : string) : prog () :=
  jobs ← reads (RunningJobsOnNode nodeName);
  match jobs with
  | [] => mret tt
  | _ =>
      act (observe workerLostTotal);;
      for_each_p jobs (λ job,
        act (Release_job job nodeName);;
        call (queue_MarkCompleted (Job.ID job) false "" "worker node lost");;
        if String.eqb (Job.GroupID job) "" then mret tt
        else
          group ← reads (GetGroup (Job.GroupID job));
          match group with
          | Some g =>
              when_p (String.eqb (JobGroup.State g) "RUNNING")
                (call (on_queue_ (SetGroupState (Job.GroupID job) "FAILED")))
          | None => mret tt
          end)
  end.

Definition save_fairshare : M World () := modify (λ w,
  w <| store ::= fmap (λ d, default d (SaveFairshare (FairshareCalculator.UserUsage (fairshare w)) d)) |>).

(** SaveFairshare is handed the live map, and encodes it without the calculator's
    mutex. *)
Definition fairshare_tick_p : prog () :=
  write_usage (modify (λ w, w <| fairshare ::= DecayUsage decay_factor |>));;
  range_usage save_fairshare.

(** The thread of an event; the database goroutine is not one of them. *)
Definition thread (e : event) : prog answer :=
  match e with
  | ESubmit req => r ← SubmitJob_p req; mret (Submitted r)
  | ESubmitDistributed req => r ← SubmitDistributedJob_p req; mret (Distributed r)
  | ECancel id => r ← CancelJob_p id; mret (Cancelled r)
  | EReport req => ReportResult_p req;; mret Nothing
  | EAcknowledge m b => r ← act (acknowledge_start m b); mret (Acknowledged r)
  | ESubscribe id => ch ← act (StreamLogs_subscribe id); mret (Subscribed ch)
  | EUnsubscribe id ch => act (StreamLogs_close id ch);; mret Nothing
  | EDispatch => dispatch_tick_p;; mret Nothing
  | EWalltime => walltime_tick_p;; mret Nothing
  | EDispatchTimeout => dispatch_timeout_tick_p;; mret Nothing
  | ERetry i stop => retry_fire_p i stop;; mret Nothing
  | EWriter => mret Nothing
  | EDecay => fairshare_tick_p;; mret Nothing
  | EMembers ms => act (set_members ms);; mret Nothing
  | ELeave n => OnLeave_p n;; mret Nothing
  | EDrain => act start_draining;; mret Nothing
  | EShutdown => act shutdown;; mret Nothing
  end.

(** The same, in one step. *)
Definition answered (e : event) : M World answer :=
  match e with
  | ESubmit req => r ← SubmitJob req; mret (Submitted r)
  | ESubmitDistributed req => r ← SubmitDistributedJob req; mret (Distributed r)
  | ECancel id => r ← CancelJob id; mret (Cancelled r)
  | EAcknowledge m b => r ← acknowledge_start m b; mret (Acknowledged r)
  | ESubscribe id => ch ← StreamLogs_subscribe id; mret (Subscribed ch)
  | e => handle e;; mret Nothing
  end.
End Goroutines.
