(* ===== verification/Alone.v ===== *)
(** * A goroutine without interference is its handler

    [appends]: a method of the scheduler touches [dbWriteChan] only by sending,
    in every state; [alone_thread]: run to completion with nothing in between, the
    thread of an event does what [handle] does. *)

From S2P Require Import Prelude GoStd GoJson GoTime GoHeap Queue QueueFacts Messaging Fairshare.
From S2P Require Import CircuitBreaker Tracker Matchmaker Store Config World Server Dispatch Master.
From S2P Require Import Hoare Threads Goroutines.
Import GlobalScheduler (objs, gobjs, queue, jobs, groups, MaxQueueSize, OnJobChange,
  OnGroupChange, dbWriteChan).
#[local] Open Scope string_scope.
#[local] Open Scope list_scope.

(** ** The heap leaves the channel alone *)

Section Heap.
Context (P : GlobalScheduler → Prop).
Hypothesis P_Swap : ∀ i j gs, P gs → P (JobQueue.Swap i j gs).
Hypothesis P_Pop : ∀ gs l gs', P gs → JobQueue.Pop gs = Some (l, gs') → P gs'.

Lemma up_loop_preserves f j gs : P gs → P (heap.up_loop f j gs).
Proof.
  revert j gs. induction f as [|f IH]; intros j gs HP; [done|]. cbn [heap.up_loop].
  destruct (_ || _); [done|]. by apply IH, P_Swap.
Qed.

Lemma down_loop_preserves f i n gs : P gs → P (heap.down_loop f i n gs).2.
Proof.
  revert i gs. induction f as [|f IH]; intros i gs HP; [done|]. cbn [heap.down_loop].
  destruct (_ <=? _)%nat; [done|]. destruct (negb _); [done|]. by apply IH, P_Swap.
Qed.

Lemma down_preserves i n gs : P gs → P (heap.down i n gs).2.
Proof.
  intros HP. unfold heap.down. pose proof (down_loop_preserves n i n gs HP) as HD.
  by destruct (heap.down_loop n i n gs).
Qed.

Lemma heap_pop_preserves gs l gs' : P gs → heap.Pop gs = Some (l, gs') → P gs'.
Proof.
  intros HP. unfold heap.Pop. destruct (_ =? _)%nat; [done|]. apply P_Pop, down_preserves. by apply P_Swap.
Qed.

Lemma heap_remove_preserves i gs : P gs → P (heap_remove i gs).
Proof.
  intros HP. unfold heap_remove. destruct (heap.Remove _ gs) as [[l gs']|] eqn:E; [|done]. revert E.
  unfold heap.Remove. destruct (_ <=? _)%nat; [done|]. destruct (_ =? _)%nat; [by apply P_Pop|].
  pose proof (λ k, down_preserves k (Len gs - 1) _ (P_Swap k (Len gs - 1) gs HP)) as HD.
  specialize (HD (Z.to_nat i)). destruct (heap.down _ _ _) as [moved gs1]. apply P_Pop.
  destruct moved; [done|]. by apply up_loop_preserves.
Qed.
End Heap.

(** Out of range, nothing is removed. *)
Lemma heap_remove_out i gs : (Len gs ≤ i)%nat → heap_remove (Z.of_nat i) gs = gs.
Proof.
  intros Hi. unfold heap_remove, heap.Remove. rewrite Nat2Z.id.
  by destruct (Nat.leb_spec (Len gs) i); [|lia].
Qed.

Lemma chan_Swap c i j gs : dbWriteChan gs = c → dbWriteChan (JobQueue.Swap i j gs) = c.
Proof. done. Qed.

Lemma chan_Pop c gs l gs' : dbWriteChan gs = c → JobQueue.Pop gs = Some (l, gs') → dbWriteChan gs' = c.
Proof. intros Hc. unfold JobQueue.Pop. destruct (queue gs !! _); [|done]. by intros [= _ <-]. Qed.

Lemma chan_heap_remove i gs : dbWriteChan (heap_remove i gs) = dbWriteChan gs.
Proof.
  apply (heap_remove_preserves (λ gs', dbWriteChan gs' = dbWriteChan gs)); [done| |done].
  intros gs1 l gs'. apply chan_Pop.
Qed.

Lemma chan_heap_pop gs l gs' : heap.Pop gs = Some (l, gs') → dbWriteChan gs' = dbWriteChan gs.
Proof.
  apply (heap_pop_preserves (λ gs', dbWriteChan gs' = dbWriteChan gs)); [done| |done].
  intros gs1 l1 gs1'. apply chan_Pop.
Qed.

(** ** The methods *)

(** [gs'] has sent more than [gs]. *)
Definition sent (gs gs' : GlobalScheduler) : Prop := ∃ ops, dbWriteChan gs' = dbWriteChan gs ++ ops.

#[export] Instance sent_preorder : PreOrder sent.
Proof.
  split; [intros gs; exists []; by rewrite app_nil_r|].
  intros gs1 gs2 gs3 [o1 H1] [o2 H2]. exists (o1 ++ o2). by rewrite H2, H1, app_assoc.
Qed.

Lemma sent_none gs gs' : dbWriteChan gs' = dbWriteChan gs → sent gs gs'.
Proof. intros Hc. exists []. by rewrite app_nil_r. Qed.

Lemma sent_notify l gs gs' : dbWriteChan gs' = dbWriteChan gs → sent gs (notifyJobChange l gs').
Proof.
  intros Hc. unfold notifyJobChange. case_match; [|by apply sent_none]. eexists. simpl. by rewrite Hc.
Qed.

Lemma sent_notify_group l gs gs' : dbWriteChan gs' = dbWriteChan gs → sent gs (notifyGroupChange l gs').
Proof.
  intros Hc. unfold notifyGroupChange. case_match; [|by apply sent_none]. eexists. simpl. by rewrite Hc.
Qed.

Lemma chan_heap_push l gs : dbWriteChan (heap.Push l gs) = dbWriteChan gs.
Proof. apply (hf_chan _ _ (frame_heap_Push l gs)). Qed.

Lemma chan_remove_at l gs : dbWriteChan (remove_at_index l gs) = dbWriteChan gs.
Proof. unfold remove_at_index. case_match; [|done]. apply chan_heap_remove. Qed.

Lemma sent_Enqueue l gs : sent gs (Enqueue l gs).2.
Proof.
  unfold Enqueue. case_match; [done|]. apply sent_notify. by rewrite chan_heap_push.
Qed.

Lemma sent_Dequeue gs : sent gs (Dequeue gs).2.
Proof.
  unfold Dequeue. case_match; [done|]. destruct (heap.Pop gs) as [[l gs']|] eqn:E; [|done].
  apply sent_none. by eapply chan_heap_pop.
Qed.

Lemma sent_RemoveByID id gs : sent gs (RemoveByID id gs).2.
Proof.
  unfold RemoveByID. case_match; [|done]. case_match; [done|]. apply sent_none, chan_remove_at.
Qed.

Lemma sent_Cancel now id gs : sent gs (Cancel now id gs).2.
Proof.
  unfold Cancel. case_match; [|done]. case_match; [|case_match; [|done]].
  - apply sent_notify. apply chan_remove_at.
  - by apply sent_notify.
Qed.

Lemma sent_Requeue id b gs : sent gs (Requeue id b gs).2.
Proof. unfold Requeue. case_match; [|done]. apply sent_notify. rewrite chan_heap_push. by destruct b. Qed.

Lemma sent_RequeueRunning id gs : sent gs (RequeueRunningJob id gs).2.
Proof.
  unfold RequeueRunningJob. case_match; [|done]. case_match; [done|]. apply sent_notify.
  by rewrite chan_heap_push.
Qed.

Lemma sent_MarkRunning now id n gs : sent gs (MarkRunning now id n gs).
Proof. unfold MarkRunning. case_match; [|done]. by apply sent_notify. Qed.

Lemma sent_MarkCompleted now id b o e gs : sent gs (MarkCompleted now id b o e gs).
Proof. unfold MarkCompleted. case_match; [|done]. case_match; [done|]. by apply sent_notify. Qed.

Lemma sent_SetGroupState id st gs : sent gs (SetGroupState id st gs).
Proof. unfold SetGroupState. case_match; [|done]. by apply sent_notify_group. Qed.

Lemma sent_RegisterGroup l gs : sent gs (RegisterGroup l gs).
Proof. by apply sent_notify_group. Qed.

Create HintDb appends.
#[export] Hint Resolve sent_Enqueue sent_Dequeue sent_RemoveByID sent_Cancel sent_Requeue
  sent_RequeueRunning sent_MarkRunning sent_MarkCompleted sent_SetGroupState sent_RegisterGroup : appends.

Section Appends.
Context {C : CEL} {B : Bolt} `{GoArch} `{Zone} `{MapOrder}.

Lemma appends_bind {A D} (m : M World A) (f : A → M World D) :
  appends m → (∀ a, appends (f a)) → appends (m ≫= f).
Proof.
  intros Hm Hf w d w'. unfold mbind, M_bind. destruct (m w) as [[a w1]|] eqn:E1; [|done]. intros E2.
  destruct (Hm _ _ _ E1) as [o1 H1'], (Hf _ _ _ _ E2) as [o2 H2']. exists (o1 ++ o2).
  by rewrite H2', H1', app_assoc.
Qed.

Lemma appends_gets {A} (f : World → A) : appends (gets f).
Proof. intros w a w' [= _ <-]. exists []. by rewrite app_nil_r. Qed.

Lemma appends_ret {A} (a : A) : appends (mret a).
Proof. intros w a' w' [= _ <-]. exists []. by rewrite app_nil_r. Qed.

Lemma appends_time_Now : appends time_Now.
Proof. intros w a w' [= _ <-]. exists []. by rewrite app_nil_r. Qed.

Lemma appends_on_queue {A} (f : GlobalScheduler → A * GlobalScheduler) :
  (∀ gs, sent gs (f gs).2) → appends (on_queue f).
Proof.
  intros Hf w a w'. unfold on_queue. pose proof (Hf (sched w)) as Hs. destruct (f (sched w)). by intros [= _ <-].
Qed.

Lemma appends_on_queue_ f : (∀ gs, sent gs (f gs)) → appends (on_queue_ f).
Proof. intros Hf w a w' [= _ <-]. apply Hf. Qed.

#[local] Hint Resolve appends_gets appends_ret appends_time_Now appends_on_queue appends_on_queue_ : appends.
#[local] Hint Extern 1 (appends (_ ≫= _)) => apply appends_bind; [|intros] : appends.

Lemma appends_Cancel id : appends (queue_Cancel id).
Proof. unfold queue_Cancel. auto with appends. Qed.
Lemma appends_MarkRunning id n : appends (queue_MarkRunning id n).
Proof. unfold queue_MarkRunning. auto with appends. Qed.
Lemma appends_MarkCompleted id b o e : appends (queue_MarkCompleted id b o e).
Proof. unfold queue_MarkCompleted. auto with appends. Qed.

Lemma appends_enqueue job : appends (enqueue job).
Proof.
  unfold enqueue. apply appends_bind; [|auto with appends]. apply appends_on_queue. intros gs. by apply sent_none.
Qed.

Lemma appends_register g : appends (register g).
Proof.
  unfold register. apply appends_bind; [|auto with appends]. apply appends_on_queue. intros gs. by apply sent_none.
Qed.
End Appends.

#[export] Hint Resolve appends_gets appends_ret appends_time_Now appends_on_queue appends_on_queue_
  appends_Cancel appends_MarkRunning appends_MarkCompleted appends_enqueue appends_register : appends.
#[export] Hint Extern 1 (appends (_ ≫= _)) => apply appends_bind; [|intros] : appends.

(** ** The threads *)

Create HintDb alone.

Ltac alone_step :=
  lazymatch goal with
  | |- alone (mbind _ _) (mbind _ _) => apply alone_bind; [|intros]
  | |- alone (match ?x with _ => _ end) _ => destruct x
  | |- alone (for_each_p _ _) _ => apply alone_for_each; intros
  | |- alone (when_p _ _) _ => apply alone_when
  | |- alone (mret _) _ => apply alone_ret
  | |- alone (act _) _ => apply alone_act
  | |- alone (write_usage _) _ => apply alone_write_usage
  | |- alone (call _) _ => apply alone_call; solve [auto with appends]
  | |- alone (let _ := _ in _) _ => cbv zeta
  | |- alone _ _ => solve [eauto with alone nocore]
  end.
Ltac solve_alone := repeat alone_step.

Section Alone.
Context {C : CEL} {B : Bolt} `{GoArch} `{Zone} `{MapOrder}.

Lemma alone_ext {A} (p : prog A) (m m' : M World A) : (∀ w, m' w = m w) → alone p m → alone p m'.
Proof. intros Hm Hp w. by rewrite Hm. Qed.

Lemma alone_reads {A} (f : GlobalScheduler → A) : alone (reads f) (gets (λ w, f (sched w))).
Proof. apply alone_call, appends_gets. Qed.
#[local] Hint Resolve alone_reads : alone.

Lemma alone_GetJob id : alone (GetJob_p id) (queue_GetJob id).
Proof. apply alone_reads. Qed.

Lemma alone_appendLog id lvl msg : alone (appendLog_p id lvl msg) (appendLog id lvl msg).
Proof. unfold appendLog_p, appendLog. solve_alone. Qed.
#[local] Hint Resolve alone_GetJob alone_appendLog : alone.

(** The queueing of a job, alone and as the first of several calls. *)
Lemma alone_enqueue {A} job (k : option string → prog A) f : (∀ e, alone (k e) (f e)) →
  alone (call (enqueue job) ≫= k) (l ← on_queue (new_job job); e ← on_queue (Enqueue l); f e).
Proof.
  intros Hk. apply (alone_ext _ (enqueue job ≫= f)).
  - intros w. unfold enqueue, mbind, M_bind. by destruct (on_queue (new_job job) w) as [[??]|].
  - apply alone_bind; [|done]. apply alone_call, appends_enqueue.
Qed.

Lemma alone_register {A} g (k : prog A) f : alone k f →
  alone (call (register g);; k) (l ← on_queue (new_group g); on_queue_ (RegisterGroup l);; f).
Proof.
  intros Hk. apply (alone_ext _ (register g;; f)).
  - intros w. unfold register, mbind, M_bind. by destruct (on_queue (new_group g) w) as [[??]|].
  - apply alone_bind; [|done]. apply alone_call, appends_register.
Qed.

Ltac submit_step :=
  lazymatch goal with
  | |- alone (mbind _ (call (enqueue _))) _ => apply alone_enqueue; intros
  | |- alone (mbind _ (call (register _))) _ => apply alone_register
  | |- alone (submit_ranks_p _ _ _ _ _ _ _ _ _) _ => fail
  | |- _ => alone_step
  end.

(** What Cancel returns is the record as it left it. *)
Lemma Cancel_result now id gs :
  (Cancel now id gs).1.1 = (λ l, Copy (deref (Cancel now id gs).2 l)) <$> jobs gs !! id.
Proof. unfold Cancel. destruct (jobs gs !! id) as [l|]; [|done]. by repeat case_match. Qed.

Lemma alone_Cancel id : alone (Cancel_p id) (queue_Cancel id).
Proof.
  intros w. unfold Cancel_p. rewrite run_bind. unfold mbind at 1, M_bind at 1. rewrite alone_call.
  2: { apply appends_bind; [auto with appends|]. intros l. apply appends_bind; auto with appends. }
  unfold mbind at 1, M_bind at 1, gets at 1. unfold mbind at 1, M_bind at 1.
  rewrite queue_Cancel_eq. pose proof (Cancel_result (clock w (ticks w)) id (sched w)) as HR.
  destruct (Cancel _ id (sched w)) as [[job ok] gs]. cbn [fst snd] in HR. subst job.
  unfold mret, M_ret. by destruct (jobs (sched w) !! id).
Qed.
#[local] Hint Resolve alone_Cancel : alone.

Lemma alone_SubmitJob req : alone (SubmitJob_p req) (SubmitJob req).
Proof. unfold SubmitJob_p, SubmitJob. repeat submit_step. Qed.

Lemma alone_submit_ranks n rank req g u p nn mp ids :
  alone (submit_ranks_p n rank req g u p nn mp ids) (submit_ranks n rank req g u p nn mp ids).
Proof.
  revert rank ids. induction n as [|n IH]; intros rank ids; cbn [submit_ranks_p submit_ranks];
    repeat submit_step; apply IH.
Qed.
#[local] Hint Resolve alone_submit_ranks : alone.

Lemma alone_SubmitDistributedJob req : alone (SubmitDistributedJob_p req) (SubmitDistributedJob req).
Proof.
  unfold SubmitDistributedJob_p, SubmitDistributedJob. pose proof alone_submit_ranks.
  repeat first [submit_step|done].
Qed.

Lemma alone_release_and_kill job : alone (release_and_kill_p job) (release_and_kill job).
Proof. unfold release_and_kill_p, release_and_kill. solve_alone. Qed.
#[local] Hint Resolve alone_release_and_kill : alone.

Lemma alone_CancelJob id : alone (CancelJob_p id) (CancelJob id).
Proof. unfold CancelJob_p, CancelJob. solve_alone. Qed.

(** Reading several jobs, one call each. *)
Lemma run_get {A X} (p : prog X) (g : World → X) (k : X → prog A) w :
  alone p (gets g) → run (p ≫= k) w = run (k (g w)) w.
Proof. intros Hp. by rewrite run_bind, (M_bind_Some _ _ _ _ _ (Hp w)). Qed.

Lemma alone_all_done ids : alone (all_done_p ids) (gets (λ w, all_done ids (sched w))).
Proof.
  induction ids as [|id ids IH]; [done|]. cbn [all_done_p all_done].
  intros w. rewrite (run_get _ _ _ _ (alone_GetJob id)). unfold gets.
  destruct (GetJob id (sched w)) as [j|]; [|apply IH]. destruct (_ || _); [done|apply IH].
Qed.
#[local] Hint Resolve alone_all_done : alone.

Lemma alone_handleGroupCompletion g j b : alone (handleGroupCompletion_p g j b) (handleGroupCompletion g j b).
Proof. unfold handleGroupCompletion_p, handleGroupCompletion. solve_alone. Qed.

Lemma alone_record_outcome req : alone (record_outcome_p req) (record_outcome req).
Proof. unfold record_outcome_p, record_outcome. solve_alone. Qed.

Lemma alone_schedule_retry id job : alone (schedule_retry_p id job) (schedule_retry id job).
Proof. unfold schedule_retry_p, schedule_retry. solve_alone. Qed.

Lemma alone_dead_letter id job : alone (dead_letter_p id job) (dead_letter id job).
Proof.
  intros w. unfold dead_letter_p. rewrite run_bind. unfold mbind, M_bind. rewrite alone_act.
  unfold save_dead_letter, dead_letter. destruct (store w) as [d|]; [|done]. apply alone_appendLog.
Qed.
#[local] Hint Resolve alone_handleGroupCompletion alone_record_outcome alone_schedule_retry
  alone_dead_letter : alone.

Lemma alone_ReportResult req : alone (ReportResult_p req) (ReportResult req).
Proof. unfold ReportResult_p, ReportResult. solve_alone. Qed.

Lemma alone_retry_fire i stop : alone (retry_fire_p i stop) (retry_fire i stop).
Proof.
  apply (alone_ext _ (woken ← wake i stop;
    match woken with None => mret tt | Some jobID => on_queue (Requeue jobID true);; mret tt end)).
  - intros w. unfold retry_fire, wake, mbind, M_bind, gets. destruct (timers w !! i) as [[dl id]|]; [|done].
    rewrite time_Now_eq. destruct (ctx_done w && stop); [done|]. by destruct (Before _ dl).
  - unfold retry_fire_p. solve_alone.
Qed.

(** ** dispatchLoop *)

Lemma alone_update_gauges : alone update_gauges_p update_gauges.
Proof.
  apply (alone_ext _ (
    n ← gets (λ w, QueueLen (sched w)); observe (queueDepth (Z.of_nat n));;
    running ← gets (λ w, RunningJobs (sched w)); observe (runningJobs (Z.of_nat (length running)));;
    members ← gets disc; observe (clusterNodes (Z.of_nat (length members)));;
    pending ← gets (λ w, PendingGroups (sched w)); observe (groupsPending (Z.of_nat (length pending))))).
  - done.
  - unfold update_gauges_p. solve_alone.
Qed.

Lemma alone_enough ad key required available :
  alone (enough_p ad key required available)
    (gets (λ w, enough ad key required (λ total, available (tracker w) total))).
Proof.
  intros w. unfold enough_p, enough, gets. destruct (0 <? required)%Z; [|done].
  destruct (_ <? required)%Z; [done|]. rewrite run_bind. unfold mbind, M_bind. by rewrite alone_act.
Qed.

Lemma alone_canDispatch m job :
  alone (canDispatchResources_p m job) (gets (λ w, canDispatchResources (tracker w) m job)).
Proof.
  unfold canDispatchResources_p, canDispatchResources. intros w.
  rewrite (run_get _ _ _ _ (alone_enough _ _ _ _)). unfold gets at 1.
  destruct (enough _ "gpu_count" _ _); [|done]. cbn [negb andb].
  rewrite (run_get _ _ _ _ (alone_enough _ _ _ _)).
  destruct (enough _ "cpu_cores" _ _); [|done]. apply alone_enough.
Qed.

(** The check of a member as the first of several calls. *)
Lemma alone_fits {A} m job (k : bool → prog A) f : (∀ b, alone (k b) (f b)) →
  alone (canDispatchResources_p m job ≫= k) (gt ← gets tracker; f (canDispatchResources gt m job)).
Proof.
  intros Hk. apply (alone_ext _ (gets (λ w, canDispatchResources (tracker w) m job) ≫= f)); [done|].
  by apply alone_bind; [apply alone_canDispatch|].
Qed.

Lemma alone_find_member job used ms : alone (find_member_p job used ms) (find_member job used ms).
Proof.
  induction ms as [|m ms IH]; cbn [find_member_p find_member]; [done|].
  destruct (decide _); [done|]. destruct (_ =? _)%nat; [done|].
  apply alone_bind; [apply alone_act|]. intros [|]; [done|].
  apply (alone_fits m job _ (λ b, if negb b then _ else _)). intros b. solve_alone; done.
Qed.
#[local] Hint Resolve alone_find_member : alone.

(** Two calls that make one action. *)
Lemma alone_nested {A D E} (m : M World D) (f : D → M World E) (k : E → prog A) g :
  (∀ d, alone (k d) (g d)) → alone (act (m ≫= f) ≫= k) (m ≫= λ a, f a ≫= g).
Proof.
  intros Hk. apply (alone_ext _ ((m ≫= f) ≫= g)).
  - intros w. unfold mbind, M_bind. by destruct (m w) as [[??]|].
  - by apply alone_bind; [apply alone_act|].
Qed.

Lemma alone_dispatchJob job n : alone (dispatchJob_p job n) (dispatchJob job n).
Proof.
  unfold dispatchJob_p, dispatchJob. do 2 alone_step; [alone_step; alone_step|].
  apply alone_nested. intros. solve_alone.
Qed.
#[local] Hint Resolve alone_dispatchJob : alone.

(** ** Gang scheduling *)

Lemma alone_queued_ranks ids : alone (queued_ranks_p ids) (gets (λ w, queued_ranks ids (sched w))).
Proof.
  induction ids as [|id ids IH]; [done|]. intros w. cbn [queued_ranks_p].
  rewrite (run_get _ _ _ _ (alone_GetJob id)), (run_get _ _ _ _ IH). unfold gets, queued_ranks.
  cbn [omap list_omap]. destruct (GetJob id (sched w)) as [j|]; [|done]. by destruct (String.eqb _ _).
Qed.
#[local] Hint Resolve alone_queued_ranks : alone.

Lemma alone_match_members js used ms : alone (match_members_p js used ms) (match_members js used ms).
Proof.
  revert used. induction js as [|j js IH]; intros used; cbn [match_members_p match_members]; solve_alone.
Qed.

Lemma alone_dispatch_ranks i js ns addr : alone (dispatch_ranks_p i js ns addr) (dispatch_ranks i js ns addr).
Proof.
  revert i ns. induction js as [|j js IH]; intros i ns; cbn [dispatch_ranks_p dispatch_ranks]; solve_alone.
Qed.
#[local] Hint Resolve alone_match_members alone_dispatch_ranks : alone.

Lemma alone_tryDispatchGroup g : alone (tryDispatchGroup_p g) (tryDispatchGroup g).
Proof. unfold tryDispatchGroup_p, tryDispatchGroup. solve_alone. Qed.

Lemma alone_expire_group g : alone (expire_group_p g) (expire_group g).
Proof. unfold expire_group_p, expire_group. solve_alone. Qed.
#[local] Hint Resolve alone_tryDispatchGroup alone_expire_group : alone.

Lemma alone_gang_phase : alone gang_phase_p gang_phase.
Proof. unfold gang_phase_p, gang_phase. solve_alone. Qed.
#[local] Hint Resolve alone_update_gauges alone_gang_phase : alone.

(** ** Backfill *)

Lemma alone_backfill_match m job : alone (backfill_match_p m job) (backfill_match m job).
Proof.
  unfold backfill_match_p, backfill_match. destruct (negb _); [done|].
  apply (alone_fits m job _ (λ b, if negb b then _ else _)). intros b. solve_alone.
Qed.
#[local] Hint Resolve alone_backfill_match : alone.

Lemma alone_scan m gs i q : alone (Backfill_scan_p m gs i q) (Backfill_scan (backfill_match m) gs i q).
Proof.
  revert i. induction q as [|l q IH]; intros i; cbn [Backfill_scan_p Backfill_scan]; solve_alone.
Qed.

(** Asking about jobs leaves the scheduler as it is. *)
Lemma scan_sched m gs i q s : keeps (λ w, sched w = s) (Backfill_scan (backfill_match m) gs i q).
Proof.
  assert (∀ x ad, keeps (λ w, sched w = s) (eval_Match x ad)) as HE.
  { intros x ad w a w' Hw. unfold eval_Match. destruct (Match _ _ _). by intros [= _ <-]. }
  revert i. induction q as [|l q IH]; intros i; cbn [Backfill_scan]; unfold backfill_match; solve_keeps.
Qed.

Lemma alone_Backfill m : alone (queue_Backfill_p m) (queue_Backfill m).
Proof.
  intros w. unfold queue_Backfill_p, queue_Backfill, Backfill.
  change (run (lock;; ?k) w) with (run k w).
  change (run (Act Mutex (gets sched) Ret ≫= ?k) w) with (run (k (sched w)) w).
  cbv beta. rewrite run_bind. unfold mbind at 1, M_bind at 1. rewrite alone_scan.
  change ((gets sched ≫= ?f) w) with (f (sched w) w). cbv beta.
  pose proof (scan_sched m (sched w) 0 (queue (sched w)) (sched w) w) as HS.
  unfold mbind, M_bind. destruct (Backfill_scan _ _ _ _ w) as [[r w1]|]; [|done].
  specialize (HS r w1 eq_refl eq_refl). destruct r as [[i l]|].
  - cbn. unfold mbind, M_bind, on_queue, take_at. by rewrite HS.
  - cbn. rewrite <- HS. unfold modify. by destruct w1.
Qed.
#[local] Hint Resolve alone_Backfill : alone.

Lemma alone_backfill_phase ms : alone (backfill_phase_p ms) (backfill_phase ms).
Proof.
  induction ms as [|m ms IH]; cbn [backfill_phase_p backfill_phase]; solve_alone.
Qed.
#[local] Hint Resolve alone_backfill_phase : alone.

Lemma alone_dispatch_first n : alone (dispatch_first_p n)
  (job ← on_queue Dequeue; match job with Some job => dispatchJob job n | None => mret tt end).
Proof. unfold dispatch_first_p. solve_alone. Qed.
#[local] Hint Resolve alone_dispatch_first : alone.

Lemma alone_dispatch_tick : alone dispatch_tick_p dispatch_tick.
Proof. unfold dispatch_tick_p, dispatch_tick. solve_alone. Qed.

(** ** The other goroutines *)

Lemma alone_kill_overdue job : alone (kill_overdue_p job)
  (if (Job.WalltimeSeconds job <=? 0)%Z then mret tt
   else
     now ← time_Now;
     when (After now (Add (Job.StartTime job) (Job.WalltimeSeconds job *ᵢ Second)))
       (observe walltimeKillsTotal;;
        queue_Cancel (Job.ID job);;
        when (negb (String.eqb (Job.WorkerNode job) "")) (Release_job job (Job.WorkerNode job));;
        pub_Send (cancel_payload (Job.WorkerNode job) (Job.ID job));;
        appendLog (Job.ID job) "WARN" ("Walltime exceeded (" +:+ Itoa (Job.WalltimeSeconds job) +:+ "s)"))).
Proof. unfold kill_overdue_p. solve_alone. Qed.
#[local] Hint Resolve alone_kill_overdue : alone.

Lemma alone_walltime_tick : alone walltime_tick_p walltime_tick.
Proof. unfold walltime_tick_p, walltime_tick. solve_alone. Qed.

Lemma alone_dispatch_timeout_tick : alone dispatch_timeout_tick_p dispatch_timeout_tick.
Proof.
  unfold dispatch_timeout_tick_p, dispatch_timeout_tick. alone_step; [alone_step|].
  apply (alone_ext _ (ids ← expire_pending a; for_each ids (λ jobID,
    found ← queue_GetJob jobID;
    match found with
    | None => mret tt
    | Some job =>
        if negb (String.eqb (Job.State job) StateRunning) then mret tt
        else
          appendLog jobID "WARN" "Dispatch handshake timed out, re-queueing";;
          '(_, requeued) ← on_queue (RequeueRunningJob jobID);
          when (requeued && negb (String.eqb (Job.WorkerNode job) ""))
            (Release_job job (Job.WorkerNode job))
    end))); [done|]. solve_alone.
Qed.

Lemma alone_OnLeave n : alone (OnLeave_p n) (OnLeave n).
Proof. unfold OnLeave_p, OnLeave. solve_alone. Qed.

Lemma alone_fairshare_tick : alone fairshare_tick_p fairshare_tick.
Proof. done. Qed.
#[local] Hint Resolve alone_SubmitJob alone_SubmitDistributedJob alone_CancelJob alone_ReportResult
  alone_retry_fire alone_dispatch_tick alone_walltime_tick alone_dispatch_timeout_tick alone_OnLeave
  alone_fairshare_tick : alone.

Lemma alone_thread e : e ≠ EWriter → alone (thread e) (answered e).
Proof. intros He. destruct e; cbn [thread answered handle]; try done; solve_alone. Qed.

(** The answer apart, [answered] is [handle]. *)
Lemma answered_handle e w : (answered e;; mret tt) w = handle e w.
Proof.
  destruct e; cbn [answered handle]; unfold mbind, M_bind, mret, M_ret;
    match goal with |- context [?m w] => destruct (m w) as [[[] ?]|] end; done.
Qed.
End Alone.
