(* ===== verification/Interleave.v ===== *)
(** * The master with its goroutines interleaved

    [machine] is the shared state with the threads that run, the holder of the
    scheduler's mutex, and the write the database goroutine has in hand; [fire]
    is one action of one of them.  The threads are those of Goroutines.v.

    The second part classifies the actions: [silent] ones do not touch the
    scheduler, [plain] methods are made of the scheduler's operations.  Each
    thread is checked once ([walk_*]); Quiesce.v, Safety.v and Catchup.v use it. *)

From S2P Require Import Prelude GoStd GoJson GoTime GoHeap Queue QueueFacts SchedulerSpec.
From S2P Require Import QueueProps JobTable Messaging Fairshare CircuitBreaker Tracker Matchmaker.
From S2P Require Import Store Config GoRegexp World Server Dispatch Master Hoare Panics Restart Persist.
From S2P Require Import Threads Goroutines Alone.
Import GlobalScheduler (objs, gobjs, queue, jobs, groups, MaxQueueSize, OnJobChange,
  OnGroupChange, dbWriteChan).
#[local] Open Scope string_scope.
#[local] Open Scope list_scope.
#[local] Open Scope nat_scope.

(** The capacity of [dbWriteChan]. *)
Definition db_chan_cap : nat := 1000.

(** ** The machine *)

Section Machine.
Context {C : CEL} {B : Bolt} `{GoArch} `{Zone} `{MapOrder}.

Record machine := mkMachine {
  world : World;
  holder : option nat;
  inflight : option dbWriteOp;
  closed : bool;
  pool : list (event * prog answer)
}.

#[export] Instance eta_machine : Eta machine := λ c,
  mkMachine (world c) (holder c) (inflight c) (closed c) (pool c).

Definition idle (w : World) : machine := mkMachine w None None false [].

(** A thread starts or acts, the database goroutine receives or saves, or
    cleanDB closes the channel. *)
Inductive label := Spawn (e : event) | Go (i : nat) | Take | Save | Close.

Inductive outcome := Blocked | Crash | Next (c : machine).

Definition returned (p : prog answer) : bool := match p with Ret _ => true | _ => false end.

(** The turns of a loop follow one another; a handler may run many times at
    once. *)
Definition same_loop (e e' : event) : bool :=
  match e, e' with
  | EDispatch, EDispatch | EWalltime, EWalltime | EDispatchTimeout, EDispatchTimeout | EDecay, EDecay => true
  | _, _ => false
  end.
Definition busy (e : event) (c : machine) : bool :=
  existsb (λ '(e', p), same_loop e e' && negb (returned p)) (pool c).

(** The calls GracefulStop waits for before the channel is closed. *)
Definition rpc (e : event) : bool :=
  match e with
  | ESubmit _ | ESubmitDistributed _ | ECancel _ | EReport _ | ESubscribe _ | EUnsubscribe _ _ => true
  | _ => false
  end.
Definition serving (c : machine) : bool :=
  existsb (λ '(e, p), rpc e && negb (returned p)) (pool c).

Definition set_thread (i : nat) (p : prog answer) (c : machine) : machine :=
  c <| pool ::= alter (λ '(e, _), (e, p)) i |>.

(** Another thread holds the scheduler's mutex. *)
Definition shut_out (i : nat) (c : machine) : bool :=
  match holder c with None => false | Some j => negb (j =? i) end.

(** Some thread is in the middle of ranging over [UserUsage]; the Go runtime ends
    the process when the map is written meanwhile. *)
Definition in_range (p : prog answer) : bool :=
  match p with Act mu _ _ => bool_decide (mu = RangesUsage) | _ => false end.
Definition ranging (c : machine) : bool := existsb (λ '(_, p), in_range p) (pool c).

Definition resume (i : nat) (p : prog answer) (c : machine) : outcome :=
  match p with
  | Ret _ => Blocked
  | Act mu m k =>
      if bool_decide (mu = Mutex) && shut_out i c then Blocked
      else if bool_decide (mu = WritesUsage) && ranging c then Crash
      else
        match m (world c) with
        | None => Crash
        | Some (x, w) => Next (set_thread i (k x) (c <| world := w |>))
        end
  | Snd op k =>
      if closed c then Crash
      else if length (dbWriteChan (sched (world c))) <? db_chan_cap
      then Next (set_thread i k (c <| world ::= push op |>))
      else Blocked
  | Lock k =>
      match holder c with
      | None => Next (set_thread i k (c <| holder := Some i |>))
      | Some _ => Blocked
      end
  | Unlock k => Next (set_thread i k (c <| holder := None |>))
  end.

Definition fire (l : label) (c : machine) : outcome :=
  match l with
  | Spawn e =>
      match e with
      | EWriter => Blocked
      | _ => if busy e c || (rpc e && closed c) then Blocked
             else Next (c <| pool ::= λ ts, ts ++ [(e, thread e)] |>)
      end
  | Go i =>
      match pool c !! i with
      | None => Blocked
      | Some (_, p) => resume i p c
      end
  | Take =>
      match inflight c, dbWriteChan (sched (world c)) with
      | None, op :: rest =>
          Next (c <| world ::= λ w, w <| sched ::= λ gs, gs <| dbWriteChan := rest |> |> |>
                  <| inflight := Some op |>)
      | _, _ => Blocked
      end
  | Save =>
      match inflight c with
      | None => Blocked
      | Some op =>
          Next (c <| world ::= λ w, w <| store ::= fmap (save_op (sched w) op) |> |>
                  <| inflight := None |>)
      end
  | Close =>
      if serving c || negb (ctx_done (world c)) then Blocked
      else if closed c then Crash else Next (c <| closed := true |>)
  end.

Fixpoint fires (ls : list label) (c : machine) : outcome :=
  match ls with
  | [] => Next c
  | l :: ls => match fire l c with Next c' => fires ls c' | o => o end
  end.

(** Only [Close] closes the channel. *)
Lemma fire_closed l c c' : fire l c = Next c' → l ≠ Close → closed c' = closed c.
Proof.
  intros E Hl. destruct l as [e|i| | |]; cbn [fire] in E; try done.
  - destruct e; try done; destruct (_ || _); try done; by injection E as <-.
  - destruct (pool c !! i) as [[e p]|]; [|done].
    destruct p as [a|X mu m k|op k|k|k]; cbn [resume] in E; [done|..].
    + do 2 (destruct (_ && _); [done|]). destruct (m (world c)) as [[x w]|]; [|done]. by injection E as <-.
    + destruct (closed c) eqn:Hc; [done|]. destruct (_ <? _); [|done]. by injection E as <-.
    + destruct (holder c); [done|]. by injection E as <-.
    + by injection E as <-.
  - destruct (inflight c); [done|]. destruct (dbWriteChan _); [done|]. by injection E as <-.
  - destruct (inflight c); [|done]. by injection E as <-.
Qed.

(** The states a master started on a database can be in. *)
Definition reaches (w : World) (c : machine) : Prop := ∃ ls, fires ls (idle w) = Next c.

Lemma fires_app ls1 ls2 c : fires (ls1 ++ ls2) c =
  match fires ls1 c with Next c' => fires ls2 c' | o => o end.
Proof.
  revert c. induction ls1 as [|l ls IH]; intros c; [done|]. cbn [app fires]. by destruct (fire l c).
Qed.

Lemma fires_closed ls c c' : fires ls c = Next c' → Close ∉ ls → closed c' = closed c.
Proof.
  revert c. induction ls as [|l ls IH]; intros c; cbn [fires]; [by intros [= <-]|].
  destruct (fire l c) as [| |c1] eqn:E; try done. rewrite not_elem_of_cons. intros E' [Hl Hls].
  rewrite (IH c1 E' Hls). by eapply fire_closed.
Qed.

(** Whether a schedule can be followed, and where it leads. *)
Definition possible (ls : list label) (c : machine) : bool :=
  match fires ls c with Next _ => true | _ => false end.
Definition following (ls : list label) (c : machine) : machine :=
  match fires ls c with Next c' => c' | _ => c end.

Lemma fires_following ls c : possible ls c = true → fires ls c = Next (following ls c).
Proof. unfold possible, following. by destruct (fires ls c). Qed.

Lemma reaches_following ls w : possible ls (idle w) = true → reaches w (following ls (idle w)).
Proof. intros Hp. exists ls. by apply fires_following. Qed.

(** A handler can always be started. *)
Lemma handler_not_busy e c : (∀ e', same_loop e e' = false) → busy e c = false.
Proof.
  intros Hs. unfold busy. apply not_true_iff_false. rewrite existsb_exists. intros ([e' p] & _ & Hb).
  by rewrite Hs in Hb.
Qed.

(** Invariants of the machine. *)
Lemma reaches_ind (J : machine → Prop) w c :
  J (idle w) → (∀ l c c', J c → fire l c = Next c' → J c') → reaches w c → J c.
Proof.
  intros Hi Hs [ls E]. revert E. generalize (idle w), Hi. clear Hi.
  induction ls as [|l ls IH]; intros c0 HJ; cbn [fires]; [by intros [= <-]|].
  destruct (fire l c0) as [| |c1] eqn:E; try done. apply IH. by eapply Hs.
Qed.

(** The threads after one of them has acted. *)
Lemma pool_set_thread i e p q c : pool c !! i = Some (e, p) →
  pool (set_thread i q c) = <[i := (e, q)]> (pool c).
Proof.
  intros Hi. unfold set_thread. cbn. apply list_eq. intros j. destruct (decide (i = j)) as [->|Hne].
  - rewrite list_lookup_alter_eq, list_lookup_insert_eq, Hi by (by eapply lookup_lt_Some). done.
  - by rewrite list_lookup_alter_ne, list_lookup_insert_ne.
Qed.

Lemma lookup_set_thread i p c j e q :
  pool (set_thread i p c) !! j = Some (e, q) →
  (i = j ∧ q = p ∧ is_Some (pool c !! j)) ∨ (i ≠ j ∧ pool c !! j = Some (e, q)).
Proof.
  unfold set_thread. cbn. destruct (decide (i = j)) as [->|Hne].
  - rewrite list_lookup_alter_eq. destruct (pool c !! j) as [[e' q']|]; [|done]. intros [= _ <-]. left. eauto.
  - rewrite list_lookup_alter_ne by done. by right.
Qed.
End Machine.

(** ** The actions *)

Create HintDb silent.
Create HintDb plain.
Create HintDb sound.

Section Atoms.
Context {C : CEL} {B : Bolt} `{GoArch} `{Zone} `{MapOrder}.

(** Not on the scheduler. *)
Definition silent {X} (m : M World X) : Prop := ∀ w, ∃ x w', m w = Some (x, w') ∧
  sched w' = sched w ∧ (cache_ok (eval w) → cache_ok (eval w')) ∧
  ∀ U, Ambient U → U (uuids w) (store w) → U (uuids w') (store w').

(** Made of the scheduler's operations on tracked jobs and groups. *)
Definition plain {X} (m : M World X) : Prop :=
  (∀ Q U, QueueInv Q → Ambient U → keeps (holds (Q:=Q) (U:=U)) m) ∧ always m.

(** [risky] ones may panic, or register a group. *)
Inductive atom (risky : bool) : ∀ X, M World X → (X → list dbWriteOp) → Prop :=
  | atom_silent X (m : M World X) f : silent m → atom risky X m f
  | atom_take i job f : atom risky Job (on_queue (take_at i job)) f
  | atom_method X (m : M World X) f : plain m → (∀ x ops op, op ∈ ops → op ∈ f (x, ops)) →
      atom risky (X * list dbWriteOp) (critical m) f
  | atom_enqueue job f : submittable job → (∀ x ops op, op ∈ ops → op ∈ f (x, ops)) →
      atom risky (option string * list dbWriteOp) (critical (enqueue job)) f
  | atom_register g f : risky = true → (∀ x ops op, op ∈ ops → op ∈ f (x, ops)) →
      atom risky (() * list dbWriteOp) (critical (register g)) f
  | atom_panic X f : risky = true → atom risky X panic f.

Lemma atom_more risky X m (f g : X → list dbWriteOp) : (∀ x op, op ∈ f x → op ∈ g x) →
  atom risky X m f → atom risky X m g.
Proof.
  intros Hfg Ha. revert g Hfg. destruct Ha; intros g0 Hfg; constructor; try done; intros; apply Hfg; auto.
Qed.

Lemma atom_risky X m f : atom false X m f → atom true X m f.
Proof. by destruct 1; constructor. Qed.


Lemma sound_bind risky {A A'} h h1 h2 (p : prog A) (k : A → prog A') :
  shape (atom risky) h h1 p → (∀ a, shape (atom risky) h1 h2 (k a)) → shape (atom risky) h h2 (p ≫= k).
Proof. apply shape_bind. intros *. apply atom_more. Qed.

Lemma sound_act risky {X} h (m : M World X) : silent m → shape (atom risky) h h (act m).
Proof. intros Hm. apply shape_act. by constructor. Qed.

Lemma sound_write_usage risky {X} h (m : M World X) : silent m → shape (atom risky) h h (write_usage m).
Proof. intros Hm. apply shape_write_usage. by constructor. Qed.

Lemma sound_call risky {X} (m : M World X) : plain m → shape (atom risky) false false (call m).
Proof. intros Hm. apply shape_call; [intros *; apply atom_more|]. by constructor. Qed.

Lemma sound_enqueue risky job : submittable job → shape (atom risky) false false (call (enqueue job)).
Proof. intros Hj. apply shape_call; [intros *; apply atom_more|]. by constructor. Qed.

Lemma sound_register g : shape (atom true) false false (call (register g)).
Proof. apply shape_call; [intros *; apply atom_more|]. by constructor. Qed.

Lemma sound_panic {X} : shape (atom true) false false (act (panic : M World X)).
Proof. apply shape_act. by constructor. Qed.

Lemma sound_for_each risky {X} (l : list X) p : (∀ x, shape (atom risky) false false (p x)) → shape (atom risky) false false (for_each_p l p).
Proof. apply shape_for_each. intros *. apply atom_more. Qed.

(** ** Silent actions *)

Lemma silent_ret {X} (x : X) : silent (mret x).
Proof. intros w. by exists x, w. Qed.

Lemma sound_range_usage risky {X} h (m : M World X) : silent m → shape (atom risky) h h (range_usage m).
Proof. intros Hm. by apply shape_range_usage; constructor; [apply silent_ret|]. Qed.

Lemma silent_gets {X} (f : World → X) : silent (gets f).
Proof. intros w. by exists (f w), w. Qed.

Lemma silent_bind {X Y} (m : M World X) (f : X → M World Y) :
  silent m → (∀ x, silent (f x)) → silent (m ≫= f).
Proof.
  intros Hm Hf w. destruct (Hm w) as (x & w1 & E1 & S1 & C1 & U1).
  destruct (Hf x w1) as (y & w2 & E2 & S2 & C2 & U2). exists y, w2.
  rewrite (bind_runs _ _ _ _ _ E1), S2. split_and!; auto. intros U UA HU. by apply U2, U1.
Qed.

Lemma silent_modify f :
  (∀ w, sched (f w) = sched w ∧ eval (f w) = eval w ∧ uuids (f w) = uuids w ∧ store (f w) = store w) →
  silent (modify f).
Proof.
  intros Hf w. exists tt, (f w). destruct (Hf w) as (-> & -> & -> & ->). by split_and!.
Qed.

Lemma silent_time_Now : silent time_Now.
Proof. intros w. by eexists _, _. Qed.
Lemma silent_uuid_New : silent uuid_New.
Proof. intros w. by eexists _, _. Qed.
Lemma silent_on_cb {X} (f : circuitBreaker → X * circuitBreaker) : silent (on_cb f).
Proof. intros w. unfold on_cb. destruct (f (cb w)) as [x b]. by eexists _, _. Qed.
Lemma silent_IsBlocked n : silent (cb_IsBlocked n).
Proof. apply silent_bind; [apply silent_time_Now|]. intros. apply silent_on_cb. Qed.
Lemma silent_eval_Match x ad : silent (eval_Match x ad).
Proof.
  intros w. unfold eval_Match. pose proof (Match_cache x ad (eval w)) as HM.
  destruct (Match x ad (eval w)) as [r e]. eexists _, _. split; [done|]. split_and!; [done| |done].
  intros He. apply (HM He).
Qed.
Lemma silent_dead_letter job : silent (save_dead_letter job).
Proof.
  intros w. unfold save_dead_letter. destruct (store w) as [d|] eqn:E; eexists _, _; (split; [done|]);
    split_and!; try done; intros U UA; rewrite ?E; [by apply ambient_dead|done].
Qed.
Lemma silent_fairshare : silent save_fairshare.
Proof.
  intros w. eexists _, _. split; [reflexivity|]. split_and!; try done. intros U UA. cbn.
  destruct (store w); [by apply ambient_fair|done].
Qed.

#[local] Hint Resolve silent_ret silent_gets silent_time_Now silent_uuid_New silent_on_cb silent_IsBlocked
  silent_eval_Match silent_dead_letter silent_fairshare : silent.
#[local] Hint Extern 1 (silent (modify _)) => by apply silent_modify : silent.
#[local] Hint Extern 2 (silent (_ ≫= _)) => apply silent_bind; [|intros] : silent.

Lemma silent_observe m : silent (observe m).
Proof. by apply silent_modify. Qed.
Lemma silent_on_tracker f : silent (on_tracker f).
Proof. by apply silent_modify. Qed.
Lemma silent_Release job n : silent (Release_job job n).
Proof. apply silent_on_tracker. Qed.
Lemma silent_pub_Send p : silent (pub_Send p).
Proof. by apply silent_modify. Qed.
Lemma silent_expire_pending now : silent (expire_pending now).
Proof. unfold expire_pending. auto with silent. Qed.
Lemma silent_wake i stop : silent (wake i stop).
Proof.
  unfold wake. apply silent_bind; [auto with silent|]. intros [[dl id]|]; [|auto with silent].
  do 2 (apply silent_bind; [auto with silent|intros]). destruct (_ && _); [auto with silent|].
  destruct (Before _ _); auto with silent.
Qed.
Lemma silent_acknowledge m b : silent (acknowledge_start m b).
Proof.
  unfold acknowledge_start. destruct (negb _); [auto with silent|]. destruct (decode_body b); [|auto with silent].
  destruct (String.eqb _ _); [auto with silent|]. apply silent_bind; [auto with silent|].
  intros []; auto with silent.
Qed.
Lemma silent_subscribe id : silent (StreamLogs_subscribe id).
Proof. intros w. by eexists _, _. Qed.
Lemma silent_unsubscribe id ch : silent (StreamLogs_close id ch).
Proof. by apply silent_modify. Qed.

(** ** The queueing of a job and of a group, as steps of the state *)

Lemma enqueue_runs job w : enqueue job w =
  let '(e, gs) := Enqueue (new_job job (sched w)).1 (new_job job (sched w)).2 in Some (e, w <| sched := gs |>).
Proof.
  unfold enqueue, mbind, M_bind, on_queue. unfold new_job. cbn [fst snd].
  change (sched (w <| sched := ?g |>)) with g. by destruct (Enqueue _ _) as [e gs'].
Qed.

Lemma register_runs g w : register g w =
  Some (tt, w <| sched := RegisterGroup (new_group g (sched w)).1 (new_group g (sched w)).2 |>).
Proof. done. Qed.

(** ** Plain methods *)

Lemma plain_gets {X} (f : World → X) : plain (gets f).
Proof. split; [intros; apply keeps_gets|apply always_gets]. Qed.
Lemma plain_ret {X} (x : X) : plain (mret x).
Proof. split; [intros; apply keeps_ret|apply always_ret]. Qed.
Lemma plain_bind {X Y} (m : M World X) (f : X → M World Y) :
  plain m → (∀ x, plain (f x)) → plain (m ≫= f).
Proof.
  intros [Km Am] Hf. split.
  - intros Q U HQ HU. apply keeps_bind; [by apply Km|]. intros x. by apply (Hf x).
  - apply always_bind; [done|]. intros x. apply (Hf x).
Qed.
Lemma plain_Cancel id : plain (queue_Cancel id).
Proof. split; [intros; apply keeps_Cancel|apply always_queue_Cancel]. Qed.
Lemma plain_MarkRunning id n : plain (queue_MarkRunning id n).
Proof. split; [intros; apply keeps_MarkRunning|apply always_MarkRunning]. Qed.
Lemma plain_MarkCompleted id b o e : plain (queue_MarkCompleted id b o e).
Proof. split; [intros; apply keeps_MarkCompleted|apply always_MarkCompleted]. Qed.
Lemma plain_RemoveByID id : plain (on_queue (RemoveByID id)).
Proof. split; [intros; apply keeps_RemoveByID|apply always_on_queue]. Qed.
Lemma plain_Dequeue : plain (on_queue Dequeue).
Proof. split; [intros; apply keeps_Dequeue|apply always_on_queue]. Qed.
Lemma plain_Requeue id b : plain (on_queue (Requeue id b)).
Proof. split; [intros; apply keeps_Requeue|apply always_on_queue]. Qed.
Lemma plain_RequeueRunning id : plain (on_queue (RequeueRunningJob id)).
Proof. split; [intros; apply keeps_RequeueRunning|apply always_on_queue]. Qed.
Lemma plain_SetGroupState id st : st ≠ "PENDING" → plain (on_queue_ (SetGroupState id st)).
Proof. intros. split; [intros; by apply keeps_SetGroupState|apply always_on_queue_]. Qed.
End Atoms.

#[export] Hint Resolve silent_ret silent_gets silent_time_Now silent_uuid_New silent_on_cb silent_IsBlocked
  silent_eval_Match silent_dead_letter silent_fairshare silent_observe silent_on_tracker silent_Release
  silent_pub_Send silent_expire_pending silent_wake silent_acknowledge silent_subscribe
  silent_unsubscribe : silent.
#[export] Hint Extern 1 (silent (modify _)) => by apply silent_modify : silent.
#[export] Hint Extern 2 (silent (_ ≫= _)) => apply silent_bind; [|intros] : silent.
#[export] Hint Resolve plain_gets plain_ret plain_Cancel plain_MarkRunning plain_MarkCompleted plain_RemoveByID
  plain_Dequeue plain_Requeue plain_RequeueRunning : plain.
#[export] Hint Extern 1 (plain (on_queue_ (SetGroupState _ _))) => by apply plain_SetGroupState : plain.
#[export] Hint Extern 2 (plain (_ ≫= _)) => apply plain_bind; [|intros] : plain.

Ltac sound_step :=
  lazymatch goal with
  | |- shape _ _ _ (mbind _ _) => eapply sound_bind; [|intros]
  | |- shape _ _ _ (match ?x with _ => _ end) => destruct x
  | |- shape _ _ _ (for_each_p _ _) => apply sound_for_each; intros
  | |- shape _ _ _ (when_p _ _) => apply shape_when
  | |- shape _ _ _ (mret _) => reflexivity
  | |- shape _ _ _ (act panic) => apply sound_panic
  | |- shape _ _ _ (act _) => apply sound_act; solve [auto with silent]
  | |- shape _ _ _ (write_usage _) => apply sound_write_usage; solve [auto with silent]
  | |- shape _ _ _ (range_usage _) => apply sound_range_usage; solve [auto with silent]
  | |- shape _ _ _ (call (enqueue _)) => apply sound_enqueue; solve [auto]
  | |- shape _ _ _ (call (register _)) => apply sound_register
  | |- shape _ _ _ (call _) => apply sound_call; solve [auto with plain]
  | |- shape _ _ _ (let _ := _ in _) => cbv zeta
  | |- shape _ _ _ _ => solve [eauto with sound nocore]
  end.
Ltac solve_sound := repeat sound_step.

(** ** The threads *)

Section Walk.
Context {C : CEL} {B : Bolt} `{GoArch} `{Zone} `{MapOrder}.
Context (risky : bool).
Abbreviation sound := (shape (atom risky) false false).

Lemma walk_reads {A} (f : GlobalScheduler → A) : sound (reads f).
Proof. unfold reads. solve_sound. Qed.
#[local] Hint Resolve walk_reads : sound.

Lemma walk_GetJob id : sound (GetJob_p id).
Proof. apply walk_reads. Qed.
Lemma walk_appendLog id lvl msg : sound (appendLog_p id lvl msg).
Proof. unfold appendLog_p. solve_sound. Qed.
Lemma walk_Cancel id : sound (Cancel_p id).
Proof. unfold Cancel_p. solve_sound. Qed.
#[local] Hint Resolve walk_GetJob walk_appendLog walk_Cancel : sound.

Lemma short_submittable req id u p r t :
  submittable (submitted_job req (String.substring 0 8 id) u p r t).
Proof. left. unfold submitted_job. destruct (parseCELRequirement _). apply substring_length. Qed.
Lemma rank_submittable req id g u k p n m t : submittable (rank_job req id g u k p n m t).
Proof. right. apply rank_job_env. Qed.
#[local] Hint Resolve short_submittable rank_submittable : core.

Lemma walk_SubmitJob req : sound (SubmitJob_p req).
Proof. unfold SubmitJob_p. solve_sound. Qed.

Lemma walk_submit_ranks n rank req g u p nn mp ids : sound (submit_ranks_p n rank req g u p nn mp ids).
Proof. revert rank ids. induction n as [|n IH]; intros rank ids; cbn [submit_ranks_p]; solve_sound. Qed.

Lemma walk_release_and_kill job : sound (release_and_kill_p job).
Proof. unfold release_and_kill_p. solve_sound. Qed.
#[local] Hint Resolve walk_release_and_kill : sound.

Lemma walk_all_done ids : sound (all_done_p ids).
Proof. induction ids as [|id ids IH]; cbn [all_done_p]; solve_sound. Qed.
#[local] Hint Resolve walk_all_done : sound.

Lemma walk_handleGroupCompletion g j b : sound (handleGroupCompletion_p g j b).
Proof. unfold handleGroupCompletion_p. solve_sound. Qed.
Lemma walk_record_outcome req : sound (record_outcome_p req).
Proof. unfold record_outcome_p. solve_sound. Qed.
Lemma walk_schedule_retry id job : sound (schedule_retry_p id job).
Proof. unfold schedule_retry_p. solve_sound. Qed.
Lemma walk_dead_letter id job : sound (dead_letter_p id job).
Proof. unfold dead_letter_p. solve_sound. Qed.
#[local] Hint Resolve walk_handleGroupCompletion walk_record_outcome walk_schedule_retry
  walk_dead_letter : sound.

Lemma walk_ReportResult req : sound (ReportResult_p req).
Proof. unfold ReportResult_p. solve_sound. Qed.
Lemma walk_retry_fire i stop : sound (retry_fire_p i stop).
Proof. unfold retry_fire_p. solve_sound. Qed.

Lemma walk_update_gauges : sound update_gauges_p.
Proof. unfold update_gauges_p. solve_sound. Qed.

(** What runs under the mutex, too. *)
Lemma walk_enough h ad key required available : shape (atom risky) h h (enough_p ad key required available).
Proof. unfold enough_p. solve_sound. Qed.
Lemma walk_canDispatch h m job : shape (atom risky) h h (canDispatchResources_p m job).
Proof. pose proof walk_enough. unfold canDispatchResources_p. solve_sound. Qed.
#[local] Hint Resolve walk_canDispatch : sound.
Lemma walk_backfill_match h m job : shape (atom risky) h h (backfill_match_p m job).
Proof. unfold backfill_match_p. solve_sound. Qed.
#[local] Hint Resolve walk_backfill_match : sound.
Lemma walk_scan h m gs i q : shape (atom risky) h h (Backfill_scan_p m gs i q).
Proof. revert i. induction q as [|l q IH]; intros i; cbn [Backfill_scan_p]; solve_sound. Qed.

Lemma walk_Backfill m : sound (queue_Backfill_p m).
Proof.
  unfold queue_Backfill_p. eapply sound_bind; [by split|]. intros _.
  apply (sound_bind _ _ true); [split; [constructor; auto with silent|done]|]. intros gs.
  eapply sound_bind; [apply walk_scan|]. intros [[i l]|]; [|by split].
  apply (sound_bind _ _ true); [split; [apply atom_take|done]|]. intros j. by split.
Qed.

Lemma walk_find_member job used ms : sound (find_member_p job used ms).
Proof. induction ms as [|m ms IH]; cbn [find_member_p]; solve_sound. Qed.
Lemma walk_dispatchJob job n : sound (dispatchJob_p job n).
Proof. unfold dispatchJob_p. solve_sound. Qed.
#[local] Hint Resolve walk_Backfill walk_find_member walk_dispatchJob : sound.
Lemma walk_queued_ranks ids : sound (queued_ranks_p ids).
Proof. induction ids as [|id ids IH]; cbn [queued_ranks_p]; solve_sound. Qed.
Lemma walk_match_members js used ms : sound (match_members_p js used ms).
Proof. revert used. induction js as [|j js IH]; intros used; cbn [match_members_p]; solve_sound. Qed.
Lemma walk_expire_group g : sound (expire_group_p g).
Proof. unfold expire_group_p. solve_sound. Qed.
Lemma walk_backfill_phase ms : sound (backfill_phase_p ms).
Proof. induction ms as [|m ms IH]; cbn [backfill_phase_p]; solve_sound. Qed.
Lemma walk_dispatch_first n : sound (dispatch_first_p n).
Proof. unfold dispatch_first_p. solve_sound. Qed.
Lemma walk_walltime_tick : sound walltime_tick_p.
Proof. unfold walltime_tick_p, kill_overdue_p. solve_sound. Qed.
Lemma walk_dispatch_timeout_tick : sound dispatch_timeout_tick_p.
Proof. unfold dispatch_timeout_tick_p. solve_sound. Qed.
Lemma walk_OnLeave n : sound (OnLeave_p n).
Proof. unfold OnLeave_p. solve_sound. Qed.
Lemma walk_fairshare_tick : sound fairshare_tick_p.
Proof. unfold fairshare_tick_p. solve_sound. Qed.
End Walk.

#[export] Hint Resolve walk_reads walk_GetJob walk_appendLog walk_Cancel walk_SubmitJob walk_submit_ranks
  walk_release_and_kill walk_ReportResult walk_retry_fire walk_update_gauges walk_find_member
  walk_dispatchJob walk_queued_ranks walk_match_members walk_expire_group walk_backfill_phase
  walk_dispatch_first walk_walltime_tick walk_dispatch_timeout_tick walk_OnLeave walk_fairshare_tick : sound.

Section Risky.
Context {C : CEL} {B : Bolt} `{GoArch} `{Zone} `{MapOrder}.
Abbreviation sound := (shape (atom true) false false).

Lemma walk_SubmitDistributedJob req : sound (SubmitDistributedJob_p req).
Proof. unfold SubmitDistributedJob_p. solve_sound. Qed.
Lemma walk_CancelJob id : sound (CancelJob_p id).
Proof. unfold CancelJob_p. solve_sound. Qed.
Lemma walk_dispatch_ranks i js ns addr : sound (dispatch_ranks_p i js ns addr).
Proof. revert i ns. induction js as [|j js IH]; intros i ns; cbn [dispatch_ranks_p]; solve_sound. Qed.
#[local] Hint Resolve walk_dispatch_ranks : sound.
Lemma walk_tryDispatchGroup g : sound (tryDispatchGroup_p g).
Proof. unfold tryDispatchGroup_p. solve_sound. Qed.
#[local] Hint Resolve walk_tryDispatchGroup : sound.
Lemma walk_gang_phase : sound gang_phase_p.
Proof. unfold gang_phase_p. solve_sound. Qed.
#[local] Hint Resolve walk_gang_phase : sound.
Lemma walk_dispatch_tick : sound dispatch_tick_p.
Proof. unfold dispatch_tick_p. solve_sound. Qed.
#[local] Hint Resolve walk_SubmitDistributedJob walk_CancelJob walk_dispatch_tick : sound.

(** Every thread: its actions are known, and it releases what it locks. *)
Lemma walk_thread e : sound (thread e).
Proof. destruct e; cbn [thread]; solve_sound; by apply sound_act, silent_modify. Qed.
End Risky.
