(* ===== verification/Quiesce.v ===== *)
(** * The goroutines always finish

    A handler taken as one step is an execution of the machine; threads never
    wait for each other for ever: the mutex is given back before anything is
    sent, and the database goroutine does not need it. *)

From Stdlib Require Import Wellfounded.
From S2P Require Import Prelude GoStd GoJson GoTime GoHeap Queue QueueFacts SchedulerSpec.
From S2P Require Import QueueProps JobTable Messaging Fairshare CircuitBreaker Tracker Matchmaker.
From S2P Require Import Store Config GoRegexp World Server Dispatch Master Hoare Panics Restart Persist.
From S2P Require Import Demo Threads Goroutines Alone Interleave.
Import GlobalScheduler (objs, gobjs, queue, jobs, groups, MaxQueueSize, OnJobChange,
  OnGroupChange, dbWriteChan).
#[local] Open Scope string_scope.
#[local] Open Scope list_scope.
#[local] Open Scope nat_scope.

Section Quiesce.
Context {C : CEL} {B : Bolt} `{GoArch} `{Zone} `{MapOrder}.

(** ** The threads of a machine are threads *)

(** Of the actions nothing is asked. *)
Definition any (X : Type) (m : M World X) (f : X → list dbWriteOp) : Prop := True.
Abbreviation bracketed := (shape any).

Record wf_machine (c : machine) : Prop := {
  wm_thread i e p : pool c !! i = Some (e, p) → bracketed (bool_decide (holder c = Some i)) false p;
  wm_holder i : holder c = Some i → is_Some (pool c !! i)
}.

Lemma bracketed_thread e : bracketed false false (thread e).
Proof. eapply shape_mono, walk_thread. done. Qed.

Lemma wf_idle w : wf_machine (idle w).
Proof. split; [by intros []|done]. Qed.

(** One thread acts; the others keep the mutex as they had it. *)
Lemma wf_set_thread i e p q c c' : wf_machine c → pool c !! i = Some (e, p) →
  pool c' = pool (set_thread i q c) →
  (∀ j, j ≠ i → holder c' = Some j ↔ holder c = Some j) →
  bracketed (bool_decide (holder c' = Some i)) false q → wf_machine c'.
Proof.
  intros [Ht Hh] Hi Hp Ho Hq. split.
  - intros j e' p'. rewrite Hp. intros [(<- & -> & _)|[Hne Hj]]%lookup_set_thread; [done|].
    specialize (Ht j e' p' Hj). by rewrite (bool_decide_ext _ _ (Ho j (not_eq_sym Hne))).
  - intros j Hj. rewrite Hp. unfold set_thread. cbn. rewrite list_lookup_alter.
    destruct (decide (j = i)) as [->|Hne]; [by rewrite Hi, decide_True|].
    rewrite decide_False by congruence. by apply Hh, Ho.
Qed.

Lemma wf_fire l c c' : wf_machine c → fire l c = Next c' → wf_machine c'.
Proof.
  intros Hw. pose proof Hw as [Ht Hh]. destruct l as [e|i| | |]; cbn [fire].
  - assert (∀ b : bool, (if b then Blocked else Next (c <| pool ::= λ ts, ts ++ [(e, thread e)] |>)) = Next c' →
      wf_machine c') as HS; [|destruct e; try done; apply HS].
    intros []; [done|]. intros [= <-]. split; cbn.
    + intros i e' p. rewrite lookup_app_Some. intros [Hi|[Hl Hi]]; [by eapply Ht|].
      destruct (i - length (pool c)) as [|k] eqn:Ei; [|by rewrite lookup_cons, lookup_nil in Hi].
      injection Hi as <- <-. rewrite bool_decide_false; [apply bracketed_thread|].
      intros [x Hx]%Hh. apply lookup_lt_Some in Hx. lia.
    + intros i [x Hx]%Hh. exists x. by apply lookup_app_l_Some.
  - destruct (pool c !! i) as [[e p]|] eqn:Hi; [|done]. specialize (Ht i e p Hi).
    destruct p as [a|X mu m k|op k|k|k]; cbn [resume shape] in *; [done|..].
    + do 2 (destruct (_ && _); [done|]). destruct (m (world c)) as [[x w]|]; [|done]. intros [= <-].
      eapply (wf_set_thread i _ _ (k x) c); [done..|]. apply Ht.
    + destruct (closed c); [done|]. destruct (_ <? _); [|done]. intros [= <-].
      eapply (wf_set_thread i _ _ k c); [done..|]. apply Ht.
    + destruct (holder c) as [j|] eqn:Ho; [done|]. intros [= <-].
      eapply (wf_set_thread i _ _ k c); [done..| |]; cbn.
      * intros j Hne. rewrite Ho. split; congruence.
      * rewrite bool_decide_true by done. apply Ht.
    + intros [= <-]. destruct Ht as [Ho Hk]. apply bool_decide_eq_true in Ho.
      eapply (wf_set_thread i _ _ k c); [done..| |]; cbn; [|done].
      intros j Hne. rewrite Ho. split; congruence.
  - destruct (inflight c); [done|]. destruct (dbWriteChan _); [done|]. intros [= <-]. by split.
  - destruct (inflight c); [|done]. intros [= <-]. by split.
  - destruct (_ || _); [done|]. destruct (closed c); [done|]. intros [= <-]. by split.
Qed.

Lemma reaches_wf w c : reaches w c → wf_machine c.
Proof. apply reaches_ind; [apply wf_idle|apply wf_fire]. Qed.

(** ** Progress *)

(** Nothing is left to do. *)
Record quiet_machine (c : machine) : Prop := {
  qm_pool e p : (e, p) ∈ pool c → returned p = true;
  qm_holder : holder c = None;
  qm_inflight : inflight c = None;
  qm_chan : dbWriteChan (sched (world c)) = []
}.

(** The steps that need no new event. *)
Definition internal (l : label) : Prop := match l with Go _ | Take | Save => True | _ => False end.

(** A thread that has not finished waits for the mutex or for the channel only. *)
Lemma resume_blocked i e p c : wf_machine c → pool c !! i = Some (e, p) → fire (Go i) c = Blocked →
  returned p = true ∨ (∃ j, holder c = Some j ∧ j ≠ i) ∨
  db_chan_cap ≤ length (dbWriteChan (sched (world c))).
Proof.
  intros [Ht _] Hi. cbn [fire]. rewrite Hi. specialize (Ht i e p Hi).
  destruct p as [a|X mu m k|op k|k|k]; cbn [resume shape returned] in *; [by left|..].
  - destruct (bool_decide (mu = Mutex) && shut_out i c) eqn:Eb; [|].
    + apply andb_prop in Eb as [_ Ho]. unfold shut_out in Ho. destruct (holder c) as [j|]; [|done].
      destruct (Nat.eqb_spec j i); [done|]. intros _. right. left. by exists j.
    + destruct (_ && ranging c); [done|]. by destruct (m (world c)) as [[??]|].
  - destruct (closed c); [done|]. destruct (Nat.ltb_spec (length (dbWriteChan (sched (world c)))) db_chan_cap);
      [done|]. by right; right.
  - destruct (holder c) as [j|]; [|done]. intros _. destruct Ht as [Hb _]. apply bool_decide_eq_false in Hb.
    right. left. exists j. split; [done|]. by intros ->.
  - done.
Qed.

(** The holder of the mutex is never blocked. *)
Lemma holder_runs i c : wf_machine c → holder c = Some i → fire (Go i) c ≠ Blocked.
Proof.
  intros [Ht Hh] Ho. destruct (Hh i Ho) as [[e p] Hi]. specialize (Ht i e p Hi).
  rewrite bool_decide_true in Ht by done. cbn [fire]. rewrite Hi.
  destruct p as [a|X mu m k|op k|k|k]; cbn [resume shape] in *; [done| |by destruct Ht..|done].
  unfold shut_out. rewrite Ho, Nat.eqb_refl, andb_false_r. destruct (_ && ranging c); [done|].
  by destruct (m (world c)) as [[??]|].
Qed.

Lemma stuck_quiet c : wf_machine c → (∀ l, internal l → fire l c = Blocked) → quiet_machine c.
Proof.
  intros Hw Hb.
  assert (Ho : holder c = None).
  { destruct (holder c) as [i|] eqn:Ho; [|done]. destruct (holder_runs i c Hw Ho). by apply Hb. }
  assert (Hf : inflight c = None).
  { specialize (Hb Save I). cbn [fire] in Hb. by destruct (inflight c). }
  assert (Hc : dbWriteChan (sched (world c)) = []).
  { specialize (Hb Take I). cbn [fire] in Hb. rewrite Hf in Hb. by destruct (dbWriteChan (sched (world c))). }
  split; [|done..]. intros e p [i Hi]%list_elem_of_lookup_1.
  destruct (resume_blocked i e p c Hw Hi (Hb (Go i) I)) as [|[(j & Hj & _)|Hl]]; [done| |].
  - congruence.
  - rewrite Hc in Hl. unfold db_chan_cap in Hl. simpl in Hl. lia.
Qed.

(** ** Termination *)

(** What a thread can be after one action. *)
Definition child (q p : prog answer) : Prop :=
  match p with
  | Ret _ => False
  | Act _ _ k => ∃ x, q = k x
  | Snd _ k | Lock k | Unlock k => q = k
  end.

Lemma child_acc p : Acc child p.
Proof.
  induction p as [a|X mu m k IH|op p IH|p IH|p IH]; constructor; intros q Hq; cbn [child] in Hq.
  - destruct Hq.
  - destruct Hq as [x ->]. apply IH.
  - rewrite Hq. apply IH.
  - rewrite Hq. apply IH.
  - rewrite Hq. apply IH.
Qed.

(** One thread of several acts. *)
Definition one_acts (ts' ts : list (prog answer)) : Prop :=
  ∃ i p p', ts !! i = Some p ∧ child p' p ∧ ts' = <[i := p']> ts.

Lemma one_acts_cons p ts : Acc child p → Acc one_acts ts → Acc one_acts (p :: ts).
Proof.
  intros Hp. revert ts. induction Hp as [p _ IHp]. intros ts Hts. induction Hts as [ts Hts IHts].
  constructor. intros ts' ([|i] & q & q' & Hi & Hc & ->); simpl in Hi.
  - injection Hi as <-. apply IHp; [done|by constructor].
  - simpl. apply IHts. by exists i, q, q'.
Qed.

Lemma one_acts_acc ts : Acc one_acts ts.
Proof.
  induction ts as [|p ts IH]; [|apply one_acts_cons; [apply child_acc|done]].
  constructor. intros ts' (i & p & p' & Hi & _). by rewrite lookup_nil in Hi.
Qed.

(** What is left for the database goroutine. *)
Definition backlog (c : machine) : nat :=
  2 * length (dbWriteChan (sched (world c))) + (if inflight c is Some _ then 1 else 0).

Definition threads (c : machine) : list (prog answer) := snd <$> pool c.

Lemma threads_set i e p q c : pool c !! i = Some (e, p) → threads (set_thread i q c) = <[i := q]> (threads c).
Proof.
  intros Hi. unfold threads. by rewrite (pool_set_thread _ _ _ _ _ Hi), list_fmap_insert.
Qed.

(** A thread acts, or the backlog shrinks. *)
Lemma internal_step l c c' : internal l → fire l c = Next c' →
  one_acts (threads c') (threads c) ∨ threads c' = threads c ∧ backlog c' < backlog c.
Proof.
  destruct l as [e|i| | |]; try done; intros _; cbn [fire].
  - destruct (pool c !! i) as [[e p]|] eqn:Hi; [|done].
    assert (Ht : threads c !! i = Some p) by (unfold threads; by rewrite list_lookup_fmap, Hi).
    assert (HS : ∀ q c1, child q p → pool c1 = pool c → one_acts (threads (set_thread i q c1)) (threads c)).
    { intros q c1 Hq Hp. exists i, p, q. split_and!; [done..|].
      erewrite threads_set by (by rewrite Hp). unfold threads. by rewrite Hp. }
    destruct p as [a|X mu m k|op k|k|k]; cbn [resume]; [done|..].
    + do 2 (destruct (_ && _); [done|]). destruct (m (world c)) as [[x w]|]; [|done]. intros [= <-].
      left. apply HS; [by exists x|reflexivity].
    + destruct (closed c); [done|]. destruct (_ <? _); [|done]. intros [= <-]. left. apply HS; [reflexivity|reflexivity].
    + destruct (holder c); [done|]. intros [= <-]. left. apply HS; [reflexivity|reflexivity].
    + intros [= <-]. left. apply HS; [reflexivity|reflexivity].
  - destruct (inflight c) eqn:Hf; [done|]. destruct (dbWriteChan (sched (world c))) as [|op rest] eqn:Hc; [done|].
    intros [= <-]. right. split; [done|]. unfold backlog. rewrite Hf, Hc. cbn. lia.
  - destruct (inflight c) eqn:Hf; [|done]. intros [= <-]. right. split; [done|]. unfold backlog. rewrite Hf. cbn. lia.
Qed.

Definition goes_on (c' c : machine) : Prop := ∃ l, internal l ∧ fire l c = Next c'.

Lemma goes_on_acc c : Acc goes_on c.
Proof.
  remember (threads c) as ts eqn:Hts. revert c Hts.
  induction (one_acts_acc ts) as [ts _ IHts]. intros c ->.
  induction (Wf_nat.well_founded_ltof _ backlog c) as [c _ IHc]. constructor. intros c' (l & Hl & E).
  destruct (internal_step l c c' Hl E) as [Ha|[Ht Hb]]; [by eapply IHts|].
  apply IHc; [done|]. rewrite Ht. done.
Qed.

(** ** A handler in one step *)

Lemma atom_chan risky X m f w x w' : atom risky X m f → m w = Some (x, w') →
  dbWriteChan (sched w') = dbWriteChan (sched w).
Proof.
  destruct 1 as [X m f Hm|i job f|X m f _ _|job f _ _|g f _ _|X f _].
  - destruct (Hm w) as (x' & w1 & E & Hs & _). rewrite E. intros [= _ <-]. by rewrite Hs.
  - unfold on_queue, take_at. intros [= _ <-]. apply chan_heap_remove.
  - unfold critical. destruct (m w) as [[y w1]|]; [|done]. by intros [= _ <-].
  - unfold critical. destruct (enqueue job w) as [[y w1]|]; [|done]. by intros [= _ <-].
  - unfold critical. destruct (register g w) as [[y w1]|]; [|done]. by intros [= _ <-].
  - done.
Qed.

(** Running only sends. *)
Lemma run_chan {A} h h' (p : prog A) w a w' : shape (atom true) h h' p → run p w = Some (a, w') →
  length (dbWriteChan (sched w)) ≤ length (dbWriteChan (sched w')).
Proof.
  revert h w. induction p as [a'|X mu m k IH|op p IH|p IH|p IH]; intros h w; cbn [shape run].
  - by intros _ [= _ <-].
  - intros [Hm Hk]. unfold mbind, M_bind. destruct (m w) as [[x w1]|] eqn:E; [|done].
    rewrite <- (atom_chan _ _ _ _ _ _ _ Hm E). by eapply IH.
  - intros [_ Hp] E%(IH _ _ Hp). cbn in E. rewrite length_app in E. lia.
  - intros [_ Hp]. by eapply IH.
  - intros [_ Hp]. by eapply IH.
Qed.

(** The machine [c'] is [c] after the thread [i] has run as far as [q]. *)
Record ran (i : nat) (e : event) (q : prog answer) (w' : World) (c c' : machine) : Prop := {
  ran_world : world c' = w';
  ran_holder : holder c' = None;
  ran_inflight : inflight c' = inflight c;
  ran_closed : closed c' = false;
  ran_pool : pool c' = <[i := (e, q)]> (pool c)
}.

(** No thread but [i] is ranging over [UserUsage]. *)
Definition calm (i : nat) (c : machine) : Prop :=
  ∀ j e p, j ≠ i → pool c !! j = Some (e, p) → in_range p = false.

Lemma calm_ranging i e p c : calm i c → pool c !! i = Some (e, p) → in_range p = false → ranging c = false.
Proof.
  intros Hc Hi Hp. apply not_true_iff_false. intros ([e' p'] & Hin & Hr)%existsb_exists.
  apply list_elem_of_In, list_elem_of_lookup_1 in Hin as [j Hj]. destruct (decide (j = i)) as [->|Hne].
  - rewrite Hi in Hj. congruence.
  - by rewrite (Hc j e' p') in Hr.
Qed.

Lemma calm_set i q c c1 : calm i c → pool c1 = pool c → calm i (set_thread i q c1).
Proof.
  intros Hc Hp j e p Hne. intros [(-> & _)|[_ Hj]]%lookup_set_thread; [done|]. rewrite Hp in Hj. by eapply Hc.
Qed.

(** A machine that starts a thread. *)
Lemma calm_spawned e c : ranging c = false →
  calm (length (pool c)) (c <| pool ::= λ ts, ts ++ [(e, thread e)] |>).
Proof.
  intros Hr j e' p Hne. cbn. rewrite lookup_app_Some. intros [Hj|[Hl Hj]].
  - apply not_true_iff_false. intros Hp. apply not_true_iff_false in Hr. apply Hr.
    apply existsb_exists. exists (e', p). split; [|done]. by apply list_elem_of_In, list_elem_of_lookup_2 with j.
  - destruct (j - length (pool c)) as [|k] eqn:Ek; [lia|]. by rewrite lookup_cons, lookup_nil in Hj.
Qed.

Lemma ran_step i e p q q' w' c c1 : pool c !! i = Some (e, p) → fire (Go i) c = Next (set_thread i q c1) →
  pool c1 = pool c → inflight c1 = inflight c →
  (∃ n c', fires (replicate n (Go i)) (set_thread i q c1) = Next c' ∧ ran i e q' w' (set_thread i q c1) c') →
  ∃ n c', fires (replicate n (Go i)) c = Next c' ∧ ran i e q' w' c c'.
Proof.
  intros Hi E Hp Hf (n & c' & E' & [H1' H2' H3' H4' H5']). exists (S n), c'. cbn [replicate fires].
  rewrite E. split; [done|]. split; [done..| |done|].
  - by rewrite H3', <- Hf.
  - rewrite H5', (pool_set_thread i e p) by (by rewrite Hp). rewrite Hp. apply list_insert_insert_eq.
Qed.

(** A part of a thread, run with nothing in between. *)
Lemma run_to {A} (k : A → prog answer) p q h c i e a w' : continues k p q →
  pool c !! i = Some (e, q) → calm i c ∨ unwriting p → shape (atom true) h false p →
  holder c = (if h then Some i else None) → closed c = false → run p (world c) = Some (a, w') →
  length (dbWriteChan (sched w')) ≤ db_chan_cap →
  ∃ n c', fires (replicate n (Go i)) c = Next c' ∧ ran i e (k a) w' c c'.
Proof.
  intros HC. revert h c. induction HC as [a'|X mu m f g HC IH|op p q HC IH|p q HC IH|p q HC IH];
    intros h c Hi Hcm Hs Ho Hcl E Hl.
  { exists 0, c. cbn in E, Hs. injection E as -> <-. subst h. split; [done|]. split; try done.
    symmetry. by apply list_insert_id. }
  all: assert (HL : ∀ q0 c1, pool c1 = pool c → pool (set_thread i q0 c1) !! i = Some (e, q0))
    by (intros q0 c1 Hp; unfold set_thread; cbn; by rewrite list_lookup_alter_eq, Hp, Hi).
  all: assert (HC' : ∀ A' (p' : prog A') q0 c1, pool c1 = pool c → calm i c ∨ unwriting p' →
    calm i (set_thread i q0 c1) ∨ unwriting p')
    by (intros A' p' q0 c1 Hp [Hc|Hu]; [left; by apply (calm_set i _ c)|by right]).
  - cbn [run] in E. unfold mbind, M_bind in E. destruct (m (world c)) as [[x w1]|] eqn:Em; [|done].
    destruct Hs as [_ Hk]. apply (ran_step i e (Act mu m g) (g x) _ w' c (c <| world := w1 |>)); [done| |done..|].
    + cbn [fire]. rewrite Hi. cbn [resume].
      assert (bool_decide (mu = Mutex) && shut_out i c = false) as ->.
      { unfold shut_out. rewrite Ho. destruct h; [by rewrite Nat.eqb_refl, andb_false_r|by rewrite andb_false_r]. }
      assert (bool_decide (mu = WritesUsage) && ranging c = false) as ->.
      { destruct (bool_decide_reflect (mu = WritesUsage)) as [->|]; [|done].
        destruct Hcm as [Hcm|[[] _]]; [|done]. by rewrite (calm_ranging i e _ c Hcm Hi). }
      by rewrite Em.
    + eapply IH; [by apply HL| |apply Hk|done..].
      destruct Hcm as [Hcm|[_ Hcm]]; [left; by apply (calm_set i _ c)|right; apply Hcm].
  - destruct Hs as [-> Hk]. pose proof (run_chan _ _ _ _ _ _ Hk E) as Hc. cbn in Hc. rewrite length_app in Hc.
    apply (ran_step i e (Snd op q) q _ w' c (c <| world ::= push op |>)); [done| |done..|].
    + cbn [fire]. rewrite Hi. cbn [resume]. rewrite Hcl.
      destruct (Nat.ltb_spec (length (dbWriteChan (sched (world c)))) db_chan_cap); [done|]. simpl in Hc. lia.
    + eapply IH; [by apply HL|by apply HC'|done..].
  - destruct Hs as [-> Hk]. apply (ran_step i e (Lock q) q _ w' c (c <| holder := Some i |>)); [done| |done..|].
    + cbn [fire]. rewrite Hi. cbn [resume]. by rewrite Ho.
    + eapply IH; [by apply HL|by apply HC'|done..].
  - destruct Hs as [-> Hk]. apply (ran_step i e (Unlock q) q _ w' c (c <| holder := None |>)); [done| |done..|].
    + cbn [fire]. by rewrite Hi.
    + eapply IH; [by apply HL|by apply HC'|done..].
Qed.

Lemma run_fires p h c i e a w' : pool c !! i = Some (e, p) → calm i c ∨ unwriting p → shape (atom true) h false p →
  holder c = (if h then Some i else None) → closed c = false → run p (world c) = Some (a, w') →
  length (dbWriteChan (sched w')) ≤ db_chan_cap →
  ∃ n c', fires (replicate n (Go i)) c = Next c' ∧ ran i e (Ret a) w' c c'.
Proof. apply (run_to Ret). apply continues_end. Qed.

(** The goroutine of a handler, started and run to its end. *)
Lemma spawn_runs e c a w' :
  e ≠ EWriter → busy e c = false → ranging c = false ∨ unwriting (thread e) → holder c = None →
  closed c = false → answered e (world c) = Some (a, w') → length (dbWriteChan (sched w')) ≤ db_chan_cap →
  ∃ n c', fires (Spawn e :: replicate n (Go (length (pool c)))) c = Next c' ∧
    ran (length (pool c)) e (Ret a) w' (c <| pool ::= λ ts, ts ++ [(e, thread e)] |>) c'.
Proof.
  intros He Hb Hrg Ho Hcl E Hl. set (c1 := c <| pool ::= λ ts, ts ++ [(e, thread e)] |>).
  assert (Hsp : fire (Spawn e) c = Next c1).
  { cbn [fire]. rewrite Hb, Hcl, andb_false_r. by destruct e. }
  destruct (run_fires (thread e) false c1 (length (pool c)) e a w') as (n & c' & E' & HR).
  - subst c1. cbn. apply list_lookup_middle. done.
  - destruct Hrg; [left; by apply calm_spawned|by right].
  - apply walk_thread.
  - done.
  - done.
  - change (world c1) with (world c). by rewrite (alone_thread e He).
  - done.
  - exists n, c'. cbn [fires]. by rewrite Hsp.
Qed.

Lemma spawned_pool e q c : <[length (pool c) := (e, q)]>
  (pool (c <| pool ::= λ ts, ts ++ [(e, thread e)] |>)) = pool c ++ [(e, q)].
Proof. cbn. by rewrite insert_app_r_alt, Nat.sub_diag. Qed.

(** The two accounts of a handler agree: from any state in which the mutex is free,
    the channel open, nobody ranges over [UserUsage] and, for a loop, no turn of it is
    under way, what the handler returns and leaves as one step is what its
    goroutine can return and leave, if its writes fit in the channel. *)
Lemma handler_is_an_execution e c a w' :
  e ≠ EWriter → busy e c = false → ranging c = false → holder c = None → closed c = false →
  answered e (world c) = Some (a, w') → length (dbWriteChan (sched w')) ≤ db_chan_cap →
  ∃ n c', fires (Spawn e :: replicate n (Go (length (pool c)))) c = Next c' ∧
    world c' = w' ∧ holder c' = None ∧ inflight c' = inflight c ∧
    pool c' = pool c ++ [(e, Ret a)].
Proof.
  intros He Hb Hrg Ho Hcl E Hl. destruct (spawn_runs e c a w' He Hb (or_introl Hrg) Ho Hcl E Hl) as (n & c' & F & [Hw Ho' Hf _ Hp]).
  exists n, c'. split_and!; [done..|]. by rewrite Hp, spawned_pool.
Qed.

(** C6: whatever is going on, it comes to an end: from every state of the
    interleaved master there is no infinite run without new events, and when no
    goroutine can go on all of them have returned, the scheduler's mutex is free
    and the database goroutine has written everything: there is no deadlock
    between the mutex and the bounded channel. *)
Theorem goroutines_finish w c : reaches w c → Acc goes_on c ∧
  ∀ c', rtc (λ c1 c2, goes_on c2 c1) c c' → (∀ l, internal l → fire l c' = Blocked) → quiet_machine c'.
Proof.
  intros Hr. split; [apply goes_on_acc|]. intros c' Hc'. apply stuck_quiet.
  apply reaches_wf in Hr. induction Hc' as [|c1 c2 c3 (l & _ & E) _ IH]; [done|]. by eapply IH, wf_fire.
Qed.
End Quiesce.

(** ** On the concrete master *)

Section Witnesses.
#[local] Existing Instances toy_cel bolt_map amd64 utc map_order_canonical.

(** Two members join, two submissions are under way and the dispatch loop turns,
    one action each in turn; the database goroutine has received a write. *)
Definition demo_schedule : list label :=
  [Spawn (EMembers demo_nodes); Go 0; Spawn (ESubmit (demo_request 1)); Spawn (ESubmit (demo_request 2));
   Spawn EDispatch] ++ concat (replicate 11 [Go 1; Go 2; Go 3]) ++ [Take].
Definition demo_machine : machine := following demo_schedule (idle demo_master).

Lemma demo_machine_reached : reaches demo_master demo_machine.
Proof. apply reaches_following. vm_compute. reflexivity. Qed.

Lemma goroutines_finish_witness : Acc goes_on demo_machine ∧
  map (λ '(_, p), returned p) (pool demo_machine) = [true; true; true; false].
Proof.
  split; [exact (proj1 (goroutines_finish demo_master demo_machine demo_machine_reached))|].
  vm_compute. reflexivity.
Defined.

End Witnesses.
