(* ===== verification/Safety.v ===== *)
(** * The interleaved master does not panic

    The rely-guarantee proof that no interleaving breaks the scheduler's
    invariant or reaches the code that could panic.  What one thread relies on is
    that the others keep good IDs good ([keeps_good]): a job once queued with an
    environment still has one when the gang scheduler writes to it. *)

From S2P Require Import Prelude GoStd GoJson GoTime GoHeap Queue QueueFacts SchedulerSpec.
From S2P Require Import QueueProps JobTable Messaging Fairshare CircuitBreaker Tracker Matchmaker.
From S2P Require Import Store Config GoRegexp World Server Dispatch Master Hoare Panics Restart Persist.
From S2P Require Import Demo Threads Goroutines Alone Interleave Quiesce.
Import GlobalScheduler (objs, gobjs, queue, jobs, groups, MaxQueueSize, OnJobChange,
  OnGroupChange, dbWriteChan).
#[local] Open Scope string_scope.
#[local] Open Scope list_scope.

Section Safety.
Context {C : CEL} {B : Bolt} `{GoArch} `{Zone} `{MapOrder}.

(** ** What is shared *)

Abbreviation I := (holds (Q:=sched_inv) (U:=λ uu _, long_ids uu)).

(** What every thread guarantees to the others. *)
Definition keeps_good (w w' : World) : Prop := ∀ id, good (sched w) id → good (sched w') id.

#[export] Instance keeps_good_preorder : PreOrder keeps_good.
Proof. split; [by intros w id|]. intros w1 w2 w3 H1' H2' id Hg. by apply H2', H1'. Qed.

Abbreviation safe := (safe I keeps_good).

(** Sends and the database goroutine change neither. *)
Definition rechan (c : list dbWriteOp) (w : World) : World :=
  w <| sched ::= λ gs, gs <| dbWriteChan := c |> |>.

Lemma I_rechan c w : I w → I (rechan c w).
Proof. intros (HQ & HE & HU). split; [|by split]. by apply (unwritten (Q:=sched_inv)). Qed.

Lemma good_rechan c w : keeps_good w (rechan c w) ∧ keeps_good (rechan c w) w.
Proof. by split; intros id. Qed.

Lemma push_rechan op w : push op w = rechan (dbWriteChan (sched w) ++ [op]) w.
Proof. done. Qed.

(** ** The actions *)

Definition fine {X} (m : M World X) : Prop := ∀ w, I w → ∃ x w', m w = Some (x, w') ∧ I w' ∧ keeps_good w w'.

Lemma all_good_one id gs : all_good [id] gs ↔ heap_inv gs ∧ good gs id.
Proof. unfold all_good. by rewrite Forall_singleton. Qed.

Lemma keeps_good_from {X} (m : M World X) w x w' :
  (∀ id, keeps (holds (Q:=all_good [id]) (U:=λ _ _, True)) m) → I w → m w = Some (x, w') → keeps_good w w'.
Proof.
  intros Hm (HQ & HE & _) E id Hg.
  assert (holds (Q:=all_good [id]) (U:=λ _ _, True) w) as HW
    by (split; [apply all_good_one; split; [apply HQ|done]|done]).
  destruct (Hm id w x w' HW E) as [Hf _].
  apply all_good_one in Hf as [_ Hf]. exact Hf.
Qed.

Lemma fine_plain {X} (m : M World X) : plain m → fine m.
Proof.
  intros [Hk Ha] w HI. destruct (Ha w) as [[x w'] E]. exists x, w'. split; [done|]. split.
  - by eapply Hk; [apply _|apply _| |exact E].
  - eapply keeps_good_from; [|done|exact E]. intros id. apply Hk; apply _.
Qed.

Lemma fine_critical {X} (m : M World X) : fine m → fine (critical m).
Proof.
  intros Hm w HI. destruct (Hm w HI) as (x & w' & E & HI' & HG). unfold critical. rewrite E.
  eexists _, (rechan (dbWriteChan (sched w)) w'). split; [done|]. split; [by apply I_rechan|].
  transitivity w'; [done|apply good_rechan].
Qed.

Lemma fine_enqueue job : submittable job → fine (enqueue job).
Proof.
  intros Hj w (HQ & HE & HU). rewrite enqueue_runs.
  pose proof (accepts_enqueue job (sched w) HQ Hj) as HQ'.
  pose proof (λ id, good_enqueue (sched w) job id (proj1 HQ) Hj) as HG.
  destruct (Enqueue _ _) as [e gs']. eexists _, _. split; [done|]. by split; [split|].
Qed.

Lemma fine_take i job : fine (on_queue (take_at i job)).
Proof.
  intros w (HQ & HE & HU). unfold on_queue, take_at. eexists _, _. split; [done|].
  destruct (Nat.ltb_spec i (Len (sched w))) as [Hi|Hi].
  - split; [split; [by apply (qi_heap_remove (Q:=sched_inv))|done]|]. intros id Hg.
    assert (all_good [id] (heap_remove (Z.of_nat i) (sched w))) as [_ ?]%all_good_one; [|done].
    apply qi_heap_remove; [done|]. apply all_good_one. by split; [apply HQ|].
  - cbv zeta. unfold keeps_good. cbn [sched]. rewrite heap_remove_out by done. by split; [split|].
Qed.

Lemma fine_silent {X} (m : M World X) : silent m → fine m.
Proof.
  intros Hm w (HQ & HE & HU). destruct (Hm w) as (x & w' & E & Hs & Hc & Hu). exists x, w'.
  split; [done|]. unfold holds, keeps_good. rewrite Hs. split; [split; [done|split; [auto|]]|done].
  by apply (Hu (λ uu _, long_ids uu)); [apply _|].
Qed.

Lemma fine_atom X (m : M World X) f : atom false X m f → fine m.
Proof.
  destruct 1 as [X m f Hm|i job f|X m f Hm _|job f Hj _|g f Hr _|X f Hr]; try discriminate Hr.
  - by apply fine_silent.
  - apply fine_take.
  - by apply fine_critical, fine_plain.
  - by apply fine_critical, fine_enqueue.
Qed.

(** ** Threads of such actions *)

Lemma safe_push {A} (Φ : A → World → Prop) op p w :
  (∀ w', keeps_good w w' → I w' → safe Φ p w') → safe Φ (Snd op p) w.
Proof.
  intros Hp w1 HG HI. rewrite push_rechan. pose proof (good_rechan (dbWriteChan (sched w1) ++ [op]) w1) as [HR _].
  split_and!; [by apply I_rechan|done|]. apply Hp; [by etrans|by apply I_rechan].
Qed.

(** Without a panic, and with what follows from any later state. *)
Lemma safe_shape {A} (Φ : A → World → Prop) h h' (p : prog A) w : shape (atom false) h h' p → I w →
  (∀ a w', keeps_good w w' → I w' → Φ a w') → safe Φ p w.
Proof.
  revert h w. induction p as [a|X mu m k IH|op p IH|p IH|p IH]; intros h w; cbn [shape].
  - intros _ HI HΦ. by apply HΦ.
  - intros [Hm Hk] _ HΦ w1 HG HI. destruct (fine_atom _ _ _ Hm w1 HI) as (x & w2 & E & HI2 & HG2).
    exists x, w2. split_and!; [done..|]. eapply IH; [apply Hk|done|]. intros a w' HG'. apply HΦ. by do 2 etrans.
  - intros [_ Hp] _ HΦ. apply safe_push. intros w' HG HI. eapply IH; [done..|]. intros a w2 HG2. apply HΦ. by etrans.
  - intros [_ Hp] HI HΦ. by eapply IH.
  - intros [_ Hp] HI HΦ. by eapply IH.
Qed.

Lemma safe_sound {A} (Φ : A → World → Prop) (p : prog A) w : shape (atom false) false false p → I w →
  (∀ a w', keeps_good w w' → I w' → Φ a w') → safe Φ p w.
Proof. apply safe_shape. Qed.

Lemma safe_then {A A'} (Φ : A' → World → Prop) (p : prog A) (k : A → prog A') w :
  shape (atom false) false false p → I w →
  (∀ a w', keeps_good w w' → I w' → safe Φ (k a) w') → safe Φ (p ≫= k) w.
Proof. intros Hp HI Hk. apply safe_bind. by eapply safe_sound. Qed.

Lemma safe_sends {A} (Φ : A → World → Prop) ops a w : I w →
  (∀ w', keeps_good w w' → I w' → Φ a w') → safe Φ (sends ops a) w.
Proof.
  revert w. induction ops as [|op ops IH]; intros w HI HΦ; [by apply HΦ|]. apply safe_push.
  intros w1 HG1 HI1. apply IH; [done|]. intros w2 HG2. apply HΦ. by etrans.
Qed.

(** An action, whatever it may do. *)
Lemma safe_act {A} (Φ : A → World → Prop) (m : M World A) w :
  (∀ w1, keeps_good w w1 → I w1 → ∃ x w2, m w1 = Some (x, w2) ∧ I w2 ∧ keeps_good w1 w2 ∧ Φ x w2) →
  safe Φ (act m) w.
Proof. done. Qed.

(** A method, whatever it may do. *)
Lemma safe_call {A} (Φ : A → World → Prop) (m : M World A) w :
  (∀ w1, keeps_good w w1 → I w1 → ∃ x w2, m w1 = Some (x, w2) ∧ I w2 ∧ keeps_good w1 w2 ∧
    ∀ w3, keeps_good w2 w3 → I w3 → Φ x w3) → safe Φ (call m) w.
Proof.
  intros Hm w1 HG HI. destruct (Hm w1 HG HI) as (x & w2 & E & HI2 & HG2 & HΦ). unfold critical. rewrite E.
  eexists _, (rechan (dbWriteChan (sched w1)) w2). split; [done|].
  destruct (good_rechan (dbWriteChan (sched w1)) w2) as [HR HR'].
  split_and!; [by apply I_rechan|by transitivity w2|].
  apply safe_sends; [by apply I_rechan|]. intros w3 HG3. apply HΦ. by etrans.
Qed.

(** ** Cancel *)

Lemma safe_Cancel Φ id w : (∀ job ok w', keeps_good w w' → I w' → (ok = true → job ≠ None) → Φ (job, ok) w') →
  safe Φ (Cancel_p id) w.
Proof.
  intros HΦ. apply safe_bind, safe_call. intros w1 HG HI.
  destruct (fine_plain (l ← gets (λ w, jobs (sched w) !! id); r ← queue_Cancel id; mret (l, r))
    ltac:(auto with plain) w1 HI) as ([l [job ok]] & w2 & E & HI2 & HG2).
  exists (l, (job, ok)), w2. split_and!; [done..|]. intros w3 HG3 HI3.
  assert (Hok : ok = true → job ≠ None).
  { revert E. unfold mbind at 1, M_bind at 1, gets at 1. unfold mbind, M_bind. rewrite queue_Cancel_eq.
    pose proof (Cancel_ok_job (clock w1 (ticks w1)) id (sched w1)) as HC.
    destruct (Cancel _ id (sched w1)) as [[job' ok'] gs]. by intros [= _ <- <- _]. }
  assert (keeps_good w w3) by (do 2 (etrans; [done|]); done).
  destruct l as [l|]; [|apply HΦ; auto].
  eapply safe_then; [apply sound_act; auto with silent|done|]. intros j w4 HG4 HI4. apply HΦ; [by etrans|done|done].
Qed.

Lemma safe_CancelJob id w : safe (λ _ _, True) (CancelJob_p id) w.
Proof.
  apply safe_bind, safe_Cancel. intros job ok w' HG HI Hj.
  destruct ok, job as [j|]; [|by destruct (Hj eq_refl)|done|done].
  eapply safe_sound; [|done|done]. solve_sound.
Qed.

(** ** Submitting a group *)

(** The ranks queued so far are good, and stay so. *)
Lemma safe_submit_ranks Φ n rank req g u p nn mp ids w : (8 ≤ String.length g)%nat → I w →
  Forall (good (sched w)) ids →
  (∀ r w', keeps_good w w' → I w' → (∀ ids', r = inl ids' → Forall (good (sched w')) ids') → Φ r w') →
  safe Φ (submit_ranks_p n rank req g u p nn mp ids) w.
Proof.
  intros Hg. revert rank ids w. induction n as [|n IH]; intros rank ids w HI Hids HΦ; cbn [submit_ranks_p].
  { apply HΦ; [done..|]. by intros ids' [= <-]. }
  eapply safe_then; [solve_sound|done|]. intros now w1 HG1 HI1. set (id := g +:+ "-r" +:+ Itoa rank).
  set (job := rank_job req id g u rank p nn mp now).
  apply safe_bind, safe_call. intros w2 HG2 HI2.
  assert (Hj : submittable job) by (right; apply rank_job_env).
  destruct (fine_enqueue job Hj w2 HI2) as (e & w3 & E & HI3 & HG3). exists e, w3.
  split_and!; [done..|]. intros w4 HG4 HI4.
  assert (Hid : e = None → good (sched w4) id).
  { intros ->. apply HG4. revert E. rewrite enqueue_runs. pose proof (enqueue_new job (sched w2) (proj1 (proj1 HI2))) as HE.
    destruct (Enqueue _ _) as [e gs']. destruct HE as (_ & _ & _ & _ & HA). intros [= -> <-]. specialize (HA id).
    rewrite decide_True in HA by (symmetry; apply rank_job_id). split.
    - subst id. rewrite !str_app_length. simpl. lia.
    - intros j' Hj'. unfold asked in HA. cbn [sched] in Hj'. rewrite Hj' in HA. apply (inj Some) in HA.
      assert (Hne : Job.EnvVars job ≠ None) by apply rank_job_env. unfold descriptor in HA. congruence. }
  assert (HG : keeps_good w w4) by (do 3 (etrans; [done|]); done).
  destruct e as [e|].
  { apply HΦ; [done..|]. discriminate. }
  eapply safe_then; [solve_sound|done|]. intros _ w5 HG5 HI5. apply IH; [done| |].
  - apply Forall_app. split; [|apply Forall_singleton; by apply HG5, Hid].
    eapply Forall_impl; [exact Hids|]. intros i Hi. by apply HG5, HG.
  - intros r w6 HG6. apply HΦ. by do 2 (etrans; [done|]).
Qed.

Lemma safe_SubmitDistributedJob req w : I w → safe (λ _ _, True) (SubmitDistributedJob_p req) w.
Proof.
  intros HI. unfold SubmitDistributedJob_p. eapply safe_then; [solve_sound|done|]. intros drain w1 _ HI1.
  destruct drain; [done|]. apply safe_bind, safe_act. intros w2 _ HI2. eexists _, _.
  split; [apply uuid_New_eq|]. split; [exact HI2|]. split; [by intros i|]. cbv zeta.
  set (g := "dj-" +:+ _).
  assert (Hg : (8 ≤ String.length g)%nat).
  { subst g. rewrite str_app_length. destruct HI2 as (_ & _ & Hu). rewrite substring_full by apply Hu. simpl. lia. }
  set (nn := if (sd_NumNodes req <? 1)%Z then 1%Z else sd_NumNodes req).
  apply safe_bind. eapply safe_submit_ranks; [exact Hg|done|done|]. intros r w3 _ HI3 Hids.
  destruct r as [ids|e]; [|done]. specialize (Hids ids eq_refl).
  eapply safe_then; [solve_sound|done|]. intros now w4 HG4 HI4. set (grp := JobGroup.mk g ids nn _ _ _ now).
  apply safe_bind, safe_call. intros w5 HG5 HI5. exists tt, (w5 <| sched := RegisterGroup
    (new_group grp (sched w5)).1 (new_group grp (sched w5)).2 |>). rewrite register_runs. split; [done|].
  assert (Hok : group_ok (sched w5) grp).
  { split; [subst grp nn; simpl; destruct (Z.ltb_spec (sd_NumNodes req) 1); lia|].
    eapply Forall_impl; [exact Hids|]. intros id Hid. by apply HG5, HG4. }
  destruct HI5 as (HQ5 & HE5 & HU5). split; [by split; [apply register_group|split]|]. split.
  - intros id. apply good_asked. destruct (new_group_spec grp (sched w5)) as (l & _ & _ & _ & HA). apply HA.
  - intros w6 _ HI6. eapply safe_sound; [solve_sound|done|done].
Qed.

(** ** The gang scheduler *)

Lemma safe_queued_ranks Φ ids w : I w → Forall (good (sched w)) ids →
  (∀ js w', keeps_good w w' → I w' → Forall (λ j, Job.EnvVars j ≠ None) js → Φ js w') →
  safe Φ (queued_ranks_p ids) w.
Proof.
  revert w Φ. induction ids as [|id ids IH]; intros w Φ HI Hids HΦ; [by apply HΦ|]. cbn [queued_ranks_p].
  apply Forall_cons in Hids as [Hid Hids]. apply safe_bind, safe_call. intros w1 HG1 HI1.
  exists (GetJob id (sched w1)), w1. split_and!; [done..|]. intros w2 HG2 HI2. apply safe_bind, IH; [done| |].
  - eapply Forall_impl; [exact Hids|]. intros i Hi. by apply HG2, HG1.
  - intros js w3 HG3 HI3 Hjs. apply HΦ; [by do 2 (etrans; [done|])|done|].
    destruct (GetJob id (sched w1)) as [j|] eqn:Ej; [|done]. destruct (String.eqb _ _); [|done].
    constructor; [|done]. by apply (HG1 id Hid).
Qed.

Lemma safe_dispatch_ranks Φ i js ns addr w : I w → Forall (λ j, Job.EnvVars j ≠ None) js →
  length js = length ns → (∀ w', keeps_good w w' → I w' → Φ tt w') → safe Φ (dispatch_ranks_p i js ns addr) w.
Proof.
  revert i ns w. induction js as [|j js IH]; intros i [|n ns] w HI Hj Hl HΦ; try discriminate Hl; [by apply HΦ|].
  injection Hl as Hl. cbn [dispatch_ranks_p].
  apply Forall_cons in Hj as [Hj Hjs]. destruct (Job.EnvVars j) as [env|]; [|done].
  do 3 (eapply safe_then; [solve_sound|done|]; intros ? ? ? ?). apply IH; [done..|].
  intros w4 HG4. apply HΦ. by do 3 (etrans; [done|]).
Qed.

Lemma safe_match_members Φ js used ms w : I w →
  (∀ r w', keeps_good w w' → I w' → (∀ ns, r = Some ns → length js = length ns) → Φ r w') →
  safe Φ (match_members_p js used ms) w.
Proof.
  revert used w Φ. induction js as [|j js IH]; intros used w Φ HI HΦ; cbn [match_members_p].
  { apply HΦ; [done..|]. by intros ns [= <-]. }
  eapply safe_then; [solve_sound|done|]. intros [m|] w1 HG1 HI1; [|by apply HΦ].
  apply safe_bind, IH; [done|]. intros r w2 HG2 HI2 Hr. apply HΦ; [by etrans|done|].
  destruct r as [l|]; [|done]. intros ns [= <-]. cbn. f_equal. by apply Hr.
Qed.

Lemma safe_tryDispatchGroup Φ g w : I w → group_ok (sched w) g →
  (∀ w', keeps_good w w' → I w' → Φ tt w') → safe Φ (tryDispatchGroup_p g) w.
Proof.
  intros HI [Hn Hg] HΦ. apply safe_bind, safe_queued_ranks; [done..|]. intros js w1 HG1 HI1 Hjs.
  destruct (Z.eqb_spec (Z.of_nat (length js)) (JobGroup.NumNodes g)) as [Hl|]; cbn [negb]; [|by apply HΦ].
  eapply safe_then; [solve_sound|done|]. intros ms w2 HG2 HI2.
  apply safe_bind, safe_match_members; [done|]. intros r w3 HG3 HI3 Hr.
  assert (HG : keeps_good w w3) by (do 2 (etrans; [done|]); done).
  destruct r as [ns|]; [|by apply HΦ]. specialize (Hr ns eq_refl). destruct ns as [|m0 ns]; [simpl in Hr; lia|].
  apply safe_bind, safe_dispatch_ranks; [done..|]. intros w4 HG4 HI4.
  eapply safe_sound; [solve_sound|done|]. intros [] w5 HG5. apply HΦ. by do 2 (etrans; [done|]).
Qed.

Lemma safe_for_each {X} (l : list X) (body : X → prog ()) w : I w →
  (∀ x w' Φ, x ∈ l → keeps_good w w' → I w' → (∀ w2, keeps_good w' w2 → I w2 → Φ tt w2) → safe Φ (body x) w') →
  ∀ Φ, (∀ w', keeps_good w w' → I w' → Φ tt w') → safe Φ (for_each_p l body) w.
Proof.
  revert w. induction l as [|x l IH]; intros w HI Hb Φ HΦ; [by apply HΦ|]. cbn [for_each_p].
  apply safe_bind, Hb; [left|done..|]. intros w1 HG1 HI1. apply IH; [done| |].
  - intros y w' Ψ Hy HG'. apply Hb; [by right|by etrans].
  - intros w' HG'. apply HΦ. by etrans.
Qed.

Lemma safe_gang_phase Φ w : (∀ w', keeps_good w w' → I w' → Φ tt w') → safe Φ gang_phase_p w.
Proof.
  intros HΦ. apply safe_bind, safe_call. intros w1 HG1 HI1. exists (PendingGroups (sched w1)), w1.
  split_and!; [done..|]. intros w2 HG2 HI2.
  assert (Hgr : Forall (group_ok (sched w1)) (PendingGroups (sched w1))) by (apply pending_groups_ok; apply HI1).
  apply safe_for_each; [done| |intros w' HG'; apply HΦ; by do 2 (etrans; [done|])].
  intros g w' Ψ Hin HG' HI' HΨ. rewrite Forall_forall in Hgr. specialize (Hgr g Hin).
  assert (Hg : ∀ w4, keeps_good w' w4 → group_ok (sched w4) g).
  { intros w4 HG4. destruct Hgr as [Hn Hg]. split; [done|]. eapply Forall_impl; [exact Hg|].
    intros id Hid. by apply HG4, HG', HG2. }
  destruct (IsZero _); [apply safe_tryDispatchGroup; [done|by apply Hg|done]|].
  eapply safe_then; [solve_sound|done|]. intros now w4 HG4 HI4. destruct (_ <? _)%Z.
  - eapply safe_sound; [solve_sound|done|]. intros [] w5 HG5. apply HΨ. by etrans.
  - apply safe_tryDispatchGroup; [done|by apply Hg|]. intros w5 HG5. apply HΨ. by etrans.
Qed.

Lemma safe_dispatch_tick w : I w → safe (λ _ _, True) dispatch_tick_p w.
Proof.
  intros HI. eapply safe_then; [solve_sound|done|]. intros _ w1 _ HI1. apply safe_bind, safe_gang_phase.
  intros w2 _ HI2. eapply safe_sound; [solve_sound|done|done].
Qed.

Lemma safe_thread e w : I w → safe (λ _ _, True) (thread e) w.
Proof.
  intros HI.
  assert (HM : ∀ (p : prog ()), safe (λ _ _, True) p w → safe (λ _ _, True) (p;; mret Nothing) w).
  { intros p Hp. apply safe_bind. by eapply safe_mono, Hp. }
  destruct e; cbn [thread].
  2: { apply safe_bind. eapply safe_mono; [|by apply safe_SubmitDistributedJob]. done. }
  2: { apply safe_bind. eapply safe_mono; [|by apply safe_CancelJob]. done. }
  6: { by apply HM, safe_dispatch_tick. }
  all: eapply safe_sound; [|done|done]; solve_sound; by apply sound_act, silent_modify.
Qed.

(** ** The machine *)

(** What ends the process: a send on the closed channel or a second close of it,
    and a write of [UserUsage] while a thread ranges over the map. *)
Definition fatal (l : label) (c : machine) : Prop :=
  (closed c = true ∧ (l = Close ∨ ∃ i e op k, l = Go i ∧ pool c !! i = Some (e, Snd op k))) ∨
  (ranging c = true ∧ ∃ i e X (m : M World X) k, l = Go i ∧ pool c !! i = Some (e, Act WritesUsage m k)).

Definition all_safe (c : machine) : Prop := I (world c) ∧
  ∀ i e p, pool c !! i = Some (e, p) → safe (λ _ _, True) p (world c).

Lemma all_safe_set i e p q c c1 : all_safe c → pool c !! i = Some (e, p) → pool c1 = pool c →
  keeps_good (world c) (world c1) → I (world c1) → safe (λ _ _, True) q (world c1) →
  all_safe (set_thread i q c1).
Proof.
  intros [_ Hs] Hi Hp HG HI Hq. split; [done|]. intros j e' p'.
  intros [(<- & -> & _)|[Hne Hj]]%lookup_set_thread; [done|]. rewrite Hp in Hj.
  apply (safe_later _ _ _ _ (world c)); [done|exact HG|]. by eapply Hs.
Qed.

(** The steps that are not a thread's leave the threads alone. *)
Lemma all_safe_other c c1 : all_safe c → pool c1 = pool c → keeps_good (world c) (world c1) →
  I (world c1) → all_safe c1.
Proof.
  intros [_ Hs] Hp HG HI. split; [done|]. intros i e p. rewrite Hp. intros Hi.
  apply (safe_later _ _ _ _ (world c)); [done|exact HG|]. by eapply Hs.
Qed.

Lemma all_safe_resume i e p c : all_safe c → pool c !! i = Some (e, p) →
  match resume i p c with Blocked => True | Crash => fatal (Go i) c | Next c' => all_safe c' end.
Proof.
  intros Hall Hi. pose proof Hall as [HI Hs]. specialize (Hs i e p Hi).
  destruct p as [a|X mu m k|op k|k|k]; cbn [resume Threads.safe] in *; [done|..].
  - destruct (_ && _); [done|]. destruct (_ && _) eqn:Eb.
    { apply andb_prop in Eb as [->%bool_decide_eq_true Hr]. right. split; [done|]. by eexists i, e, X, m, k. }
    destruct (Hs (world c) ltac:(reflexivity) HI) as (x & w2 & E & HI2 & HG2 & Hk).
    rewrite E. by eapply (all_safe_set i e _ _ c).
  - destruct (closed c) eqn:Ec; [left; split; [done|right]; by eexists i, e, op, k|]. destruct (_ <? _)%nat; [|done].
    destruct (Hs (world c) ltac:(reflexivity) HI) as (HI2 & HG2 & Hk). by eapply (all_safe_set i e _ _ c).
  - destruct (holder c); [done|]. by eapply (all_safe_set i e _ _ c).
  - by eapply (all_safe_set i e _ _ c).
Qed.

Lemma all_safe_fire l c : all_safe c →
  match fire l c with Blocked => True | Crash => fatal l c | Next c' => all_safe c' end.
Proof.
  intros Hall. pose proof Hall as [HI Hs]. destruct l as [e|i| | |]; cbn [fire].
  - assert (HS : ∀ b : bool, match (if b then Blocked else Next (c <| pool ::= λ ts, ts ++ [(e, thread e)] |>)) with
      Blocked => True | Crash => fatal (Spawn e) c | Next c' => all_safe c' end); [|destruct e; try done; apply HS].
    intros []; [done|]. split; [done|]. cbn. intros i e' p. rewrite lookup_app_Some.
    intros [Hi|[_ Hi]]; [by eapply Hs|]. apply list_lookup_singleton_Some in Hi as [_ [= <- <-]]. by apply safe_thread.
  - destruct (pool c !! i) as [[e p]|] eqn:Hi; [|done]. by eapply all_safe_resume.
  - destruct (inflight c); [done|]. destruct (dbWriteChan _) as [|op rest]; [done|].
    apply (all_safe_other c); [done|done|by intros id|]. by apply (I_rechan rest).
  - destruct (inflight c); [|done].
    apply (all_safe_other c); [done|done|by intros id|done].
  - destruct (_ || _); [done|]. destruct (closed c) eqn:Ec; [|done]. left. split; [done|by left].
Qed.

(** C3: no interleaving makes the master panic but by two races: in every state the
    interleaved master can reach from any database, whichever goroutines run and in
    whatever order, the queue is heap ordered, every pending group has ranks that can
    be dispatched, the cached programs are those of their expressions, and the only
    actions that can end the process are a send on, or a second close of, the
    channel cleanDB has closed, and a write of the fairshare map while
    SaveFairshare, which does not take the calculator's mutex, ranges over it.
    (Identifiers are at least eight characters long, and the fields of a job that
    the database goroutine encodes without the scheduler's mutex are read whole.) *)
Theorem interleaved_master_never_panics times cfg d clk uu c : long_ids uu →
  reaches (StartMaster times cfg d clk uu) c →
  sched_inv (sched (world c)) ∧ cache_ok (eval (world c)) ∧
  ∀ l, fire l c = Crash → fatal l c.
Proof.
  intros Huu Hr. assert (Hall : all_safe c).
  { revert Hr. apply reaches_ind.
    - split; [by apply holds_StartMaster|by intros []].
    - intros l c1 c2 H1' E. pose proof (all_safe_fire l c1 H1') as HS. by rewrite E in HS. }
  pose proof Hall as [(HQ & HE & _) _]. split_and!; [done..|]. intros l E.
  pose proof (all_safe_fire l c Hall) as HS. by rewrite E in HS.
Qed.
End Safety.

(** ** On the concrete master *)

Section Witnesses.
#[local] Existing Instances toy_cel bolt_map amd64 utc map_order_canonical.

Lemma interleaved_master_never_panics_witness :
  sched_inv (sched (world demo_machine)) ∧ ∀ l, fire l demo_machine ≠ Crash.
Proof.
  destruct (interleaved_master_never_panics demo_clock DefaultConfig ∅ demo_clock demo_uuids demo_machine
    demo_uuids_long demo_machine_reached) as (HI & _ & HC).
  split; [exact HI|]. intros l E. destruct (HC l E) as [[Hc _]|[Hr _]].
  - revert Hc. vm_compute. discriminate.
  - revert Hr. vm_compute. discriminate.
Defined.
End Witnesses.
