(* ===== verification/Catchup.v ===== *)
(** * The database catches up, goroutines interleaved

    Persist.v has the database in step with a master that handles one event at a
    time.  Here a method's send comes after the method, from whichever goroutine,
    and the database goroutine holds one write while others queue: what it owes is
    spread over all of them.  [moved] is what one action may do to the scheduler
    and what it must then send; [follows] is the invariant of the machine. *)

From S2P Require Import Prelude GoStd GoJson GoTime GoHeap Queue QueueFacts SchedulerSpec.
From S2P Require Import QueueProps JobTable Messaging Fairshare CircuitBreaker Tracker Matchmaker.
From S2P Require Import Store Config GoRegexp World Server Dispatch Master Hoare Panics Restart Persist.
From S2P Require Import Demo Threads Goroutines Alone Interleave Quiesce.
Import GlobalScheduler (objs, gobjs, queue, jobs, groups, MaxQueueSize, OnJobChange,
  OnGroupChange, dbWriteChan).
#[local] Open Scope string_scope.
#[local] Open Scope list_scope.

(** ** One action on the scheduler *)

(** From [gs0] to [gs], with [ops] to be sent: every tracked job is as it was, or
    it is in [ops]. *)
Record moved (gs0 : GlobalScheduler) (ops : list dbWriteOp) (gs : GlobalScheduler) : Prop := {
  mv_hook : OnJobChange gs = true;
  mv_old l : l ∈ dom (objs gs0) → l ∈ dom (objs gs) ∧ Job.ID (deref gs l) = Job.ID (deref gs0 l);
  mv_dom id l : jobs gs !! id = Some l → l ∈ dom (objs gs);
  mv_id id l : jobs gs !! id = Some l → Job.ID (deref gs l) = id;
  mv_sent id l : jobs gs !! id = Some l → WriteJob l ∈ ops ∨
    jobs gs0 !! id = Some l ∧ erase (deref gs l) = erase (deref gs0 l)
}.

Lemma moved_more gs0 ops ops' gs : (∀ op, op ∈ ops → op ∈ ops') → moved gs0 ops gs → moved gs0 ops' gs.
Proof. intros Ho []. split; auto. intros id l Hl. destruct (mv_sent0 id l Hl); auto. Qed.

(** The channel has no part in it. *)
Lemma moved_chan gs0 ops f gs : moved gs0 ops gs → moved gs0 ops (gs <| dbWriteChan ::= f |>).
Proof. by intros []. Qed.

Lemma moved_frame gs0 ops gs gs' : heap_frame gs gs' → moved gs0 ops gs → moved gs0 ops gs'.
Proof.
  intros HF []. assert (HI : ∀ l, Job.ID (deref gs' l) = Job.ID (deref gs l))
    by (intros l; by apply (hf_proj Job.ID _ _ _ HF)).
  split; [by rewrite (hf_hook _ _ HF)|..].
  - intros l Hl. rewrite (hf_dom _ _ HF), HI. auto.
  - intros id l. rewrite (hf_jobs _ _ HF), (hf_dom _ _ HF). eauto.
  - intros id l. rewrite (hf_jobs _ _ HF), HI. auto.
  - intros id l. rewrite (hf_jobs _ _ HF), (hf_obj _ _ HF). auto.
Qed.

(** A tracked job is written and its notification is sent. *)
Lemma moved_write gs0 ops id l f gs : (∀ j, Job.ID (f j) = Job.ID j) → jobs gs !! id = Some l →
  moved gs0 ops gs → moved gs0 (ops ++ [WriteJob l]) (update l f gs).
Proof.
  intros Hf Hl []. assert (HI : ∀ l', Job.ID (deref (update l f gs) l') = Job.ID (deref gs l'))
    by (intros; by apply deref_update_proj).
  split; [done|..].
  - intros l' Hl'. rewrite dom_update, HI. auto.
  - intros id' l'. rewrite dom_update. eauto.
  - intros id' l'. rewrite HI. auto.
  - intros id' l' Hl'. destruct (decide (l' = l)) as [->|Hne]; [left; apply elem_of_app; right; left|].
    rewrite deref_update_ne by done. destruct (mv_sent0 id' l' Hl'); [left; apply elem_of_app; by left|by right].
Qed.

(** The methods of the scheduler, with what they have sent. *)
Definition since (gs0 gs : GlobalScheduler) : Prop :=
  ∃ ops, dbWriteChan gs = dbWriteChan gs0 ++ ops ∧ moved gs0 ops gs.

Lemma since_frame gs0 gs gs' : heap_frame gs gs' → since gs0 gs → since gs0 gs'.
Proof.
  intros HF (ops & Hc & HM). exists ops. split; [by rewrite (hf_chan _ _ HF)|]. by eapply moved_frame.
Qed.

Lemma since_notify gs0 id l f gs gs' : (∀ j, Job.ID (f j) = Job.ID j) → jobs gs !! id = Some l →
  heap_frame (update l f gs) gs' → since gs0 gs → since gs0 (notifyJobChange l gs').
Proof.
  intros Hf Hl HF (ops & Hc & HM). exists (ops ++ [WriteJob l]).
  pose proof (moved_frame _ _ _ _ HF (moved_write _ _ _ _ _ _ Hf Hl HM)) as HM'.
  unfold notifyJobChange. rewrite (mv_hook _ _ _ HM'). split; [|by apply moved_chan].
  simpl. by rewrite (hf_chan _ _ HF), app_assoc, <- Hc.
Qed.

Lemma since_groups gs0 gs gs' : objs gs' = objs gs → jobs gs' = jobs gs → OnJobChange gs' = OnJobChange gs →
  dbWriteChan gs' = dbWriteChan gs ∨ (∃ l, dbWriteChan gs' = dbWriteChan gs ++ [WriteGroup l]) →
  since gs0 gs → since gs0 gs'.
Proof.
  intros Ho Hj Hh Hc (ops & Hch & HM).
  assert (HD : ∀ l, deref gs' l = deref gs l) by (intros l; unfold deref; by rewrite Ho).
  assert (moved gs0 ops gs') as HM'.
  { destruct HM. split; [congruence|..]; intros *; rewrite ?Hj, ?Ho, ?HD; eauto. }
  destruct Hc as [Hc|[l Hc]]; rewrite Hch in Hc.
  - by exists ops.
  - exists (ops ++ [WriteGroup l]). rewrite Hc, app_assoc. split; [done|]. eapply moved_more; [|done].
    intros op Hop. apply elem_of_app. by left.
Qed.

Lemma since_notify_group gs0 l gs gs' : objs gs' = objs gs → jobs gs' = jobs gs →
  OnJobChange gs' = OnJobChange gs → dbWriteChan gs' = dbWriteChan gs →
  since gs0 gs → since gs0 (notifyGroupChange l gs').
Proof.
  intros Ho Hj Hh Hc HS. apply (since_groups gs0 gs); [..|done]; unfold notifyGroupChange;
    case_match; cbn; try done; [right|by left]. exists l. by rewrite Hc.
Qed.

Lemma moved_alloc gs0 ops l j gs : l ∉ dom (objs gs) → moved gs0 ops gs →
  moved gs0 ops (gs <| objs ::= <[l := j]> |>).
Proof.
  intros Hl []. split; [done|intros l' Hl'|intros id l' Hl'..].
  - destruct (mv_old0 l' Hl') as [Hd HI]. rewrite deref_new by done. split; [|done].
    cbn. rewrite dom_insert. set_solver.
  - cbn. rewrite dom_insert. set_solver.
  - rewrite deref_new by eauto. auto.
  - rewrite deref_new by eauto. auto.
Qed.

Lemma since_enqueue gs0 j gs : since gs0 gs → since gs0 (Enqueue (new_job j gs).1 (new_job j gs).2).2.
Proof.
  intros (ops & Hc & HM). pose proof (Enqueue_new_eq j gs) as HE. unfold new_job in *. cbn [fst snd].
  set (l := fresh _) in *. assert (Hl : l ∉ dom (objs gs)) by apply is_fresh. rewrite HE.
  destruct (_ && _); [exists ops; split; [done|by apply moved_alloc]|]. cbn [snd].
  assert (HT : moved gs0 (ops ++ [WriteJob l]) (tracked l (queued j) gs)).
  { destruct (moved_alloc _ _ l (queued j) _ Hl HM) as [Hh Ho Hd Hi Hs].
    split; [done|done|..]; intros id l';
      change (jobs (tracked _ _ _)) with (<[Job.ID (queued j) := l]> (jobs gs)).
    - intros [[_ <-]|[_ Hl']]%lookup_insert_Some; [cbn; rewrite dom_insert; set_solver|eauto].
    - intros [[<- <-]|[_ Hl']]%lookup_insert_Some; [by rewrite tracked_deref|by apply Hi].
    - intros [[_ <-]|[_ Hl']]%lookup_insert_Some; [left; apply elem_of_app; right; left|].
      destruct (Hs id l' Hl'); [left; apply elem_of_app; by left|by right]. }
  pose proof (frame_heap_Push l (tracked l (queued j) gs)) as HF.
  exists (ops ++ [WriteJob l]). pose proof (moved_frame _ _ _ _ HF HT) as HM'.
  unfold notifyJobChange. rewrite (mv_hook _ _ _ HM'). split; [|by apply moved_chan].
  simpl. rewrite (hf_chan _ _ HF). simpl. by rewrite Hc, app_assoc.
Qed.

#[export] Instance since_queue gs0 : QueueInv (λ gs, heap_inv gs ∧ since gs0 gs).
Proof.
  split; intros *.
  - intros Ho [HI HS]. split; [by apply heap_inv_step|].
    destruct (plain_op_effect o gs Ho (proj1 HI)) as [gs' HF|gs1 id l f HF Hl Hf|id l f Hl Hf].
    + by eapply since_frame.
    + eapply (since_notify _ id l f gs1); [by apply ID_of_descriptor|by rewrite (hf_jobs _ _ HF)|done|].
      by eapply since_frame.
    + eapply (since_notify _ id l f gs); [by apply ID_of_descriptor|done|apply frame_heap_Push|done].
  - intros Hst [HI HS]. split; [by apply (qi_set_state (Q:=heap_inv))|].
    unfold SetGroupState. destruct (groups gs !! id); [|done]. by apply (since_notify_group _ _ gs).
  - intros Hi [HI HS]. split; [by apply (qi_heap_remove (Q:=heap_inv))|].
    eapply since_frame; [|done]. apply frame_heap_remove; [apply HI|done].
Qed.

(** The hook is installed and every job is tracked under its own ID. *)
Definition well_tracked (gs : GlobalScheduler) : Prop :=
  OnJobChange gs = true ∧ ∀ id l, jobs gs !! id = Some l → l ∈ dom (objs gs) ∧ Job.ID (deref gs l) = id.

Lemma moved_refl gs : well_tracked gs → moved gs [] gs.
Proof. intros [Hh Ht]. split; [done|done|..]; intros id l Hl; destruct (Ht id l Hl); auto. Qed.

Lemma since_refl gs : well_tracked gs → since gs gs.
Proof. intros Ht. exists []. split; [by rewrite app_nil_r|by apply moved_refl]. Qed.

Lemma moved_tracked gs0 ops gs : moved gs0 ops gs → well_tracked gs.
Proof. intros []. split; [done|]. eauto. Qed.

(** ** One action of a thread *)

Section Master.
Context {C : CEL} {B : Bolt} `{GoArch} `{Zone} `{MapOrder}.
Context {BL : BoltLaws B}.

Definition base (w : World) : Prop :=
  heap_inv (sched w) ∧ well_tracked (sched w) ∧ cache_ok (eval w) ∧ is_Some (store w).

Definition same_view (w w' : World) : Prop := ∀ id, view w' id = view w id.

(** What an action leaves: [ops] is what its thread has to send. *)
Record acted (w : World) (ops : list dbWriteOp) (w' : World) : Prop := {
  ac_base : base w';
  ac_moved : moved (sched w) ops (sched w');
  ac_chan : dbWriteChan (sched w') = dbWriteChan (sched w);
  ac_view : same_view w w'
}.

Lemma acted_more w ops ops' w' : (∀ op, op ∈ ops → op ∈ ops') → acted w ops w' → acted w ops' w'.
Proof. intros Ho []. split; try done. by eapply moved_more. Qed.

(** A method whose sends are put off. *)
Lemma acted_critical w (w1 : World) ops : base w → heap_inv (sched w1) → cache_ok (eval w1) →
  is_Some (store w1) → same_view w w1 →
  dbWriteChan (sched w1) = dbWriteChan (sched w) ++ ops → moved (sched w) ops (sched w1) →
  acted w (drop (length (dbWriteChan (sched w))) (dbWriteChan (sched w1)))
    (w1 <| sched ::= λ gs, gs <| dbWriteChan := dbWriteChan (sched w) |> |>).
Proof.
  intros Hw HI HE Hd HV Hc HM. rewrite Hc, drop_app_length.
  pose proof (moved_chan _ _ (λ _, dbWriteChan (sched w)) _ HM) as HM'.
  split; [|exact HM'|done|exact HV]. split; [by apply (unwritten (Q:=heap_inv))|]. split; [|by split].
  by eapply moved_tracked.
Qed.

Lemma acted_frame w gs : base w → heap_inv gs → heap_frame (sched w) gs → acted w [] (w <| sched := gs |>).
Proof.
  intros (HI & HT & HE & Hd) HI' HF. pose proof (moved_frame _ _ _ _ HF (moved_refl _ HT)) as HM.
  split; [|done|apply (hf_chan _ _ HF)|by intros id]. split; [done|]. split; [by eapply moved_tracked|done].
Qed.

Lemma acted_silent {X} (m : M World X) w x w' : silent m → base w → m w = Some (x, w') → acted w [] w'.
Proof.
  intros Hm (HI & HT & HE & Hd) E. destruct (Hm w) as (x' & w1 & E' & Hs & Hc & Hu).
  rewrite E in E'. injection E' as <- <-.
  destruct (Hu (view_is (view w))) as [Hd' HV]; [apply _|by split|].
  split; unfold base; rewrite ?Hs; auto. by apply moved_refl.
Qed.

Lemma acted_plain {X} (m : M World X) w x w' : plain m → base w → critical m w = Some (x, w') → acted w x.2 w'.
Proof.
  intros [Hk _] Hw. pose proof Hw as (HI & HT & HE & Hd). unfold critical.
  destruct (m w) as [[y w1]|] eqn:E; [|done]. intros [= <- <-].
  assert (holds (Q:=λ gs, heap_inv gs ∧ since (sched w) gs) (U:=view_is (view w)) w1)
    as ([HI1 (ops & Hc & HM)] & HE1 & Hd1 & HV1).
  { eapply Hk; [apply _|apply _| |exact E]. split; [split; [done|by apply since_refl]|]. split; [done|by split]. }
  by eapply acted_critical.
Qed.

Lemma acted_enqueue job w x w' : base w → critical (enqueue job) w = Some (x, w') → acted w x.2 w'.
Proof.
  intros Hw. pose proof Hw as (HI & HT & HE & Hd). unfold critical. rewrite enqueue_runs.
  pose proof (since_enqueue (sched w) job (sched w) (since_refl _ HT)) as (ops & Hc & HM).
  pose proof (accepts_enqueue (ok:=λ _, True) job (sched w) HI Logic.I) as HI1.
  destruct (Enqueue _ _) as [e gs']. cbn [snd] in *. intros [= <- <-].
  exact (acted_critical w (w <| sched := gs' |>) ops Hw HI1 HE Hd (λ _, eq_refl) Hc HM).
Qed.

Lemma acted_register g w x w' : base w → critical (register g) w = Some (x, w') → acted w x.2 w'.
Proof.
  intros Hw. pose proof Hw as (HI & HT & HE & Hd). unfold critical. rewrite register_runs.
  set (gs' := RegisterGroup _ _).
  assert (HS : since (sched w) gs').
  { apply since_notify_group with (new_group g (sched w)).2; try done.
    apply since_groups with (sched w); [done..|by left|by apply since_refl]. }
  assert (HI1 : heap_inv gs') by (by apply (registers_group (Q:=heap_inv)), (registers_new_group (Q:=heap_inv))).
  destruct HS as (ops & Hc & HM). intros [= <- <-].
  exact (acted_critical w (w <| sched := gs' |>) ops Hw HI1 HE Hd (λ _, eq_refl) Hc HM).
Qed.

Lemma acted_atom risky X (m : M World X) f w x w' :
  atom risky X m f → base w → m w = Some (x, w') → acted w (f x) w'.
Proof.
  destruct 1 as [X m f Hm|i job f|X m f Hm Hf|job f Hj Hf|g f Hr Hf|X f Hr]; intros Hw E.
  - eapply acted_more; [|by eapply acted_silent]. by intros op ?%not_elem_of_nil.
  - eapply acted_more; [by intros op ?%not_elem_of_nil|]. revert E. unfold on_queue, take_at. intros [= _ <-].
    pose proof Hw as (HI & _). destruct (Nat.ltb_spec i (Len (sched w))) as [Hi|Hi].
    + apply acted_frame; [done|by apply (qi_heap_remove (Q:=heap_inv))|].
      apply frame_heap_remove; [apply HI|done].
    + rewrite heap_remove_out by done. by apply acted_frame.
  - eapply acted_more; [|by eapply acted_plain]. destruct x as [y ops]. apply Hf.
  - eapply acted_more; [|by eapply acted_enqueue]. destruct x as [y ops]. apply Hf.
  - eapply acted_more; [|by eapply acted_register]. destruct x as [y ops]. apply Hf.
  - done.
Qed.

(** ** The invariant of the machine *)

(** The writes that are still to be made: in the hands of the database goroutine, in the
    channel, and those the threads are about to send. *)
Definition owed (c : machine) : list dbWriteOp :=
  option_list (inflight c) ++ dbWriteChan (sched (world c)) ++ concat (pend <$> threads c).

(** Every job has an ID of its own. *)
Definition unique_ids (gs : GlobalScheduler) : Prop := ∀ l, l ∈ dom (objs gs) → Job.ID (deref gs l) ≠ "" ∧
  ∀ l', l' ∈ dom (objs gs) → Job.ID (deref gs l') = Job.ID (deref gs l) → l' = l.

Lemma unique_before gs0 ops gs : moved gs0 ops gs → unique_ids gs → unique_ids gs0.
Proof.
  intros HM HU l Hl. destruct (mv_old _ _ _ HM l Hl) as [Hd HI]. destruct (HU l Hd) as [Hne Hl'].
  split; [congruence|]. intros l1 Hl1. destruct (mv_old _ _ _ HM l1 Hl1) as [Hd1 HI1]. rewrite <- HI, <- HI1. auto.
Qed.

Record follows (c : machine) : Prop := {
  fo_base : base (world c);
  fo_sound i e p : pool c !! i = Some (e, p) → ∃ h, shape (atom true) h false p;
  fo_last : unique_ids (sched (world c)) → ∀ id l, jobs (sched (world c)) !! id = Some l →
    WriteJob l ∈ owed c ∨ written (view (world c)) (deref (sched (world c)) l)
}.

Lemma written_ext V V' j : (∀ id, V' id = V id) → written V j → written V' j.
Proof. intros HV Hw Hs. rewrite HV. by apply Hw. Qed.

(** An action: what it changes is owed afterwards. *)
Lemma follows_moved c c' ops : follows c → base (world c') → moved (sched (world c)) ops (sched (world c')) →
  same_view (world c) (world c') →
  (∀ i e p, pool c' !! i = Some (e, p) → ∃ h, shape (atom true) h false p) →
  (∀ op, op ∈ owed c ∨ op ∈ ops → op ∈ owed c') → follows c'.
Proof.
  intros [Hb _ Hl] Hb' HM HV Hs Ho. split; [done..|]. intros HU id l Hl'.
  destruct (mv_sent _ _ _ HM id l Hl') as [Hop|[Hl0 HE]]; [left; auto|].
  destruct (Hl (unique_before _ _ _ HM HU) id l Hl0) as [Hop|Hw]; [left; auto|right].
  eapply written_ext; [exact HV|]. by eapply written_erase.
Qed.

Lemma elem_of_owed op c : op ∈ owed c ↔ op ∈ option_list (inflight c) ∨
  op ∈ dbWriteChan (sched (world c)) ∨ ∃ i e p, pool c !! i = Some (e, p) ∧ op ∈ pend p.
Proof.
  unfold owed. rewrite !elem_of_app. do 2 f_equiv. rewrite list_elem_of_In, in_concat.
  unfold threads. split.
  - intros (q & Hq & Hop). rewrite <- list_elem_of_In in Hq; rewrite <- list_elem_of_In in Hop.
    apply list_elem_of_fmap in Hq as (p & -> & ([e p'] & -> & Hp)%list_elem_of_fmap).
    apply list_elem_of_lookup_1 in Hp as [i Hi]. by exists i, e, p'.
  - intros (i & e & p & Hi & Hop). exists (pend p). rewrite <- !list_elem_of_In. split; [|done].
    apply list_elem_of_fmap. exists p. split; [done|]. apply list_elem_of_fmap. exists (e, p).
    split; [done|]. by eapply list_elem_of_lookup_2.
Qed.

(** The pool after a thread has acted: what the others owe is owed still. *)
Lemma owed_set i e p q c c1 op : pool c !! i = Some (e, p) → pool c1 = pool c →
  inflight c1 = inflight c → (op ∈ dbWriteChan (sched (world c)) → op ∈ dbWriteChan (sched (world c1))) →
  (op ∈ pend p → op ∈ dbWriteChan (sched (world c1)) ∨ op ∈ pend q) → op ∈ owed c →
  op ∈ owed (set_thread i q c1).
Proof.
  intros Hi Hp Hf Hc Hq. rewrite !elem_of_owed. change (inflight (set_thread i q c1)) with (inflight c1).
  change (world (set_thread i q c1)) with (world c1). rewrite Hf.
  rewrite (pool_set_thread i e p) by (by rewrite Hp). rewrite Hp.
  assert (HQ : op ∈ pend q → ∃ j e' p', <[i:=(e, q)]> (pool c) !! j = Some (e', p') ∧ op ∈ pend p').
  { intros Hop. exists i, e, q. split; [|done]. apply list_lookup_insert_eq. by eapply lookup_lt_Some. }
  intros [?|[?|(j & e' & p' & Hj & Hop)]]; [by left|right; left; auto|right].
  destruct (decide (i = j)) as [<-|Hne].
  - rewrite Hi in Hj. injection Hj as <- <-. destruct (Hq Hop); [by left|by right; apply HQ].
  - right. exists j, e', p'. split; [|done]. by rewrite list_lookup_insert_ne.
Qed.

(** A thread of the machine acts. *)
Lemma follows_thread i e p q c c1 h ops : follows c → pool c !! i = Some (e, p) →
  shape (atom true) h false q → pool c1 = pool c → inflight c1 = inflight c → base (world c1) →
  moved (sched (world c)) ops (sched (world c1)) → same_view (world c) (world c1) →
  (∀ op, op ∈ dbWriteChan (sched (world c)) → op ∈ dbWriteChan (sched (world c1))) →
  (∀ op, op ∈ pend p → op ∈ dbWriteChan (sched (world c1)) ∨ op ∈ pend q) →
  (∀ op, op ∈ ops → op ∈ pend q) → follows (set_thread i q c1).
Proof.
  intros HF Hi Hq Hp Hf Hb HM HV Hc Hpq Hops.
  apply (follows_moved c _ ops); [done..| |].
  - intros j e' p'. intros [(_ & -> & _)|[_ Hj]]%lookup_set_thread; [by exists h|].
    rewrite Hp in Hj. by eapply fo_sound.
  - intros op [Hop|Hop]; [by eapply owed_set; eauto|]. apply elem_of_owed. right. right. exists i, e, q.
    split; [|auto]. rewrite (pool_set_thread i e p) by (by rewrite Hp). rewrite Hp.
    apply list_lookup_insert_eq. by eapply lookup_lt_Some.
Qed.

Lemma follows_resume i e p c c' : follows c → pool c !! i = Some (e, p) → resume i p c = Next c' → follows c'.
Proof.
  intros HF Hi. pose proof HF as [Hb Hs Hl]. pose proof Hb as (HI & HT & HE & Hd). destruct (Hs i e p Hi) as [h Hp].
  pose proof (moved_refl _ HT) as HR. destruct p as [a|X mu m k|op k|k|k]; cbn [resume shape] in *; [done|..].
  - do 2 (destruct (_ && _); [done|]). destruct (m (world c)) as [[x w]|] eqn:E; [|done]. intros [= <-].
    destruct Hp as [Hm Hk]. destruct (acted_atom _ _ _ _ _ _ _ Hm Hb E) as [Hb' HM Hc HV].
    eapply (follows_thread i e _ _ c _ h (pend (k x))); try done.
    + intros op. cbn. by rewrite Hc.
    + by intros op ?%not_elem_of_nil.
  - destruct (closed c); [done|]. destruct (_ <? _)%nat; [|done]. intros [= <-]. destruct Hp as [-> Hk].
    eapply (follows_thread i e _ _ c _ false []); try done.
    + by apply moved_chan.
    + intros op' Hop'. cbn. apply elem_of_app. by left.
    + intros op'. cbn [pend]. rewrite elem_of_cons. intros [->|?]; [left|by right]. cbn. apply elem_of_app. right. left.
    + by intros op' ?%not_elem_of_nil.
  - destruct (holder c); [done|]. intros [= <-]. destruct Hp as [-> Hk].
    eapply (follows_thread i e _ _ c _ true []); try done;
      by intros op ?%not_elem_of_nil.
  - intros [= <-]. destruct Hp as [-> Hk].
    eapply (follows_thread i e _ _ c _ false []); try done;
      by intros op ?%not_elem_of_nil.
Qed.

Hypothesis put_ok : ∀ k v d, puttable k v → is_Some (Put bucketJobs k v d).

(** The database goroutine saves what it has in hand: the job it saves is then in
    the database as it is, and no other one is lost. *)
Lemma save_written w op l : base w → unique_ids (sched w) → l ∈ dom (objs (sched w)) →
  op = WriteJob l ∨ written (view w) (deref (sched w) l) →
  written (view (w <| store ::= fmap (save_op (sched w) op) |>)) (deref (sched w) l).
Proof.
  intros (_ & _ & _ & [d Hd]) HU Hl Hop. destruct (HU l Hl) as [Hne Hu].
  assert (HVd : ∀ i, store_GetJob i d = view w i) by (intros i; unfold view; by rewrite Hd).
  apply (written_ext (λ i, store_GetJob i (save_op (sched w) op d))).
  { intros i. unfold view. cbn. by rewrite Hd. }
  apply (written_save put_ok (view w) (sched w) op d l HVd).
  destruct op as [l'|g]; cbn [write_of]; [|right; split; [done|by destruct Hop]].
  destruct (String.eqb_spec (Job.ID (deref (sched w) l')) (Job.ID (deref (sched w) l))) as [E|E].
  - left. f_equal. destruct (decide (l' ∈ dom (objs (sched w)))) as [Hd'|Hd']; [by apply Hu|].
    destruct Hne. rewrite <- E. unfold deref, lookup_total, map_lookup_total.
    by rewrite (proj1 (not_elem_of_dom _ _) Hd').
  - right. split; [done|]. destruct Hop as [[= ->]|?]; done.
Qed.

Lemma follows_save op c : follows c → inflight c = Some op →
  follows (c <| world ::= λ w, w <| store ::= fmap (save_op (sched w) op) |> |> <| inflight := None |>).
Proof.
  intros [Hb Hs Hl] Hf. pose proof Hb as (HI & HT & HE & [d Hd]). split.
  - split; [done|]. split; [done|]. split; [done|]. cbn. rewrite Hd. by eexists.
  - done.
  - intros HU id l Hl'. destruct (proj2 HT id l Hl') as [Hld _].
    destruct (Hl HU id l Hl') as [Hop|Hop]; [|right; exact (save_written (world c) op l Hb HU Hld (or_intror Hop))].
    apply elem_of_owed in Hop as [Hop|Hop]; [|left; apply elem_of_owed; by right].
    rewrite Hf in Hop. apply list_elem_of_singleton in Hop. right.
    exact (save_written (world c) op l Hb HU Hld (or_introl (eq_sym Hop))).
Qed.

Lemma follows_fire l c c' : follows c → fire l c = Next c' → follows c'.
Proof.
  intros HF. pose proof HF as [Hb Hs Hl]. pose proof Hb as (HI & HT & HE & Hd).
  destruct l as [e|i| | |].
  - cbn [fire]. assert (∀ b : bool, (if b then Blocked else Next (c <| pool ::= λ ts, ts ++ [(e, thread e)] |>)) = Next c' →
      follows c') as HS; [|destruct e; try done; apply HS].
    intros []; [done|]. intros [= <-]. apply (follows_moved c _ []); [done|done|by apply moved_refl|done|..].
    + cbn. intros i e' p. rewrite lookup_app_Some. intros [Hi|[_ Hi]]; [by eapply Hs|].
      apply list_lookup_singleton_Some in Hi as [_ [= <- <-]]. exists false. apply walk_thread.
    + intros op [Hop|?%not_elem_of_nil]; [|done]. apply elem_of_owed. cbn.
      apply elem_of_owed in Hop as [?|[?|(i & e' & p & Hi & Hop)]]; [by left|by right; left|right; right].
      exists i, e', p. split; [by apply lookup_app_l_Some|done].
  - cbn [fire]. destruct (pool c !! i) as [[e p]|] eqn:Hi; [|done]. by eapply follows_resume.
  - cbn [fire]. destruct (inflight c) eqn:Hf; [done|]. destruct (dbWriteChan (sched (world c))) as [|op rest] eqn:Hc; [done|].
    intros [= <-]. apply (follows_moved c _ []); [done| | |done|done|].
    + split; [by apply (unwritten (Q:=heap_inv))|done].
    + exact (moved_chan _ _ (λ _, rest) _ (moved_refl _ HT)).
    + intros op' [Hop|?%not_elem_of_nil]; [|done]. apply elem_of_owed. cbn.
      apply elem_of_owed in Hop as [Hop|[Hop|Hop]]; [by rewrite Hf in Hop; apply not_elem_of_nil in Hop| |by right; right].
      rewrite Hc in Hop. apply elem_of_cons in Hop as [->|Hop]; [left; left|by right; left].
  - cbn [fire]. destruct (inflight c) as [op|] eqn:Hf; [|done]. intros [= <-]. by apply (follows_save op c).
  - cbn [fire]. destruct (_ || _); [done|]. destruct (closed c); [done|]. intros [= <-].
    by apply (follows_moved c _ []); [done|done|apply moved_refl|done|done|intros op [Hop|?%not_elem_of_nil]].
Qed.

Lemma follows_start times cfg d clk uu : follows (idle (StartMaster times cfg d clk uu)).
Proof.
  destruct (caught_up_start times cfg d clk uu) as ([HI HS] & HE & Hd & HV). split.
  - split; [done|]. split; [|by split]. split; [apply HS|]. intros id l Hl. split; [by eapply sy_dom|by eapply sy_id].
  - by intros [].
  - intros HU id l Hl. destruct (sy_last _ _ _ HS id l Hl ltac:(done)) as [Hlast|[_ Hw]]; [left|by right].
    apply elem_of_owed. right. left. unfold last_write in Hlast. apply last_Some_elem_of in Hlast.
    apply list_elem_of_omap in Hlast as ([l'|g] & Hin & Hop); [|done]. cbn in Hop, Hin.
    destruct (String.eqb _ _); [|done]. injection Hop as <-. exact Hin.
Qed.

(** C5: the database catches up with interleaved goroutines: however they have been
    interleaved since the master started, once all of them have returned and the
    database goroutine is idle (which C6 says they will), the database has every
    tracked job exactly as the scheduler has it, if no two jobs were given the same ID,
    JSON and an entry of the database can hold the job and the disk takes the writes. *)
Theorem database_catches_up times cfg d clk uu c :
  reaches (StartMaster times cfg d clk uu) c → quiet_machine c → unique_ids (sched (world c)) →
  ∃ d', store (world c) = Some d' ∧
    ∀ id j, GetJob id (sched (world c)) = Some j → saveable j → store_GetJob id d' = Some (stored j).
Proof.
  intros Hr Hq HU. assert (HF : follows c) by (revert Hr; apply reaches_ind; [apply follows_start|apply follows_fire]).
  destruct HF as [(_ & [_ HT] & _ & [d' Hd]) _ Hl]. exists d'. split; [done|].
  intros id j (l & Hl' & <-)%GetJob_Some Hj. destruct (HT id l Hl') as [_ Hid].
  destruct (Hl HU id l Hl') as [Hop|Hw].
  - destruct Hq as [Hp _ Hf Hc]. apply elem_of_owed in Hop as [Hop|[Hop|(i & e & p & Hi & Hop)]].
    + rewrite Hf in Hop. by apply not_elem_of_nil in Hop.
    + rewrite Hc in Hop. by apply not_elem_of_nil in Hop.
    + specialize (Hp e p (list_elem_of_lookup_2 _ _ _ Hi)). destruct p; [by apply not_elem_of_nil in Hop|done..].
  - specialize (Hw Hj). unfold view in Hw. by rewrite Hd, Hid in Hw.
Qed.
End Master.

(** ** On the concrete master *)

Section Witnesses.
#[local] Existing Instances toy_cel bolt_map bolt_map_laws amd64 utc map_order_canonical.

Lemma unique_ids_checked gs :
  map_Forall (λ l j, Job.ID j ≠ "" ∧ map_Forall (λ l' j', Job.ID j' = Job.ID j → l' = l) (objs gs)) (objs gs) →
  unique_ids gs.
Proof.
  assert (HD : ∀ l j, objs gs !! l = Some j → deref gs l = j) by (intros l j Hl; by apply lookup_total_correct).
  intros HF l [j Hl]%elem_of_dom. destruct (HF l j Hl) as [Hne HF']. rewrite (HD l j Hl). split; [done|].
  intros l' [j' Hl']%elem_of_dom. rewrite (HD l' j' Hl'). by apply HF'.
Qed.

(** The turn of the dispatch loop ends and the database goroutine empties the
    channel. *)
Definition settling : list label :=
  demo_schedule ++ replicate 16 (Go 3) ++ [Save; Take; Save; Take; Save].
Definition settled : machine := following settling (idle demo_master).

Lemma settled_reached : reaches demo_master settled.
Proof. apply reaches_following. vm_compute. reflexivity. Qed.

Lemma settled_quiet : quiet_machine settled.
Proof.
  assert (forallb (λ '(_, p), returned p) (pool settled) = true) as Hp by (vm_compute; reflexivity).
  split; [|vm_compute; reflexivity..]. intros e p Hin.
  rewrite forallb_forall in Hp. exact (Hp (e, p) (proj1 (list_elem_of_In _ _) Hin)).
Qed.

Lemma settled_unique : unique_ids (sched (world settled)).
Proof. apply unique_ids_checked. eapply bool_decide_eq_true. vm_compute. reflexivity. Qed.

(** The first job is running on the first member. *)
Definition settled_job : Job :=
  pending_job <| Job.State := StateRunning |> <| Job.WorkerNode := "n1" |>
    <| Job.StartTime := demo_clock 6 |> <| Job.index := (-1)%Z |>.

Lemma settled_tracked : GetJob "00000000" (sched (world settled)) = Some settled_job.
Proof. vm_compute. reflexivity. Qed.

Lemma settled_saveable : saveable settled_job.
Proof. solve_saveable. Qed.

Lemma database_catches_up_witness : ∃ d' : DB, store (world settled) = Some d' ∧
  store_GetJob "00000000" d' = Some (stored settled_job).
Proof.
  destruct (database_catches_up bolt_map_put demo_clock DefaultConfig ∅ demo_clock demo_uuids settled
    settled_reached settled_quiet settled_unique) as (d' & Hd & Hall).
  exists d'. split; [exact Hd|]. exact (Hall _ _ settled_tracked settled_saveable).
Defined.
End Witnesses.
