(* ===== verification/Races.v ===== *)
(** * Races between the goroutines

    What goes wrong when another goroutine comes in between two calls of a loop,
    or writes the map of the usage while it is being saved: executions of the
    interleaved machine from any state in which the loop stands between the two. *)

From S2P Require Import Prelude GoStd GoJson GoJsonFacts GoTime GoHeap Queue QueueFacts SchedulerSpec.
From S2P Require Import QueueProps JobTable Messaging Fairshare CircuitBreaker Tracker Matchmaker.
From S2P Require Import Store Config GoRegexp World Server Dispatch Master Hoare Panics Restart Persist.
From S2P Require Import Demo Gang Discovery Worker WorkerProps Cluster Threads Goroutines Alone Interleave Quiesce.
Import GlobalScheduler (objs, gobjs, queue, jobs, groups, MaxQueueSize, OnJobChange,
  OnGroupChange, dbWriteChan).
#[local] Open Scope string_scope.
#[local] Open Scope list_scope.
#[local] Open Scope Z_scope.

Section Races.
Context {C : CEL} {B : Bolt} `{GoArch} `{Zone} `{MapOrder}.

Abbreviation chan_len w := (length (dbWriteChan (sched w))).

(** ** Another event in between *)

(** The thread [i] stands at [p]; nobody holds the mutex and the channel is open. *)
Record stands (c : machine) (i : nat) (e : event) (p : prog ()) : Prop := {
  st_thread : pool c !! i = Some (e, p;; mret Nothing);
  st_sound : shape (atom true) false false p;
  st_holder : holder c = None;
  st_open : closed c = false
}.

Lemma no_range_calm c i : ranging c = false → calm i c.
Proof.
  intros Hr j e p _ Hj. apply not_true_iff_false. intros Hp. apply not_true_iff_false in Hr. apply Hr.
  apply existsb_exists. exists (e, p). split; [|done]. by apply list_elem_of_In, list_elem_of_lookup_2 with j.
Qed.

(** [e'] is handled from beginning to end, then the thread goes on; nobody
    ranges over [UserUsage], or neither of them writes it. *)
Lemma comes_between c i e p e' a w1 w2 : stands c i e p → e' ≠ EWriter → busy e' c = false →
  ranging c = false ∨ (unwriting (thread e') ∧ unwriting p) →
  answered e' (world c) = Some (a, w1) → (chan_len w1 ≤ db_chan_cap)%nat →
  run p w1 = Some (tt, w2) → (chan_len w2 ≤ db_chan_cap)%nat →
  ∃ ls c', fires ls c = Next c' ∧ world c' = w2 ∧ (e', Ret a) ∈ pool c' ∧ (e, Ret Nothing) ∈ pool c'.
Proof.
  intros [Hi Hp Ho Hcl] He Hb Hr E1 H1' E2 H2'.
  destruct (spawn_runs e' c a w1 He Hb) as (n & c1 & F1 & [Hw1 Ho1 _ Hcl1 Hp1]); [by destruct Hr as [|[]]; [left|right]|done..|].
  rewrite spawned_pool in Hp1.
  assert (Hi1 : pool c1 !! i = Some (e, p;; mret Nothing)) by (rewrite Hp1; by apply lookup_app_l_Some).
  destruct (run_fires (p;; mret Nothing) false c1 i e Nothing w2) as (n2 & c2 & F2 & [Hw2 _ _ _ Hp2]); try done.
  - destruct Hr as [Hr|[_ Hu]]; [left|right; by apply unwriting_bind].
    apply no_range_calm. unfold ranging. rewrite Hp1, existsb_app. unfold ranging in Hr. by rewrite Hr.
  - eapply sound_bind; [exact Hp|done].
  - by rewrite run_bind, Hw1, (M_bind_Some _ _ _ _ _ E2).
  - eexists (_ ++ _), c2. rewrite fires_app, F1. split; [exact F2|]. split; [done|]. rewrite Hp2, Hp1.
    apply lookup_lt_Some in Hi as Hl. split.
    + rewrite insert_app_l by done. apply elem_of_app. right. left.
    + apply list_elem_of_lookup_2 with i. apply list_lookup_insert_eq. rewrite length_app. lia.
Qed.

Lemma unwriting_reads {A} (f : GlobalScheduler → A) : unwriting (reads f).
Proof. apply unwriting_call. Qed.
Lemma unwriting_appendLog id lvl msg : unwriting (appendLog_p id lvl msg).
Proof. unfold appendLog_p. solve_unwriting. Qed.
Lemma unwriting_submit req : unwriting (thread (ESubmit req)).
Proof. cbn [thread]. unfold SubmitJob_p. pose proof unwriting_appendLog. solve_unwriting; apply unwriting_appendLog. Qed.
Lemma unwriting_cancel id : unwriting (thread (ECancel id)).
Proof.
  cbn [thread]. unfold CancelJob_p, Cancel_p, release_and_kill_p. solve_unwriting; apply unwriting_appendLog.
Qed.
Lemma unwriting_dispatchJob job n : unwriting (dispatchJob_p job n).
Proof. unfold dispatchJob_p. solve_unwriting; apply unwriting_appendLog. Qed.
Lemma unwriting_dispatch_first n : unwriting (dispatch_first_p n).
Proof. unfold dispatch_first_p. solve_unwriting; apply unwriting_dispatchJob. Qed.

(** A method sends at most one write. *)
Lemma chan_MarkRunning now id n gs : (length (dbWriteChan (MarkRunning now id n gs)) ≤ S (length (dbWriteChan gs)))%nat.
Proof.
  unfold MarkRunning. destruct (jobs gs !! id); [|lia]. unfold notifyJobChange. case_match; [|simpl; lia].
  cbn. rewrite length_app. simpl. lia.
Qed.

(** dispatchJob makes the job run, whatever its state was. *)
Lemma dispatched_running job n w w' : dispatched job n w w' → heap_inv (sched w) →
  GetJob (Job.ID job) (sched w) ≠ None →
  running_on (sched w') (Job.ID job) n ∧ (chan_len w' ≤ S (chan_len w))%nat.
Proof.
  intros [[now Hs] _ _ _ _ _ _] HI Hj. rewrite Hs. split; [by apply MarkRunning_runs|apply chan_MarkRunning].
Qed.

(** ** Between the match and Dequeue *)

Lemma Dequeue_head gs j : heap_inv gs → Peek gs = Some j → ∃ j' gs', Dequeue gs = (Some j', gs') ∧
  erase j' = erase j ∧ heap_frame gs gs' ∧ heap_inv gs'.
Proof.
  intros HI. pose proof (heap_inv_step ODequeue gs HI) as HI'. cbn [exec_op] in HI'. revert HI'.
  unfold Peek, Dequeue. change (Len gs) with (length (queue gs)).
  destruct (queue gs) as [|l q] eqn:E; [done|]. cbn [length Nat.eqb].
  destruct (heap_pop_spec gs l q (proj1 HI) E) as (gs' & -> & HR & _). pose proof (frame_removed _ _ _ _ HR) as HF.
  rewrite !Copy_id. intros HI' [= <-]. exists (deref gs' l), gs'. split_and!; try done. apply (hf_obj _ _ HF).
Qed.

(** The rest of phase 1, on a master whose queue has [j] first. *)
Lemma dispatch_first_runs n j w : heap_inv (sched w) → Peek (sched w) = Some j →
  GetJob (Job.ID j) (sched w) ≠ None →
  ∃ w', run (dispatch_first_p n) w = Some (tt, w') ∧ running_on (sched w') (Job.ID j) n ∧
    (chan_len w' ≤ S (chan_len w))%nat ∧
    tracker w' = Allocate n (Job.GPUsRequired j) (Job.CPUsRequired j) (Job.MemoryRequiredMB j) (tracker w).
Proof.
  intros HI Hp Hg. destruct (Dequeue_head _ _ HI Hp) as (j' & gs' & Hd & HE & HF & HI').
  rewrite alone_dispatch_first. unfold mbind, M_bind, on_queue. rewrite Hd.
  destruct (dispatchJob_runs j' n (w <| sched := gs' |>)) as (w' & E & Hdp). exists w'. split; [done|].
  assert (Hid : Job.ID j' = Job.ID j) by exact (f_equal Job.ID HE).
  destruct (dispatched_running _ _ _ _ Hdp HI') as [Hr Hc].
  { rewrite Hid. by eapply GetJob_frame_some; [apply job_frame_heap|]. }
  rewrite Hid in Hr. split; [done|]. split.
  - by rewrite <- (hf_chan _ _ HF).
  - rewrite (dp_tracker _ _ _ _ Hdp). pose proof (f_equal Job.GPUsRequired HE) as E1.
    pose proof (f_equal Job.CPUsRequired HE) as E2. pose proof (f_equal Job.MemoryRequiredMB HE) as E3.
    cbn in E1, E2, E3. by rewrite E1, E2, E3.
Qed.

(** C23: the match is for one job and Dequeue takes another: while dispatchLoop stands
    between choosing the node [n] for the first job and Dequeue, a submission
    that is accepted and comes first in the queue is what Dequeue hands out; it is
    marked RUNNING on [n] and its resources are allocated there, although nothing
    has compared its requirement or its resources with [n]. *)
Theorem late_job_takes_the_match c i n req resp w1 j : stands c i EDispatch (dispatch_first_p n) →
  SubmitJob req (world c) = Some (inl resp, w1) → heap_inv (sched w1) →
  Peek (sched w1) = Some j → Job.ID j = sjr_JobId resp → GetJob (sjr_JobId resp) (sched w1) ≠ None →
  (chan_len w1 < db_chan_cap)%nat →
  ∃ ls c', fires ls c = Next c' ∧ (ESubmit req, Ret (Submitted (inl resp))) ∈ pool c' ∧
    running_on (sched (world c')) (sjr_JobId resp) n ∧
    tracker (world c') = Allocate n (Job.GPUsRequired j) (Job.CPUsRequired j) (Job.MemoryRequiredMB j) (tracker w1).
Proof.
  intros Hst HS HI Hp Hid Hg Hc.
  destruct (dispatch_first_runs n j w1 HI Hp) as (w2 & E & Hr & Hc2 & Ht); [by rewrite Hid|].
  destruct (comes_between c i EDispatch (dispatch_first_p n) (ESubmit req) (Submitted (inl resp)) w1 w2 Hst)
    as (ls & c' & F & Hw & Hin & _); [discriminate| | | |lia|exact E|lia|].
  - by apply handler_not_busy.
  - right. split; [apply unwriting_submit|apply unwriting_dispatch_first].
  - cbn [answered]. by rewrite (M_bind_Some _ _ _ _ _ HS).
  - exists ls, c'. rewrite Hw, <- Hid. split_and!; assumption.
Qed.

(** ** Between Dequeue and MarkRunning *)

Lemma Cancel_queued now id gs j : heap_inv gs → GetJob id gs = Some j → Job.State j = StateQueued →
  ∃ j' gs', Cancel now id gs = ((Some j', true), gs') ∧ heap_inv gs' ∧
    Job.State <$> GetJob id gs' = Some StateCancelled ∧
    (length (dbWriteChan gs') ≤ S (length (dbWriteChan gs)))%nat.
Proof.
  intros HI (l & Hl & <-)%GetJob_Some Hs. pose proof (heap_inv_step (OCancel now id) gs HI) as HI'.
  cbn [exec_op] in HI'. revert HI'. unfold Cancel. rewrite Hl, Hs.
  change (String.eqb StateQueued StateQueued) with true. cbv zeta. cbn [fst snd]. intros HI'.
  pose proof (job_frame_remove_at l gs (proj1 HI)) as HF.
  eexists _, _. split; [reflexivity|]. split; [exact HI'|]. rewrite GetJob_notify. split.
  - unfold GetJob. change (jobs (update l ?f ?g)) with (jobs g). rewrite (jf_jobs _ _ HF), Hl, Copy_id.
    cbn [fmap option_fmap option_map]. rewrite deref_update_eq; [done|]. rewrite (jf_dom _ _ HF). by apply HI in Hl.
  - unfold notifyJobChange. case_match; cbn; rewrite ?length_app, (chan_remove_at l gs); simpl; lia.
Qed.

Lemma CancelJob_queued id w j : heap_inv (sched w) → GetJob id (sched w) = Some j → Job.State j = StateQueued →
  ∃ w', CancelJob id w = Some ({| cj_JobId := id; cj_Status := "CANCELLED"; cj_Message := "Cancelled" |}, w') ∧
    heap_inv (sched w') ∧ Job.State <$> GetJob id (sched w') = Some StateCancelled ∧ (chan_len w' ≤ S (chan_len w))%nat.
Proof.
  intros HI Hj Hs. destruct (Cancel_queued (clock w (ticks w)) id (sched w) j HI Hj Hs) as (j' & gs' & E & HI' & Hg & Hc).
  pose proof (queue_Cancel_eq id w) as EQ. rewrite E in EQ. unfold CancelJob. rewrite (M_bind_Some _ _ _ _ _ EQ).
  unfold release_and_kill. destruct (String.eqb (Job.WorkerNode j') "");
    (eexists; split; [cbn [negb when]; repeat run_step; reflexivity|by split_and!]).
Qed.

(** A job is out of the queue before it is RUNNING, and Cancel does not notice:
    while dispatchLoop stands before dispatchJob with a job it has dequeued, a
    client's Cancel of that job is answered CANCELLED, and the job is marked
    RUNNING and its start is sent all the same. *)
Theorem cancel_in_transit_is_undone c i job n j : stands c i EDispatch (dispatchJob_p job n) →
  heap_inv (sched (world c)) → GetJob (Job.ID job) (sched (world c)) = Some j → Job.State j = StateQueued →
  (S (chan_len (world c)) < db_chan_cap)%nat →
  ∃ ls c' resp, fires ls c = Next c' ∧ (ECancel (Job.ID job), Ret (Cancelled resp)) ∈ pool c' ∧
    cj_Status resp = "CANCELLED" ∧ running_on (sched (world c')) (Job.ID job) n ∧
    last (ZMQPublisher.sent (pub (world c'))) = Some (MarshalPayload (start_payload (disc (world c')) job n)).
Proof.
  intros Hst HI Hj Hs Hc. destruct (CancelJob_queued (Job.ID job) (world c) j HI Hj Hs) as (w1 & E1 & HI1 & Hst1 & Hc1).
  assert (Hg1 : GetJob (Job.ID job) (sched w1) ≠ None) by (by intros E; rewrite E in Hst1).
  destruct (dispatchJob_runs job n w1) as (w2 & E2 & Hdp).
  destruct (dispatched_running _ _ _ _ Hdp HI1 Hg1) as [Hr Hc2].
  destruct (comes_between c i EDispatch (dispatchJob_p job n) (ECancel (Job.ID job)) (Cancelled
    {| cj_JobId := Job.ID job; cj_Status := "CANCELLED"; cj_Message := "Cancelled" |}) w1 w2 Hst)
    as (ls & c' & F & Hw & Hin & _); [discriminate| | | |lia| |lia|].
  - by apply handler_not_busy.
  - right. split; [apply unwriting_cancel|apply unwriting_dispatchJob].
  - cbn [answered]. by rewrite (M_bind_Some _ _ _ _ _ E1).
  - rewrite alone_dispatchJob. exact E2.
  - eexists ls, c', _. split; [exact F|]. split; [exact Hin|]. split; [reflexivity|]. rewrite Hw. split; [exact Hr|].
    rewrite (dp_pub _ _ _ _ Hdp), (dp_disc _ _ _ _ Hdp). apply last_snoc.
Qed.

(** ** Between the list of running jobs and Cancel *)

(** The clock [k] has been read at least [t] times. *)
Definition later (k : nat → Time) (t : nat) (w : World) : Prop := clock w = k ∧ (t ≤ ticks w)%nat.

Lemma later_ReportResult req k t : keeps (later k t) (ReportResult req).
Proof.
  assert (HM : ∀ f : World → World, (∀ w, clock (f w) = clock w ∧ ticks (f w) = ticks w) → keeps (later k t) (modify f)).
  { intros f Hf. apply keeps_modify. intros w [? ?]. destruct (Hf w) as [E1 E2]. split; [by rewrite E1|by rewrite E2]. }
  assert (HQ : ∀ X (f : GlobalScheduler → X * GlobalScheduler), keeps (later k t) (on_queue f)).
  { intros X f w x w' Hw. unfold on_queue. destruct (f (sched w)). by intros [= _ <-]. }
  assert (HT : ∀ w, later k t w → later k t (w <| ticks ::= S |>)) by (intros w [? ?]; split; [done|cbn; lia]).
  assert (HN : keeps (later k t) time_Now) by (intros w x w' Hw [= _ <-]; by apply HT).
  assert (HL : ∀ id lvl msg, keeps (later k t) (appendLog id lvl msg)).
  { intros id lvl msg w x w' Hw [= _ <-]. exact (HT w Hw). }
  assert (HD : ∀ id job, keeps (later k t) (dead_letter id job)).
  { intros id job w x w' Hw. unfold dead_letter. destruct (store w); [|by intros [= _ <-]]. by apply HL. }
  unfold ReportResult, queue_MarkCompleted, queue_GetJob, record_outcome, schedule_retry, handleGroupCompletion,
    queue_Cancel, release_and_kill, Release_job, on_tracker, on_queue_, observe, pub_Send.
  solve_keeps; by apply HM.
Qed.

Lemma chan_MarkCompleted now id b o e gs :
  (length (dbWriteChan (MarkCompleted now id b o e gs)) ≤ S (length (dbWriteChan gs)))%nat.
Proof.
  unfold MarkCompleted. destruct (jobs gs !! id); [|lia]. destruct (String.eqb _ _); [lia|].
  unfold notifyJobChange. case_match; [|simpl; lia]. cbn. rewrite length_app. simpl. lia.
Qed.

(** What the enforcer does to a job that has completed meanwhile. *)
Lemma kill_overdue_runs job j w : GetJob (Job.ID job) (sched w) = Some j →
  Job.State j ≠ StateQueued → Job.State j ≠ StateRunning →
  0 < Job.WalltimeSeconds job →
  After (clock w (ticks w)) (Add (Job.StartTime job) (Job.WalltimeSeconds job *ᵢ Second)) = true →
  ∃ w', run (kill_overdue_p job) w = Some (tt, w') ∧ sched w' = sched w ∧ tracker w' = given_back job (tracker w).
Proof.
  intros Hj Hq Hr Hw Ha. rewrite alone_kill_overdue. destruct (Z.leb_spec (Job.WalltimeSeconds job) 0); [lia|].
  assert (HC : ∀ now, Cancel now (Job.ID job) (sched w) = ((Some j, false), sched w)).
  { intros now. apply GetJob_Some in Hj as (l & Hl & <-). unfold Cancel. rewrite Hl. cbv zeta.
    by rewrite (proj2 (String.eqb_neq _ _) Hq), (proj2 (String.eqb_neq _ _) Hr), Copy_id. }
  rewrite (bind_runs _ _ _ _ _ (time_Now_eq w)), Ha. unfold when at 1.
  set (w1 := w <| metrics ::= λ l, l ++ [walltimeKillsTotal] |> <| ticks ::= S |>).
  rewrite (bind_runs (observe walltimeKillsTotal) _ _ tt w1) by reflexivity.
  rewrite (bind_runs (queue_Cancel (Job.ID job)) _ w1 (Some j, false) (w1 <| ticks ::= S |>)).
  2:{ rewrite queue_Cancel_eq. change (sched w1) with (sched w). by rewrite HC. }
  set (w2 := w1 <| ticks ::= S |>).
  assert (∃ w3, when (negb (String.eqb (Job.WorkerNode job) "")) (Release_job job (Job.WorkerNode job)) w2 =
    Some (tt, w3) ∧ sched w3 = sched w ∧ tracker w3 = given_back job (tracker w)) as (w3 & E3 & Hs3 & Ht3).
  { unfold given_back. destruct (String.eqb (Job.WorkerNode job) ""); eexists; (split; [reflexivity|done]). }
  rewrite (bind_runs _ _ _ _ _ E3), (bind_runs _ _ _ tt _ eq_refl), appendLog_eq. by eexists.
Qed.

(** The walltime enforcer lists the running jobs and then acts on its copies
    without looking at what Cancel says: while it stands before an overdue job, a
    report that completes the job gives its resources back, and the enforcer gives
    them back again, so the node is taken to be freer than it is. *)
Theorem overdue_job_is_released_twice c i req job :
  stands c i EWalltime (kill_overdue_p job) → heap_inv (sched (world c)) →
  GetJob (Job.ID job) (sched (world c)) = Some job → Job.State job = StateRunning → Job.GroupID job = "" →
  0 < Job.WalltimeSeconds job →
  (∀ k, (ticks (world c) ≤ k)%nat → After (clock (world c) k) (Add (Job.StartTime job) (Job.WalltimeSeconds job *ᵢ Second)) = true) →
  rr_JobId req = Job.ID job → (chan_len (world c) < db_chan_cap)%nat → ranging c = false →
  ∃ ls c', fires ls c = Next c' ∧ (EReport req, Ret Nothing) ∈ pool c' ∧
    tracker (world c') = given_back job (given_back job (tracker (world c))).
Proof.
  intros Hst HI Hj Hs Hg Hw Ha Hid Hc Hrg. set (w := world c) in *.
  set (j := finished (clock w (ticks w)) (rr_Success req) (rr_Output req) (rr_Error req) job).
  assert (Hj1 : GetJob (rr_JobId req) (MarkCompleted (clock w (ticks w)) (rr_JobId req) (rr_Success req)
    (rr_Output req) (rr_Error req) (sched w)) = Some j).
  { rewrite Hid. apply GetJob_MarkCompleted; [done|done|]. by rewrite Hs. }
  destruct (ReportResult_runs req w j Hj1 Hg) as (w1 & E1 & HR).
  destruct (later_ReportResult req (clock w) (ticks w) w tt w1 (conj eq_refl (le_n _)) E1) as [Hcl Ht].
  assert (Hc1 : (chan_len w1 ≤ db_chan_cap)%nat).
  { rewrite (rp_sched _ _ _ _ HR). pose proof (chan_MarkCompleted (clock w (ticks w)) (rr_JobId req) (rr_Success req)
      (rr_Output req) (rr_Error req) (sched w)). lia. }
  rewrite <- (rp_sched _ _ _ _ HR), Hid in Hj1.
  destruct (kill_overdue_runs job j w1 Hj1) as (w2 & E2 & Hs2 & Ht2); [by destruct (rr_Success req)..|done|rewrite Hcl; by apply Ha|].
  destruct (comes_between c i EWalltime (kill_overdue_p job) (EReport req) Nothing w1 w2 Hst)
    as (ls & c' & F & Hw' & Hin & _); [discriminate| |by left| |exact Hc1|exact E2|by rewrite Hs2|].
  - by apply handler_not_busy.
  - cbn [answered handle]. by rewrite (M_bind_Some _ _ _ _ _ E1).
  - exists ls, c'. split; [exact F|]. split; [exact Hin|]. rewrite Hw', Ht2, (rp_tracker _ _ _ _ HR). reflexivity.
Qed.

(** ** Saving the usage *)

(** The thread [i] comes to an action that ends the process. *)
Definition dies (i : nat) (c : machine) : Prop := ∃ n, fires (replicate n (Go i)) c = Crash.

Lemma dies_after {A} (k : A → prog answer) p q c i e a w' :
  pool c !! i = Some (e, q) → continues k p q → unwriting p → shape (atom true) false false p → holder c = None →
  closed c = false → run p (world c) = Some (a, w') → (chan_len w' ≤ db_chan_cap)%nat →
  (∀ c', ran i e (k a) w' c c' → dies i c') → dies i c.
Proof.
  intros Hi HC Hu Hs Ho Hcl E Hl Hd.
  destruct (run_to k p q false c i e a w' HC Hi (or_intror Hu) Hs Ho Hcl E Hl) as (n & c' & F & HR).
  destruct (Hd c' HR) as [m Hm]. exists (n + m)%nat. by rewrite replicate_add, fires_app, F.
Qed.

(** A thread about to write the map while another one ranges over it. *)
Lemma dies_writing {X} i e (m : M World X) k c d ed p : pool c !! i = Some (e, Act WritesUsage m k) →
  pool c !! d = Some (ed, p) → in_range p = true → dies i c.
Proof.
  intros Hi Hd Hp. exists 1%nat. cbn [replicate fires fire]. rewrite Hi. cbn [resume].
  assert (ranging c = true) as ->; [|done]. apply existsb_exists. exists (ed, p). split; [|done].
  by apply list_elem_of_In, list_elem_of_lookup_2 with d.
Qed.

(** DecayUsage is done and SaveFairshare has begun to encode the map. *)
Definition saving : prog answer := range_usage save_fairshare;; mret Nothing.
Definition encoding : prog answer := Act RangesUsage save_fairshare (λ _, Ret Nothing).

Lemma unwriting_record_outcome req : unwriting (record_outcome_p req).
Proof. unfold record_outcome_p. solve_unwriting. Qed.

(** A report of a job that has run for some time comes to its write. *)
Lemma report_dies req c i d j : pool c !! i = Some (EReport req, thread (EReport req)) →
  i ≠ d → pool c !! d = Some (EDecay, encoding) → holder c = None → closed c = false →
  heap_inv (sched (world c)) → (chan_len (world c) < db_chan_cap)%nat →
  GetJob (rr_JobId req) (sched (world c)) = Some j → Job.State j = StateRunning →
  float64.ltb float64.zero (Seconds (Sub (clock (world c) (ticks (world c))) (Job.StartTime j))) = true →
  dies i c.
Proof.
  intros Hi Hne Hd Ho Hcl HI Hc Hj Hs Hdur. set (w := world c) in *.
  set (now := clock w (ticks w)) in *.
  set (w1 := w <| ticks ::= S |> <| sched := MarkCompleted now (rr_JobId req) (rr_Success req)
    (rr_Output req) (rr_Error req) (sched w) |>).
  assert (Hc1 : (chan_len w1 ≤ db_chan_cap)%nat).
  { pose proof (chan_MarkCompleted now (rr_JobId req) (rr_Success req) (rr_Output req) (rr_Error req) (sched w)).
    change (sched w1) with (MarkCompleted now (rr_JobId req) (rr_Success req) (rr_Output req) (rr_Error req) (sched w)).
    lia. }
  pose proof (GetJob_MarkCompleted now (rr_JobId req) (rr_Success req) (rr_Output req) (rr_Error req) (sched w) j HI Hj
    ltac:(by rewrite Hs)) as Hj1.
  set (j1 := finished _ _ _ _ j) in Hj1.
  eapply (dies_after _ _ _ c i _ tt w1); [exact Hi|apply continues_then, continues_bind|apply unwriting_call|
    apply sound_call; auto with plain|done..| |exact Hc1|].
  { rewrite alone_call by (auto with appends). done. }
  intros c1 [Hw1 Ho1 _ Hcl1 Hp1].
  assert (Hi1 : ∀ q, <[i := (EReport req, q)]> (pool c) !! i = Some (EReport req, q)).
  { intros q. apply list_lookup_insert_eq. by eapply lookup_lt_Some. }
  eapply (dies_after _ _ _ c1 i _ (Some j1) w1); [by rewrite Hp1|apply continues_then, continues_bind|
    apply unwriting_call|apply walk_GetJob|done..| |exact Hc1|].
  { rewrite alone_GetJob, Hw1. by rewrite <- Hj1. }
  intros c2 [Hw2 Ho2 _ Hcl2 Hp2]. rewrite Hp1, list_insert_insert_eq in Hp2. cbv beta iota in Hp2.
  set (w3 := w1 <| tracker ::= given_back j1 |>).
  eapply (dies_after _ _ _ c2 i _ tt w3); [by rewrite Hp2|apply continues_then, continues_bind|
    apply unwriting_when, unwriting_act|solve_sound|done..| |exact Hc1|].
  { rewrite (alone_when _ _ _ (alone_act _)), Hw2. subst w3. unfold given_back.
    by destruct (String.eqb (Job.WorkerNode j1) ""). }
  intros c3 [Hw3 Ho3 _ Hcl3 Hp3]. rewrite Hp2, list_insert_insert_eq in Hp3.
  destruct (quiet_record_outcome req w3) as ([] & w4 & E4 & F4).
  assert (Hc4 : (chan_len w4 ≤ db_chan_cap)%nat).
  { unfold footprint in F4. injection F4 as -> _ _ _ _ _ _. exact Hc1. }
  eapply (dies_after _ _ _ c3 i _ tt w4); [by rewrite Hp3|apply continues_then, continues_bind|
    apply unwriting_record_outcome|apply walk_record_outcome|done..| |exact Hc4|].
  { by rewrite alone_record_outcome, Hw3. }
  intros c4 [_ _ _ _ Hp4]. rewrite Hp3, list_insert_insert_eq in Hp4. cbv beta zeta in Hp4.
  change (Job.EndTime j1) with now in Hp4. change (Job.StartTime j1) with (Job.StartTime j) in Hp4.
  rewrite Hdur in Hp4. eapply (dies_writing i _ _ _ c4 d); [rewrite Hp4; apply Hi1|rewrite Hp4, list_lookup_insert_ne by done; exact Hd|].
  reflexivity.
Qed.

(** The first actions of the decay loop. *)
Lemma decay_begins c : busy EDecay c = false → closed c = false → ranging c = false →
  ∃ c3, fires [Spawn EDecay; Go (length (pool c)); Go (length (pool c))] c = Next c3 ∧
    sched (world c3) = sched (world c) ∧ clock (world c3) = clock (world c) ∧ ticks (world c3) = ticks (world c) ∧
    holder c3 = holder c ∧ closed c3 = false ∧ pool c3 = pool c ++ [(EDecay, encoding)].
Proof.
  intros Hb Hcl Hr. assert (HL : ∀ q, (pool c ++ [(EDecay, q)]) !! length (pool c) = Some (EDecay, q)).
  { intros q. by apply list_lookup_middle. }
  cbn [fires fire rpc andb]. rewrite Hb. cbn [orb]. set (c1 := c <| pool ::= _ |>).
  assert (Hr1 : ranging c1 = false).
  { unfold ranging. change (pool c1) with (pool c ++ [(EDecay, thread EDecay)]).
    rewrite existsb_app. unfold ranging in Hr. by rewrite Hr. }
  change (pool c1 !! _) with ((pool c ++ [(EDecay, thread EDecay)]) !! length (pool c)). rewrite HL.
  change (thread EDecay) with (Act WritesUsage (modify (λ w, w <| fairshare ::= DecayUsage decay_factor |>))
    (λ _, saving)).
  cbn [resume]. rewrite Hr1, andb_false_r. change (bool_decide (WritesUsage = Mutex)) with false.
  cbn [andb]. unfold modify at 1. set (c2 := set_thread _ _ _).
  assert (Hp2 : pool c2 = pool c ++ [(EDecay, saving)]).
  { subst c2. erewrite pool_set_thread by exact (HL (thread EDecay)). cbn.
    by rewrite insert_app_r_alt, Nat.sub_diag by lia. }
  assert (Hl2 : pool c2 !! length (pool c) = Some (EDecay, saving)) by (rewrite Hp2; apply HL).
  rewrite Hl2. change saving with (Act Free (@mret (M World) _ () tt) (λ _, encoding)). cbn [resume].
  change (bool_decide (Free = Mutex)) with false. change (bool_decide (Free = WritesUsage)) with false.
  cbn [andb]. unfold mret at 1, M_ret at 1. eexists. split; [reflexivity|].
  do 5 (split; [done|]).
  erewrite pool_set_thread by exact Hl2.
  transitivity (<[length (pool c) := (EDecay, encoding)]> (pool c2)); [done|]. rewrite Hp2.
  by rewrite insert_app_r_alt, Nat.sub_diag by lia.
Qed.

(** C10: SaveFairshare is handed the live map of the usage, which json.Marshal ranges
    over without the calculator's mutex, and the Go runtime ends a process that
    writes a map while it is ranged over.  So whenever the decay loop is between
    two turns and no other goroutine ranges over the map, the scheduler's mutex is
    free, the channel is open and has room, the scheduler's heap invariant holds and
    a job has been RUNNING for a positive number of seconds, the next turn of
    the loop and a report of that job can be interleaved so that the master dies:
    the loop decays the usage and starts to save it, and the report, success or
    failure, comes to RecordUsage before the map is encoded. *)
Theorem usage_written_while_saved_crashes c req j : heap_inv (sched (world c)) →
  busy EDecay c = false → ranging c = false → holder c = None → closed c = false →
  (chan_len (world c) < db_chan_cap)%nat →
  GetJob (rr_JobId req) (sched (world c)) = Some j → Job.State j = StateRunning →
  float64.ltb float64.zero (Seconds (Sub (clock (world c) (ticks (world c))) (Job.StartTime j))) = true →
  ∃ n, fires ([Spawn EDecay; Go (length (pool c)); Go (length (pool c)); Spawn (EReport req)] ++
    replicate n (Go (S (length (pool c))))) c = Crash.
Proof.
  intros HI Hb Hr Ho Hcl Hc Hj Hs Hdur.
  destruct (decay_begins c Hb Hcl Hr) as (c3 & F & Hsc & Hck & Ht & Ho3 & Hcl3 & Hp3).
  set (c4 := c3 <| pool ::= λ ts, ts ++ [(EReport req, thread (EReport req))] |>).
  assert (Hp4 : pool c4 = (pool c ++ [(EDecay, encoding)]) ++ [(EReport req, thread (EReport req))])
    by (cbn; by rewrite Hp3).
  assert (dies (S (length (pool c))) c4) as [n Hn].
  { apply (report_dies req c4 _ (length (pool c)) j); try done.
    - rewrite Hp4. apply list_lookup_middle. rewrite length_app. simpl. lia.
    - rewrite Hp4, <- app_assoc. by apply list_lookup_middle.
    - change (holder c4) with (holder c3). congruence.
    - change (heap_inv (sched (world c3))). by rewrite Hsc.
    - change (chan_len (world c4)) with (chan_len (world c3)). by rewrite Hsc.
    - change (world c4) with (world c3). by rewrite Hsc.
    - change (world c4) with (world c3). by rewrite Hck, Ht. }
  exists n. change ([Spawn EDecay; ?x; ?y; ?z] ++ ?l) with ([Spawn EDecay; x; y] ++ z :: l).
  rewrite fires_app, F. cbn [fires fire]. rewrite (handler_not_busy (EReport req)) by done.
  rewrite Hcl3. exact Hn.
Qed.

(** ** Stopping while a goroutine runs *)

Lemma fires_go i e p c c1 ls : pool c !! i = Some (e, p) → resume i p c = Next c1 →
  fires (Go i :: ls) c = fires ls c1.
Proof. intros Hi Hr. cbn [fires fire]. by rewrite Hi, Hr. Qed.

(** The context is cancelled and cleanDB closes the channel. *)
Lemma stopped c : serving c = false → closed c = false →
  ∃ c', fires [Spawn EShutdown; Go (length (pool c)); Close] c = Next c' ∧ closed c' = true ∧
    sched (world c') = sched (world c) ∧ clock (world c') = clock (world c) ∧ holder c' = holder c ∧
    pool c' = pool c ++ [(EShutdown, Ret Nothing)].
Proof.
  intros Hs Hc. cbn [fires fire].
  assert (busy EShutdown c = false) as -> by (by apply handler_not_busy).
  cbn [rpc andb orb]. set (c1 := c <| pool ::= _ |>).
  assert (Hl : pool c1 !! length (pool c) = Some (EShutdown, thread EShutdown)).
  { cbn. by rewrite lookup_app_r, Nat.sub_diag by lia. }
  rewrite Hl. change (resume (length (pool c)) (thread EShutdown) c1) with
    (Next (set_thread (length (pool c)) (Ret Nothing) (c1 <| world ::= λ w, w <| ctx_done := true |> |>))).
  cbv iota. set (c2 := set_thread _ _ _).
  assert (Hp : pool c2 = pool c ++ [(EShutdown, Ret Nothing)]).
  { subst c2. erewrite pool_set_thread by exact Hl. cbn. rewrite insert_app_r_alt, Nat.sub_diag by lia. done. }
  assert (serving c2 = false) as ->.
  { revert Hs. unfold serving. rewrite Hp, existsb_app. by intros ->. }
  change (ctx_done (world c2)) with true. change (closed c2) with (closed c). rewrite Hc. cbn [negb orb].
  eexists. split; [reflexivity|]. by split_and!.
Qed.

(** A method with a write to send panics on a closed channel. *)
Lemma closed_crash {X} i e (m : M World (X * list dbWriteOp)) k c r w op :
  pool c !! i = Some (e, Act Mutex m k) → holder c = None → closed c = true →
  m (world c) = Some (r, w) → (∃ q, k r = Snd op q) → fires [Go i; Go i] c = Crash.
Proof.
  intros Hi Ho Hc E [q Hq]. erewrite fires_go; [|exact Hi|].
  2:{ cbn [resume]. unfold shut_out. rewrite Ho, E. reflexivity. }
  cbn [fires fire]. rewrite (pool_set_thread i e (Act Mutex m k)) by exact Hi.
  rewrite list_lookup_insert_eq by (by eapply lookup_lt_Some). rewrite Hq. cbn [resume].
  change (closed (set_thread _ _ ?c)) with (closed c). cbn. by rewrite Hc.
Qed.

(** MarkRunning has a write to send once it has released the mutex. *)
Lemma critical_MarkRunning id n w : GetJob id (sched w) ≠ None → OnJobChange (sched w) = true →
  ∃ l w', critical (queue_MarkRunning id n) w = Some ((tt, [WriteJob l]), w').
Proof.
  intros Hj Hon. destruct (GetJob id (sched w)) as [j|] eqn:E; [|done]. apply GetJob_Some in E as (l & Hl & _).
  exists l. unfold critical. change (queue_MarkRunning id n w) with
    (Some (tt, w <| ticks ::= S |> <| sched := MarkRunning (clock w (ticks w)) id n (sched w) |>)).
  cbv iota. eexists. do 3 f_equal. cbn. unfold MarkRunning. rewrite Hl. unfold notifyJobChange.
  cbv zeta. change (OnJobChange (update l ?f ?g)) with (OnJobChange g). rewrite Hon. cbn. by rewrite drop_app_length.
Qed.

(** C24: the master's Cancel closes the channel without waiting for its loops: while
    dispatchLoop stands before dispatchJob, the context can be cancelled, the
    channel be closed, and the loop then panics with a send on a closed
    channel. *)
Theorem stop_while_dispatching_panics c i job n : stands c i EDispatch (dispatchJob_p job n) →
  serving c = false → OnJobChange (sched (world c)) = true → GetJob (Job.ID job) (sched (world c)) ≠ None →
  fires [Spawn EShutdown; Go (length (pool c)); Close; Go i; Go i; Go i] c = Crash.
Proof.
  intros [Hi _ Ho Hc] Hs Hon Hj. destruct (stopped c Hs Hc) as (c3 & F & Hc3 & Hsc & Hck & Ho3 & Hp3).
  change [Spawn EShutdown; Go (length (pool c)); Close; Go i; Go i; Go i] with
    ([Spawn EShutdown; Go (length (pool c)); Close] ++ [Go i; Go i; Go i]).
  rewrite fires_app, F. assert (Hi3 : pool c3 !! i = Some (EDispatch, dispatchJob_p job n;; mret Nothing)).
  { rewrite Hp3. by apply lookup_app_l_Some. }
  erewrite fires_go; [|exact Hi3|reflexivity]. set (w4 := (world c3) <| ticks ::= S |>).
  destruct (critical_MarkRunning (Job.ID job) n w4) as (l & w5 & HM).
  { change (sched w4) with (sched (world c3)). by rewrite Hsc. }
  { change (sched w4) with (sched (world c3)). by rewrite Hsc. }
  eapply closed_crash; [by erewrite pool_set_thread, list_lookup_insert_eq by (done || by eapply lookup_lt_Some)| | | |].
  - exact (eq_trans Ho3 Ho).
  - done.
  - exact HM.
  - by eexists.
Qed.
End Races.

(** ** On the concrete master *)

Section Witnesses.
#[local] Existing Instances toy_cel bolt_map amd64 utc map_order_canonical.

(** The master [w] with one thread that has come to [p]. *)
Definition at_point (w : World) (e : event) (p : prog ()) : machine :=
  mkMachine w None None false [(e, p;; mret Nothing)].

Lemma stands_at_point w e p : shape (atom true) false false p → stands (at_point w e p) 0 e p.
Proof. by split. Qed.

(** A job more urgent than the others that fits no node. *)
Definition late_request : SubmitJobRequest := {|
  sj_CelRequirement := "has:cpu_cores"; sj_Command := "train"; sj_Priority := 1; sj_User := "";
  sj_WalltimeSeconds := 0; sj_GpusRequired := 8; sj_EnvVars := None |}.
Definition late_response : SubmitJobResponse := {| sjr_JobId := "00000001"; sjr_Status := "QUEUED" |}.
Definition late_world : World := after (SubmitJob late_request) one_job.
Definition late_job : Job := default Job.zero (Peek (sched late_world)).

Lemma late_submitted : SubmitJob late_request one_job = Some (inl late_response, late_world).
Proof.
  assert (fst <$> SubmitJob late_request one_job = Some (inl late_response)) as E by (vm_compute; reflexivity).
  unfold late_world, after. destruct (SubmitJob late_request one_job) as [[r w]|]; [|done].
  by injection E as ->.
Qed.

Lemma late_heap : heap_inv (sched late_world).
Proof.
  destruct (keeps_SubmitJob (ok:=λ _, True) (Q:=heap_inv) (U:=λ _ _, True) late_request (λ _ _ _ _ _ _, I) one_job
    (inl late_response) late_world) as [HI _]; [|exact late_submitted|exact HI].
  exact (reachable_holds _ _ _ _ _ _ _ one_job_steps).
Qed.

Lemma late_job_takes_the_match_witness : ∃ ls c',
  fires ls (at_point one_job EDispatch (dispatch_first_p "n1")) = Next c' ∧
  running_on (sched (world c')) "00000001" "n1" ∧
  map (λ n, canDispatchResources newGPUTracker n late_job) demo_nodes = [false; false].
Proof.
  destruct (late_job_takes_the_match (at_point one_job EDispatch (dispatch_first_p "n1")) 0 "n1" late_request
    late_response late_world late_job) as (ls & c' & F & _ & Hr & _).
  - apply stands_at_point, walk_dispatch_first.
  - exact late_submitted.
  - exact late_heap.
  - vm_compute. reflexivity.
  - vm_compute. reflexivity.
  - vm_compute. discriminate.
  - vm_compute. lia.
  - exists ls, c'. split; [exact F|]. split; [exact Hr|]. vm_compute. reflexivity.
Defined.

Lemma cancel_in_transit_is_undone_witness : ∃ ls c' resp,
  fires ls (at_point one_job EDispatch (dispatchJob_p queued_job "n1")) = Next c' ∧
  cj_Status resp = "CANCELLED" ∧ running_on (sched (world c')) "00000000" "n1".
Proof.
  destruct (cancel_in_transit_is_undone (at_point one_job EDispatch (dispatchJob_p queued_job "n1")) 0 queued_job "n1"
    queued_job) as (ls & c' & resp & F & _ & Hs & Hr & _).
  - apply stands_at_point, walk_dispatchJob.
  - exact one_job_heap.
  - vm_compute. reflexivity.
  - vm_compute. reflexivity.
  - vm_compute. lia.
  - exists ls, c', resp. split; [exact F|]. split; [exact Hs|exact Hr].
Defined.

(** Two jobs run on the first node, one of them for longer than it may. *)
Definition hasty_request : SubmitJobRequest := {|
  sj_CelRequirement := "has:cpu_cores"; sj_Command := "sleep 60"; sj_Priority := 0; sj_User := "";
  sj_WalltimeSeconds := 1; sj_GpusRequired := 1; sj_EnvVars := None |}.
Definition overdue_events : list event :=
  [EMembers demo_nodes; ESubmit hasty_request; ESubmit (demo_request 1); EDispatch; EDispatch].
Definition overdue_world : World := after (play overdue_events) demo_master.
Definition overdue_job : Job := default Job.zero (GetJob "00000000" (sched overdue_world)).

Lemma overdue_heap : heap_inv (sched overdue_world).
Proof.
  assert (steps demo_master overdue_events overdue_world) as Hs by (apply steps_after; vm_compute; reflexivity).
  by destruct (reachable_holds _ _ _ _ _ _ _ Hs) as (HI & _).
Qed.

Lemma overdue_for_good k : (ticks overdue_world ≤ k)%nat →
  After (demo_clock k) (Add (Job.StartTime overdue_job) (Job.WalltimeSeconds overdue_job *ᵢ Second)) = true.
Proof.
  assert (ticks overdue_world = 16%nat) as -> by (vm_compute; reflexivity).
  assert (Add (Job.StartTime overdue_job) (Job.WalltimeSeconds overdue_job *ᵢ Second) = 63844806903 * Second) as ->
    by (vm_compute; reflexivity).
  intros Hk. apply Z.ltb_lt. unfold demo_clock, Second. lia.
Qed.

Lemma overdue_job_is_released_twice_witness : ∃ ls c',
  fires ls (at_point overdue_world EWalltime (kill_overdue_p overdue_job)) = Next c' ∧
  tracker (world c') = given_back overdue_job (given_back overdue_job (tracker overdue_world)) ∧
  used (gpuTracker.gpusAllocated (tracker overdue_world)) "n1" = 2 ∧
  used (gpuTracker.gpusAllocated (given_back overdue_job (given_back overdue_job (tracker overdue_world)))) "n1" = 0.
Proof.
  destruct (overdue_job_is_released_twice (at_point overdue_world EWalltime (kill_overdue_p overdue_job)) 0
    (demo_report "00000000" "n1" "") overdue_job) as (ls & c' & F & _ & Ht).
  - apply stands_at_point. unfold kill_overdue_p. solve_sound.
  - exact overdue_heap.
  - vm_compute. reflexivity.
  - vm_compute. reflexivity.
  - vm_compute. reflexivity.
  - vm_compute. reflexivity.
  - exact overdue_for_good.
  - reflexivity.
  - vm_compute. lia.
  - reflexivity.
  - exists ls, c'. split; [exact F|]. split; [exact Ht|]. split; vm_compute; reflexivity.
Defined.

(** The decay loop saves the usage while the worker reports. *)
Lemma usage_written_while_saved_crashes_witness : ∃ n,
  fires ([Spawn EDecay; Go 0; Go 0; Spawn (EReport (demo_report "00000000" "n1" ""))] ++ replicate n (Go 1))
    (idle overdue_world) = Crash.
Proof.
  apply (usage_written_while_saved_crashes (idle overdue_world) (demo_report "00000000" "n1" "") overdue_job).
  - exact overdue_heap.
  - reflexivity.
  - reflexivity.
  - reflexivity.
  - reflexivity.
  - vm_compute. lia.
  - vm_compute. reflexivity.
  - vm_compute. reflexivity.
  - vm_compute. reflexivity.
Defined.

Lemma stop_while_dispatching_panics_witness :
  fires [Spawn EShutdown; Go 1; Close; Go 0; Go 0; Go 0]
    (at_point one_job EDispatch (dispatchJob_p queued_job "n1")) = Crash.
Proof.
  apply (stop_while_dispatching_panics (at_point one_job EDispatch (dispatchJob_p queued_job "n1")) 0 queued_job "n1").
  - apply stands_at_point, walk_dispatchJob.
  - reflexivity.
  - vm_compute. reflexivity.
  - vm_compute. discriminate.
Defined.

(** The same races from the start of the master, action by action. *)
Definition queued_once : list label :=
  [Spawn (EMembers demo_nodes); Go 0; Spawn (ESubmit (demo_request 1))] ++ replicate 11 (Go 1) ++ [Spawn EDispatch].
Definition running_twice : list label :=
  [Spawn (EMembers demo_nodes); Go 0; Spawn (ESubmit hasty_request)] ++ replicate 11 (Go 1) ++
  [Spawn (ESubmit (demo_request 1))] ++ replicate 11 (Go 2) ++ [Spawn EDispatch] ++ replicate 27 (Go 3) ++
  [Spawn EDispatch] ++ replicate 27 (Go 4).

(** What is seen of the master at the end of a schedule. *)
Definition seen {X} (f : World → X) (ls : list label) : option X :=
  match fires ls (idle demo_master) with Next c => Some (f (world c)) | _ => None end.
Definition placement (id : string) (w : World) : option (string * string) :=
  (λ j, (Job.State j, Job.WorkerNode j)) <$> GetJob id (sched w).

Example late_job_schedule : seen (placement "00000001")
  (queued_once ++ replicate 14 (Go 2) ++ [Spawn (ESubmit late_request)] ++ replicate 11 (Go 3) ++ replicate 13 (Go 2)) =
  Some (Some (StateRunning, "n1")).
Proof. vm_compute. reflexivity. Qed.

Example cancel_in_transit_schedule : seen (placement "00000000")
  (queued_once ++ replicate 15 (Go 2) ++ [Spawn (ECancel "00000000")] ++ replicate 6 (Go 3) ++ replicate 12 (Go 2)) =
  Some (Some (StateRunning, "n1")).
Proof. vm_compute. reflexivity. Qed.

Example overdue_job_schedule : seen (λ w, (placement "00000001" w, used (gpuTracker.gpusAllocated (tracker w)) "n1"))
  (running_twice ++ [Spawn EWalltime; Go 5; Spawn (EReport (demo_report "00000000" "n1" ""))] ++
   replicate 11 (Go 6) ++ replicate 9 (Go 5)) = Some (Some (StateRunning, "n1"), 0).
Proof. vm_compute. reflexivity. Qed.

(** One action of the loop later the map is encoded, and the report goes through. *)
Definition dies_by (ls : list label) : bool := match fires ls (idle demo_master) with Crash => true | _ => false end.

Example usage_saved_schedule :
  let before := running_twice ++ [Spawn EDecay; Go 5; Go 5] in
  let report := Spawn (EReport (demo_report "00000000" "n1" "")) :: replicate 6 (Go 6) in
  (dies_by (before ++ report), dies_by (before ++ [Go 5] ++ report)) = (true, false).
Proof. vm_compute. reflexivity. Qed.

Example stop_while_dispatching_schedule :
  dies_by (queued_once ++ replicate 15 (Go 2) ++ [Spawn EShutdown; Go 3; Close; Go 2; Go 2; Go 2]) = true.
Proof. vm_compute. reflexivity. Qed.
End Witnesses.
