(* ===== verification/Commands.v ===== *)
(** * The command tree: cmd/tasch/main.go and internal/cli

    Every command as the code declares it: its usage, the number of arguments it
    asks for, its flags with their defaults, and what it runs.  cobra is not
    modelled: it finds the command, checks the number of arguments and hands the
    values of the flags to [Run].  A client command runs against the master's
    handlers; gRPC carries the messages and prints an error ([status_text]). *)

From S2P Require Import Prelude GoStd GoJson GoTime GoText Queue Messaging Matchmaker Store Config World Server.
From S2P Require Import Hoare Cli Submission.
#[local] Open Scope string_scope.
#[local] Open Scope list_scope.
#[local] Open Scope Z_scope.

(** ** Flags *)

Inductive flag_value := VString (s : string) | VInt (z : Z) | VBool (b : bool) | VStrings (l : list string).
Record flag := Flag { flag_name : string; shorthand : string; flag_default : flag_value; usage : string }.

(** The values of a command's flags. *)
Abbreviation values := (gmap string flag_value).

Definition string_flag (name : string) (v : values) : string :=
  match v !! name with Some (VString s) => s | _ => "" end.
Definition int_flag (name : string) (v : values) : Z :=
  match v !! name with Some (VInt z) => z | _ => 0 end.
Definition bool_flag (name : string) (v : values) : bool :=
  match v !! name with Some (VBool b) => b | _ => false end.
Definition strings_flag (name : string) (v : values) : list string :=
  match v !! name with Some (VStrings l) => l | _ => [] end.

Definition defaults (flags : list flag) : values :=
  list_to_map (map (λ f, (flag_name f, flag_default f)) flags).

Section Commands.
Context {C : CEL} {B : Bolt} `{GoArch} `{Zone} `{MapOrder} `{OS}.

(** What a command does: the ones about the process itself, and those that talk
    to the master. *)
Inductive action :=
  | Setup (nonInteractive : bool) (role nodeName masterAddr : string) (gossipPort grpcPort zmqPort : Z)
  | Start
  | Stop
  | Client (m : M World outcome).

(** [Args] is the number ExactArgs asks for, if it is set.  [Run] is [None] when
    an argument is indexed out of range, which panics. *)
Inductive command := Command {
  Use : string;
  Short : string;
  Long : string;
  Args : option nat;
  Run : option (values → list string → option action);
  flags : list flag;
  persistent : list flag;
  subcommands : list command
}.

(** ** The connection *)

Variable NewClient : string → option string.
Variable status_text : code * string → string.
(** [cfgLoader()] *)
Variable load : Config.
(** What `tasch jobs failed` finds in the local database, and what arrives on the log
    stream after the stored entries, with how it ends. *)
Variable local_letters : option (list Job).
Variable live : list LogMessage.
Variable ending : option string.

Definition rpc_reply {A} (m : M World (reply A)) : M World (client A) :=
  r ← m; mret (match r with inl a => inl a | inr e => inr (status_text e) end).
Definition rpc_value {A} (m : M World A) : M World (client A) := a ← m; mret (inl a).

(** [client, conn := GetClient(cfg)], which ends the process when it fails. *)
Definition connected (m : M World outcome) : M World outcome :=
  match GetClient NewClient load with
  | inr msg => mret (fails msg)
  | inl _ => m
  end.

(** ** internal/cli *)

Definition run_list (stateFilter : string) : M World outcome :=
  connected (answer ← rpc_value (server_ListJobs stateFilter); mret (listJobs answer)).

Definition submit_flags_of (v : values) : submit_flags := {|
  submitPriority := int_flag "priority" v; submitUser := string_flag "user" v;
  submitWalltime := int_flag "walltime" v; submitGPUs := int_flag "gpus" v;
  submitEnvVars := strings_flag "env" v |}.

Definition run_submit (f : submit_flags) (expression cmd : string) : M World outcome :=
  connected (answer ← rpc_reply (SubmitJob (submit_request f expression cmd));
                     mret (submit_run f answer)).

Definition submitCmd : command := {|
  Use := "submit [cel_expression] [command]"; Short := "Submit a new job to the cluster"; Long := "";
  Args := Some 2%nat;
  Run := Some (λ v args,
    match args !! 0%nat, args !! 1%nat with
    | Some expression, Some cmd => Some (Client (run_submit (submit_flags_of v) expression cmd))
    | _, _ => None
    end);
  flags := [Flag "priority" "p" (VInt 0) "Job priority (lower = higher, default: 10)";
            Flag "user" "u" (VString "") "Username for fairshare tracking";
            Flag "walltime" "w" (VInt 0) "Max execution time in seconds (0 = no limit)";
            Flag "gpus" "" (VInt 0) "Number of GPUs required";
            Flag "env" "e" (VStrings []) "Environment variables (KEY=VALUE)"];
  persistent := []; subcommands := [] |}.

Definition train_flags_of (v : values) : train_flags := {|
  trainNodes := int_flag "nodes" v; trainGPUsPerNode := int_flag "gpus-per-node" v;
  trainRequirement := string_flag "requirement" v; trainPriority := int_flag "priority" v;
  trainUser := string_flag "user" v; trainWalltime := int_flag "walltime" v;
  trainMasterPort := int_flag "master-port" v; trainEnvVars := strings_flag "env" v |}.

Definition run_train (f : train_flags) (cmd : string) : M World outcome :=
  connected (answer ← rpc_reply (SubmitDistributedJob (train_request f cmd));
                     mret (train_run f answer)).

Definition trainCmd : command := {|
  Use := "train [command]"; Short := "Submit a distributed training job across multiple nodes";
  Long := "Submit a distributed training job that runs the same command on N nodes." +:+ newline +:+
    "Auto-injected env vars: $RANK, $WORLD_SIZE, $MASTER_ADDR, $MASTER_PORT, $LOCAL_RANK, $NPROC_PER_NODE";
  Args := Some 1%nat;
  Run := Some (λ v args,
    match args !! 0%nat with Some cmd => Some (Client (run_train (train_flags_of v) cmd)) | None => None end);
  flags := [Flag "nodes" "" (VInt 2) "Number of nodes";
            Flag "gpus-per-node" "" (VInt 1) "GPUs per node";
            Flag "requirement" "" (VString "ad.gpu_count >= 1") "CEL expression for node matching";
            Flag "priority" "p" (VInt 0) "Job priority";
            Flag "user" "u" (VString "") "Username";
            Flag "walltime" "w" (VInt 0) "Max execution time in seconds";
            Flag "master-port" "" (VInt 29500) "DDP coordination port";
            Flag "env" "e" (VStrings []) "Environment variables (KEY=VALUE)"];
  persistent := []; subcommands := [] |}.

(** A command about one job. *)
Definition about_job (run : string → M World outcome) (args : list string) : option action :=
  match args !! 0%nat with Some jobID => Some (Client (run jobID)) | None => None end.

Definition run_cancel (jobID : string) : M World outcome :=
  connected (answer ← rpc_value (CancelJob jobID); mret (cancel_run answer)).

Definition cancelCmd : command := {|
  Use := "cancel [job_id]"; Short := "Cancel a queued or running job"; Long := ""; Args := Some 1%nat;
  Run := Some (λ _, about_job run_cancel); flags := []; persistent := []; subcommands := [] |}.

Definition run_status (jobID : string) : M World outcome :=
  connected (answer ← rpc_value (GetJobStatus jobID); mret (status_run jobID answer)).

Definition statusCmd : command := {|
  Use := "status [job_id]"; Short := "Get the status and result of a specific job"; Long := "";
  Args := Some 1%nat; Run := Some (λ _, about_job run_status); flags := []; persistent := []; subcommands := [] |}.

Definition run_logs (follow : bool) (jobID : string) : M World outcome :=
  connected (entries ← StreamLogs_replay jobID; mret (logs_run follow (inl (entries ++ live, ending)))).

Definition logsCmd : command := {|
  Use := "logs [job_id]"; Short := "Stream execution logs for a job"; Long := ""; Args := Some 1%nat;
  Run := Some (λ v, about_job (run_logs (bool_flag "follow" v)));
  flags := [Flag "follow" "f" (VBool false) "Follow log output"]; persistent := []; subcommands := [] |}.

Definition run_failed : M World outcome :=
  connected (answer ← rpc_value (server_ListJobs "DEAD_LETTER"); failed ← rpc_value (server_ListJobs "FAILED");
                     mret (failed_run answer local_letters failed)).

Definition failedCmd : command := {|
  Use := "failed"; Short := "Show jobs that exhausted all retries (dead letter queue)"; Long := "";
  Args := None; Run := Some (λ _ _, Some (Client run_failed)); flags := []; persistent := []; subcommands := [] |}.

Definition JobsCmd : command := {|
  Use := "jobs"; Short := "Manage cluster jobs (list, submit, train, cancel, status, logs)"; Long := "";
  Args := None; Run := Some (λ v _, Some (Client (run_list (string_flag "state" v))));
  flags := [Flag "state" "s" (VString "") "Filter by state (QUEUED, RUNNING, COMPLETED, FAILED, CANCELLED)"];
  persistent := []; subcommands := [submitCmd; trainCmd; cancelCmd; statusCmd; logsCmd; failedCmd] |}.

Definition run_nodes : M World outcome :=
  connected (answer ← rpc_value WorkerStatus; mret (nodes_run answer)).

Definition NodesCmd : command := {|
  Use := "nodes"; Short := "Show cluster nodes and hardware"; Long := ""; Args := None;
  Run := Some (λ _ _, Some (Client run_nodes)); flags := []; persistent := []; subcommands := [] |}.

(** ** cmd/tasch/main.go *)

Definition setupCmd : command := {|
  Use := "setup"; Short := "Configure this node (interactive wizard)"; Long := ""; Args := None;
  Run := Some (λ v _, Some (Setup (bool_flag "non-interactive" v) (string_flag "role" v)
    (string_flag "node-name" v) (string_flag "master-addr" v) (int_flag "gossip-port" v)
    (int_flag "grpc-port" v) (int_flag "zmq-port" v)));
  flags := [Flag "non-interactive" "" (VBool false) "Skip interactive prompts";
            Flag "role" "" (VString "") "Node role: master, worker, both";
            Flag "node-name" "" (VString "") "Node name";
            Flag "master-addr" "" (VString "") "Master address";
            Flag "gossip-port" "" (VInt 0) "Gossip port";
            Flag "grpc-port" "" (VInt 0) "gRPC port";
            Flag "zmq-port" "" (VInt 0) "ZMQ port"];
  persistent := []; subcommands := [] |}.

Definition startCmd : command := {|
  Use := "start"; Short := "Start tasch (master/worker/both based on config)"; Long := ""; Args := None;
  Run := Some (λ _ _, Some Start); flags := []; persistent := []; subcommands := [] |}.

Definition stopCmd : command := {|
  Use := "stop"; Short := "Stop the running tasch instance"; Long := ""; Args := None;
  Run := Some (λ _ _, Some Stop); flags := []; persistent := []; subcommands := [] |}.

Definition rootCmd : command := {|
  Use := "tasch"; Short := "Tasch " +:+ utf8 8212 +:+ " Distributed Task Scheduler";
  Long := "Tasch is a lightweight, distributed task scheduler with GPU support." +:+ newline +:+ newline +:+
    "Get started:" +:+ newline +:+
    "  tasch setup     Interactive setup wizard" +:+ newline +:+
    "  tasch start     Start the scheduler" +:+ newline +:+
    "  tasch nodes     View cluster nodes" +:+ newline +:+
    "  tasch jobs      Manage jobs";
  Args := None; Run := None; flags := [];
  persistent := [Flag "config" "" (VString DefaultPath) "Config file path"];
  subcommands := [setupCmd; startCmd; stopCmd; NodesCmd; JobsCmd] |}.

(** ** The tree *)

(** Every command, with the persistent flags of those above it. *)
Fixpoint commands (inherited : list flag) (c : command) : list (list flag * command) :=
  (inherited, c) :: flat_map (commands (inherited ++ persistent c)) (subcommands c).

Definition tree : list (list flag * command) := commands [] rootCmd.

(** What ExactArgs lets through. *)
Definition accepted (c : command) (args : list string) : Prop :=
  match Args c with Some n => length args = n | None => True end.

(** No command indexes its arguments out of range. *)
Lemma commands_index_safely : Forall (λ '(_, c), ∀ run v args, Run c = Some run → accepted c args →
  is_Some (run v args)) tree.
Proof.
  assert (∀ (f : string → M World outcome) args, length args = 1%nat → is_Some (about_job f args)) as HJ.
  { intros f [|a args] Hn; [done|]. by eexists. }
  unfold accepted. repeat (apply Forall_cons; split); try (by apply Forall_nil); cbn [Run Args];
    intros run v args E Hn; [discriminate E|injection E as <-..]; try (by eexists); try (by apply HJ).
  destruct args as [|a [|b l]]; [done..|by eexists].
Qed.

(** The names a command answers to are those of pflag: registering two flags with
    one name or shorthand panics, and cobra adds [help] with the shorthand [h]. *)
Definition flag_names (p : list flag * command) : list string :=
  "help" :: map flag_name (p.1 ++ persistent p.2 ++ flags p.2).
Definition shorthands (p : list flag * command) : list string :=
  "h" :: filter (λ s, s ≠ "") (map shorthand (p.1 ++ persistent p.2 ++ flags p.2)).

Lemma flags_do_not_clash : Forall (λ p, NoDup (flag_names p) ∧ NoDup (shorthands p)) tree.
Proof. repeat (apply Forall_cons; split); try (by apply Forall_nil); cbn; repeat constructor; set_solver. Qed.

(** No command hides another one. *)
Definition name_of (c : command) : string := default "" (head (Split (Use c) " ")).
Lemma siblings_differ : Forall (λ p, NoDup (map name_of (subcommands p.2))) tree.
Proof. repeat (apply Forall_cons; split); try (by apply Forall_nil); cbn; repeat constructor; set_solver. Qed.

(** The defaults are those of the flags' records. *)
Lemma submit_flags_default : submit_flags_of (defaults (flags submitCmd)) = submit_defaults.
Proof. reflexivity. Qed.
Lemma train_flags_default : train_flags_of (defaults (flags trainCmd)) = train_defaults.
Proof. reflexivity. Qed.
End Commands.
