(* ===== verification/CommandProps.v ===== *)
(** * The command line and the master together

    What a user of `tasch jobs` reads after submitting a job and after
    cancelling it, the commands run against the master's handlers. *)

From S2P Require Import Prelude GoStd GoJson GoTime GoText GoHeap Queue QueueFacts SchedulerSpec.
From S2P Require Import QueueProps JobTable Messaging Fairshare CircuitBreaker Tracker Matchmaker.
From S2P Require Import Store Config GoRegexp World Server Dispatch Master Hoare Panics Demo Restart.
From S2P Require Import Cli Submission Commands Threads Goroutines Alone Interleave Quiesce Races.
#[local] Open Scope string_scope.
#[local] Open Scope list_scope.
#[local] Open Scope Z_scope.

Section CommandProps.
Context {C : CEL} {B : Bolt} `{GoArch} `{Zone} `{MapOrder}.
Variable NewClient : string → option string.
Variable status_text : code * string → string.
Variable load : Config.
Hypothesis reached : NewClient (GRPCAddr load) = None.

Definition cancelled_text (jobID : string) : string :=
  line ("Job " +:+ jobID +:+ ": CANCELLED " +:+ utf8 8212 +:+ " Cancelled").

(** What `tasch jobs status` prints of a queued job begins with. *)
Definition queued_text (jobID cmd : string) : string :=
  line ("Job " +:+ jobID) +:+ line ("  State:   QUEUED") +:+ line ("  Command: " +:+ cmd).

Lemma status_of_queued j : Job.State j = StateQueued →
  ∃ rest, status_run (Job.ID j) (inl (job_status j)) = prints (queued_text (Job.ID j) (Job.Command j) +:+ rest).
Proof.
  intros Hs. unfold status_run. cbn [job_status gs_State]. rewrite Hs.
  change (String.eqb StateQueued "NOT_FOUND") with false. cbv iota. cbn [gs_JobId gs_Command job_status].
  eexists. unfold queued_text. rewrite !str_app_assoc. reflexivity.
Qed.

(** A command that reaches the master. *)
Lemma connected_runs m w : connected NewClient load m w = m w.
Proof. unfold connected, GetClient. cbv zeta. by rewrite reached. Qed.

Lemma run_status_queued w j : GetJob (Job.ID j) (sched w) = Some j → Job.State j = StateQueued →
  ∃ rest, run_status NewClient load (Job.ID j) w =
    Some (prints (queued_text (Job.ID j) (Job.Command j) +:+ rest), w).
Proof.
  intros Hj Hs. destruct (status_of_queued j Hs) as (rest & E). exists rest. unfold run_status.
  rewrite connected_runs. unfold rpc_value, GetJobStatus, mbind, M_bind, gets. cbv beta iota.
  rewrite Hj. unfold mret, M_ret. by rewrite E.
Qed.

(** C13: from a user's seat: `tasch jobs submit` to a master that is not draining and
    has room prints the ID of the new job; `tasch jobs status` of that ID then prints
    QUEUED and the command as typed, and leaves the master alone; `tasch jobs
    cancel` of it prints CANCELLED, and after that there is no job QUEUED under
    that ID. *)
Theorem submitted_job_can_be_followed f expression cmd w : heap_inv (sched w) →
  draining w = false → queue_full (sched w) = false →
  ∃ w1 w2 rest rest', run_submit NewClient status_text load f expression cmd w =
      Some (prints (line "Job submitted!" +:+ line ("  ID:       " +:+ next_id w) +:+ rest), w1) ∧
    run_status NewClient load (next_id w) w1 = Some (prints (queued_text (next_id w) cmd +:+ rest'), w1) ∧
    run_cancel NewClient load (next_id w) w1 = Some (prints (cancelled_text (next_id w)), w2) ∧
    ∃ j, GetJob (next_id w) (sched w2) = Some j ∧ Job.State j = StateCancelled.
Proof.
  intros HI Hd Hf.
  destruct (submission_accepted f expression cmd w HI Hd Hf) as (w1 & E1 & HI1 & (j & Hj & Hs & Hdesc) & _).
  assert (HJ : job_of_flags f expression cmd w = submitted_job (submit_request f expression cmd) (next_id w)
    (default_user (submitUser f)) (default_priority (submitPriority f) +ᵢ
      CalculatePenalty (default_user (submitUser f)) (fairshare w)) (Config.MaxRetries (cfg w)) (clock w (ticks w)))
    by reflexivity.
  rewrite HJ in Hdesc. unfold submitted_job in Hdesc. destruct (parseCELRequirement _) as [cpus mem].
  injection Hdesc as Hid _ Hcmd _. change (Job.ID j = next_id w) in Hid. change (Job.Command j = cmd) in Hcmd.
  rewrite <- Hid in Hj. destruct (run_status_queued w1 j Hj Hs) as (rest' & E2). rewrite Hid, Hcmd in E2.
  rewrite Hid in Hj. destruct (CancelJob_queued (next_id w) w1 j HI1 Hj Hs) as (w2 & E3 & _ & Hst & _).
  exists w1, w2. eexists _, rest'. split_and!.
  - unfold run_submit. rewrite connected_runs. unfold rpc_reply, mbind, M_bind. rewrite E1.
    unfold submit_run. cbn [sjr_JobId]. reflexivity.
  - exact E2.
  - unfold run_cancel. rewrite connected_runs. unfold rpc_value, mbind, M_bind. by rewrite E3.
  - destruct (GetJob (next_id w) (sched w2)) as [j2|]; [|done]. exists j2. split; [done|]. by apply (inj Some) in Hst.
Qed.
End CommandProps.

Section Witnesses.
#[local] Existing Instances toy_cel bolt_map amd64 utc map_order_canonical.

Lemma submitted_job_can_be_followed_witness : ∃ w1 w2 rest,
  run_status (λ _, None) DefaultConfig "00000000" w1 = Some (prints (queued_text "00000000" "train.sh" +:+ rest), w1) ∧
  run_cancel (λ _, None) DefaultConfig "00000000" w1 = Some (prints (cancelled_text "00000000"), w2).
Proof.
  assert (HI : heap_inv (sched demo_master)).
  { apply (reachable_holds demo_clock DefaultConfig ∅ demo_clock demo_uuids []). constructor. }
  destruct (submitted_job_can_be_followed (λ _, None) snd DefaultConfig eq_refl typed_flags "has:cpu_cores" "train.sh"
    demo_master HI) as (w1 & w2 & _ & rest & _ & E2 & E3 & _).
  - vm_compute. reflexivity.
  - vm_compute. reflexivity.
  - exists w1, w2, rest. split; [exact E2|exact E3].
Defined.
End Witnesses.
