(* ===== verification/Lasting.v ===== *)
(** * What no interleaving loses

    A property of the scheduler that its operations keep one by one is kept by
    the interleaved master ([fire_keeps]).  With it: a job that is tracked stays
    tracked, with what was asked for it, whatever runs at the same time. *)

From S2P Require Import Prelude GoStd GoJson GoTime GoHeap Queue QueueFacts SchedulerSpec.
From S2P Require Import QueueProps JobTable Messaging Fairshare CircuitBreaker Tracker Matchmaker.
From S2P Require Import Store Config GoRegexp World Server Dispatch Master Hoare Panics Restart Persist.
From S2P Require Import Demo MasterProps Gang Threads Goroutines Alone Interleave Quiesce Catchup.
Import GlobalScheduler (objs, gobjs, queue, jobs, groups, MaxQueueSize, OnJobChange,
  OnGroupChange, dbWriteChan).
#[local] Open Scope string_scope.
#[local] Open Scope list_scope.
#[local] Open Scope nat_scope.

(** ** Jobs last *)

Record lasting (gs0 gs : GlobalScheduler) : Prop := {
  la_object l : l ∈ dom (objs gs0) → l ∈ dom (objs gs) ∧ descriptor (deref gs l) = descriptor (deref gs0 l);
  la_table id : is_Some (jobs gs0 !! id) → is_Some (jobs gs !! id)
}.

Lemma lasting_refl gs : lasting gs gs.
Proof. by split. Qed.

Lemma lasting_same gs0 gs gs' : objs gs' = objs gs → jobs gs' = jobs gs → lasting gs0 gs → lasting gs0 gs'.
Proof. intros Ho Hj []. split; unfold deref; by rewrite ?Ho, ?Hj. Qed.

Lemma lasting_frame gs0 gs gs' : job_frame gs gs' → lasting gs0 gs → lasting gs0 gs'.
Proof.
  intros HF [Ho Hj]. split.
  - intros l Hl. rewrite (jf_dom _ _ HF), (jf_desc _ _ HF). auto.
  - intros id. rewrite (jf_jobs _ _ HF). auto.
Qed.

Lemma lasting_alloc gs0 l j gs : l ∉ dom (objs gs) → lasting gs0 gs → lasting gs0 (gs <| objs ::= <[l := j]> |>).
Proof.
  intros Hl [Ho Hj]. split; [|done]. intros l' Hl'. destruct (Ho l' Hl') as [Hd HD]. rewrite deref_new by done.
  split; [|done]. cbn. rewrite dom_insert. set_solver.
Qed.

Definition lasting_inv (gs0 gs : GlobalScheduler) : Prop := heap_inv gs ∧ lasting gs0 gs.

#[export] Instance lasting_queue gs0 : QueueInv (lasting_inv gs0).
Proof.
  apply QueueInv_framed; [intros; by eapply lasting_frame|].
  intros id st gs _ HL. unfold SetGroupState. destruct (groups gs !! id); [|done].
  unfold notifyGroupChange. case_match; by apply (lasting_same _ gs).
Qed.

#[export] Instance lasting_unwritten gs0 : Unwritten (lasting_inv gs0).
Proof. apply Unwritten_framed. intros. by eapply lasting_frame. Qed.

#[export] Instance lasting_accepts gs0 : Accepts (lasting_inv gs0) (λ _, True).
Proof.
  intros j gs [HI HL] _. split; [by apply (accepts_enqueue (ok:=λ _, True))|].
  pose proof (Enqueue_new_eq j gs) as HE. unfold new_job in *. cbn [fst snd].
  set (l := fresh _) in *. assert (Hl : l ∉ dom (objs gs)) by apply is_fresh. rewrite HE.
  pose proof (lasting_alloc gs0 l (queued j) gs Hl HL) as [Ho Hj].
  destruct (_ && _); [by apply lasting_alloc|]. cbn [snd]. apply lasting_frame with (tracked l (queued j) gs).
  - etrans; [|apply job_frame_notify]. apply job_frame_heap, frame_heap_Push.
  - split; [exact Ho|]. intros id Hid. unfold tracked. cbn. apply lookup_insert_is_Some'. right. by apply Hj.
Qed.

#[export] Instance lasting_registers gs0 : Registers (lasting_inv gs0).
Proof.
  split.
  - intros g gs [HI HL]. split; [by apply (registers_new_group (Q:=heap_inv))|]. by apply (lasting_same _ gs).
  - intros l gs [HI HL]. split; [by apply (registers_group (Q:=heap_inv))|].
    unfold RegisterGroup, notifyGroupChange. cbv zeta. case_match; by apply (lasting_same _ gs).
Qed.

(** ** The interleaved master keeps what the operations keep *)

Section Machine.
Context {C : CEL} {B : Bolt} `{GoArch} `{Zone} `{MapOrder}.

Section Keeps.
Context (Q : GlobalScheduler → Prop) `{!QueueInv Q, !Unwritten Q, !Accepts Q (λ _, True), !Registers Q}.
Abbreviation HQ := (holds (Q:=Q) (U:=λ _ _, True)).

Lemma critical_keeps {X} (m : M World X) w x w' : (∀ y w1, m w = Some (y, w1) → HQ w1) →
  critical m w = Some (x, w') → HQ w'.
Proof.
  intros Hm. unfold critical. destruct (m w) as [[y w1]|]; [|done]. intros [= _ <-].
  destruct (Hm y w1 eq_refl) as (HI & HE & _). split; [by apply unwritten|done].
Qed.

Lemma atom_keeps X (m : M World X) f w x w' : atom true X m f → HQ w → m w = Some (x, w') → HQ w'.
Proof.
  intros Ha Hw. pose proof Hw as (HI & HE & _). destruct Ha as [X m f Hm|i job f|X m f [Hm _] _|job f _ _|g f _ _|X f _].
  - destruct (Hm w) as (y & w1 & E & Hs & Hc & _). rewrite E. intros [= _ <-]. unfold holds. rewrite Hs. auto.
  - unfold on_queue, take_at. intros [= _ <-]. split; [|done]. cbn.
    destruct (Nat.ltb_spec i (Len (sched w))); [by apply qi_heap_remove|by rewrite heap_remove_out].
  - apply critical_keeps. intros y w1 E. by eapply (Hm Q (λ _ _, True)).
  - apply critical_keeps. intros y w1. rewrite enqueue_runs.
    pose proof (accepts_enqueue job (sched w) HI Logic.I) as HA. destruct (Enqueue _ _) as [e gs]. by intros [= _ <-].
  - apply critical_keeps. intros y w1. rewrite register_runs. intros [= _ <-]. split; [|done].
    apply registers_group. by apply registers_new_group.
  - done.
Qed.

(** Every thread that runs is one of the walked ones, and the property holds. *)
Definition steady (c : machine) : Prop :=
  HQ (world c) ∧ ∀ i e p, pool c !! i = Some (e, p) → ∃ h, shape (atom true) h false p.

Lemma steady_thread i e p q c c1 h : steady c → pool c !! i = Some (e, p) → pool c1 = pool c →
  HQ (world c1) → shape (atom true) h false q → steady (set_thread i q c1).
Proof.
  intros [_ Hs] Hi Hp Hw Hq. split; [done|]. intros j e' p'.
  intros [(_ & -> & _)|[_ Hj]]%lookup_set_thread; [by exists h|]. rewrite Hp in Hj. by eapply Hs.
Qed.

Lemma rechan_keeps (w : World) f : HQ w → HQ (w <| sched ::= λ gs, gs <| dbWriteChan ::= f |> |>).
Proof. intros (HI & HE & _). split; [|done]. by apply (unwritten (Q:=Q)). Qed.

Lemma fire_keeps l c c' : steady c → fire l c = Next c' → steady c'.
Proof.
  intros HS. pose proof HS as [Hw Hs]. destruct l as [e|i| | |]; cbn [fire].
  - assert (∀ b : bool, (if b then Blocked else Next (c <| pool ::= λ ts, ts ++ [(e, thread e)] |>)) = Next c' →
      steady c') as HB; [|destruct e; try done; apply HB].
    intros []; [done|]. intros [= <-]. split; [done|]. cbn. intros i e' p. rewrite lookup_app_Some.
    intros [Hi|[_ Hi]]; [by eapply Hs|]. apply list_lookup_singleton_Some in Hi as [_ [= <- <-]].
    exists false. apply walk_thread.
  - destruct (pool c !! i) as [[e p]|] eqn:Hi; [|done]. destruct (Hs i e p Hi) as [h Hp].
    destruct p as [a|X mu m k|op k|k|k]; cbn [resume shape] in *; [done|..].
    + do 2 (destruct (_ && _); [done|]). destruct (m (world c)) as [[x w]|] eqn:E; [|done]. intros [= <-].
      eapply steady_thread; [done..| |apply Hp]. by eapply atom_keeps; [apply Hp| |].
    + destruct (closed c); [done|]. destruct (_ <? _); [|done]. intros [= <-].
      eapply steady_thread; [done..| |apply Hp]. by apply (rechan_keeps (world c) (λ l, l ++ [op])).
    + destruct (holder c); [done|]. intros [= <-]. eapply steady_thread; [done..|apply Hp].
    + intros [= <-]. eapply steady_thread; [done..|apply Hp].
  - destruct (inflight c); [done|]. destruct (dbWriteChan _) as [|op rest]; [done|]. intros [= <-].
    split; [|done]. by apply (rechan_keeps (world c) (λ _, rest)).
  - destruct (inflight c); [|done]. intros [= <-]. by split.
  - destruct (_ || _); [done|]. destruct (closed c); [done|]. by intros [= <-].
Qed.

Lemma fires_keep ls c c' : steady c → fires ls c = Next c' → steady c'.
Proof.
  revert c. induction ls as [|l ls IH]; intros c Hs; cbn [fires]; [by intros [= <-]|].
  destruct (fire l c) as [| |c1] eqn:E; try done. apply IH. by eapply fire_keeps.
Qed.
End Keeps.

Lemma steady_idle Q w : holds (Q:=Q) (U:=λ _ _, True) w → steady Q (idle w).
Proof. intros Hw. split; [exact Hw|]. by intros []. Qed.

(** Every job is tracked under its own ID. *)
Lemma reaches_table times cfg d clk uu c : reaches (StartMaster times cfg d clk uu) c → steady table_inv c.
Proof.
  intros [ls E]. eapply fires_keep; [apply _..| |exact E]. apply steady_idle.
  pose proof (reachable_table times cfg d clk uu [] _ (steps_nil _)) as Hids.
  destruct (holds_StartMaster (λ _, True) times cfg d clk uu Logic.I) as ([HI _] & He & _). by split.
Qed.

(** C4: no interleaving loses a job: from any state the interleaved master can reach,
    whatever its goroutines then do, every tracked job stays tracked under its ID,
    and with exactly what was asked for it (command, requirement, resources,
    priority, retries), unless two jobs were given the same ID. *)
Theorem no_job_is_lost times cfg d clk uu c ls c' id j :
  reaches (StartMaster times cfg d clk uu) c → fires ls c = Next c' → GetJob id (sched (world c)) = Some j →
  ∃ j', GetJob id (sched (world c')) = Some j' ∧
    (unique_ids (sched (world c')) → descriptor j' = descriptor j).
Proof.
  intros Hr E (l & Hl & <-)%GetJob_Some. pose proof (reaches_table _ _ _ _ _ _ Hr) as HT.
  pose proof HT as [([HI Hids] & HE & _) Hs].
  destruct (fires_keep table_inv ls c c' HT E) as [([[_ [_ Hdom]] Hids'] & _) _].
  assert (steady (lasting_inv (sched (world c))) c) as HL.
  { split; [|exact Hs]. split; [split; [done|apply lasting_refl]|done]. }
  destruct (fires_keep _ ls c c' HL E) as [([_ [Ho Hj]] & _) _].
  destruct (Hj id (mk_is_Some _ _ Hl)) as [l' Hl']. exists (deref (sched (world c')) l').
  split; [by apply GetJob_Some; exists l'|]. intros HU.
  destruct HI as (_ & _ & Hd). destruct (Ho l (Hd _ _ Hl)) as [Hlive HD].
  destruct (HU l Hlive) as [_ Huniq]. rewrite <- HD. f_equal. f_equal. apply Huniq; [by eapply Hdom|].
  rewrite (Hids' id l' Hl'), <- (Hids id l Hl). unfold descriptor in HD. congruence.
Qed.
End Machine.

(** ** On the concrete master *)

Section Witnesses.
#[local] Existing Instances toy_cel bolt_map amd64 utc map_order_canonical.

(** From the interleaved submissions and dispatch of [demo_schedule] on. *)
Definition further : list label := replicate 16 (Go 3) ++ [Save; Take; Save; Take; Save].

Lemma demo_settles : fires further demo_machine = Next settled.
Proof.
  assert (HA : ∀ ls1 ls2 c c1, fires ls1 c = Next c1 → fires ls2 c1 = fires (ls1 ++ ls2) c).
  { intros ls1 ls2 c c1 E. by rewrite fires_app, E. }
  assert (possible demo_schedule (idle demo_master) = true) as H1 by (vm_compute; reflexivity).
  assert (possible settling (idle demo_master) = true) as H2 by (vm_compute; reflexivity).
  etrans; [exact (HA _ further _ _ (fires_following _ _ H1))|exact (fires_following _ _ H2)].
Qed.

Lemma no_job_is_lost_witness : ∃ j', GetJob "00000001" (sched (world settled)) = Some j' ∧ Job.Command j' = "echo hi".
Proof.
  assert (Job.Command <$> GetJob "00000001" (sched (world demo_machine)) = Some "echo hi") as HC by (vm_compute; reflexivity).
  destruct (GetJob "00000001" (sched (world demo_machine))) as [j|] eqn:Hj; [|discriminate HC].
  destruct (no_job_is_lost demo_clock DefaultConfig ∅ demo_clock demo_uuids demo_machine further settled
    "00000001" j demo_machine_reached demo_settles Hj) as (j' & Hj' & HD).
  exists j'. split; [exact Hj'|]. specialize (HD settled_unique).
  apply (inj Some) in HC. unfold descriptor in HD. congruence.
Defined.
End Witnesses.
